(* ===== verification/_CoqProject ===== *)
-Q . S2P
Prelude.v
OsTypes.v
Pthread.v
PosixUtils.v
OsalApi.v
PosixMutex.v
PosixSem.v
OsMutex.v
OsMutexThreads.v
OsMutexLifetime.v
OsSemaphore.v
OsSemaphoreThreads.v
OsRing.v
RingPthread.v
RingLinear.v
RingSteps.v
RingTermination.v
PosixQueue.v
OsQueue.v
PosixQueueThreads.v
QueueTermination.v
Binary64.v
PosixTime.v
PosixTask.v
PosixTaskThreads.v
Apple.v
AppleTimer.v
OsTask.v
OsTaskThreads.v
PosixTimer.v
OsTimer.v
TimerLifetime.v
FreeRtos.v
FreeRtosTimer.v
FreeRtosTimerDaemon.v
FreeRtosTaskDispatch.v
FreeRtosClients.v
Platform.v
Zephyr.v
ZephyrQueueThreads.v
ZephyrTimer.v
ZephyrTask.v
ZephyrTaskThreads.v
PortContracts.v
RtThread.v
RtThreadTimer.v
OsTime.v
RtThreadTask.v
