(* ===== verification/Prelude.v ===== *)
(** * POSKI, the OS abstraction layer: a verification library

    POSKI gives C and C++ programs one API (tasks, mutexes, semaphores, message
    queues, timers, time) over several platforms. The headers of the API are in
    include/poski/osal, the header-only C++ classes over it in include/poski, and
    one implementation per platform, a port, in targets/posix (with branches for
    Linux and macOS), targets/freertos, targets/zephyr and targets/rt-thread.
    This library models what the headers of the API document, the C++ classes and
    the four ports, and proves what they do and how far it is what is documented.

    ** How the parts interact

    A program uses the C++ classes or the C functions; a class calls the C
    functions of the port it is linked with; a port calls its platform. The
    library follows these layers. The functions of a header of the API are a type
    class (OsalApi: [OsalMutex], [OsalSem], [OsalQueue], [OsalTimer], [OsalTask],
    [OsalSleep] and [OsalTime]; what only some ports have is in classes of its
    own, such as [OsalTimerControl]), and what the header documents of them comes
    in two parts: a class of laws for what the calls do to the objects when they
    return ([OsalMutexLaws] and so on), and predicates for what they answer and
    how long they wait ([lock_documented] and so on). A C++ class uses nothing
    but the former and is verified against those laws alone; a port gives an
    instance and proves them. No port keeps all of the latter, and a port's
    theorem says for which calls it does. What a port uses of its platform (pthreads, POSIX
    semaphores and timers, the kernels) is in turn a type class of operations
    with the laws that the platform documents, as this code is not part of the
    repository. Each such class has a reference instance, so that no law is
    vacuous, and the witnesses of the theorems are computed over these.

    ** Conventions

    A C function becomes a Rocq function from its arguments and the state that
    its pointers reach to its result and the new state. A call ends in an
    [outcome]: it returns, fails an [assert] (compiled in unless [ndebug]), has
    no defined behaviour, throws, or waits for something that only another
    thread can do ([Block]). Machine integers are [Z] with the wrap-around
    written out ([u8], [u16], [u32], [i32]); a null pointer is [None]; bytes are
    [list byte]. A thread is a number ([tid]). An operation that takes a [tid]
    is atomic with respect to other threads unless the file says otherwise; the
    interleavings of single statements are modelled where the code shares
    memory: RingPthread, PosixQueueThreads, OsMutexThreads, OsMutexLifetime,
    OsSemaphoreThreads, OsTaskThreads, PosixTaskThreads, ZephyrTaskThreads,
    ZephyrQueueThreads, FreeRtosTaskDispatch, FreeRtosTimerDaemon, PosixMutex
    (its shared deadline), PosixTimer and TimerLifetime. Such a file has a
    configuration (the shared object and the position of every thread inside a
    function), one step function for the statement a thread runs next, and the
    configurations reached by any sequence of steps.

    ** The files

    - Prelude: outcomes, integers, notations, hints. OsTypes: the error
      enumeration of os_types.h, and errno.
    - OsalApi: what is documented in os_mutex.h, os_sem.h, os_queue.h, os_timer.h,
      os_task.h and os_time.h.
    - Pthread: POSIX mutexes, semaphores and clock readings, as interfaces.
      PosixUtils: os_utils.[ch] and the deadline arithmetic of the POSIX port.
    - OsRing: the ring buffer include/poski/OsRing.h (state [OsRing], one
      definition per method). Invariant [ring_wf], abstraction [contents] to the
      list of queued messages, refinement of a bounded FIFO by every sequence of
      calls, and what a build without assertions loses.
    - RingPthread: targets/posix/RingPthread.h. A [config] is the object and
      the position of every thread inside a method, [exec] runs one statement of
      one thread, [reachable] closes over all interleavings and spurious
      wakeups. Exactly-once delivery in order, mutual exclusion, no lost wakeup,
      progress, and that a put on a full ring is the only way to abort. The
      methods as single functions ([put], [get]) are runs of these statements.
      RingLinear: the calls and returns its users see are those of an atomic
      bounded queue (linearizability, by forward simulation). RingSteps: the
      control flow of the statements. RingTermination: a measure that every
      statement decreases, so that every schedule comes to an end.
    - PosixQueue: targets/posix/os_queue.cc over that object, with the signal
      callback as a parameter; it has an instance of [OsalQueue]. OsQueue: the class
      template of include/poski/OsQueue.h over [OsalQueue]. PosixQueueThreads:
      the statements of os_queue.cc around those of the ring, with the signal
      callback, its replacement and the deletion of the ring under threads that
      use it; its runs project to runs of the ring, which carries the FIFO
      delivery of the class to any number of threads. QueueTermination: every
      schedule of these statements ends.
    - PosixMutex and PosixSem: targets/posix/os_mutex.c and os_sem.c, with
      instances of [OsalMutex] and [OsalSem]. OsMutex and OsSemaphore: the classes of
      include/poski/OsMutex.h and OsSemaphore.h over these. OsMutexThreads and
      OsSemaphoreThreads: the statements of these two classes, between which
      other tasks run. OsMutexLifetime: the statements of the destructor of
      OsMutex among them.
    - Binary64: IEEE 754 double arithmetic as rounded exact arithmetic, with
      the order lemmas that bound its results. PosixTime:
      targets/posix/os_time.c, which computes in double.
    - PosixTask: targets/posix/os_task.c (creation, removal, the task counter,
      interrupted sleeps). PosixTaskThreads: the counter under threads that
      create and remove tasks at once. OsTask: include/poski/OsTask.h over [OsalTask] and
      [OsalSleep]. OsTaskThreads: its statements, between which other threads run.
    - PosixTimer: targets/posix/os_timer.c, with the interleavings of the calls
      with expiries and notification threads, and an instance of [OsalTimer]. OsTimer:
      include/poski/OsTimer.h over that. TimerLifetime: the end of the life of a
      timer object while the kernel and notification threads point to it.
    - Apple and AppleTimer: the macOS branches of os_sem.c and os_time.c, and of
      os_timer.c.
    - FreeRtos: os_mutex.c, os_sem.c and os_queue.c of targets/freertos, in tasks
      and interrupt handlers. FreeRtosTimer: its timers, time and tasks (most of
      them inline in poski/osal/os_port.h). FreeRtosTimerDaemon: the callback and
      the callers of os_timer.c around the bounded command queue of the task that
      runs the callbacks. FreeRtosTaskDispatch: the creation of tasks in
      os_task.c and the tasks that read the structure they were created with.
      FreeRtosClients: its mutexes and semaphores against the headers, and
      OsQueue over its queues, which do not meet the laws.
    - Platform: os_panic.c of every port, os_hw.h, the priorities of the port
      headers and FreeRTOSConfig.h.
    - Zephyr: os_mutex.c, os_sem.c, os_queue.c and os_utils.c of targets/zephyr.
      ZephyrQueueThreads: the statements of os_queue.c under threads that share a
      queue.
      ZephyrTimer: its os_timer.c and os_time.c, and the scheduler calls of
      os_task.c. ZephyrTask: the stack pool of os_task.c, alone and under OsTask.
      ZephyrTaskThreads: the statements that look for a stack, mark it and free
      it, between which other threads run.
    - PortContracts: the POSIX and the Zephyr port against the headers.
    - RtThread: os_mutex.c, os_sem.c and os_queue.c of targets/rt-thread.
      RtThreadTimer and RtThreadTask: its timers and time, and its tasks.
    - OsTime: include/poski/OsTime.h over [OsalTime], and the conversions of all
      five platforms there and back.

    ** What the theorems show

    - Refinement: the ring is a FIFO, and shared by threads an atomic one. What
      is proved of a C++ class over the laws of OsalApi (FIFO delivery of typed
      values, mutual exclusion and lock depth, token conservation, one-shot
      timers, tasks removed once, terminating destructors) holds over each port
      whose calls do to their objects what the headers say: mutexes on all four
      ports, semaphores on the POSIX and the RT-Thread port and, with assertions,
      on FreeRTOS, queues on the POSIX port (with assertions), on Zephyr and,
      where the kernel keeps message sizes, on RT-Thread, timers on the POSIX
      port, tasks on the POSIX, Zephyr and RT-Thread ports.
    - Headers: for each of these objects, exactly which calls answer and wait as
      the [@retval] lists say. They are fewer: no port answers POS_EBUSY to a
      call that does not wait, and [pos_queue_inited] is reversed everywhere.
    - Concurrency: the invariants of the shared ring, no lost wakeup, progress
      and termination under every schedule; exactly one call of the signal
      callback per message; freedom from data races of the lock depth of OsMutex, and
      when it can be destroyed;
      token accounting of OsSemaphore while calls are under way; one-shot firing
      and the meaning of the active flag of timers; a stack of its own for every
      Zephyr task while one thread at a time creates tasks; how far the POSIX
      task counter can be off, and when it is exact; removals of OsTask objects that never exceed the
      creations; FIFO delivery and announcement of a shared Zephyr queue; exactly
      when the FreeRTOS timer daemon waits for itself, and when not; FreeRTOS
      tasks that run what they were created for while no structure is used again
      too early; and the races that remain: the callback changed or
      removed during a put, the queue deleted while it is used, the shared
      deadline, the foreign unlock, late notifications, also on a timer that is
      gone, two creations on one stack, two removals of one task, lost counts of
      tasks, a restart undone by the callback's stop.
    - Arithmetic: conversions and uptime in double are exact, and where they
      stop being defined; 16- and 32-bit truncations and overflows.
    - Errors: what each call answers on every branch, in particular where the
      code departs from its documentation: the wrong error codes, un-normalised deadlines, waits that
      ignore their timeout or take it for a point in time, statuses taken for
      error codes, stacks freed twice, leaked or taken away, timers that start once, pops that
      succeed with nothing, priorities that the platform does not accept.

    ** Fuel and bounds

    Three loops take fuel. The destructors of OsMutex and OsSemaphore get the
    depth they count down, and the theorems show that they finish with it. The
    sleeping loop of PosixTask gets the number of interruptions still to come,
    and finishes with it. [pos_sched_start] and the panic functions never return,
    whatever the fuel. The runs of threads have no fuel: RingTermination and
    QueueTermination bound them.

    ** What is not modelled

    - Macros that no file uses (VerifyOrExit, the stale os_utils.h of the FreeRTOS
      port, the macros of the Zephyr os_utils.h), include guards and typedefs.
    - The heap: a destructor that only frees memory has no effect, except that
      PosixQueueThreads tracks whether the ring is still alive.
    - targets/zephyr/os_timer.c is modelled under the names it has
      ([chip_os_timer_*]), which this API does not declare: Zephyr has no timers
      in the sense of os_timer.h.
    - What the headers leave open: the numbers that [pos_timer_get_ticks] and
      [pos_timer_remaining_ticks] return are in no law. What the POSIX and the
      FreeRTOS port return is a theorem of PosixTimer and FreeRtosTimer.
    - Memory is sequentially consistent: where plain variables are read and
      written by several threads the order of the statements is what varies, and
      a data race shows as two positions with conflicting accesses.
    - The passing of time is only what the platform interfaces say of it: a
      timed wait that cannot be granted at once runs into its deadline. *)

From stdpp Require Export base numbers list option gmap.
From Stdlib Require Export Init.Byte ZArith Lia.
#[global] Open Scope Z_scope.

Declare Scope poski_scope.
Delimit Scope poski_scope with poski.
#[global] Open Scope poski_scope.

(** * Results of a C call *)

(** What a call does to the caller: it returns; an [assert] of the code fails
    and the process is aborted (also [pos_panic]); the C or C++ standard gives
    the execution no meaning; a C++ exception leaves the function; or the call
    waits for an event that this thread alone cannot bring about. *)
Inductive outcome (A : Type) : Type :=
| Ret (a : A)
| AssertFail
| Undef
| Throw
| Block.
Arguments Ret {A} a.
Arguments AssertFail {A}.
Arguments Undef {A}.
Arguments Throw {A}.
Arguments Block {A}.

Definition obind {A B} (m : outcome A) (k : A -> outcome B) : outcome B :=
  match m with
  | Ret a => k a
  | AssertFail => AssertFail
  | Undef => Undef
  | Throw => Throw
  | Block => Block
  end.

Notation "'do' x <- m ; k" := (obind m (fun x => k))
  (at level 10, x name, m at level 100, k at level 200) : poski_scope.
Notation "'do' ' p <- m ; k" := (obind m (fun x => match x with p => k end))
  (at level 10, p pattern, m at level 100, k at level 200) : poski_scope.
Notation "x ;; z" := (obind x (fun _ => z))
  (at level 100, z at level 200, right associativity) : poski_scope.

(** [assert(b)]: compiled out when the code is built with NDEBUG (Bazel's
    [-c opt]); the repository's Makefile builds with assertions on. *)
Definition c_assert (ndebug b : bool) : outcome unit :=
  if ndebug || b then Ret tt else AssertFail.

(** A pointer dereference: undefined on the null pointer. *)
Definition deref {A} (p : option A) : outcome A :=
  match p with Some a => Ret a | None => Undef end.

Definition of_option {A} (e : outcome A) (o : option A) : outcome A :=
  match o with Some a => Ret a | None => e end.

(** A call that returns (whatever it returns). *)
Definition returns {A} (m : outcome A) : bool :=
  match m with Ret _ => true | _ => false end.

Lemma obind_assoc {A B C} (m : outcome A) (f : A -> outcome B) (g : B -> outcome C) :
  obind (obind m f) g = obind m (fun a => obind (f a) g).
Proof. by destruct m. Qed.

Lemma obind_ret_inv {A B} (m : outcome A) (f : A -> outcome B) b :
  obind m f = Ret b -> exists a, m = Ret a /\ f a = Ret b.
Proof. destruct m; simpl; try discriminate; eauto. Qed.

Lemma c_assert_true nd : c_assert nd true = Ret tt.
Proof. by destruct nd. Qed.

Lemma c_assert_ndebug b : c_assert true b = Ret tt.
Proof. done. Qed.

Lemma c_assert_enabled_inv b u : c_assert false b = Ret u -> b = true.
Proof. by destruct b. Qed.

#[global] Instance byte_eq_dec : EqDecision byte := Byte.byte_eq_dec.

(** * Machine integers *)

(** Conversions to the unsigned and signed types the sources use. *)
Definition u8 (z : Z) : Z := z mod 2 ^ 8.
Definition u16 (z : Z) : Z := z mod 2 ^ 16.
Definition u32 (z : Z) : Z := z mod 2 ^ 32.
Definition i32 (z : Z) : Z := (z + 2 ^ 31) mod 2 ^ 32 - 2 ^ 31.

Definition is_u16 (z : Z) : Prop := 0 <= z < 2 ^ 16.
Definition is_u32 (z : Z) : Prop := 0 <= z < 2 ^ 32.

Definition INT32_MAX : Z := 2147483647.

Create HintDb poski discriminated.
Create Rewrite HintDb poski.

(** Linear arithmetic with the wrap-arounds and the divisions spelled out. *)
Ltac wrap_unfold := unfold u8, u16, u32, i32, is_u16, is_u32 in *.
Ltac zwrap := wrap_unfold; Z.to_euclidean_division_equations; lia.

Lemma u16_range z : is_u16 (u16 z).
Proof. zwrap. Qed.

Lemma u32_range z : is_u32 (u32 z).
Proof. zwrap. Qed.

Lemma u16_small z : is_u16 z -> u16 z = z.
Proof. intros; by apply Z.mod_small. Qed.

Lemma u32_small z : is_u32 z -> u32 z = z.
Proof. intros; by apply Z.mod_small. Qed.

Lemma i32_small z : - 2 ^ 31 <= z < 2 ^ 31 -> i32 z = z.
Proof. zwrap. Qed.

Lemma i32_add a k : i32 (i32 a + k) = i32 (a + k).
Proof. zwrap. Qed.

Lemma u16_u32 z : u16 (u32 z) = u16 z.
Proof. zwrap. Qed.

#[export] Hint Resolve u16_range u32_range : poski.
#[export] Hint Rewrite u16_u32 i32_add : poski.

(** [z] is a power of two iff [z & (z - 1)] is zero, for positive [z]. *)
Lemma pow2_land_pred k : 0 <= k -> Z.land (2 ^ k) (2 ^ k - 1) = 0.
Proof.
  intros Hk. replace (2 ^ k - 1) with (Z.ones k) by (rewrite Z.ones_equiv; lia).
  rewrite Z.land_ones by done. apply Z.mod_same. lia.
Qed.

(** * Sums over finite maps *)

(** The weights of the entries of a map, summed: how many threads are in a kind
    of place. *)
Definition msum {K A} `{Countable K} (f : A -> nat) (m : gmap K A) : nat :=
  map_fold (fun _ x n => (f x + n)%nat) 0%nat m.

Definition mweight {A} (f : A -> nat) (o : option A) : nat :=
  match o with Some x => f x | None => 0%nat end.

Section MapSum.
Context {K A : Type} `{Countable K} (f : A -> nat).

Lemma msum_empty : msum f (∅ : gmap K A) = 0%nat.
Proof. apply map_fold_empty. Qed.

Lemma msum_insert_None k x (m : gmap K A) :
  m !! k = None -> msum f (<[k := x]> m) = (f x + msum f m)%nat.
Proof. intros. unfold msum. rewrite map_fold_insert_L; [done | intros; lia | done]. Qed.

Lemma msum_delete k (m : gmap K A) : msum f m = (mweight f (m !! k) + msum f (delete k m))%nat.
Proof.
  destruct (m !! k) as [x|] eqn:E.
  - rewrite <- (insert_delete_id m k x E) at 1. by rewrite msum_insert_None by apply lookup_delete_eq.
  - by rewrite delete_id.
Qed.

Lemma msum_insert k x (m : gmap K A) :
  (msum f (<[k := x]> m) + mweight f (m !! k) = msum f m + f x)%nat.
Proof.
  rewrite (msum_delete k (<[k := x]> m)), (msum_delete k m), lookup_insert_eq, delete_insert_eq.
  simpl. lia.
Qed.

Lemma msum_pos (m : gmap K A) : (0 < msum f m)%nat -> exists k x, m !! k = Some x /\ (0 < f x)%nat.
Proof.
  induction m as [|k x m Hk IH] using map_ind; [rewrite msum_empty; lia|].
  rewrite msum_insert_None by done. intros Hpos. destruct (decide (f x = 0%nat)) as [Hx|Hx].
  - destruct IH as (k' & x' & E & ?); [lia|]. exists k', x'. rewrite lookup_insert_ne; [done|congruence].
  - exists k, x. rewrite lookup_insert_eq. split; [done|lia].
Qed.

Lemma msum_zero (m : gmap K A) : (forall k x, m !! k = Some x -> f x = 0%nat) -> msum f m = 0%nat.
Proof.
  intros Hz. destruct (decide (0 < msum f m)%nat) as [Hp|]; [|lia].
  apply msum_pos in Hp as (k & x & E & ?). specialize (Hz k x E). lia.
Qed.
End MapSum.
