(* ===== verification/OsTypes.v ===== *)
(** The types every part of the API shares (include/poski/osal/os_types.h):
    the error enumeration with its numeric values, and the [errno] values of
    the C library, which the ports translate from. *)

From S2P Require Import Prelude.

(** [enum pos_error] *)
Inductive pos_error :=
| POS_OK
| POS_ENOMEM
| POS_EINVAL
| POS_INVALID_PARAM
| POS_MEM_NOT_ALIGNED
| POS_BAD_MUTEX
| POS_TIMEOUT
| POS_ERR_IN_ISR
| POS_ERR_PRIV
| POS_OS_NOT_STARTED
| POS_ENOENT
| POS_EBUSY
| POS_ERROR.

#[export] Instance pos_error_eq_dec : EqDecision pos_error.
Proof. solve_decision. Defined.

Definition pos_error_code (e : pos_error) : Z :=
  match e with
  | POS_OK => 0
  | POS_ENOMEM => 1
  | POS_EINVAL => 2
  | POS_INVALID_PARAM => 3
  | POS_MEM_NOT_ALIGNED => 4
  | POS_BAD_MUTEX => 5
  | POS_TIMEOUT => 6
  | POS_ERR_IN_ISR => 7
  | POS_ERR_PRIV => 8
  | POS_OS_NOT_STARTED => 9
  | POS_ENOENT => 10
  | POS_EBUSY => 11
  | POS_ERROR => 12
  end.

Definition all_pos_errors : list pos_error :=
  [POS_OK; POS_ENOMEM; POS_EINVAL; POS_INVALID_PARAM; POS_MEM_NOT_ALIGNED; POS_BAD_MUTEX;
   POS_TIMEOUT; POS_ERR_IN_ISR; POS_ERR_PRIV; POS_OS_NOT_STARTED; POS_ENOENT; POS_EBUSY; POS_ERROR].

(** The enumerator an integer converts to, when the code returns an [int]
    where a [pos_error_t] is declared. *)
Definition pos_error_of_code (n : Z) : option pos_error :=
  list_find (fun e => pos_error_code e = n) all_pos_errors ≫= (fun p => Some p.2).

Lemma pos_error_of_code_code e : pos_error_of_code (pos_error_code e) = Some e.
Proof. by destruct e. Qed.

Lemma pos_error_code_inj e1 e2 : pos_error_code e1 = pos_error_code e2 -> e1 = e2.
Proof.
  intros H. assert (Some e1 = Some e2) as E by (by rewrite <- !pos_error_of_code_code, H).
  by simplify_eq.
Qed.

(** The [errno] values the ports name. Their numbers depend on the C library;
    that they are positive and distinct is what <errno.h> documents (and what
    makes the [switch] statements over them compile). *)
Class Errno := {
  EPERM : Z;
  EINTR : Z;
  EAGAIN : Z;
  ENOMEM : Z;
  EBUSY : Z;
  EINVAL : Z;
  EDEADLK : Z;
  ENOMSG : Z;
  EOVERFLOW : Z;
  ETIMEDOUT : Z;
  errno_pos : Forall (fun e => 0 < e)
    [EPERM; EINTR; EAGAIN; ENOMEM; EBUSY; EINVAL; EDEADLK; ENOMSG; EOVERFLOW; ETIMEDOUT];
  errno_nodup : NoDup
    [EPERM; EINTR; EAGAIN; ENOMEM; EBUSY; EINVAL; EDEADLK; ENOMSG; EOVERFLOW; ETIMEDOUT]
}.

(** Linux. *)
Definition linux_errno : Errno.
Proof.
  refine {| EPERM := 1; EINTR := 4; EAGAIN := 11; ENOMEM := 12; EBUSY := 16; EINVAL := 22;
            EDEADLK := 35; ENOMSG := 42; EOVERFLOW := 75; ETIMEDOUT := 110 |}.
  - by repeat constructor.
  - apply (bool_decide_unpack _). vm_compute. exact I.
Defined.

(** [NoDup], unfolded to the disequalities. *)
Fixpoint distinct (l : list Z) : Prop :=
  match l with
  | [] => True
  | x :: l => foldr (fun y P => x <> y /\ P) True l /\ distinct l
  end.

Lemma NoDup_distinct l : NoDup l -> distinct l.
Proof.
  induction 1 as [|x l Hx Hl IH]; simpl; [done|]. split; [|done]. clear IH Hl.
  induction l as [|y l IHl]; simpl; [done|].
  apply not_elem_of_cons in Hx as [? ?]. auto.
Qed.

(** With the two values that are not error codes. *)
Lemma errno_distinct `{Errno} :
  NoDup [-1; 0; EPERM; EINTR; EAGAIN; ENOMEM; EBUSY; EINVAL; EDEADLK; ENOMSG; EOVERFLOW; ETIMEDOUT].
Proof.
  pose proof errno_pos as Hpos. rewrite Forall_forall in Hpos.
  apply NoDup_cons; split; [|apply NoDup_cons; split; [|apply errno_nodup]].
  - rewrite not_elem_of_cons. split; [done|]. by intros ?%Hpos.
  - by intros ?%Hpos.
Qed.

(** Decides the comparisons of a [switch] on a known [errno] value, and splits
    the others. *)
Ltac errno_decide :=
  repeat match goal with
  | |- context [?a =? ?a] => rewrite (Z.eqb_refl a)
  | N : ?a <> ?b |- context [?a =? ?b] => rewrite (proj2 (Z.eqb_neq a b) N)
  | N : ?b <> ?a |- context [?a =? ?b] => rewrite (proj2 (Z.eqb_neq a b) (not_eq_sym N))
  end.

Ltac errno_distinct_facts :=
  let N := fresh "N" in
  pose proof (NoDup_distinct _ errno_distinct) as N; cbn [distinct foldr] in N;
  destruct_and? N.

Ltac errno_cases :=
  errno_distinct_facts; errno_decide; try done;
  repeat match goal with
  | |- context [?a =? ?b] => destruct (Z.eqb_spec a b); [subst; errno_decide; try done|]
  end; try done.
