(* ===== verification/Pthread.v ===== *)
(** What the POSIX port takes from the platform: POSIX recursive mutexes,
    counting semaphores and clock readings, as interfaces (operations, an
    observation of the object, and the behaviour that POSIX.1 documents), each
    with a reference implementation. The code under src/ is modelled against
    these interfaces; nothing here translates a file of src/. *)

From S2P Require Import Prelude OsTypes.

(** Thread identities. *)
Abbreviation tid := nat.

Record timespec := mkTimespec { tv_sec : Z; tv_nsec : Z }.

Definition NSEC_PER_SEC : Z := 1000000000.

Definition nsec_valid (ts : timespec) : bool :=
  (0 <=? tv_nsec ts) && (tv_nsec ts <? NSEC_PER_SEC).

(** * Mutexes of type PTHREAD_MUTEX_RECURSIVE *)

Inductive mutex_type := PTHREAD_MUTEX_NORMAL | PTHREAD_MUTEX_ERRORCHECK | PTHREAD_MUTEX_RECURSIVE.

(** A call is atomic here: no other thread releases the object during it. So
    a lock that cannot be granted at once blocks ([None]), and a timed one runs
    into its deadline. [pthread_mutex_init] builds an object of the given type
    and may fail. *)
Class PthreadMutex (M : Type) := {
  pthread_mutex_init : mutex_type -> Z * M;
  pthread_mutex_lock : tid -> M -> option (Z * M);
  pthread_mutex_timedlock : tid -> timespec -> M -> Z * M;
  pthread_mutex_unlock : tid -> M -> Z * M;
  holder : M -> option (tid * nat)
}.

Definition held_by (t : tid) (h : option (tid * nat)) : nat :=
  match h with Some (t', n) => if decide (t' = t) then n else 0%nat | None => 0%nat end.

(** The mutex can be granted to [t] now. *)
Definition grantable (t : tid) (h : option (tid * nat)) : bool :=
  match h with Some (t', _) => bool_decide (t' = t) | None => true end.

(** The owner and depth after one release. *)
Definition release (t : tid) (n : nat) : option (tid * nat) :=
  match n with O => None | S _ => Some (t, n) end.

Class PthreadMutexLaws (M : Type) `{Errno, PthreadMutex M} : Prop := {
  pthread_init_free : forall m,
    pthread_mutex_init PTHREAD_MUTEX_RECURSIVE = (0, m) -> holder m = None;
  pthread_holder_pos : forall (m : M) t n, holder m = Some (t, n) -> (0 < n)%nat;
  pthread_lock_free : forall t (m : M), holder m = None ->
    exists m', pthread_mutex_lock t m = Some (0, m') /\ holder m' = Some (t, 1%nat);
  pthread_lock_again : forall t (m : M) n, holder m = Some (t, n) ->
    exists r m', pthread_mutex_lock t m = Some (r, m') /\
      (r = 0 /\ holder m' = Some (t, S n) \/ r = EAGAIN /\ m' = m);
  pthread_lock_held : forall t (m : M), grantable t (holder m) = false ->
    pthread_mutex_lock t m = None;
  pthread_timedlock_now : forall t ts (m : M), grantable t (holder m) = true ->
    pthread_mutex_lock t m = Some (pthread_mutex_timedlock t ts m);
  pthread_timedlock_bad : forall t ts (m : M), grantable t (holder m) = false ->
    nsec_valid ts = false -> pthread_mutex_timedlock t ts m = (EINVAL, m);
  pthread_timedlock_late : forall t ts (m : M), grantable t (holder m) = false ->
    nsec_valid ts = true -> pthread_mutex_timedlock t ts m = (ETIMEDOUT, m);
  pthread_unlock_own : forall t (m : M) n, holder m = Some (t, S n) ->
    exists m', pthread_mutex_unlock t m = (0, m') /\ holder m' = release t n;
  pthread_unlock_other : forall t (m : M), held_by t (holder m) = 0%nat ->
    pthread_mutex_unlock t m = (EPERM, m)
}.

(** The reference implementation: [Some (t, n)] is held by [t], [n + 1] deep. *)
Definition ref_mutex : Type := option (tid * nat).

Section RefMutex.
Context `{Errno}.

Definition ref_holder (m : ref_mutex) : option (tid * nat) :=
  match m with Some (t, n) => Some (t, S n) | None => None end.

Definition ref_lock (t : tid) (m : ref_mutex) : option (Z * ref_mutex) :=
  match m with
  | None => Some (0, Some (t, O))
  | Some (t', n) => if decide (t' = t) then Some (0, Some (t, S n)) else None
  end.

Definition ref_timedlock (t : tid) (ts : timespec) (m : ref_mutex) : Z * ref_mutex :=
  match ref_lock t m with
  | Some r => r
  | None => (if nsec_valid ts then ETIMEDOUT else EINVAL, m)
  end.

Definition ref_unlock (t : tid) (m : ref_mutex) : Z * ref_mutex :=
  match m with
  | Some (t', n) =>
      if decide (t' = t) then (0, match n with O => None | S n => Some (t, n) end) else (EPERM, m)
  | None => (EPERM, m)
  end.

#[export] Instance ref_pthread_mutex : PthreadMutex ref_mutex := {
  pthread_mutex_init := fun _ => (0, None);
  pthread_mutex_lock := ref_lock;
  pthread_mutex_timedlock := ref_timedlock;
  pthread_mutex_unlock := ref_unlock;
  holder := ref_holder
}.

#[export] Instance ref_pthread_mutex_laws : PthreadMutexLaws ref_mutex.
Proof.
  split; simpl; unfold ref_timedlock, ref_lock, ref_unlock, held_by, grantable;
    repeat intros [[? ?]|] || intro; simplify_eq/=; repeat case_decide; simplify_eq/=;
    eauto with lia; try by case_bool_decide.
  - do 2 eexists. split; [done|]. by left.
  - by destruct (nsec_valid ts).
  - by destruct (nsec_valid ts).
  - eexists. split; [done|]. by destruct n1.
Qed.
End RefMutex.

(** * Counting semaphores *)

(** The result of a call that reports through [errno]: the returned value, and
    what [errno] holds when it is -1. *)
Record sysret := mkSysret { ret : Z; errno : Z }.

Definition sys_ok : sysret := mkSysret 0 0.
Definition sys_err (e : Z) : sysret := mkSysret (-1) e.

(** As for the mutexes a call is atomic: a wait for a token that is not there
    blocks ([None]) or runs into its deadline; both may be interrupted. *)
Class PosixSem (S : Type) := {
  SEM_VALUE_MAX : Z;
  sem_init : Z -> sysret * S;
  sem_post : S -> sysret * S;
  sem_wait : S -> option (sysret * S);
  sem_timedwait : timespec -> S -> sysret * S;
  sem_count : S -> Z
}.

Class PosixSemLaws (S : Type) `{Errno, PosixSem S} : Prop := {
  sem_value_max : 32767 <= SEM_VALUE_MAX;
  sem_count_range : forall s : S, 0 <= sem_count s <= SEM_VALUE_MAX;
  sem_init_ok : forall v, 0 <= v <= SEM_VALUE_MAX ->
    exists s, sem_init v = (sys_ok, s) /\ sem_count s = v;
  sem_init_bad : forall v, SEM_VALUE_MAX < v -> (sem_init v).1 = sys_err EINVAL;
  sem_post_ok : forall s : S, sem_count s < SEM_VALUE_MAX ->
    exists s', sem_post s = (sys_ok, s') /\ sem_count s' = sem_count s + 1;
  sem_post_full : forall s : S, sem_count s = SEM_VALUE_MAX ->
    sem_post s = (sys_err EOVERFLOW, s);
  sem_wait_ok : forall s : S, 0 < sem_count s ->
    exists s', sem_wait s = Some (sys_ok, s') /\ sem_count s' = sem_count s - 1;
  sem_wait_zero : forall s : S, sem_count s = 0 ->
    sem_wait s = None \/ sem_wait s = Some (sys_err EINTR, s);
  sem_timedwait_ok : forall ts (s : S), 0 < sem_count s ->
    exists s', sem_timedwait ts s = (sys_ok, s') /\ sem_count s' = sem_count s - 1;
  sem_timedwait_bad : forall ts (s : S), sem_count s = 0 -> nsec_valid ts = false ->
    sem_timedwait ts s = (sys_err EINVAL, s);
  sem_timedwait_late : forall ts (s : S), sem_count s = 0 -> nsec_valid ts = true ->
    sem_timedwait ts s = (sys_err ETIMEDOUT, s) \/ sem_timedwait ts s = (sys_err EINTR, s)
}.

(** The reference implementation: the count, clamped to its range. *)
Definition ref_sem : Type := Z.

Section RefSem.
Context `{Errno}.

Definition ref_sem_max : Z := 2147483647.

Definition ref_sem_count (s : ref_sem) : Z := Z.max 0 (Z.min s ref_sem_max).

Definition ref_take (s : ref_sem) : option (sysret * ref_sem) :=
  if 0 <? ref_sem_count s then Some (sys_ok, ref_sem_count s - 1) else None.

#[export] Instance ref_posix_sem : PosixSem ref_sem := {
  SEM_VALUE_MAX := ref_sem_max;
  sem_init := fun v => (if v <=? ref_sem_max then sys_ok else sys_err EINVAL, v);
  sem_post := fun s => if ref_sem_count s <? ref_sem_max then (sys_ok, ref_sem_count s + 1)
                       else (sys_err EOVERFLOW, s);
  sem_wait := ref_take;
  sem_timedwait := fun ts s => match ref_take s with Some r => r | None =>
    (sys_err (if nsec_valid ts then ETIMEDOUT else EINVAL), s) end;
  sem_count := ref_sem_count
}.

#[export] Instance ref_posix_sem_laws : PosixSemLaws ref_sem.
Proof.
  split; simpl; unfold ref_take, ref_sem_count, ref_sem_max; intros;
    repeat match goal with
    | |- context [?a <? ?b] => destruct (Z.ltb_spec a b); try lia
    | |- context [?a <=? ?b] => destruct (Z.leb_spec a b); try lia
    end; eauto; try (eexists; split; [done|]; lia).
  all: try lia; match goal with E : nsec_valid _ = _ |- _ => rewrite E end; auto.
Qed.
End RefSem.
