(* ===== verification/PosixUtils.v ===== *)
(** Shared code of the POSIX port: targets/posix/os_utils.[ch] (the error
    mapping and the early-exit macro), the Linux time constants, and the
    deadline arithmetic that os_mutex.c and os_sem.c both write out. *)

From S2P Require Import Prelude OsTypes Pthread.

(** * os_utils *)

(** [SuccessOrExit(ret)]: go on when the status is zero, else jump to [exit]. *)
Definition success_or_exit {A} (status : Z) (at_exit : A) (continue : A) : A :=
  if status =? 0 then continue else at_exit.

Definition map_posix_to_osal_error `{Errno} (ret : Z) : pos_error :=
  if ret =? 0 then POS_OK
  else if ret =? ENOMEM then POS_ENOMEM
  else if ret =? ETIMEDOUT then POS_TIMEOUT
  else if ret =? EBUSY then POS_EBUSY
  else if ret =? EINVAL then POS_EINVAL
  else if ret =? EDEADLK then POS_BAD_MUTEX
  else if ret =? EPERM then POS_ERR_PRIV
  else POS_ERROR.

(** The errors the mapping keeps apart, as values of [errno]. *)
Definition posix_of_pos `{Errno} (e : pos_error) : option Z :=
  match e with
  | POS_OK => Some 0
  | POS_ENOMEM => Some ENOMEM
  | POS_TIMEOUT => Some ETIMEDOUT
  | POS_EBUSY => Some EBUSY
  | POS_EINVAL => Some EINVAL
  | POS_BAD_MUTEX => Some EDEADLK
  | POS_ERR_PRIV => Some EPERM
  | _ => None
  end.

(** * Time constants (posix/poski/osal/os_time.h, Linux branch) *)

Definition POS_TIME_FOREVER : Z := INT32_MAX.
Definition POS_TIME_NO_WAIT : Z := 0.
Definition POS_TICKS_PER_SEC : Z := 1000.

(** * Deadlines *)

(** [wait.tv_sec += timeout / 1000; wait.tv_nsec += (timeout % 1000) * 1000000;] *)
Definition deadline (now : timespec) (timeout : Z) : timespec :=
  {| tv_sec := tv_sec now + timeout / 1000;
     tv_nsec := tv_nsec now + u32 ((timeout mod 1000) * 1000000) |}.

(** A [timespec] as a number of nanoseconds. *)
Definition to_ns (ts : timespec) : Z := tv_sec ts * NSEC_PER_SEC + tv_nsec ts.

(** * Lemmas *)

Section Errors.
Context `{Errno}.

Lemma map_posix_zero : map_posix_to_osal_error 0 = POS_OK.
Proof. done. Qed.

Lemma map_posix_minus_one : map_posix_to_osal_error (-1) = POS_ERROR.
Proof. unfold map_posix_to_osal_error. errno_cases. Qed.

Lemma map_posix_ETIMEDOUT : map_posix_to_osal_error ETIMEDOUT = POS_TIMEOUT.
Proof. unfold map_posix_to_osal_error. errno_cases. Qed.

Lemma map_posix_EINVAL : map_posix_to_osal_error EINVAL = POS_EINVAL.
Proof. unfold map_posix_to_osal_error. errno_cases. Qed.

Lemma map_posix_EPERM : map_posix_to_osal_error EPERM = POS_ERR_PRIV.
Proof. unfold map_posix_to_osal_error. errno_cases. Qed.

Lemma map_posix_EAGAIN : map_posix_to_osal_error EAGAIN = POS_ERROR.
Proof. unfold map_posix_to_osal_error. errno_cases. Qed.

Lemma map_posix_EINTR : map_posix_to_osal_error EINTR = POS_ERROR.
Proof. unfold map_posix_to_osal_error. errno_cases. Qed.

Lemma map_posix_ok_iff r : map_posix_to_osal_error r = POS_OK <-> r = 0.
Proof. unfold map_posix_to_osal_error. split; [|by intros ->]. errno_cases. Qed.
End Errors.

#[export] Hint Rewrite @map_posix_zero @map_posix_minus_one @map_posix_ETIMEDOUT
  @map_posix_EINVAL @map_posix_EPERM @map_posix_EAGAIN @map_posix_EINTR : poski.

Lemma deadline_nsec now timeout :
  tv_nsec (deadline now timeout) = tv_nsec now + (timeout mod 1000) * 1000000.
Proof. simpl. rewrite u32_small; [done|]. zwrap. Qed.

Lemma deadline_no_wait now : deadline now POS_TIME_NO_WAIT = now.
Proof.
  destruct now as [s n]. unfold deadline. simpl.
  change (POS_TIME_NO_WAIT / 1000) with 0.
  change (u32 ((POS_TIME_NO_WAIT mod 1000) * 1000000)) with 0. by rewrite !Z.add_0_r.
Qed.

Lemma deadline_valid now timeout :
  is_u32 timeout -> nsec_valid now = true ->
  to_ns (deadline now timeout) = to_ns now + timeout * 1000000 /\
  nsec_valid (deadline now timeout) =
    (tv_nsec now + (timeout mod 1000) * 1000000 <? NSEC_PER_SEC).
Proof.
  intros Ht Hn. unfold nsec_valid in *. rewrite andb_true_iff, Z.leb_le, Z.ltb_lt in Hn.
  unfold to_ns. rewrite deadline_nsec. simpl. unfold NSEC_PER_SEC in *. split.
  - zwrap.
  - rewrite (proj2 (Z.leb_le _ _)); [done|]. zwrap.
Qed.

(** * Properties *)

(** The mapping of [errno] values: zero and the six codes of the [switch]
    are mapped one to one, and every other value, -1 included, is [POS_ERROR]. *)
Theorem map_posix_spec `{Errno} r :
  match posix_of_pos (map_posix_to_osal_error r) with
  | Some r' => r' = r
  | None => map_posix_to_osal_error r = POS_ERROR /\
            forall e r', posix_of_pos e = Some r' -> r' <> r
  end.
Proof.
  unfold map_posix_to_osal_error.
  errno_distinct_facts.
  repeat match goal with
  | |- context [r =? ?b] => destruct (Z.eqb_spec r b); [by subst|]
  end.
  split; [done|].
  intros [] r' Hr'; simpl in Hr'; try done; injection Hr' as <-; by apply not_eq_sym.
Qed.

(** The deadline handed to the timed waits is the clock reading plus the
    timeout, to the nanosecond, but it is a valid [timespec] only when the
    milliseconds do not carry out of the nanosecond field. *)
Theorem deadline_spec now timeout :
  is_u32 timeout -> nsec_valid now = true ->
  to_ns (deadline now timeout) = to_ns now + timeout * 1000000 /\
  nsec_valid (deadline now timeout) =
    (tv_nsec now + (timeout mod 1000) * 1000000 <? NSEC_PER_SEC).
Proof. exact (deadline_valid now timeout). Qed.

Example deadline_spec_witness :
  (is_u32 1500 /\ nsec_valid (mkTimespec 10 600000000) = true) /\
  to_ns (deadline (mkTimespec 10 600000000) 1500) = to_ns (mkTimespec 10 600000000) + 1500 * 1000000 /\
  nsec_valid (deadline (mkTimespec 10 600000000) 1500) = false.
Proof.
  assert (is_u32 1500 /\ nsec_valid (mkTimespec 10 600000000) = true) as H
    by (vm_compute; intuition congruence).
  split; [exact H|]. exact (deadline_spec _ _ (proj1 H) (proj2 H)).
Defined.
