(* ===== verification/OsalApi.v ===== *)
(** The contracts of the API headers under include/poski/osal (os_mutex.h,
    os_sem.h, os_queue.h, os_timer.h, os_task.h, os_time.h), as interfaces: the
    operations and an observation of the object, and what the doc comments of
    the headers state of them, in two parts. The classes of laws ([OsalMutexLaws]
    and so on) hold what a call does to the object when it returns; the ports
    prove them, and the C++ wrappers are verified against them. What the
    [@retval] lists and the waiting periods promise of the answers is in the
    predicates [lock_documented], [take_documented], [give_documented],
    [get_documented], [put_documented] and [inited_documented]: no port keeps all
    of them, and each port's theorem says for which calls it does. *)

From S2P Require Import Prelude OsTypes Pthread.

(** * Answers *)

(** The error code that a call answers. *)
Definition answer_of {A} (r : outcome (pos_error * A)) : outcome pos_error := do '(e, _) <- r; Ret e.

(** The [@retval] lists that [pos_mutex_lock], [pos_sem_take] and [pos_queue_get]
    share: POS_OK when what the call asks for is there; otherwise POS_EBUSY
    "returned without waiting", or POS_TIMEOUT "waiting period timed out"; and a
    caller that waits for ever waits. *)
Definition documented_answer (no_wait forever timeout : Z) (available : bool) : outcome pos_error :=
  if available then Ret POS_OK
  else if timeout =? no_wait then Ret POS_EBUSY
  else if timeout =? forever then Block
  else Ret POS_TIMEOUT.

(** * Mutexes (os_mutex.h) *)

(** [osal_mutex_lock t timeout s] is [pos_mutex_lock] called by task [t];
    [mutex_holder] is the owner of the mutex and its lock count. *)
Class OsalMutex (S : Type) := {
  osal_mutex_init : S -> outcome (pos_error * S);
  osal_mutex_lock : tid -> Z -> S -> outcome (pos_error * S);
  osal_mutex_unlock : tid -> S -> outcome (pos_error * S);
  mutex_holder : S -> option (tid * nat);
  mutex_no_wait : Z;
  mutex_forever : Z
}.

(** "Upon completion, the mutex is available and does not have an owner. [...]
    A task is permitted to lock a mutex it has already locked. [...] the lock
    count is increased by 1. [...] The mutex cannot be claimed by another task
    until it has been unlocked by the calling task as many times as it was
    previously locked by that task." What the calls do, when they return; for
    what a lock answers, and whether it waits, see [lock_documented]. *)
Class OsalMutexLaws (S : Type) `{OsalMutex S} : Prop := {
  mutex_init_free : forall s s', osal_mutex_init s = Ret (POS_OK, s') -> mutex_holder s' = None;
  mutex_holder_pos : forall s t n, mutex_holder s = Some (t, n) -> (0 < n)%nat;
  mutex_lock_ok : forall t timeout s s', osal_mutex_lock t timeout s = Ret (POS_OK, s') ->
    grantable t (mutex_holder s) = true /\
    mutex_holder s' = Some (t, Datatypes.S (held_by t (mutex_holder s)));
  mutex_lock_err : forall t timeout s e s', osal_mutex_lock t timeout s = Ret (e, s') ->
    e <> POS_OK -> mutex_holder s' = mutex_holder s;
  mutex_lock_free : forall t s, mutex_holder s = None ->
    exists s', osal_mutex_lock t mutex_forever s = Ret (POS_OK, s');
  mutex_unlock_own : forall t s n, mutex_holder s = Some (t, Datatypes.S n) ->
    exists s', osal_mutex_unlock t s = Ret (POS_OK, s') /\ mutex_holder s' = release t n;
  mutex_unlock_other : forall t s, held_by t (mutex_holder s) = 0%nat ->
    exists e s', osal_mutex_unlock t s = Ret (e, s') /\ e <> POS_OK /\
      mutex_holder s' = mutex_holder s
}.

(** "POS_OK Mutex locked. POS_EBUSY Returned without waiting. POS_TIMEOUT Waiting
    period timed out." *)
Definition lock_documented {S} `{OsalMutex S} (t : tid) (timeout : Z) (s : S) : Prop :=
  answer_of (osal_mutex_lock t timeout s) =
    documented_answer mutex_no_wait mutex_forever timeout (grantable t (mutex_holder s)).

(** * Semaphores (os_sem.h) *)

Class OsalSem (S : Type) := {
  osal_sem_init : Z -> S -> outcome (pos_error * S);
  osal_sem_take : Z -> S -> outcome (pos_error * S);
  osal_sem_give : S -> outcome (pos_error * S);
  sem_value : S -> Z;
  sem_max : Z;
  sem_no_wait : Z;
  sem_forever : Z
}.

(** What the calls do to the count, when they return. A give that has nothing
    to add and returns says so, as OsSemaphore.h relies on: os_sem.h documents no
    answer of a give, but that it leaves the semaphore alone and returns
    ([give_documented]). For what a take answers see [take_documented]. *)
Class OsalSemLaws (S : Type) `{OsalSem S} : Prop := {
  sem_value_range : forall s, 0 <= sem_value s <= sem_max;
  sem_init_value : forall tokens s s', 0 <= tokens ->
    osal_sem_init tokens s = Ret (POS_OK, s') ->
    sem_value s' = tokens;
  sem_take_ok : forall timeout s s', osal_sem_take timeout s = Ret (POS_OK, s') ->
    0 < sem_value s /\ sem_value s' = sem_value s - 1;
  sem_take_err : forall timeout s e s', osal_sem_take timeout s = Ret (e, s') ->
    e <> POS_OK -> sem_value s' = sem_value s;
  sem_take_avail : forall s, 0 < sem_value s ->
    exists s', osal_sem_take sem_forever s = Ret (POS_OK, s');
  sem_give_ok : forall s, sem_value s < sem_max ->
    exists s', osal_sem_give s = Ret (POS_OK, s') /\ sem_value s' = sem_value s + 1;
  sem_give_full : forall s e s', sem_value s = sem_max -> osal_sem_give s = Ret (e, s') ->
    e <> POS_OK /\ sem_value s' = sem_value s
}.

(** "POS_OK Semaphore taken. POS_EBUSY Returned without waiting. POS_TIMEOUT
    Waiting period timed out." *)
Definition take_documented {S} `{OsalSem S} (timeout : Z) (s : S) : Prop :=
  answer_of (osal_sem_take timeout s) =
    documented_answer sem_no_wait sem_forever timeout (0 <? sem_value s).

(** "This routine gives sem, unless the semaphore is already at its maximum
    permitted count." *)
Definition give_documented {S} `{OsalSem S} (s : S) : Prop :=
  exists e s', osal_sem_give s = Ret (e, s') /\ sem_value s' = Z.min (sem_value s + 1) sem_max.

(** * Message queues (os_queue.h) *)

(** [osal_queue_get] also gives what it wrote to the [data] area, if anything.
    [queue_view] is the message size, the capacity and the queued messages,
    oldest first, of an initialised queue; [queue_ok] is the invariant between
    calls. *)
Class OsalQueue (S : Type) := {
  osal_queue_init : Z -> Z -> S -> outcome (pos_error * S);
  osal_queue_put : tid -> list byte -> S -> outcome (pos_error * S);
  osal_queue_get : tid -> Z -> S -> outcome (pos_error * option (list byte) * S);
  osal_queue_inited : S -> Z;
  osal_queue_deinit : S -> outcome (pos_error * S);
  queue_view : S -> option (Z * Z * list (list byte));
  queue_ok : S -> Prop;
  queue_no_wait : Z;
  queue_forever : Z
}.

(** "Message queues deliver complete copies of fixed size messages from a
    producer to a consumer in a thread-safe manner"; get "receives a message in
    a first in, first out manner". What the calls do to the messages, when they
    return; for what they answer see [get_documented], [put_documented] and
    [inited_documented]. *)
Class OsalQueueLaws (S : Type) `{OsalQueue S} : Prop := {
  queue_init_ok : forall size n s s', is_u16 size -> is_u16 n ->
    osal_queue_init size n s = Ret (POS_OK, s') ->
    queue_ok s' /\ queue_view s' = Some (size, n, []);
  queue_put_room : forall t item s size n l, queue_ok s -> queue_view s = Some (size, n, l) ->
    size <= Z.of_nat (length item) -> Z.of_nat (length l) < n ->
    exists s', osal_queue_put t item s = Ret (POS_OK, s') /\ queue_ok s' /\
      queue_view s' = Some (size, n, l ++ [take (Z.to_nat size) item]);
  queue_put_full : forall t item s size n l e s', queue_ok s -> queue_view s = Some (size, n, l) ->
    size <= Z.of_nat (length item) -> Z.of_nat (length l) = n ->
    osal_queue_put t item s = Ret (e, s') ->
    e <> POS_OK /\ queue_ok s' /\ queue_view s' = queue_view s;
  queue_view_bound : forall s size n l, queue_ok s -> queue_view s = Some (size, n, l) ->
    Z.of_nat (length l) <= n;
  queue_get_some : forall t timeout s size n x l, queue_ok s ->
    queue_view s = Some (size, n, x :: l) ->
    exists s', osal_queue_get t timeout s = Ret (POS_OK, Some x, s') /\ queue_ok s' /\
      queue_view s' = Some (size, n, l);
  queue_get_none : forall t timeout s size n e d s', queue_ok s ->
    queue_view s = Some (size, n, []) -> osal_queue_get t timeout s = Ret (e, d, s') ->
    e <> POS_OK /\ d = None /\ queue_ok s' /\ queue_view s' = queue_view s;
  queue_deinit_ok : forall s, queue_ok s ->
    exists s', osal_queue_deinit s = Ret (POS_OK, s') /\ queue_ok s' /\ queue_view s' = None
}.

(** "POS_OK Message received. POS_EBUSY Returned without waiting. POS_TIMEOUT
    Waiting period timed out.", on an initialised queue. *)
Definition get_documented {S} `{OsalQueue S} (t : tid) (timeout : Z) (s : S) : Prop :=
  forall size n l, queue_view s = Some (size, n, l) ->
  answer_of (do '(e, _, s) <- osal_queue_get t timeout s; Ret (e, s)) =
    documented_answer queue_no_wait queue_forever timeout (negb (bool_decide (l = []))).

(** "POS_OK Message sent. POS_EBUSY Returned without waiting or queue purged.
    POS_TIMEOUT Waiting period timed out.", of a whole message: a message that
    does not fit is refused with one of the two errors, and nothing else. *)
Definition put_documented {S} `{OsalQueue S} (t : tid) (item : list byte) (s : S) : Prop :=
  forall size n l, queue_view s = Some (size, n, l) -> size <= Z.of_nat (length item) ->
  if Z.of_nat (length l) <? n then answer_of (osal_queue_put t item s) = Ret POS_OK
  else exists e s', osal_queue_put t item s = Ret (e, s') /\ (e = POS_EBUSY \/ e = POS_TIMEOUT) /\
         queue_view s' = queue_view s.

(** "POS_OK Queue is valid. POS_EINVAL Queue is not valid.": 0 and 2. *)
Definition inited_documented {S} `{OsalQueue S} (s : S) : Prop :=
  osal_queue_inited s =
    pos_error_code (match queue_view s with Some _ => POS_OK | None => POS_EINVAL end).

(** What OsQueue.h takes the answer for, and what the ports give: a truth
    value. *)
Definition inited_boolean {S} `{OsalQueue S} (s : S) : Prop :=
  osal_queue_inited s = match queue_view s with Some _ => 1 | None => 0 end.

(** In no state is that what the header documents. *)
Lemma inited_boolean_undocumented {S} `{OsalQueue S} (s : S) :
  inited_boolean s -> ~ inited_documented s.
Proof. unfold inited_boolean, inited_documented. intros ->. by destruct (queue_view s). Qed.

(** Where there is a message, and where there is room for one, the laws give the
    documented answer. *)
Section Available.
Context {S : Type} `{OsalQueueLaws S}.

Lemma get_documented_some t timeout s size n x l :
  queue_ok s -> queue_view s = Some (size, n, x :: l) -> get_documented t timeout s.
Proof.
  intros Hok Hv ? ? ? Hv'. rewrite Hv in Hv'. injection Hv' as <- <- <-.
  by destruct (queue_get_some t timeout s size n x l Hok Hv) as (s' & -> & _).
Qed.

Lemma put_documented_room t item s size n l :
  queue_ok s -> queue_view s = Some (size, n, l) -> Z.of_nat (length l) < n -> put_documented t item s.
Proof.
  intros Hok Hv Hl ? ? ? Hv' Hi. rewrite Hv in Hv'. injection Hv' as <- <- <-.
  rewrite (proj2 (Z.ltb_lt _ _) Hl).
  by destruct (queue_put_room t item s size n l Hok Hv Hi Hl) as (s' & -> & _).
Qed.
End Available.

(** The two functions that only some ports have. *)
Class OsalQueueProbe (S : Type) := {
  osal_queue_is_empty : tid -> S -> outcome (bool * S)
}.

Class OsalQueueProbeLaws (S : Type) `{OsalQueue S, OsalQueueProbe S} : Prop := {
  queue_is_empty_ok : forall t s size n l, queue_ok s -> queue_view s = Some (size, n, l) ->
    exists s', osal_queue_is_empty t s = Ret (bool_decide (l = []), s') /\ queue_ok s' /\
      queue_view s' = queue_view s
}.

(** A callback [CB] and the pointer [P] it gets. *)
Class OsalQueueSignal (S CB P : Type) := {
  osal_queue_set_signal_cb : option CB -> option P -> S -> S
}.

Class OsalQueueSignalLaws (S CB P : Type) `{OsalQueue S, OsalQueueSignal S CB P} : Prop := {
  queue_set_signal_cb_ok : forall (cb : option CB) (data : option P) s,
    queue_view (osal_queue_set_signal_cb cb data s) = queue_view s /\
    (queue_ok s -> queue_ok (osal_queue_set_signal_cb cb data s))
}.

(** * Timers (os_timer.h) *)

(** A callback [CB] and the pointer [P] it gets. [osal_timer_expire] is not a
    function of the API but what happens when a running timer comes due: the
    call that is made, and the timer after it. [timer_action] is the callback
    and the argument of an initialised timer. *)
Class OsalTimer (S CB P : Type) := {
  osal_timer_init : CB -> option P -> S -> outcome (pos_error * S);
  osal_timer_start : Z -> S -> outcome (pos_error * S);
  osal_timer_start_ms : Z -> S -> outcome (pos_error * S);
  osal_timer_is_active : S -> outcome bool;
  osal_timer_remaining_ticks : Z -> S -> outcome Z;
  osal_timer_arg_get : S -> outcome (option P);
  osal_timer_expire : S -> option (CB * option P * S);
  timer_ok : S -> Prop;
  timer_running : S -> bool;
  timer_action : S -> option (CB * option P)
}.

(** The answer is POS_OK and the timer, still initialised, runs or not. *)
Definition timer_set {S CB P} `{OsalTimer S CB P} (b : bool) (s : S) (r : outcome (pos_error * S)) : Prop :=
  exists s', r = Ret (POS_OK, s') /\ timer_ok s' /\ timer_running s' = b /\
    timer_action s' = timer_action s.

(** "This routine starts a timer [...] Attempting to start a timer that is
    already running is permitted. The timer's status is reset to zero and the
    timer begins counting down using the new duration." Timers are one-shot, and
    durations are of 32 bits, as [pos_time_t] is on the ports that provide this.
    The header has no text on [pos_timer_remaining_ticks]: nothing is said of the
    number it returns. *)
Class OsalTimerLaws (S CB P : Type) `{OsalTimer S CB P} : Prop := {
  timer_init_ok : forall cb arg s s', osal_timer_init cb arg s = Ret (POS_OK, s') ->
    timer_ok s' /\ timer_running s' = false /\ timer_action s' = Some (cb, arg);
  timer_start_ok : forall ticks s, timer_ok s -> is_u32 ticks ->
    timer_set true s (osal_timer_start ticks s);
  timer_start_ms_ok : forall ms s, timer_ok s -> is_u32 ms ->
    timer_set true s (osal_timer_start_ms ms s);
  timer_is_active_ok : forall s, timer_ok s -> osal_timer_is_active s = Ret (timer_running s);
  timer_remaining_ticks_ret : forall time s, timer_ok s ->
    exists n, osal_timer_remaining_ticks time s = Ret n;
  timer_arg_get_ok : forall s cb arg, timer_ok s -> timer_action s = Some (cb, arg) ->
    osal_timer_arg_get s = Ret arg;
  timer_expire_ok : forall s cb arg, timer_ok s -> timer_running s = true ->
    timer_action s = Some (cb, arg) ->
    exists s', osal_timer_expire s = Some (cb, arg, s') /\ timer_ok s' /\
      timer_running s' = false /\ timer_action s' = Some (cb, arg);
  timer_expire_none : forall s, timer_ok s -> timer_running s = false -> osal_timer_expire s = None
}.

(** The functions that only some ports have. *)
Class OsalTimerControl (S P : Type) := {
  osal_timer_stop : S -> outcome (pos_error * S);
  osal_timer_get_ticks : S -> outcome Z;
  osal_timer_arg_set : option P -> S -> outcome S
}.

(** "This routine stops a running timer prematurely. [...] Attempting to stop a
    timer that is not running is permitted, but has no effect on the timer." The
    header has no text on [pos_timer_get_ticks]. *)
Class OsalTimerControlLaws (S CB P : Type) `{OsalTimer S CB P, OsalTimerControl S P} : Prop := {
  timer_stop_ok : forall s, timer_ok s -> timer_set false s (osal_timer_stop s);
  timer_get_ticks_ret : forall s, timer_ok s -> exists n, osal_timer_get_ticks s = Ret n;
  timer_arg_set_ok : forall s cb arg arg', timer_ok s -> timer_action s = Some (cb, arg) ->
    exists s', osal_timer_arg_set arg' s = Ret s' /\ timer_ok s' /\
      timer_running s' = timer_running s /\ timer_action s' = Some (cb, arg')
}.

(** * Tasks (os_task.h) *)

(** A task function [F] (a pointer, possibly null) with its argument [X], the
    caller's structure [S] and the state [W] of the port, which has started and
    removed so many tasks. *)
Class OsalTask (S F X W : Type) := {
  osal_task_init : list byte -> F -> X -> Z -> Z -> S -> W -> outcome (pos_error * S * W);
  osal_task_remove : S -> W -> outcome (pos_error * W);
  tasks_started : W -> nat;
  tasks_removed : W -> nat
}.

(** "POS_OK Task is initialized [...] POS_OK Task was removed": and with any
    other answer no task was started or removed. *)
Class OsalTaskLaws (S F X W : Type) `{OsalTask S F X W} : Prop := {
  task_init_counts : forall nm f x prio size s w e s' w',
    osal_task_init nm f x prio size s w = Ret (e, s', w') ->
    tasks_started w' = (tasks_started w + if bool_decide (e = POS_OK) then 1 else 0)%nat /\
    tasks_removed w' = tasks_removed w;
  task_remove_counts : forall s w e w',
    osal_task_remove s w = Ret (e, w') ->
    tasks_started w' = tasks_started w /\
    tasks_removed w' = (tasks_removed w + if bool_decide (e = POS_OK) then 1 else 0)%nat
}.

(** The running system [W] as the calling task sees it, with task identities
    [H]; [elapsed_ns] is the time it has run, [tick_ns] the length of a tick. *)
Class OsalSleep (H W : Type) := {
  osal_task_yield : W -> W;
  osal_task_sleep : Z -> W -> outcome W;
  osal_task_sleep_ms : Z -> W -> outcome W;
  osal_get_current_task_id : W -> H;
  elapsed_ns : W -> Z;
  tick_ns : Z
}.

(** "This routine puts the current thread to sleep for [duration] [ticks]." *)
Class OsalSleepLaws (H W : Type) `{OsalSleep H W} : Prop := {
  task_yield_time : forall w, elapsed_ns w <= elapsed_ns (osal_task_yield w);
  task_sleep_ticks : forall n w, is_u32 n -> exists w',
    osal_task_sleep n w = Ret w' /\ elapsed_ns w + n * tick_ns <= elapsed_ns w';
  task_sleep_millis : forall n w, is_u32 n -> exists w',
    osal_task_sleep_ms n w = Ret w' /\ elapsed_ns w + n * 1000000 <= elapsed_ns w'
}.

(** os_sched.h: "This routine will never return." *)
Class OsalSched (W : Type) := {
  osal_sched_start : W -> outcome W;
  osal_sched_started : W -> bool
}.

(** * Time (os_time.h) *)

(** What the platform's clock reads, [C]. "This routine returns the elapsed time
    since the system booted, in milliseconds": the ports differ on it. The header
    has no text on the other three functions. *)
Class OsalTime (C : Type) := {
  osal_time_get : C -> outcome Z;
  osal_time_get_ms : C -> outcome Z;
  osal_time_ms_to_ticks : Z -> outcome Z;
  osal_time_ticks_to_ms : Z -> outcome Z
}.
