(* ===== verification/PosixMutex.v ===== *)
(** targets/posix/os_mutex.c (Linux branch): recursive mutexes over pthread
    ones. The functions, their behaviour on every branch, the proof of the
    mutex laws of [OsalApi], which locks are answered as os_mutex.h says, and the data race on the deadline
    that the mutex object carries. *)

From S2P Require Import Prelude OsTypes Pthread PosixUtils OsalApi.

(** [struct pos_mutex] (posix/poski/osal/os_types.h) *)
Record pos_mutex (M : Type) := mkPosMutex {
  lock : M;
  attr : mutex_type;
  wait : timespec
}.
Arguments mkPosMutex {M} lock attr wait.
Arguments lock {M} p.
Arguments attr {M} p.
Arguments wait {M} p.

Section PosixMutex.
Context {M : Type} `{Errno, PthreadMutex M}.

(** What the two attribute calls return, and the reading of CLOCK_REALTIME
    ([None] when [clock_gettime] fails with -1). *)
Variable attr_init_ret settype_ret : Z.
Variable clock_realtime : option timespec.

Definition pos_mutex_init (mu : pos_mutex M) : pos_error * pos_mutex M :=
  let exit (ret : Z) (mu : pos_mutex M) := (if ret =? 0 then POS_OK else POS_BAD_MUTEX, mu) in
  success_or_exit attr_init_ret (exit attr_init_ret mu)
  (let mu := mkPosMutex (lock mu) (if settype_ret =? 0 then PTHREAD_MUTEX_RECURSIVE
                                   else PTHREAD_MUTEX_NORMAL) (wait mu) in
   success_or_exit settype_ret (exit settype_ret mu)
   (let '(ret, m) := pthread_mutex_init (attr mu) in
    exit ret (mkPosMutex m (attr mu) (wait mu)))).

Definition pos_mutex_unlock (t : tid) (mu : pos_mutex M) : pos_error * pos_mutex M :=
  let '(ret, m) := pthread_mutex_unlock t (lock mu) in
  (map_posix_to_osal_error ret, mkPosMutex m (attr mu) (wait mu)).

Definition pos_mutex_lock (t : tid) (timeout : Z) (mu : pos_mutex M)
    : outcome (pos_error * pos_mutex M) :=
  if timeout =? POS_TIME_FOREVER then
    do '(ret, m) <- of_option Block (pthread_mutex_lock t (lock mu));
    Ret (map_posix_to_osal_error ret, mkPosMutex m (attr mu) (wait mu))
  else
    match clock_realtime with
    | None => Ret (map_posix_to_osal_error (-1), mu)
    | Some now =>
        let w := deadline now timeout in
        let '(ret, m) := pthread_mutex_timedlock t w (lock mu) in
        Ret (map_posix_to_osal_error ret, mkPosMutex m (attr mu) w)
    end.

(** The Apple branch of [pos_mutex_lock]: the timeout is not looked at. *)
Definition pos_mutex_lock_apple (t : tid) (timeout : Z) (mu : pos_mutex M)
    : outcome (pos_error * pos_mutex M) :=
  do '(ret, m) <- of_option Block (pthread_mutex_lock t (lock mu));
  Ret (map_posix_to_osal_error ret, mkPosMutex m (attr mu) (wait mu)).

Context `{!PthreadMutexLaws M}.

Lemma pthread_lock_inv t (m : M) r m' :
  pthread_mutex_lock t m = Some (r, m') ->
  grantable t (holder m) = true /\
  (r = 0 /\ holder m' = Some (t, S (held_by t (holder m))) \/ r = EAGAIN /\ m' = m).
Proof.
  intros E. destruct (holder m) as [[t' n]|] eqn:Hh.
  - destruct (decide (t' = t)) as [->|Hne].
    + destruct (pthread_lock_again t m n Hh) as (r0 & m0 & E0 & Hor).
      rewrite E in E0; simplify_eq. simpl. rewrite bool_decide_eq_true_2, decide_True by done.
      done.
    + rewrite pthread_lock_held in E; [done|]. rewrite Hh. simpl. by apply bool_decide_eq_false_2.
  - destruct (pthread_lock_free t m Hh) as (m0 & E0 & ?). rewrite E in E0; simplify_eq. auto.
Qed.

(** The status that a grant returns: granted, or too deeply nested. *)
Lemma map_posix_grant t (m : M) r m' :
  pthread_mutex_lock t m = Some (r, m') ->
  map_posix_to_osal_error r = POS_OK /\ holder m' = Some (t, S (held_by t (holder m))) \/
  map_posix_to_osal_error r = POS_ERROR /\ m' = m.
Proof.
  intros [_ [[-> ?]|[-> ->]]]%pthread_lock_inv; [by left|right].
  by autorewrite with poski.
Qed.

(** A timed lock that can be granted is a plain lock. *)
Lemma pos_mutex_lock_now t timeout mu :
  grantable t (holder (lock mu)) = true -> clock_realtime <> None ->
  exists e mu', pos_mutex_lock t timeout mu = Ret (e, mu') /\ attr mu' = attr mu /\
    (e = POS_OK /\ holder (lock mu') = Some (t, S (held_by t (holder (lock mu)))) \/
     e = POS_ERROR /\ lock mu' = lock mu).
Proof.
  intros Hg Hclk. unfold pos_mutex_lock.
  pose proof (pthread_timedlock_now t) as Hnow.
  destruct (Z.eqb_spec timeout POS_TIME_FOREVER).
  - rewrite (Hnow (mkTimespec 0 0) _ Hg).
    destruct (pthread_mutex_timedlock _ _ _) as [r m] eqn:E. simpl.
    do 2 eexists. split_and!; [done|done|]. simpl.
    apply (map_posix_grant t _ _ m). by rewrite (Hnow (mkTimespec 0 0) _ Hg), E.
  - destruct clock_realtime as [now|]; [|done].
    destruct (pthread_mutex_timedlock _ _ _) as [r m] eqn:E.
    do 2 eexists. split_and!; [done|done|]. simpl.
    apply (map_posix_grant t _ _ m). by rewrite (Hnow (deadline now timeout) _ Hg), E.
Qed.

Lemma pos_mutex_lock_held t timeout mu :
  grantable t (holder (lock mu)) = false ->
  pos_mutex_lock t timeout mu =
    if timeout =? POS_TIME_FOREVER then Block
    else match clock_realtime with
         | None => Ret (POS_ERROR, mu)
         | Some now =>
             Ret (if nsec_valid (deadline now timeout) then POS_TIMEOUT else POS_EINVAL,
                  mkPosMutex (lock mu) (attr mu) (deadline now timeout))
         end.
Proof.
  intros Hg. unfold pos_mutex_lock. rewrite pthread_lock_held by done.
  destruct (_ =? _); [done|]. destruct clock_realtime as [now|].
  - destruct (nsec_valid (deadline now timeout)) eqn:Hv.
    + rewrite pthread_timedlock_late by done. by autorewrite with poski.
    + rewrite pthread_timedlock_bad by done. by autorewrite with poski.
  - by autorewrite with poski.
Qed.

Lemma pos_mutex_unlock_own t mu n :
  holder (lock mu) = Some (t, S n) ->
  exists m, pos_mutex_unlock t mu = (POS_OK, mkPosMutex m (attr mu) (wait mu)) /\
    holder m = release t n.
Proof.
  intros Hh. unfold pos_mutex_unlock.
  destruct (pthread_unlock_own t _ n Hh) as (m & -> & ?). by exists m.
Qed.

Lemma pos_mutex_unlock_other t mu :
  held_by t (holder (lock mu)) = 0%nat ->
  pos_mutex_unlock t mu = (POS_ERR_PRIV, mu).
Proof.
  intros Hh. unfold pos_mutex_unlock. rewrite pthread_unlock_other by done.
  autorewrite with poski. by destruct mu.
Qed.

Lemma pos_mutex_init_spec mu :
  let '(e, mu') := pos_mutex_init mu in
  (e = POS_OK \/ e = POS_BAD_MUTEX) /\ (e = POS_OK -> holder (lock mu') = None).
Proof.
  unfold pos_mutex_init, success_or_exit.
  destruct (Z.eqb_spec attr_init_ret 0) as [->|]; [|split; [by right|done]].
  destruct (Z.eqb_spec settype_ret 0) as [->|]; [|split; [by right|done]]. simpl.
  destruct (pthread_mutex_init PTHREAD_MUTEX_RECURSIVE) as [r m] eqn:E.
  destruct (Z.eqb_spec r 0) as [->|]; [|split; [by right|done]].
  split; [by left|]. intros _. by apply pthread_init_free.
Qed.

(** * The mutex interface *)

#[local] Instance posix_osal_mutex : OsalMutex (pos_mutex M) := {
  osal_mutex_init := fun mu => Ret (pos_mutex_init mu);
  osal_mutex_lock := pos_mutex_lock;
  osal_mutex_unlock := fun t mu => Ret (pos_mutex_unlock t mu);
  mutex_holder := fun mu => holder (lock mu);
  mutex_no_wait := POS_TIME_NO_WAIT;
  mutex_forever := POS_TIME_FOREVER
}.

Lemma posix_mutex_lock_inv t timeout mu e mu' :
  pos_mutex_lock t timeout mu = Ret (e, mu') ->
  e = POS_OK /\ grantable t (holder (lock mu)) = true /\
    holder (lock mu') = Some (t, S (held_by t (holder (lock mu)))) \/
  e <> POS_OK /\ lock mu' = lock mu.
Proof.
  destruct (grantable t (holder (lock mu))) eqn:Hg; intros E.
  - destruct clock_realtime as [now|] eqn:Hclk.
    + destruct (pos_mutex_lock_now t timeout mu Hg) as (e0 & mu0 & E0 & _ & Hor); [by rewrite Hclk|].
      rewrite E in E0. simplify_eq. destruct Hor as [[-> ?]|[-> ?]]; [by left|by right].
    + unfold pos_mutex_lock in E. rewrite Hclk in E. destruct (_ =? _).
      * apply obind_ret_inv in E as ([r m] & Hl & E). simplify_eq.
        destruct (pthread_mutex_lock t (lock mu)) eqn:Hl'; simplify_eq/=.
        destruct (map_posix_grant _ _ _ _ Hl') as [[-> ?]|[-> ->]]; [by left|by right].
      * autorewrite with poski in E. simplify_eq. by right.
  - rewrite pos_mutex_lock_held in E by done. destruct (_ =? _); [done|].
    destruct clock_realtime; simplify_eq; right; [|done]. split; [|done]. by case_match.
Qed.

Lemma posix_mutex_osal_laws : OsalMutexLaws (pos_mutex M).
Proof.
  split; simpl.
  - intros mu mu' [= E]. pose proof (pos_mutex_init_spec mu) as Hi. rewrite E in Hi. by apply Hi.
  - intros mu. apply pthread_holder_pos.
  - intros t timeout mu mu' [(_ & ? & ?)|[? _]]%posix_mutex_lock_inv; done.
  - intros t timeout mu e mu' [(-> & _)|[_ ->]]%posix_mutex_lock_inv; done.
  - intros t mu Hf. unfold pos_mutex_lock. rewrite Z.eqb_refl.
    destruct (pthread_lock_free t _ Hf) as (m & -> & _). simpl. by eexists.
  - intros t mu n Hh. destruct (pos_mutex_unlock_own t mu n Hh) as (m & -> & ?). eauto.
  - intros t mu Hh. rewrite pos_mutex_unlock_other by done. by do 2 eexists.
Qed.

(** A lock of a mutex that another task holds is answered as os_mutex.h
    documents exactly when the caller waits for ever, or waits at all and the
    deadline needs no carry into the seconds. *)
Lemma posix_lock_documented t timeout mu now :
  grantable t (holder (lock mu)) = false -> is_u32 timeout ->
  clock_realtime = Some now -> nsec_valid now = true ->
  lock_documented t timeout mu <->
  timeout = POS_TIME_FOREVER \/
  timeout <> POS_TIME_NO_WAIT /\ tv_nsec now + (timeout mod 1000) * 1000000 < NSEC_PER_SEC.
Proof.
  intros Hg Ht Hclk Hn. unfold lock_documented, documented_answer. simpl. rewrite Hg.
  rewrite pos_mutex_lock_held, Hclk by done. destruct (deadline_valid now timeout Ht Hn) as [_ ->].
  destruct (Z.eqb_spec timeout POS_TIME_NO_WAIT) as [->|Hn0]; simpl.
  - destruct (_ <? _); (split; [intros E; discriminate E | by intros [E|[[] ?]]; [discriminate E|]]).
  - destruct (Z.eqb_spec timeout POS_TIME_FOREVER) as [->|Hnf]; simpl; [by split; [left|]|].
    destruct (Z.ltb_spec (tv_nsec now + timeout mod 1000 * 1000000) NSEC_PER_SEC) as [Hlt|Hge].
    + split; [by right|done].
    + split; [done|]. intros [|[_ Hlt]]; [done|lia].
Qed.

(** * Properties *)

(** C25. What [pos_mutex_lock] answers while another task holds the mutex: it
    blocks for POS_TIME_FOREVER; otherwise it answers POS_TIMEOUT at the
    deadline when the nanoseconds of the clock and the milliseconds of the
    timeout stay below one second, and POS_EINVAL, at once, when they do not. *)
Theorem pos_mutex_lock_contended t timeout mu now :
  grantable t (holder (lock mu)) = false -> is_u32 timeout ->
  clock_realtime = Some now -> nsec_valid now = true ->
  pos_mutex_lock t timeout mu =
    if timeout =? POS_TIME_FOREVER then Block
    else Ret (if tv_nsec now + (timeout mod 1000) * 1000000 <? NSEC_PER_SEC
              then POS_TIMEOUT else POS_EINVAL,
              mkPosMutex (lock mu) (attr mu) (deadline now timeout)).
Proof.
  intros Hg Ht Hclk Hn. rewrite pos_mutex_lock_held, Hclk by done.
  by destruct (deadline_valid now timeout Ht Hn) as [_ ->].
Qed.
End PosixMutex.

(** * The deadline is shared *)

(** [pos_mutex_lock] computes the deadline in the mutex object itself
    ([mu->wait]), before it holds the mutex; [pos_sem_take] of os_sem.c runs the
    same statements on a local variable. The statements, one at a time: *)
Inductive lock_stmt :=
| ReadClock   (* clock_gettime(CLOCK_REALTIME, &wait) *)
| AddSec      (* wait.tv_sec += timeout / 1000 *)
| AddNsec     (* wait.tv_nsec += (timeout % 1000) * 1000000 *)
| TimedWait.  (* the timed wait is called with wait *)

Definition lock_stmts : list lock_stmt := [ReadClock; AddSec; AddNsec; TimedWait].

Definition exec_stmt (s : lock_stmt) (now : timespec) (timeout : Z) (w : timespec) : timespec :=
  match s with
  | ReadClock => now
  | AddSec => mkTimespec (tv_sec w + timeout / 1000) (tv_nsec w)
  | AddNsec => mkTimespec (tv_sec w) (tv_nsec w + u32 ((timeout mod 1000) * 1000000))
  | TimedWait => w
  end.

(** Threads that run the statements: the cells the deadlines are computed in,
    each thread's position, and the deadline each passed to the timed wait. *)
Record wait_state := mkWaitState {
  cells : list timespec;
  pcs : list nat;
  passed : list (option timespec)
}.

(** Thread [i] runs its next statement when the clock reads [now]; its
    deadline is in the common cell 0 or in a cell of its own. *)
Definition wait_step (shared : bool) (timeouts : list Z) (ev : nat * timespec)
    (st : wait_state) : wait_state :=
  let '(i, now) := ev in
  let c := if shared then O else i in
  match pcs st !! i, timeouts !! i, cells st !! c with
  | Some pc, Some timeout, Some w =>
      match lock_stmts !! pc with
      | Some s =>
          {| cells := <[c := exec_stmt s now timeout w]> (cells st);
             pcs := <[i := S pc]> (pcs st);
             passed := match s with
                       | TimedWait => <[i := Some w]> (passed st)
                       | _ => passed st
                       end |}
      | None => st
      end
  | _, _, _ => st
  end.

Definition wait_run (shared : bool) (timeouts : list Z) (sched : list (nat * timespec))
    (st : wait_state) : wait_state :=
  foldl (fun st ev => wait_step shared timeouts ev st) st sched.

Definition wait_init (n : nat) : wait_state :=
  {| cells := replicate n (mkTimespec 0 0); pcs := replicate n O; passed := replicate n None |}.

(** What a thread's own cell and answer look like at each position. *)
Definition wait_thread_ok (seen : list (nat * timespec)) (timeout : Z) (i pc : nat)
    (w : timespec) (p : option timespec) : Prop :=
  match pc with
  | O => p = None
  | 1%nat => exists now, (i, now) ∈ seen /\ w = now /\ p = None
  | 2%nat => exists now, (i, now) ∈ seen /\ p = None /\
               w = mkTimespec (tv_sec now + timeout / 1000) (tv_nsec now)
  | 3%nat => exists now, (i, now) ∈ seen /\ w = deadline now timeout /\ p = None
  | _ => exists now, (i, now) ∈ seen /\ p = Some (deadline now timeout)
  end.

Definition wait_ok (timeouts : list Z) (seen : list (nat * timespec)) (st : wait_state) : Prop :=
  forall i timeout pc w p,
    timeouts !! i = Some timeout -> pcs st !! i = Some pc ->
    cells st !! i = Some w -> passed st !! i = Some p ->
    wait_thread_ok seen timeout i pc w p.

Lemma wait_thread_ok_mono seen ev timeout i pc w p :
  wait_thread_ok seen timeout i pc w p -> wait_thread_ok (seen ++ [ev]) timeout i pc w p.
Proof.
  destruct pc as [|[|[|[|]]]]; simpl; [done|..]; intros (now & ? & ?);
    exists now; (split; [by apply elem_of_app; left | done]).
Qed.

Lemma wait_step_ok timeouts seen ev st :
  wait_ok timeouts seen st -> wait_ok timeouts (seen ++ [ev]) (wait_step false timeouts ev st).
Proof.
  destruct ev as [j now]. intros Hok. unfold wait_step.
  destruct (pcs st !! j) as [pc|] eqn:Hpc; [|intros ?????????; by apply wait_thread_ok_mono, Hok].
  destruct (timeouts !! j) as [t|] eqn:Ht; [|intros ?????????; by apply wait_thread_ok_mono, Hok].
  destruct (cells st !! j) as [w|] eqn:Hw; [|intros ?????????; by apply wait_thread_ok_mono, Hok].
  destruct (lock_stmts !! pc) as [s|] eqn:Hs;
    [|intros ?????????; by apply wait_thread_ok_mono, Hok].
  intros i ti pi wi p Hti Hpi Hwi Hp. simpl in Hpi, Hwi, Hp.
  destruct (decide (i = j)) as [->|Hne].
  - rewrite list_lookup_insert_eq in Hpi by (by eapply lookup_lt_Some).
    rewrite list_lookup_insert_eq in Hwi by (by eapply lookup_lt_Some).
    injection Hpi as <-. injection Hwi as <-. assert (ti = t) as -> by congruence.
    assert (exists p0, passed st !! j = Some p0 /\
            p = match s with TimedWait => Some w | _ => p0 end) as (p0 & Hp0 & ->).
    { destruct s; eauto. apply list_lookup_insert_Some in Hp as [(_ & <- & Hl)|[]]; [|done].
      apply lookup_lt_is_Some in Hl as [p0 ?]. eauto. }
    pose proof (Hok j _ pc w p0 Ht Hpc Hw Hp0) as Hj. clear Hok.
    destruct pc as [|[|[|[|]]]]; simpl in Hs; try done; injection Hs as <-; simpl in Hj |- *.
    + exists now. split; [apply elem_of_app; right; by apply list_elem_of_singleton | done].
    + destruct Hj as (n & ? & -> & ->). exists n. by rewrite elem_of_app; auto.
    + destruct Hj as (n & ? & -> & ->). exists n. by rewrite elem_of_app; auto.
    + destruct Hj as (n & ? & -> & ->). exists n. by rewrite elem_of_app; auto.
  - rewrite list_lookup_insert_ne in Hpi by done.
    rewrite list_lookup_insert_ne in Hwi by done.
    apply wait_thread_ok_mono, Hok; try done.
    destruct s; try done. by rewrite list_lookup_insert_ne in Hp.
Qed.

Lemma wait_run_lengths shared timeouts sched st :
  length (pcs (wait_run shared timeouts sched st)) = length (pcs st) /\
  length (cells (wait_run shared timeouts sched st)) = length (cells st).
Proof.
  revert st. induction sched as [|[i now] sched IH]; intros st; simpl; [done|].
  destruct (IH (wait_step shared timeouts (i, now) st)) as [Hp Hc].
  split; (etransitivity; [exact Hp || exact Hc|]); unfold wait_step;
    repeat case_match; simpl; by rewrite ?length_insert.
Qed.

(** With a local deadline (os_sem.c), whatever the interleaving of any
    number of waiting threads, each passes to its timed wait its own clock
    reading plus its own timeout. *)
Theorem local_deadline_any_interleaving timeouts sched i timeout w :
  timeouts !! i = Some timeout ->
  passed (wait_run false timeouts sched (wait_init (length timeouts))) !! i = Some (Some w) ->
  exists now, (i, now) ∈ sched /\ w = deadline now timeout.
Proof.
  intros Ht Hp.
  assert (forall seen rest st, wait_ok timeouts seen st ->
    wait_ok timeouts (seen ++ rest) (wait_run false timeouts rest st)) as Hrun.
  { intros seen rest. revert seen. induction rest as [|ev rest IH]; intros seen st Hok; simpl.
    - by rewrite app_nil_r.
    - rewrite cons_middle, app_assoc. by apply IH, wait_step_ok. }
  assert (wait_ok timeouts [] (wait_init (length timeouts))) as Hinit.
  { intros j t pc w' p _ Hpc _ Hpj. simpl in Hpc, Hpj.
    apply lookup_replicate in Hpc as [-> _]. apply lookup_replicate in Hpj as [-> _]. done. }
  specialize (Hrun [] sched _ Hinit). simpl in Hrun.
  set (st := wait_run _ _ _ _) in *.
  destruct (wait_run_lengths false timeouts sched (wait_init (length timeouts))) as [Hlp Hlc].
  simpl in Hlp, Hlc.
  rewrite length_replicate in Hlp. rewrite length_replicate in Hlc. apply lookup_lt_Some in Ht as Hlt.
  rewrite <- Hlp in Hlt. apply lookup_lt_is_Some in Hlt as [pc Hpc].
  apply lookup_lt_Some in Ht as Hlt. rewrite <- Hlc in Hlt.
  apply lookup_lt_is_Some in Hlt as [w' Hw].
  specialize (Hrun i timeout pc w' (Some w) Ht Hpc Hw Hp).
  destruct pc as [|[|[|[|]]]]; simpl in Hrun; try done; try (by destruct Hrun as (? & ? & ? & ?)).
  destruct Hrun as (now & ? & ?). simplify_eq. by exists now.
Qed.

Example local_deadline_any_interleaving_witness :
  let now := mkTimespec 5 0 in
  let sched := [(0%nat, now); (1%nat, now); (0%nat, now); (1%nat, now); (0%nat, now);
                (1%nat, now); (0%nat, now)] in
  [250; 3000] !! 0%nat = Some 250 /\
  exists now', (0%nat, now') ∈ sched /\ mkTimespec 5 250000000 = deadline now' 250.
Proof.
  intros now sched. split; [reflexivity|].
  exact (local_deadline_any_interleaving [250; 3000] sched 0%nat 250 (mkTimespec 5 250000000)
           eq_refl eq_refl).
Defined.

(** With the deadline in the mutex object (os_mutex.c), an uninterrupted
    call passes its own deadline, but two tasks that lock the same mutex at the
    same time can add their timeouts into the one field: the first then waits
    for the sum of the two. *)
Theorem shared_deadline_race now tA tB :
  is_u32 tA -> is_u32 tB ->
  passed (wait_run true [tA; tB] (replicate 4 (0%nat, now)) (wait_init 2)) !! 0%nat =
    Some (Some (deadline now tA)) /\
  exists sched w, Forall (fun ev => ev.2 = now) sched /\
    passed (wait_run true [tA; tB] sched (wait_init 2)) !! 0%nat = Some (Some w) /\
    to_ns w = to_ns now + (tA + tB) * 1000000.
Proof.
  intros HA HB. split; [reflexivity|].
  exists [(0%nat, now); (1%nat, now); (0%nat, now); (1%nat, now); (0%nat, now); (1%nat, now);
          (0%nat, now)].
  eexists. split_and!; [by repeat constructor | reflexivity |].
  destruct now as [s n]. unfold to_ns, exec_stmt, NSEC_PER_SEC. cbn [tv_sec tv_nsec].
  zwrap.
Qed.

Example shared_deadline_race_witness :
  (is_u32 100 /\ is_u32 60000) /\
  passed (wait_run true [100; 60000] (replicate 4 (0%nat, mkTimespec 7 0)) (wait_init 2)) !! 0%nat =
    Some (Some (deadline (mkTimespec 7 0) 100)) /\
  exists sched w, Forall (fun ev => ev.2 = mkTimespec 7 0) sched /\
    passed (wait_run true [100; 60000] sched (wait_init 2)) !! 0%nat = Some (Some w) /\
    to_ns w = to_ns (mkTimespec 7 0) + (100 + 60000) * 1000000.
Proof.
  assert (is_u32 100 /\ is_u32 60000) as H by (vm_compute; intuition congruence).
  split; [exact H|]. exact (shared_deadline_race (mkTimespec 7 0) 100 60000 (proj1 H) (proj2 H)).
Defined.

(** * Witnesses over the reference pthread implementation *)

#[local] Existing Instance linux_errno.

Example pos_mutex_lock_contended_witness :
  let mu := mkPosMutex (M := ref_mutex) (Some (1%nat, 0%nat)) PTHREAD_MUTEX_RECURSIVE (mkTimespec 0 0) in
  let now := mkTimespec 5 600000000 in
  (grantable 2%nat (holder (lock mu)) = false /\ nsec_valid now = true) /\
  pos_mutex_lock (Some now) 2%nat 500 mu =
    Ret (POS_EINVAL, mkPosMutex (Some (1%nat, 0%nat)) PTHREAD_MUTEX_RECURSIVE (mkTimespec 5 1100000000)).
Proof.
  split; [by split|].
  refine (pos_mutex_lock_contended (Some (mkTimespec 5 600000000)) 2%nat 500
    (mkPosMutex (M := ref_mutex) (Some (1%nat, 0%nat)) PTHREAD_MUTEX_RECURSIVE (mkTimespec 0 0))
    (mkTimespec 5 600000000) eq_refl _ eq_refl eq_refl).
  vm_compute. intuition congruence.
Defined.
