(* ===== verification/PosixSem.v ===== *)
(** targets/posix/os_sem.c (Linux branch): counting semaphores over POSIX
    ones. The functions, their behaviour on every branch, the proof of the
    semaphore laws of [OsalApi], and which calls are answered as os_sem.h says. *)

From S2P Require Import Prelude OsTypes Pthread PosixUtils OsalApi.

(** [struct pos_sem] (posix/poski/osal/os_types.h) *)
Record pos_sem (S : Type) := mkPosSem { lock : S }.
Arguments mkPosSem {S} lock.
Arguments lock {S} p.

Section PosixSem.
Context {S : Type} `{Errno, PosixSem S}.

(** The reading of CLOCK_REALTIME ([None] when [clock_gettime] fails with -1). *)
Variable clock_realtime : option timespec.

Definition pos_sem_init (tokens : Z) (sem : pos_sem S) : pos_error * pos_sem S :=
  let '(r, s) := sem_init tokens in
  (map_posix_to_osal_error (ret r), mkPosSem s).

Definition pos_sem_give (sem : pos_sem S) : pos_error * pos_sem S :=
  let '(r, s) := sem_post (lock sem) in
  (map_posix_to_osal_error (ret r), mkPosSem s).

Definition pos_sem_take (timeout : Z) (sem : pos_sem S) : outcome (pos_error * pos_sem S) :=
  if timeout =? POS_TIME_FOREVER then
    do '(r, s) <- of_option Block (sem_wait (lock sem));
    Ret (map_posix_to_osal_error (ret r), mkPosSem s)
  else
    match clock_realtime with
    | None => Ret (map_posix_to_osal_error (-1), sem)
    | Some now =>
        let wait := deadline now timeout in
        let '(r, s) := sem_timedwait wait (lock sem) in
        let ret := if ret r =? 0 then pos_error_code POS_OK else errno r in
        Ret (map_posix_to_osal_error ret, mkPosSem s)
    end.

#[local] Instance posix_osal_sem : OsalSem (pos_sem S) := {
  osal_sem_init := fun tokens sem => Ret (pos_sem_init tokens sem);
  osal_sem_take := pos_sem_take;
  osal_sem_give := fun sem => Ret (pos_sem_give sem);
  sem_value := fun sem => sem_count (lock sem);
  sem_max := SEM_VALUE_MAX;
  sem_no_wait := POS_TIME_NO_WAIT;
  sem_forever := POS_TIME_FOREVER
}.

Context `{!PosixSemLaws S}.

Lemma pos_sem_take_avail timeout sem :
  0 < sem_count (lock sem) -> clock_realtime <> None \/ timeout = POS_TIME_FOREVER ->
  exists s, pos_sem_take timeout sem = Ret (POS_OK, mkPosSem s) /\
    sem_count s = sem_count (lock sem) - 1.
Proof.
  intros Hpos Hclk. unfold pos_sem_take.
  destruct (Z.eqb_spec timeout POS_TIME_FOREVER).
  - destruct (sem_wait_ok _ Hpos) as (s & -> & ?). simpl. eauto.
  - destruct clock_realtime as [now|]; [|by destruct Hclk].
    destruct (sem_timedwait_ok (deadline now timeout) _ Hpos) as (s & -> & ?). simpl. eauto.
Qed.

Lemma pos_sem_take_empty_forever sem :
  sem_count (lock sem) = 0 ->
  pos_sem_take POS_TIME_FOREVER sem = Block \/ pos_sem_take POS_TIME_FOREVER sem = Ret (POS_ERROR, sem).
Proof.
  intros Hz. unfold pos_sem_take. rewrite Z.eqb_refl.
  destruct (sem_wait_zero _ Hz) as [-> | ->]; [by left|right]. simpl.
  autorewrite with poski. by destruct sem.
Qed.

Lemma pos_sem_take_empty_timed timeout sem :
  sem_count (lock sem) = 0 -> timeout <> POS_TIME_FOREVER ->
  exists e, pos_sem_take timeout sem = Ret (e, sem) /\
    match clock_realtime with
    | None => e = POS_ERROR
    | Some now => if nsec_valid (deadline now timeout) then e = POS_TIMEOUT \/ e = POS_ERROR
                  else e = POS_EINVAL
    end.
Proof.
  intros Hz Ht. unfold pos_sem_take. rewrite (proj2 (Z.eqb_neq _ _)) by done.
  destruct sem as [s]. simpl in *. destruct clock_realtime as [now|].
  - destruct (nsec_valid (deadline now timeout)) eqn:Hv.
    + destruct (sem_timedwait_late _ _ Hz Hv) as [-> | ->]; simpl; autorewrite with poski; eauto.
    + rewrite sem_timedwait_bad by done. simpl. autorewrite with poski. eauto.
  - autorewrite with poski. eauto.
Qed.

Lemma pos_sem_take_inv timeout sem e sem' :
  pos_sem_take timeout sem = Ret (e, sem') ->
  e = POS_OK /\ 0 < sem_count (lock sem) /\ sem_count (lock sem') = sem_count (lock sem) - 1 \/
  e <> POS_OK /\ sem' = sem.
Proof.
  intros E. destruct (Z_lt_ge_dec 0 (sem_count (lock sem))) as [Hpos|Hz].
  - destruct (decide (clock_realtime <> None \/ timeout = POS_TIME_FOREVER)) as [Hc|Hc].
    + destruct (pos_sem_take_avail timeout sem Hpos Hc) as (s & E' & ?).
      rewrite E in E'. simplify_eq. by left.
    + right. unfold pos_sem_take in E. rewrite (proj2 (Z.eqb_neq _ _)) in E by naive_solver.
      destruct clock_realtime; [naive_solver|]. autorewrite with poski in E. by simplify_eq.
  - assert (sem_count (lock sem) = 0) as Hz' by (pose proof (sem_count_range (lock sem)); lia).
    right. destruct (Z.eq_dec timeout POS_TIME_FOREVER) as [->|Ht].
    + destruct (pos_sem_take_empty_forever sem Hz') as [E'|E']; rewrite E in E'; by simplify_eq.
    + destruct (pos_sem_take_empty_timed timeout sem Hz' Ht) as (e' & E' & He).
      rewrite E in E'. simplify_eq. split; [|done]. destruct clock_realtime; [|by subst].
      destruct (nsec_valid _); [by destruct He as [-> | ->] | by subst].
Qed.

Lemma pos_sem_give_ok sem :
  sem_count (lock sem) < SEM_VALUE_MAX ->
  exists s, pos_sem_give sem = (POS_OK, mkPosSem s) /\ sem_count s = sem_count (lock sem) + 1.
Proof.
  intros Hlt. unfold pos_sem_give. destruct (sem_post_ok _ Hlt) as (s & -> & ?). by exists s.
Qed.

Lemma pos_sem_give_full sem :
  sem_count (lock sem) = SEM_VALUE_MAX -> pos_sem_give sem = (POS_ERROR, sem).
Proof.
  intros Hm. unfold pos_sem_give. rewrite sem_post_full by done. simpl.
  autorewrite with poski. by destruct sem.
Qed.

Lemma pos_sem_init_spec tokens sem :
  0 <= tokens ->
  exists s, pos_sem_init tokens sem =
    (if tokens <=? SEM_VALUE_MAX then POS_OK else POS_ERROR, mkPosSem s) /\
    (tokens <= SEM_VALUE_MAX -> sem_count s = tokens).
Proof.
  intros Hnn. unfold pos_sem_init. destruct (Z.leb_spec tokens SEM_VALUE_MAX) as [Hle|Hgt].
  - destruct (sem_init_ok tokens) as (s & -> & ?); [lia|]. by exists s.
  - pose proof (sem_init_bad tokens Hgt) as E. destruct (sem_init tokens) as [r s].
    simpl in E. subst r. exists s. simpl. autorewrite with poski. split; [done|lia].
Qed.

Lemma posix_sem_osal_laws : OsalSemLaws (pos_sem S).
Proof.
  split; simpl.
  - intros sem. apply sem_count_range.
  - intros tokens sem sem' Hnn [= E]. destruct (pos_sem_init_spec tokens sem Hnn) as (s & E' & Hs).
    rewrite E in E'. destruct (Z.leb_spec tokens SEM_VALUE_MAX); simplify_eq. auto.
  - by intros timeout sem sem' [(_ & ? & ?)|[? _]]%pos_sem_take_inv.
  - by intros timeout sem e sem' [(-> & _)|[_ ->]]%pos_sem_take_inv.
  - intros sem Hpos. destruct (pos_sem_take_avail POS_TIME_FOREVER sem Hpos) as (s & -> & _);
      [by right | by eexists].
  - intros sem Hlt. destruct (pos_sem_give_ok sem Hlt) as (s & -> & ?). eauto.
  - intros sem e sem' Hm [= E]. rewrite pos_sem_give_full in E by done. by simplify_eq.
Qed.

(** A take with a deadline that finds no token: POS_TIMEOUT, where os_sem.h
    documents POS_EBUSY for a caller that does not wait, or POS_ERROR when a
    signal handler interrupts the wait; and POS_EINVAL, at once, when the
    deadline needs a carry into the seconds. *)
Lemma posix_take_documented timeout sem now :
  sem_count (lock sem) = 0 -> is_u32 timeout -> timeout <> POS_TIME_FOREVER ->
  clock_realtime = Some now -> nsec_valid now = true ->
  let fits := timeout <> POS_TIME_NO_WAIT /\ tv_nsec now + (timeout mod 1000) * 1000000 < NSEC_PER_SEC in
  (take_documented timeout sem -> fits) /\
  (fits -> take_documented timeout sem \/ answer_of (pos_sem_take timeout sem) = Ret POS_ERROR).
Proof.
  intros Hz Ht Hne Hclk Hn fits. unfold take_documented, documented_answer. simpl. rewrite Hz. simpl.
  rewrite (proj2 (Z.eqb_neq timeout POS_TIME_FOREVER)) by done.
  destruct (pos_sem_take_empty_timed timeout sem Hz Hne) as (e & -> & He).
  rewrite Hclk, (proj2 (deadline_valid now timeout Ht Hn)) in He. unfold fits. simpl.
  destruct (Z.eqb_spec timeout POS_TIME_NO_WAIT) as [->|Hn0].
  - split; [|by intros []]. intros [= ->]. by case_match; [destruct He|].
  - destruct (Z.ltb_spec (tv_nsec now + timeout mod 1000 * 1000000) NSEC_PER_SEC) as [Hlt|Hge].
    + split; [done|]. destruct He as [-> | ->]; auto.
    + split; [by subst|]. intros []. lia.
Qed.

(** A give always returns, and leaves the semaphore alone at the maximum. *)
Lemma posix_give_documented sem : give_documented sem.
Proof.
  unfold give_documented. simpl. pose proof (sem_count_range (lock sem)).
  destruct (Z_lt_ge_dec (sem_count (lock sem)) SEM_VALUE_MAX) as [Hlt|Hge].
  - destruct (pos_sem_give_ok sem Hlt) as (s & -> & Hs). do 2 eexists. split; [done|]. simpl. lia.
  - rewrite pos_sem_give_full by lia. do 2 eexists. split; [done|]. lia.
Qed.

(** * Properties *)

(** What [pos_sem_take] answers when there is no token. Without a deadline
    it blocks, or a signal handler ends the wait with POS_ERROR; with one it
    answers POS_TIMEOUT (or POS_ERROR, interrupted), except POS_EINVAL at once
    when the milliseconds carry out of the nanosecond field. *)
Theorem pos_sem_take_empty timeout sem now :
  sem_count (lock sem) = 0 -> is_u32 timeout ->
  clock_realtime = Some now -> nsec_valid now = true ->
  (timeout = POS_TIME_FOREVER /\
     (pos_sem_take timeout sem = Block \/ pos_sem_take timeout sem = Ret (POS_ERROR, sem))) \/
  (timeout <> POS_TIME_FOREVER /\
     if tv_nsec now + (timeout mod 1000) * 1000000 <? NSEC_PER_SEC
     then pos_sem_take timeout sem = Ret (POS_TIMEOUT, sem) \/
          pos_sem_take timeout sem = Ret (POS_ERROR, sem)
     else pos_sem_take timeout sem = Ret (POS_EINVAL, sem)).
Proof.
  intros Hz Ht Hclk Hn. destruct (Z.eq_dec timeout POS_TIME_FOREVER) as [->|Hne].
  - left. split; [done|]. by apply pos_sem_take_empty_forever.
  - right. split; [done|].
    destruct (pos_sem_take_empty_timed timeout sem Hz Hne) as (e & -> & He).
    rewrite Hclk, (proj2 (deadline_valid now timeout Ht Hn)) in He.
    destruct (_ <? _); [destruct He as [-> | ->]; auto | by subst].
Qed.
End PosixSem.

(** * Witnesses over the reference semaphore *)

#[local] Existing Instance linux_errno.

Example pos_sem_take_empty_witness :
  let sem := mkPosSem (S := ref_sem) 0 in
  let now := mkTimespec 5 999000000 in
  pos_sem_take (Some now) 1 sem = Ret (POS_EINVAL, sem) /\
  ((1 = POS_TIME_FOREVER /\
     (pos_sem_take (Some now) 1 sem = Block \/ pos_sem_take (Some now) 1 sem = Ret (POS_ERROR, sem))) \/
   (1 <> POS_TIME_FOREVER /\
     if 999000000 + (1 mod 1000) * 1000000 <? NSEC_PER_SEC
     then pos_sem_take (Some now) 1 sem = Ret (POS_TIMEOUT, sem) \/
          pos_sem_take (Some now) 1 sem = Ret (POS_ERROR, sem)
     else pos_sem_take (Some now) 1 sem = Ret (POS_EINVAL, sem))).
Proof.
  split; [reflexivity|].
  refine (pos_sem_take_empty (Some (mkTimespec 5 999000000)) 1 (mkPosSem (S := ref_sem) 0)
    (mkTimespec 5 999000000) eq_refl _ eq_refl eq_refl).
  vm_compute. intuition congruence.
Defined.
