(* ===== verification/OsMutex.v ===== *)
(** include/poski/OsMutex.h: the C++ wrapper that counts how deep the mutex is
    locked. Verified against the mutex interface of [OsalApi], so the results
    hold over every port that provides it. Operations of several tasks are
    atomic and interleave in any order; an operation that would wait is one
    that has not happened yet. *)

From S2P Require Import Prelude OsTypes Pthread OsalApi.

(** [class OsMutex]; [lock_depth_] is a [uint32_t]. *)
Record OsMutex (S : Type) := mkOsMutex { mutex_ : S; lock_depth_ : Z }.
Arguments mkOsMutex {S} mutex_ lock_depth_.
Arguments mutex_ {S} o.
Arguments lock_depth_ {S} o.

Section OsMutex.
Context {S : Type} `{OsalMutex S}.

(** Whether [assert] is compiled out. *)
Variable ndebug : bool.

Definition is_ok (e : pos_error) : bool := bool_decide (e = POS_OK).

(** The constructor, run by task [t] on uninitialised storage [mem]. *)
Definition OsMutex_new (t : tid) (lock_on_construction : bool) (timeout : Z) (mem : S)
    : outcome (OsMutex S) :=
  do '(err, m) <- osal_mutex_init mem;
  c_assert ndebug (is_ok err);;
  if lock_on_construction then
    do '(err, m) <- osal_mutex_lock t timeout m;
    c_assert ndebug (is_ok err);;
    Ret (mkOsMutex m 1)
  else Ret (mkOsMutex m 0).

Definition Lock (t : tid) (timeout : Z) (o : OsMutex S) : outcome (pos_error * OsMutex S) :=
  do '(err, m) <- osal_mutex_lock t timeout (mutex_ o);
  Ret (err, mkOsMutex m (if is_ok err then u32 (lock_depth_ o + 1) else lock_depth_ o)).

Definition Unlock (t : tid) (o : OsMutex S) : outcome (pos_error * OsMutex S) :=
  c_assert ndebug (0 <? lock_depth_ o);;
  let depth := u32 (lock_depth_ o - 1) in
  do '(err, m) <- osal_mutex_unlock t (mutex_ o);
  Ret (err, mkOsMutex m (if is_ok err then depth else u32 (depth + 1))).

(** The destructor's loop; every iteration takes one unit of fuel. *)
Fixpoint OsMutex_destroy_loop (fuel : nat) (t : tid) (o : OsMutex S) : outcome (OsMutex S) :=
  if 0 <? lock_depth_ o then
    match fuel with
    | O => Block
    | Datatypes.S fuel =>
        do '(err, m) <- osal_mutex_unlock t (mutex_ o);
        c_assert ndebug (is_ok err);;
        OsMutex_destroy_loop fuel t (mkOsMutex m (u32 (lock_depth_ o - 1)))
    end
  else Ret o.

Definition OsMutex_destroy (t : tid) (o : OsMutex S) : outcome (OsMutex S) :=
  OsMutex_destroy_loop (Z.to_nat (lock_depth_ o)) t o.

Definition GetNative (o : OsMutex S) : S := mutex_ o.

(** * Executions *)

Inductive event := ELock (t : tid) (timeout : Z) | EUnlock (t : tid).

(** One call; [None] is a call that waits, which leaves the state alone. *)
Definition mutex_step (ev : event) (o : OsMutex S) : outcome (option pos_error * OsMutex S) :=
  match match ev with ELock t timeout => Lock t timeout o | EUnlock t => Unlock t o end with
  | Ret (e, o) => Ret (Some e, o)
  | Block => Ret (None, o)
  | AssertFail => AssertFail
  | Undef => Undef
  | Throw => Throw
  end.

Fixpoint mutex_run (evs : list event) (o : OsMutex S)
    : outcome (list (event * option pos_error) * OsMutex S) :=
  match evs with
  | [] => Ret ([], o)
  | ev :: evs =>
      do '(r, o) <- mutex_step ev o;
      do '(rs, o) <- mutex_run evs o;
      Ret ((ev, r) :: rs, o)
  end.

(** What a successful call adds to the locks that task [t] has. *)
Definition delta (t : tid) (r : event * option pos_error) : Z :=
  match r with
  | (ELock t' _, Some POS_OK) => if decide (t' = t) then 1 else 0
  | (EUnlock t', Some POS_OK) => if decide (t' = t) then -1 else 0
  | _ => 0
  end.

(** Successful locks minus successful unlocks of task [t]. *)
Definition balance (t : tid) (rs : list (event * option pos_error)) : Z :=
  foldr (fun r n => delta t r + n) 0 rs.

(** * The invariant *)

Definition hold_count (h : option (tid * nat)) : Z :=
  match h with Some (_, n) => Z.of_nat n | None => 0 end.

(** The counter agrees with the native mutex. *)
Definition depth_ok (o : OsMutex S) : Prop :=
  lock_depth_ o = u32 (hold_count (mutex_holder (mutex_ o))).

Context `{!OsalMutexLaws S}.

Lemma held_by_release t n t' :
  Z.of_nat (held_by t' (release t n)) = if decide (t = t') then Z.of_nat n else 0.
Proof. destruct n; simpl; by case_decide. Qed.

Lemma held_by_S t h n : held_by t h = Datatypes.S n -> h = Some (t, Datatypes.S n).
Proof. destruct h as [[t' k]|]; simpl; [|done]. case_decide; [by intros ->; subst|done]. Qed.

Lemma grant_held_by t t' h :
  grantable t h = true ->
  Z.of_nat (held_by t' (Some (t, Datatypes.S (held_by t h)))) =
    Z.of_nat (held_by t' h) + (if decide (t = t') then 1 else 0).
Proof.
  destruct h as [[t0 n]|]; simpl; repeat case_decide; subst; try lia; try done.
Qed.

Lemma grant_hold_count t h :
  grantable t h = true -> Z.of_nat (Datatypes.S (held_by t h)) = hold_count h + 1.
Proof.
  destruct h as [[t0 n]|]; simpl; [|lia]. intros ->%bool_decide_eq_true.
  rewrite decide_True by done. lia.
Qed.

Lemma Lock_inv t timeout o e o' :
  Lock t timeout o = Ret (e, o') ->
  (e = POS_OK /\ grantable t (mutex_holder (mutex_ o)) = true /\
   mutex_holder (mutex_ o') = Some (t, Datatypes.S (held_by t (mutex_holder (mutex_ o)))) /\
   lock_depth_ o' = u32 (lock_depth_ o + 1)) \/
  (e <> POS_OK /\ mutex_holder (mutex_ o') = mutex_holder (mutex_ o) /\
   lock_depth_ o' = lock_depth_ o).
Proof.
  unfold Lock. intros ([err m] & E & E')%obind_ret_inv. simplify_eq. unfold is_ok.
  case_bool_decide as He; simpl; [left|right].
  - subst. apply mutex_lock_ok in E as [? ?]. done.
  - apply mutex_lock_err in E; done.
Qed.

Lemma Unlock_inv t o e o' :
  is_u32 (lock_depth_ o) -> Unlock t o = Ret (e, o') ->
  (e = POS_OK /\ exists n, mutex_holder (mutex_ o) = Some (t, Datatypes.S n) /\
   mutex_holder (mutex_ o') = release t n /\ lock_depth_ o' = u32 (lock_depth_ o - 1)) \/
  (e <> POS_OK /\ mutex_holder (mutex_ o') = mutex_holder (mutex_ o) /\
   lock_depth_ o' = lock_depth_ o).
Proof.
  intros Hd. unfold Unlock. intros (_ & _ & ([err m] & E & E')%obind_ret_inv)%obind_ret_inv.
  simplify_eq. destruct (held_by t (mutex_holder (mutex_ o))) as [|n] eqn:Hh.
  - right. destruct (mutex_unlock_other t (mutex_ o) Hh) as (e0 & m0 & E0 & Hne & Hm).
    rewrite E0 in E. simplify_eq. unfold is_ok. rewrite bool_decide_eq_false_2 by done.
    split_and!; [done|done|]. simpl. zwrap.
  - left. apply held_by_S in Hh. destruct (mutex_unlock_own t _ n Hh) as (m0 & E0 & Hm).
    rewrite E0 in E. simplify_eq. split; [done|]. exists n. done.
Qed.

Lemma depth_ok_u32 o : depth_ok o -> is_u32 (lock_depth_ o).
Proof. intros ->. apply u32_range. Qed.

Lemma OsMutex_new_inv t lk timeout mem o :
  OsMutex_new t lk timeout mem = Ret o -> ndebug = false ->
  mutex_holder (mutex_ o) = (if lk then Some (t, 1%nat) else None) /\
  lock_depth_ o = if lk then 1 else 0.
Proof.
  unfold OsMutex_new. intros ([err m] & Ei & E)%obind_ret_inv Hnd. rewrite Hnd in E.
  apply obind_ret_inv in E as (_ & Ha%c_assert_enabled_inv & E).
  apply bool_decide_eq_true in Ha as ->. apply mutex_init_free in Ei.
  destruct lk; simplify_eq; [|done].
  apply obind_ret_inv in E as ([err m'] & El & E).
  apply obind_ret_inv in E as (_ & Ha%c_assert_enabled_inv & E).
  apply bool_decide_eq_true in Ha as ->. simplify_eq. simpl.
  apply mutex_lock_ok in El as [_ ->]. by rewrite Ei.
Qed.

(** One call keeps the counter in step with the native mutex, and changes each
    task's locks by the call's delta. *)
Lemma mutex_step_ok ev o r o' :
  depth_ok o -> mutex_step ev o = Ret (r, o') ->
  depth_ok o' /\
  forall t, Z.of_nat (held_by t (mutex_holder (mutex_ o'))) =
            Z.of_nat (held_by t (mutex_holder (mutex_ o))) + delta t (ev, r).
Proof.
  intros Hok. unfold mutex_step, depth_ok. pose proof (depth_ok_u32 o Hok) as Hd.
  destruct ev as [t timeout|t].
  - destruct (Lock t timeout o) as [[e o1]| | | |] eqn:E; intros ?; simplify_eq; simpl.
    + destruct (Lock_inv _ _ _ _ _ E) as [(-> & Hg & Hh & Hl)|(He & -> & ->)].
      * rewrite Hl, Hok, Hh. split; [|intros t'; by apply grant_held_by].
        simpl. rewrite grant_hold_count by done. zwrap.
      * split; [done|]. intros t'. destruct e; try done; lia.
    + split; [done|]. intros. lia.
  - destruct (Unlock t o) as [[e o1]| | | |] eqn:E; intros ?; simplify_eq; simpl.
    + destruct (Unlock_inv _ _ _ _ Hd E) as [(-> & n & Hh & Hh' & Hl)|(He & -> & ->)].
      * rewrite Hl, Hok, Hh, Hh'. split; [destruct n; simpl; zwrap|].
        intros t'. rewrite held_by_release. simpl. case_decide; lia.
      * split; [done|]. intros t'. destruct e; try done; lia.
    + split; [done|]. intros. lia.
Qed.

Lemma mutex_run_ok evs o rs o' :
  depth_ok o -> mutex_run evs o = Ret (rs, o') ->
  depth_ok o' /\
  forall t, Z.of_nat (held_by t (mutex_holder (mutex_ o'))) =
            Z.of_nat (held_by t (mutex_holder (mutex_ o))) + balance t rs.
Proof.
  revert o rs. induction evs as [|ev evs IH]; intros o rs Hok; simpl.
  - intros ?; simplify_eq. split; [done|]. intros. simpl. lia.
  - intros ([r o1] & E1 & ([rs1 o2] & E2 & E)%obind_ret_inv)%obind_ret_inv. simplify_eq.
    destruct (mutex_step_ok _ _ _ _ Hok E1) as [Hok1 Hd1].
    destruct (IH _ _ Hok1 E2) as [Hok2 Hd2]. split; [done|].
    intros t. rewrite Hd2, Hd1. unfold balance. simpl. lia.
Qed.

(** * Properties *)

(** C13. Mutual exclusion through the wrapper, over any port with the
    mutex laws of [OsalApi] and for any interleaving of the calls of any tasks: counting
    successful locks minus successful unlocks, no task goes negative, at most
    one task is positive, and [lock_depth_] is then its count (modulo 2^32). *)
Theorem os_mutex_exclusion t0 lk timeout mem o evs rs o' :
  ndebug = false ->
  OsMutex_new t0 lk timeout mem = Ret o -> mutex_run evs o = Ret (rs, o') ->
  let bal t := (if lk && bool_decide (t0 = t) then 1 else 0) + balance t rs in
  (forall t, 0 <= bal t) /\
  (forall t t', 0 < bal t -> t <> t' -> bal t' = 0) /\
  (forall t, 0 < bal t -> lock_depth_ o' = u32 (bal t)).
Proof.
  intros Hnd Hnew Hrun. destruct (OsMutex_new_inv _ _ _ _ _ Hnew Hnd) as [Hh Hl].
  assert (depth_ok o) as Hok by (unfold depth_ok; rewrite Hh, Hl; by destruct lk).
  destruct (mutex_run_ok _ _ _ _ Hok Hrun) as [Hok' Hbal].
  assert (forall t, Z.of_nat (held_by t (mutex_holder (mutex_ o'))) =
    (if lk && bool_decide (t0 = t) then 1 else 0) + balance t rs) as Hb.
  { intros t. rewrite Hbal, Hh. destruct lk; simpl; [|done].
    case_decide; case_bool_decide; simpl; lia || done. }
  cbv zeta. split_and!.
  - intros t. rewrite <- Hb. lia.
  - intros t t'. rewrite <- !Hb. destruct (mutex_holder (mutex_ o')) as [[t1 n]|]; simpl;
      [|lia]. repeat case_decide; subst; try done; lia.
  - intros t. rewrite <- Hb. rewrite Hok'.
    destruct (mutex_holder (mutex_ o')) as [[t1 n]|]; simpl; [|lia]. by case_decide.
Qed.

Lemma destroy_loop_owner t n m :
  mutex_holder m = release t n -> Z.of_nat n < 2 ^ 32 ->
  exists o', OsMutex_destroy_loop n t (mkOsMutex m (Z.of_nat n)) = Ret o' /\
    mutex_holder (mutex_ o') = None /\ lock_depth_ o' = 0.
Proof.
  revert m. induction n as [|n IH]; intros m Hm Hn; cbn [OsMutex_destroy_loop lock_depth_ mutex_].
  - by eexists.
  - destruct (mutex_unlock_own t m n Hm) as (m' & -> & Hm').
    rewrite (proj2 (Z.ltb_lt _ _)) by lia. simpl. unfold is_ok.
    rewrite bool_decide_eq_true_2, c_assert_true by done. simpl.
    replace (u32 (Z.of_nat (Datatypes.S n) - 1)) with (Z.of_nat n) by zwrap.
    apply IH; [done|lia].
Qed.

(** The destructor terminates. Run by the task that holds the mutex, it
    releases every level and leaves the mutex free; run by another task while
    the mutex is held, it fails its assertion. *)
Theorem os_mutex_destroy_spec t o :
  ndebug = false -> depth_ok o -> hold_count (mutex_holder (mutex_ o)) < 2 ^ 32 ->
  match OsMutex_destroy t o with
  | Ret o' => grantable t (mutex_holder (mutex_ o)) = true /\
              mutex_holder (mutex_ o') = None /\ lock_depth_ o' = 0
  | AssertFail => grantable t (mutex_holder (mutex_ o)) = false
  | Undef | Throw | Block => False
  end.
Proof.
  destruct o as [m d]. unfold depth_ok, OsMutex_destroy. simpl. intros Hnd Hd Hb.
  pose proof (mutex_holder_pos m) as Hpos.
  rewrite u32_small in Hd by (unfold is_u32; destruct (mutex_holder m) as [[]|]; simpl in *; lia).
  subst d. destruct (mutex_holder m) as [[t' n]|] eqn:Hm; simpl in *.
  - specialize (Hpos t' n eq_refl). rewrite Nat2Z.id. destruct (decide (t' = t)) as [->|Hne].
    + destruct (destroy_loop_owner t n m) as (o' & -> & ? & ?); [|lia|].
      { rewrite Hm. destruct n; [lia | done]. }
      by rewrite bool_decide_eq_true_2.
    + destruct n as [|n]; [lia|]. cbn [OsMutex_destroy_loop lock_depth_ mutex_].
      rewrite (proj2 (Z.ltb_lt _ _)) by lia.
      destruct (mutex_unlock_other t m) as (e & m' & -> & He & _).
      { rewrite Hm. simpl. by rewrite decide_False. }
      simpl. unfold is_ok. rewrite (bool_decide_eq_false_2 (e = POS_OK)), Hnd by done. simpl.
      by rewrite bool_decide_eq_false_2.
  - by rewrite Hm.
Qed.

(** An [Unlock] by a task that does not hold the mutex answers an error and
    leaves the owner, the count and [lock_depth_] as they were, with or without
    assertions; with them it must not be called on an unlocked mutex. *)
Theorem os_mutex_unlock_by_other t o :
  depth_ok o -> held_by t (mutex_holder (mutex_ o)) = 0%nat ->
  match Unlock t o with
  | Ret (e, o') => e <> POS_OK /\ mutex_holder (mutex_ o') = mutex_holder (mutex_ o) /\
                   lock_depth_ o' = lock_depth_ o
  | AssertFail => ndebug = false /\ lock_depth_ o = 0
  | Undef | Throw | Block => False
  end.
Proof.
  intros Hok Hh. pose proof (depth_ok_u32 o Hok) as Hd.
  destruct (Unlock t o) as [[e o']| | | |] eqn:E.
  - destruct (Unlock_inv _ _ _ _ Hd E) as [(_ & n & Hn & _)|]; [|done].
    rewrite Hn in Hh. simpl in Hh. by rewrite decide_True in Hh.
  - unfold Unlock, c_assert in E. destruct ndebug; simpl in E.
    + destruct (mutex_unlock_other t _ Hh) as (? & ? & E' & _). by rewrite E' in E.
    + split; [done|]. destruct (Z.ltb_spec 0 (lock_depth_ o)); [|zwrap]. simpl in E.
      destruct (mutex_unlock_other t _ Hh) as (? & ? & E' & _). by rewrite E' in E.
  - unfold Unlock, c_assert in E. destruct (mutex_unlock_other t _ Hh) as (? & ? & E' & _).
    rewrite E' in E. by destruct (_ || _).
  - unfold Unlock, c_assert in E. destruct (mutex_unlock_other t _ Hh) as (? & ? & E' & _).
    rewrite E' in E. by destruct (_ || _).
  - unfold Unlock, c_assert in E. destruct (mutex_unlock_other t _ Hh) as (? & ? & E' & _).
    rewrite E' in E. by destruct (_ || _).
Qed.
End OsMutex.

(** * Witnesses over the POSIX port *)

From S2P Require Import PosixMutex.

#[local] Existing Instance linux_errno.
#[local] Instance witness_mutex : OsalMutex (pos_mutex ref_mutex) :=
  posix_osal_mutex 0 0 (Some (mkTimespec 5 0)).
#[local] Instance witness_mutex_laws : OsalMutexLaws (pos_mutex ref_mutex).
Proof. exact (posix_mutex_osal_laws 0 0 (Some (mkTimespec 5 0))). Defined.

Definition witness_mem (m : ref_mutex) : pos_mutex ref_mutex :=
  mkPosMutex m PTHREAD_MUTEX_RECURSIVE (mkTimespec 0 0).

Example os_mutex_exclusion_witness :
  let evs := [ELock 1 0; ELock 1 2147483647; ELock 2 0; EUnlock 1; EUnlock 2] in
  let o := mkOsMutex (witness_mem None) 0 in
  let rs := [(ELock 1 0, Some POS_OK); (ELock 1 2147483647, Some POS_OK);
             (ELock 2 0, Some POS_TIMEOUT); (EUnlock 1, Some POS_OK);
             (EUnlock 2, Some POS_ERR_PRIV)] in
  let o' := mkOsMutex (mkPosMutex (Some (1%nat, 0%nat)) PTHREAD_MUTEX_RECURSIVE (mkTimespec 5 0)) 1 in
  let bal t := 0 + balance t rs in
  (forall t, 0 <= bal t) /\
  (forall t t', 0 < bal t -> t <> t' -> bal t' = 0) /\
  (forall t, 0 < bal t -> lock_depth_ o' = u32 (bal t)).
Proof.
  intros evs o rs o'.
  exact (os_mutex_exclusion false 0%nat false 0 (witness_mem None) o evs rs o'
           eq_refl eq_refl eq_refl).
Defined.

Example os_mutex_destroy_spec_witness :
  let o := mkOsMutex (witness_mem (Some (3%nat, 1%nat))) 2 in
  depth_ok o /\
  exists o', OsMutex_destroy false 3 o = Ret o' /\
    (grantable 3 (Some (3%nat, 2%nat)) = true /\ mutex_holder (mutex_ o') = None /\ lock_depth_ o' = 0).
Proof.
  intros o. assert (depth_ok o) as Hok by reflexivity. split; [exact Hok|].
  exists (mkOsMutex (witness_mem None) 0). split; [reflexivity|].
  exact (os_mutex_destroy_spec false 3%nat o eq_refl Hok eq_refl).
Defined.

Example os_mutex_unlock_by_other_witness :
  let o := mkOsMutex (witness_mem (Some (3%nat, 1%nat))) 2 in
  exists e o', Unlock false 4 o = Ret (e, o') /\
    (e <> POS_OK /\ mutex_holder (mutex_ o') = mutex_holder (mutex_ o) /\
     lock_depth_ o' = lock_depth_ o).
Proof.
  intros o. exists POS_ERR_PRIV, o. split; [reflexivity|].
  exact (os_mutex_unlock_by_other false 4%nat o eq_refl eq_refl).
Defined.
