(* ===== verification/OsMutexThreads.v ===== *)
(** include/poski/OsMutex.h, statement by statement: [lock_depth_] is a plain
    [uint32_t] that [Lock] and [Unlock] read and write in separate statements,
    while other tasks run. Over the mutex interface of [OsalApi], like OsMutex,
    whose uninterrupted [Lock] and [Unlock] are runs of these statements. *)

From S2P Require Import Prelude OsTypes Pthread OsalApi OsMutex.

(** Where a task is inside [Lock] or [Unlock], named after the statement it runs
    next; [v] is the value it has computed for [lock_depth_]. *)
Inductive position :=
| LockNative (timeout : Z)
| LockLoad
| LockStore (v : Z)
| UnlockAssert
| UnlockLoad
| UnlockStore (v : Z)
| UnlockNative
| RevertLoad
| RevertStore (v : Z).

(** The object and the tasks inside one of its methods. *)
Record config (S : Type) := mkConfig { object : OsMutex S; threads : gmap tid position }.
Arguments mkConfig {S} object threads.
Arguments object {S} c.
Arguments threads {S} c.

(** A task calls a method, or runs its next statement. *)
Inductive move :=
| BeginLock (t : tid) (timeout : Z)
| BeginUnlock (t : tid)
| Run (t : tid).

Section OsMutexThreads.
Context {S : Type} `{OsalMutex S}.

(** Whether [assert] is compiled out. *)
Variable ndebug : bool.

Definition owner (c : config S) : option (tid * nat) := mutex_holder (mutex_ (object c)).

Definition go (t : tid) (p : position) (o : OsMutex S) (c : config S) : config S :=
  mkConfig o (<[t := p]> (threads c)).
Definition leave (t : tid) (o : OsMutex S) (c : config S) : config S :=
  mkConfig o (delete t (threads c)).

(** A native call that waits is a statement that cannot run yet. *)
Definition native (m : outcome (config S)) : option (outcome (config S)) :=
  match m with Block => None | r => Some r end.

(** The next statement of task [t], which is at position [p]. *)
Definition run_thread (t : tid) (p : position) (c : config S) : option (outcome (config S)) :=
  let 'mkOsMutex m depth := object c in
  match p with
  | LockNative timeout =>
      native (do '(err, m) <- osal_mutex_lock t timeout m;
              let o := mkOsMutex m depth in
              Ret (if is_ok err then go t LockLoad o c else leave t o c))
  | LockLoad => Some (Ret (go t (LockStore (u32 (depth + 1))) (object c) c))
  | LockStore v => Some (Ret (leave t (mkOsMutex m v) c))
  | UnlockAssert =>
      Some (c_assert ndebug (0 <? depth);; Ret (go t UnlockLoad (object c) c))
  | UnlockLoad => Some (Ret (go t (UnlockStore (u32 (depth - 1))) (object c) c))
  | UnlockStore v => Some (Ret (go t UnlockNative (mkOsMutex m v) c))
  | UnlockNative =>
      native (do '(err, m) <- osal_mutex_unlock t m;
              let o := mkOsMutex m depth in
              Ret (if is_ok err then leave t o c else go t RevertLoad o c))
  | RevertLoad => Some (Ret (go t (RevertStore (u32 (depth + 1))) (object c) c))
  | RevertStore v => Some (Ret (leave t (mkOsMutex m v) c))
  end.

Definition exec (mv : move) (c : config S) : option (outcome (config S)) :=
  match mv with
  | BeginLock t timeout =>
      match threads c !! t with
      | None => Some (Ret (go t (LockNative timeout) (object c) c))
      | Some _ => None
      end
  | BeginUnlock t =>
      match threads c !! t with
      | None => Some (Ret (go t UnlockAssert (object c) c))
      | Some _ => None
      end
  | Run t =>
      match threads c !! t with
      | Some p => run_thread t p c
      | None => None
      end
  end.

Fixpoint exec_all (mvs : list move) (c : config S) : option (outcome (config S)) :=
  match mvs with
  | [] => Some (Ret c)
  | mv :: mvs =>
      match exec mv c with
      | Some (Ret c') => exec_all mvs c'
      | r => r
      end
  end.

(** * The discipline, and data races *)

(** A task unlocks only what it holds. *)
Definition disciplined (mv : move) (c : config S) : Prop :=
  match mv with BeginUnlock t => held_by t (owner c) <> 0%nat | _ => True end.

Inductive reachable (o : OsMutex S) : config S -> Prop :=
| reach_init : reachable o (mkConfig o ∅)
| reach_step c mv c' :
    reachable o c -> disciplined mv c -> exec mv c = Some (Ret c') -> reachable o c'.

(** What the statement at [p] does to [lock_depth_]: nothing, a read
    ([Some false]) or a write ([Some true]). *)
Definition depth_access (p : position) : option bool :=
  match p with
  | LockNative _ | UnlockNative => None
  | LockLoad | UnlockLoad | RevertLoad => Some false
  | UnlockAssert => if ndebug then None else Some false
  | LockStore _ | UnlockStore _ | RevertStore _ => Some true
  end.

(** Two tasks are about to access [lock_depth_], one of them to write it. *)
Definition race (c : config S) : Prop :=
  exists t1 t2 p1 p2 b, t1 <> t2 /\
    threads c !! t1 = Some p1 /\ threads c !! t2 = Some p2 /\
    depth_access p1 = Some true /\ depth_access p2 = Some b.

(** * The invariant *)

(** How much the counter lags behind the lock count while the owner is at [p]. *)
Definition lag (p : position) : Z :=
  match p with LockLoad | LockStore _ | UnlockNative => 1 | _ => 0 end.

Definition lag_of (h : option (tid * nat)) (ths : gmap tid position) : Z :=
  match h with
  | Some (t, _) => match ths !! t with Some p => lag p | None => 0 end
  | None => 0
  end.

(** Past the native lock a task owns the mutex, and the value it is about to
    write is the one the counter then should have. *)
Definition position_ok (h : option (tid * nat)) (t : tid) (p : position) : Prop :=
  match p with
  | LockNative _ => True
  | LockLoad | UnlockAssert | UnlockLoad | UnlockNative => held_by t h <> 0%nat
  | LockStore v => held_by t h <> 0%nat /\ v = u32 (hold_count h)
  | UnlockStore v => held_by t h <> 0%nat /\ v = u32 (hold_count h - 1)
  | RevertLoad | RevertStore _ => False
  end.

Record inv (c : config S) : Prop := {
  inv_depth : lock_depth_ (object c) = u32 (hold_count (owner c) - lag_of (owner c) (threads c));
  inv_threads : forall t p, threads c !! t = Some p -> position_ok (owner c) t p
}.

Context `{!OsalMutexLaws S}.

Lemma held_by_inv t h : held_by t h <> 0%nat -> exists n, h = Some (t, Datatypes.S n).
Proof. destruct (held_by t h) as [|n] eqn:E; [done|]. exists n. by apply held_by_S. Qed.

Lemma held_by_agree t t' h : held_by t h <> 0%nat -> held_by t' h <> 0%nat -> t = t'.
Proof. intros [n ->]%held_by_inv [n' E]%held_by_inv. congruence. Qed.

Lemma lag_of_own t h ths : held_by t h <> 0%nat ->
  lag_of h ths = match ths !! t with Some p => lag p | None => 0 end.
Proof. by intros [n ->]%held_by_inv. Qed.

Lemma lag_of_other t h (ths ths' : gmap tid position) :
  held_by t h = 0%nat -> (forall s n, h = Some (s, n) -> (0 < n)%nat) ->
  (forall s, s <> t -> ths' !! s = ths !! s) -> lag_of h ths' = lag_of h ths.
Proof.
  destruct h as [[s n]|]; simpl; [|done]. intros Hz Hpos Hths.
  rewrite Hths; [done|]. intros ->. rewrite decide_True in Hz by done. specialize (Hpos t n eq_refl). lia.
Qed.

(** ** Threads that move on, and threads that leave *)

Lemma inv_go t p o c :
  inv c -> mutex_holder (mutex_ o) = owner c -> position_ok (owner c) t p ->
  held_by t (owner c) <> 0%nat -> lock_depth_ o = u32 (hold_count (owner c) - lag p) ->
  inv (go t p o c).
Proof.
  intros [Hd Hp] Ho Hok Hh Hl. split; unfold owner; simpl; rewrite Ho.
  - rewrite (lag_of_own t) by done. by rewrite lookup_insert_eq.
  - intros t' p'. rewrite lookup_insert. case_decide; [|by apply Hp]. by intros ?; simplify_eq.
Qed.

Lemma inv_leave t o c :
  inv c -> mutex_holder (mutex_ o) = owner c ->
  held_by t (owner c) <> 0%nat -> lock_depth_ o = u32 (hold_count (owner c)) ->
  inv (leave t o c).
Proof.
  intros [Hd Hp] Ho Hh Hl. split; unfold owner; simpl; rewrite Ho.
  - rewrite (lag_of_own t), lookup_delete_eq by done. by rewrite Z.sub_0_r.
  - intros t' p'. rewrite lookup_delete. case_decide; [done|]. by apply Hp.
Qed.

Lemma inv_enter t timeout c :
  inv c -> threads c !! t = None -> inv (go t (LockNative timeout) (object c) c).
Proof.
  intros [Hd Hp] Ht. split; unfold owner; simpl; fold (owner c).
  - rewrite Hd. f_equal. f_equal. unfold lag_of. destruct (owner c) as [[s n]|]; [|done].
    rewrite lookup_insert. case_decide; [subst; by rewrite Ht|done].
  - intros t' p'. rewrite lookup_insert. case_decide; [|by apply Hp]. by intros ?; simplify_eq.
Qed.

(** The other threads do not notice that the mutex is granted or released:
    they are waiting for it. *)
Lemma others_wait t c t' p :
  inv c -> grantable t (owner c) = true -> t' <> t -> threads c !! t' = Some p ->
  exists timeout, p = LockNative timeout.
Proof.
  intros [_ Hp] Hg Hne Ht. specialize (Hp t' p Ht).
  assert (held_by t' (owner c) = 0%nat) as Hz.
  { destruct (owner c) as [[s n]|]; simpl in *; [|done]. apply bool_decide_eq_true in Hg as ->.
    by rewrite decide_False. }
  destruct p as [d| |v| | |v| | |v]; simpl in Hp;
    first [by exists d | contradiction | by destruct Hp as [Hp _]].
Qed.

Lemma inv_granted t c m d :
  inv c -> threads c !! t = Some (LockNative d) -> grantable t (owner c) = true ->
  mutex_holder m = Some (t, Datatypes.S (held_by t (owner c))) ->
  inv (go t LockLoad (mkOsMutex m (lock_depth_ (object c))) c).
Proof.
  intros Hi Ht Hg Hm. pose proof (inv_depth c Hi) as Hd.
  assert (lag_of (owner c) (threads c) = 0) as Hlag.
  { unfold lag_of. destruct (owner c) as [[s n]|]; [|done]. simpl in Hg.
    apply bool_decide_eq_true in Hg as ->. by rewrite Ht. }
  split; unfold owner; simpl; rewrite Hm.
  - rewrite (lag_of_own t) by (simpl; by rewrite decide_True). rewrite lookup_insert_eq, Hd, Hlag.
    cbn [lag hold_count]. rewrite (grant_hold_count t (owner c) Hg). f_equal. lia.
  - intros t' p'. rewrite lookup_insert. case_decide as Hc.
    + intros ?; simplify_eq. simpl. by rewrite decide_True.
    + intros Hp'. by destruct (others_wait t c t' p' Hi Hg (not_eq_sym Hc) Hp') as [? ->].
Qed.

Lemma inv_released t n c m :
  inv c -> owner c = Some (t, Datatypes.S n) -> threads c !! t = Some UnlockNative ->
  mutex_holder m = release t n -> inv (leave t (mkOsMutex m (lock_depth_ (object c))) c).
Proof.
  intros Hi Ho Ht Hm. pose proof (inv_depth c Hi) as Hd. rewrite Ho in Hd. simpl in Hd. rewrite Ht in Hd.
  split; unfold owner; simpl; rewrite Hm.
  - rewrite Hd. f_equal. destruct n; simpl; [done|]. rewrite lookup_delete_eq. lia.
  - intros t' p'. rewrite lookup_delete. case_decide as Hc; [done|]. intros Hp'.
    destruct (others_wait t c t' p' Hi) as [? ->]; [| |done|done].
    + rewrite Ho. simpl. by apply bool_decide_eq_true.
    + done.
Qed.

Lemma inv_refused t c m d :
  inv c -> threads c !! t = Some (LockNative d) -> mutex_holder m = owner c ->
  inv (leave t (mkOsMutex m (lock_depth_ (object c))) c).
Proof.
  intros [Hd Hp] Ht Hm. split; unfold owner; simpl; rewrite Hm.
  - rewrite Hd. f_equal. f_equal. unfold lag_of. destruct (owner c) as [[s n]|]; [|done].
    rewrite lookup_delete. case_decide; [subst; by rewrite Ht|done].
  - intros t' p'. rewrite lookup_delete. case_decide; [done|]. by apply Hp.
Qed.

(** ** Every statement keeps the invariant *)

Lemma depth_inv_run t p c c' :
  inv c -> threads c !! t = Some p -> run_thread t p c = Some (Ret c') -> inv c'.
Proof.
  intros Hi Ht. pose proof (inv_threads c Hi t p Ht) as Hp. pose proof (inv_depth c Hi) as Hd.
  unfold run_thread. destruct (object c) as [m depth] eqn:Ho. simpl in Hd.
  assert (mutex_holder m = owner c) as Hm by (unfold owner; by rewrite Ho).
  assert (depth = lock_depth_ (object c)) as Hdep by (by rewrite Ho).
  destruct p; simpl in Hp; try done.
  - unfold native. destruct (osal_mutex_lock t timeout m) as [[err m1]| | | |] eqn:E; simpl; [|done..].
    intros [= <-]. unfold is_ok. case_bool_decide as He; rewrite ?Hdep.
    + subst err. apply mutex_lock_ok in E as [Hg Hm1]. rewrite Hm in Hg, Hm1. by eapply inv_granted.
    + apply mutex_lock_err in E; [|done]. eapply inv_refused; [done..|]. by rewrite E.
  - intros [= <-]. rewrite (lag_of_own t), Ht in Hd by done. simpl in Hd.
    apply inv_go; simpl; try done. split; [done|]. rewrite Hd. zwrap.
  - intros [= <-]. destruct Hp as [Hh ->]. by apply inv_leave.
  - intros [= E]. apply obind_ret_inv in E as (_ & _ & [= <-]).
    rewrite (lag_of_own t), Ht in Hd by done. by apply inv_go.
  - intros [= <-]. rewrite (lag_of_own t), Ht in Hd by done. simpl in Hd.
    apply inv_go; simpl; try done. split; [done|]. rewrite Hd. zwrap.
  - intros [= <-]. destruct Hp as [Hh ->]. by apply inv_go.
  - destruct (held_by_inv t (owner c) Hp) as [n Hn]. unfold native.
    destruct (mutex_unlock_own t m n) as (m1 & -> & Hm1); [by rewrite Hm|]. simpl.
    intros [= <-]. rewrite Hdep. by eapply inv_released.
Qed.

Lemma depth_inv_exec mv c c' : inv c -> disciplined mv c -> exec mv c = Some (Ret c') -> inv c'.
Proof.
  intros Hi Hmv. destruct mv as [t timeout|t|t]; simpl in *;
    destruct (threads c !! t) as [p|] eqn:Ht; try done.
  - intros ?; simplify_eq. by apply inv_enter.
  - intros ?; simplify_eq. apply inv_go; try done. simpl. rewrite (inv_depth c Hi).
    rewrite (lag_of_own t), Ht by done. done.
  - by apply depth_inv_run.
Qed.

Lemma reachable_ok o c : depth_ok o -> reachable o c -> inv c.
Proof.
  intros Ho. induction 1 as [|c mv c' _ IH Hmv E]; [|by eapply depth_inv_exec].
  split; unfold owner; simpl; [|by intros t p; rewrite lookup_empty].
  rewrite Ho. f_equal. unfold lag_of. destruct (mutex_holder _) as [[t n]|]; [|done].
  rewrite lookup_empty. lia.
Qed.

Lemma past_native_own c t p :
  inv c -> threads c !! t = Some p -> (forall timeout, p <> LockNative timeout) ->
  held_by t (owner c) <> 0%nat.
Proof.
  intros [_ Hp] Ht Hne. specialize (Hp t p Ht).
  destruct p as [d| |v| | |v| | |v]; simpl in Hp; first [done | by destruct (Hne d) | by destruct Hp].
Qed.

Lemma past_native_runs c t p :
  inv c -> threads c !! t = Some p -> (forall timeout, p <> LockNative timeout) ->
  (exists c', exec (Run t) c = Some (Ret c')) \/
  (p = UnlockAssert /\ ndebug = false /\ u32 (hold_count (owner c)) = 0).
Proof.
  intros Hi Ht Hne. pose proof (past_native_own c t p Hi Ht Hne) as Hh.
  pose proof (inv_threads c Hi t p Ht) as Hp. pose proof (inv_depth c Hi) as Hd.
  rewrite (lag_of_own t), Ht in Hd by done. cbn [exec]. rewrite Ht. unfold run_thread.
  assert (mutex_holder (mutex_ (object c)) = owner c) as Hm by done.
  destruct (object c) as [m depth]. simpl in Hd, Hm.
  destruct p as [d| |v| | |v| | |v]; simpl in Hp, Hd; try done; try (by left; eexists).
  - by destruct (Hne d).
  - rewrite Z.sub_0_r in Hd. rewrite <- Hd. unfold c_assert.
    destruct ndebug; [by left; eexists|]. destruct (Z.ltb_spec 0 depth); [by left; eexists|].
    right. split_and!; [done..|]. pose proof (u32_range (hold_count (owner c))). unfold is_u32 in *. lia.
  - left. destruct (held_by_inv t (owner c) Hp) as [n Hn].
    destruct (mutex_unlock_own t m n) as (m1 & -> & _); [by rewrite Hm|]. by eexists.
Qed.

Lemma native_ret (m : outcome (config S)) c : m = Ret c -> native m = Some (Ret c).
Proof. by intros ->. Qed.

(** ** One task alone *)

Lemma go_alone t p q o o' (ths : gmap tid position) :
  go t q o' (mkConfig o (<[t := p]> ths)) = mkConfig o' (<[t := q]> ths).
Proof. unfold go. simpl. by rewrite insert_insert_eq. Qed.

Lemma leave_alone t p o o' (ths : gmap tid position) :
  ths !! t = None -> leave t o' (mkConfig o (<[t := p]> ths)) = mkConfig o' ths.
Proof. intros Ht. unfold leave. simpl. by rewrite delete_insert_id. Qed.

Lemma exec_all_run t p o (ths : gmap tid position) mvs :
  exec_all (Run t :: mvs) (mkConfig o (<[t := p]> ths)) =
    match run_thread t p (mkConfig o (<[t := p]> ths)) with
    | Some (Ret c) => exec_all mvs c
    | r => r
    end.
Proof. cbn [exec_all exec threads]. by rewrite lookup_insert_eq. Qed.

(** Runs the next statement of the only task that moves. *)
Ltac run_alone :=
  rewrite exec_all_run; cbn [run_thread object];
  repeat match goal with E : _ = Ret _ |- _ => rewrite E end;
  cbn [obind native]; rewrite ?go_alone, ?leave_alone by done.

(** * Properties *)

(** C8. The comment in [Unlock], "Decrement first while holding the lock", made
    good for every interleaving of the statements of any tasks, each of which
    unlocks only what it holds: two tasks never access [lock_depth_] at the same
    time with one of them writing it; the native unlock never fails, so that
    the branch that reverts the count is not taken; a task that is past the
    native lock can always run on, and its assertion holds unless the mutex is
    locked a multiple of 2^32 times; and whenever no task is inside a method,
    the counter is the lock count of the native mutex. *)
Theorem os_mutex_depth_race_free o c :
  depth_ok o -> reachable o c ->
  ~ race c /\
  (forall t p, threads c !! t = Some p -> p <> RevertLoad /\ forall v, p <> RevertStore v) /\
  (forall t p, threads c !! t = Some p -> (forall timeout, p <> LockNative timeout) ->
     (exists c', exec (Run t) c = Some (Ret c')) \/
     (p = UnlockAssert /\ ndebug = false /\ u32 (hold_count (owner c)) = 0)) /\
  (threads c = ∅ -> depth_ok (object c)).
Proof.
  intros Ho Hr. pose proof (reachable_ok o c Ho Hr) as Hi. split_and!.
  - intros (t1 & t2 & p1 & p2 & b & Hne & H1 & H2 & A1 & A2). apply Hne.
    apply (held_by_agree _ _ (owner c)); [eapply (past_native_own c t1 p1) | eapply (past_native_own c t2 p2)];
      by try (intros d ->).
  - intros t p Ht. by split; [intros -> | intros v ->]; apply (inv_threads c Hi t) in Ht.
  - intros t p. by apply past_native_runs.
  - intros Hemp. unfold depth_ok. rewrite (inv_depth c Hi), Hemp. fold (owner c). f_equal.
    unfold lag_of. destruct (owner c) as [[t n]|]; [|done]. rewrite lookup_empty. lia.
Qed.

(** Without interruption the statements are the methods of OsMutex. *)
Theorem os_mutex_methods_are_runs t timeout o ths e o' :
  ths !! t = None ->
  (Lock t timeout o = Ret (e, o') ->
     exists n, exec_all (BeginLock t timeout :: replicate n (Run t)) (mkConfig o ths) =
       Some (Ret (mkConfig o' ths))) /\
  (Unlock ndebug t o = Ret (e, o') ->
     exists n, exec_all (BeginUnlock t :: replicate n (Run t)) (mkConfig o ths) =
       Some (Ret (mkConfig o' ths))).
Proof.
  intros Ht. destruct o as [m depth]. split.
  - unfold Lock. intros ([err m1] & E & [= -> <-])%obind_ret_inv. cbn [mutex_] in E.
    exists (if is_ok e then 3%nat else 1%nat).
    cbn [exec_all exec threads]. rewrite Ht. unfold go at 1. cbn [object threads].
    destruct (is_ok e) eqn:He; cbn [replicate]; run_alone; rewrite He; [|done].
    by repeat run_alone.
  - unfold Unlock. intros (u & Ha & ([err m1] & E & [= -> <-])%obind_ret_inv)%obind_ret_inv.
    cbn [mutex_ lock_depth_] in E, Ha. exists (if is_ok e then 4%nat else 6%nat).
    cbn [exec_all exec threads]. rewrite Ht. unfold go at 1. cbn [object threads].
    destruct (is_ok e) eqn:He; cbn [replicate]; do 4 run_alone; rewrite He; [done|].
    by repeat run_alone.
Qed.

(** Runs the next statement in a concrete schedule. *)
Ltac next_statement :=
  cbn [exec_all exec]; unfold go, leave; cbn [threads object]; simplify_map_eq;
  cbn [run_thread object];
  repeat match goal with E : _ = Ret _ |- _ => rewrite E end;
  try (rewrite c_assert_true by done); cbn [obind native];
  repeat match goal with E : is_ok _ = _ |- _ => rewrite E end.

(** The comment does not hold for a task that unlocks a mutex it does not
    hold. Its decrement and its revert race with the owner, who locks once more
    meanwhile: the native unlock fails as it should, but one count is lost, and
    the owner's last [Unlock] fails its assertion while it holds the mutex. *)
Theorem os_mutex_foreign_unlock_race t1 t2 timeout m m1 :
  t1 <> t2 -> mutex_holder m = Some (t1, 1%nat) -> osal_mutex_lock t1 timeout m = Ret (POS_OK, m1) ->
  exists mvs1 mvs2 c c' o,
    exec_all mvs1 (mkConfig (mkOsMutex m 1) ∅) = Some (Ret c) /\ race c /\
    exec_all mvs2 c = Some (Ret c') /\ threads c' = ∅ /\
    owner c' = Some (t1, 2%nat) /\ lock_depth_ (object c') = 1 /\
    Unlock false t1 (object c') = Ret (POS_OK, o) /\
    mutex_holder (mutex_ o) = Some (t1, 1%nat) /\ Unlock false t1 o = AssertFail.
Proof.
  intros Hne Hm E. destruct (mutex_lock_ok _ _ _ _ E) as [_ Hm1].
  rewrite Hm in Hm1. simpl in Hm1. rewrite decide_True in Hm1 by done.
  destruct (mutex_unlock_other t2 m1) as (e & m2 & E2 & He & Hm2); [rewrite Hm1; simpl; by rewrite decide_False|].
  destruct (mutex_unlock_own t1 m2 1) as (m3 & E3 & Hm3); [by rewrite Hm2|].
  exists [BeginUnlock t2; Run t2; BeginLock t1 timeout; Run t1; Run t1],
    [Run t2; Run t1; Run t2; Run t2; Run t2; Run t2].
  do 2 eexists. exists (mkOsMutex m3 0).
  assert (is_ok e = false) as Hno by (by apply bool_decide_eq_false_2).
  assert (is_ok POS_OK = true) as Hyes by done.
  split_and!.
  - do 5 next_statement. reflexivity.
  - exists t1, t2. do 3 eexists. split; [done|]. cbn [threads]. by simplify_map_eq.
  - do 6 next_statement. reflexivity.
  - cbn [threads]. apply map_eq. intros t. rewrite lookup_empty.
    repeat (rewrite lookup_delete || rewrite lookup_insert). by repeat case_decide.
  - unfold owner. cbn [object mutex_]. by rewrite Hm2.
  - done.
  - unfold Unlock. cbn [object mutex_ lock_depth_]. rewrite c_assert_true. cbn [obind]. by rewrite E3.
  - done.
  - done.
Qed.
End OsMutexThreads.

(** * Witnesses over the POSIX port *)

From S2P Require Import PosixMutex.

Section Witness.
#[local] Existing Instance linux_errno.
#[local] Instance threads_witness_mutex : OsalMutex (pos_mutex ref_mutex) :=
  posix_osal_mutex 0 0 (Some (mkTimespec 5 0)).
#[local] Instance threads_witness_laws : OsalMutexLaws (pos_mutex ref_mutex) :=
  posix_mutex_osal_laws 0 0 (Some (mkTimespec 5 0)).

(** A schedule whose unlocks are by owners. *)
Fixpoint schedule_ok (mvs : list move) (c : config (pos_mutex ref_mutex)) : Prop :=
  match mvs with
  | [] => True
  | mv :: mvs =>
      disciplined mv c /\
      match exec false mv c with Some (Ret c') => schedule_ok mvs c' | _ => False end
  end.

Lemma schedule_reachable o c mvs c' :
  reachable false o c -> schedule_ok mvs c -> exec_all false mvs c = Some (Ret c') ->
  reachable false o c'.
Proof.
  revert c. induction mvs as [|mv mvs IH]; intros c Hr; simpl; [by intros _ [= <-]|].
  intros [Hmv Hok]. destruct (exec false mv c) as [[c1| | | |]|] eqn:E; try done.
  apply IH; [by eapply reach_step|done].
Qed.

(** Task 1 has locked the mutex and locks it again while task 2 waits. *)
Definition recursive_schedule : list move :=
  [BeginLock 1 2147483647; Run 1; Run 1; Run 1; BeginLock 2 2147483647;
   BeginLock 1 2147483647; Run 1; Run 1].

Definition witness_object (m : ref_mutex) (depth : Z) : OsMutex (pos_mutex ref_mutex) :=
  mkOsMutex (witness_mem m) depth.

Example os_mutex_depth_race_free_witness :
  exists c, exec_all false recursive_schedule (mkConfig (witness_object None 0) ∅) = Some (Ret c) /\
    reachable false (witness_object None 0) c /\
    threads c !! 1%nat = Some (LockStore 2) /\ ~ race false c.
Proof.
  destruct (exec_all false recursive_schedule (mkConfig (witness_object None 0) ∅))
    as [[c| | | |]|] eqn:E; pose proof E as V; vm_compute in V; try discriminate V.
  assert (reachable false (witness_object None 0) c) as Hr.
  { apply (schedule_reachable _ _ _ _ (reach_init false _)) in E; [exact E|].
    vm_compute. repeat split. }
  exists c. split; [reflexivity|]. split; [exact Hr|]. split.
  - injection V as <-. reflexivity.
  - refine (proj1 (os_mutex_depth_race_free false (witness_object None 0) c _ Hr)). reflexivity.
Defined.

Example os_mutex_methods_are_runs_witness :
  let o := witness_object (Some (1%nat, 0%nat)) 1 in
  let o' := witness_object None 0 in
  exists n, exec_all false (BeginUnlock 1 :: replicate n (Run 1)) (mkConfig o {[2%nat := LockNative 0]}) =
    Some (Ret (mkConfig o' {[2%nat := LockNative 0]})).
Proof.
  intros o o'.
  exact (proj2 (os_mutex_methods_are_runs false 1%nat 0 o {[2%nat := LockNative 0]} POS_OK o' eq_refl) eq_refl).
Defined.

Example os_mutex_foreign_unlock_race_witness :
  let m := witness_mem (Some (1%nat, 0%nat)) in
  let m1 := witness_mem (Some (1%nat, 1%nat)) in
  osal_mutex_lock 1%nat 2147483647 m = Ret (POS_OK, m1) /\
  exists mvs1 mvs2 c c' o,
    exec_all false mvs1 (mkConfig (mkOsMutex m 1) ∅) = Some (Ret c) /\ race false c /\
    exec_all false mvs2 c = Some (Ret c') /\ threads c' = ∅ /\
    owner c' = Some (1%nat, 2%nat) /\ lock_depth_ (object c') = 1 /\
    Unlock false 1%nat (object c') = Ret (POS_OK, o) /\
    mutex_holder (mutex_ o) = Some (1%nat, 1%nat) /\ Unlock false 1%nat o = AssertFail.
Proof.
  intros m m1. split; [reflexivity|].
  exact (os_mutex_foreign_unlock_race false 1%nat 2%nat 2147483647 m m1 ltac:(discriminate) eq_refl eq_refl).
Defined.
End Witness.
