(* ===== verification/OsMutexLifetime.v ===== *)
(** The destructor of include/poski/OsMutex.h, statement by statement, while
    other tasks are inside [Lock] and [Unlock] or hold the mutex. Unlike
    [Unlock] it releases the native mutex before it counts down [lock_depth_].
    Over the statements of OsMutexThreads and the mutex interface of [OsalApi]. *)

From S2P Require Import Prelude OsTypes Pthread OsalApi OsMutex OsMutexThreads.

(** Where the destroying task is, named after the statement it runs next. *)
Inductive dposition :=
| DestroyTest                           (* while (lock_depth_ > 0) *)
| DestroyUnlock                         (* err = pos_mutex_unlock(&mutex_); assert(err == POS_OK) *)
| DestroyLoad                           (* lock_depth_--, the value read *)
| DestroyStore (v : Z).                 (* and written *)

(** The object and the tasks in its methods; the task in the destructor; whether
    the object's life is over. *)
Record mlife (S : Type) := mkMLife {
  shared : config S;
  destroyer : option (tid * dposition);
  over : bool
}.
Arguments mkMLife {S} shared destroyer over.
Arguments shared {S} m.
Arguments destroyer {S} m.
Arguments over {S} m.

Inductive mmove :=
| Inside (mv : move)
| BeginDestroy (t : tid)
| Destroying.

Section OsMutexLifetime.
Context {S : Type} `{OsalMutex S}.

Variable ndebug : bool.

(** The next statement of the destructor, run by [t] at [p]. *)
Definition destroy_run (t : tid) (p : dposition) (c : config S) : option (outcome (mlife S)) :=
  let 'mkOsMutex m depth := object c in
  let goes p o := mkMLife (mkConfig o (threads c)) (Some (t, p)) false in
  match p with
  | DestroyTest => Some (Ret
      (if 0 <? depth then goes DestroyUnlock (object c) else mkMLife c None true))
  | DestroyUnlock =>
      match (do '(err, m) <- osal_mutex_unlock t m;
             c_assert ndebug (is_ok err);;
             Ret (goes DestroyLoad (mkOsMutex m depth))) with
      | Block => None
      | r => Some r
      end
  | DestroyLoad => Some (Ret (goes (DestroyStore (u32 (depth - 1))) (object c)))
  | DestroyStore v => Some (Ret (goes DestroyTest (mkOsMutex m v)))
  end.

(** No call begins once the destructor has; a statement on the object when its
    life is over has no defined behaviour. *)
Definition mexec (mv : mmove) (c : mlife S) : option (outcome (mlife S)) :=
  match mv with
  | Inside mv =>
      match mv, destroyer c, over c with
      | Run t, _, true => match threads (shared c) !! t with Some _ => Some Undef | None => None end
      | Run _, d, false =>
          match exec ndebug mv (shared c) with
          | Some r => Some (do c' <- r; Ret (mkMLife c' d false))
          | None => None
          end
      | _, None, false =>
          match exec ndebug mv (shared c) with
          | Some r => Some (do c' <- r; Ret (mkMLife c' None false))
          | None => None
          end
      | _, _, _ => None
      end
  | BeginDestroy t =>
      match destroyer c, over c, threads (shared c) !! t with
      | None, false, None => Some (Ret (mkMLife (shared c) (Some (t, DestroyTest)) false))
      | _, _, _ => None
      end
  | Destroying =>
      match destroyer c with Some (t, p) => destroy_run t p (shared c) | None => None end
  end.

Fixpoint mexec_all (mvs : list mmove) (c : mlife S) : option (outcome (mlife S)) :=
  match mvs with
  | [] => Some (Ret c)
  | mv :: mvs =>
      match mexec mv c with
      | Some (Ret c') => mexec_all mvs c'
      | r => r
      end
  end.

(** A schedule that ends in a failed assertion, or without defined behaviour. *)
Definition goes_wrong (c : mlife S) : Prop :=
  exists mvs r, mexec_all mvs c = Some r /\ forall c', r <> Ret c'.

Context `{!OsalMutexLaws S}.

(** * The destructor alone *)

Lemma mexec_all_app mvs1 mvs2 c c1 :
  mexec_all mvs1 c = Some (Ret c1) -> mexec_all (mvs1 ++ mvs2) c = mexec_all mvs2 c1.
Proof.
  revert c. induction mvs1 as [|mv mvs1 IH]; intros c; simpl; [by intros [= ->]|].
  destruct (mexec mv c) as [[c2| | | |]|]; try done. apply IH.
Qed.

Definition destroying (t : tid) (o : OsMutex S) (ths : gmap tid position) : mlife S :=
  mkMLife (mkConfig o ths) (Some (t, DestroyTest)) false.

(** With nothing in between, the statements are the destructor of OsMutex. *)
Lemma destroy_is_run k t m ths :
  Z.of_nat k < 2 ^ 32 ->
  exists n, mexec_all (replicate n Destroying) (destroying t (mkOsMutex m (Z.of_nat k)) ths) =
    match OsMutex_destroy_loop ndebug k t (mkOsMutex m (Z.of_nat k)) with
    | Ret o => Some (Ret (mkMLife (mkConfig o ths) None true))
    | AssertFail => Some AssertFail
    | _ => None
    end /\
    match OsMutex_destroy_loop ndebug k t (mkOsMutex m (Z.of_nat k)) with
    | Ret _ | AssertFail => True
    | _ => False
    end.
Proof.
  revert m. induction k as [|k IH]; intros m Hk.
  - by exists 1%nat.
  - assert (exists e m', osal_mutex_unlock t m = Ret (e, m')) as (e & m' & E).
    { destruct (held_by t (mutex_holder m)) as [|j] eqn:Eh.
      - destruct (mutex_unlock_other t m Eh) as (e & m' & E & _). by eexists _, _.
      - apply held_by_S in Eh. destruct (mutex_unlock_own t m j Eh) as (m' & E & _). by eexists _, _. }
    cbn [OsMutex_destroy_loop lock_depth_ mutex_]. rewrite E, (proj2 (Z.ltb_lt _ _)) by lia. cbn [obind].
    assert (u32 (Z.of_nat (Datatypes.S k) - 1) = Z.of_nat k) as Hd by zwrap. rewrite Hd.
    destruct (c_assert ndebug (is_ok e)) as [[]| | | |] eqn:Ea; try (by destruct ndebug, (is_ok e)).
    + destruct (IH m') as (n & En & Hr); [lia|]. exists (4 + n)%nat. split; [|exact Hr].
      cbn [obind]. rewrite <- En. cbn [replicate Nat.add mexec_all mexec destroying destroyer shared destroy_run object].
      rewrite (proj2 (Z.ltb_lt _ _)) by lia. cbn [mexec destroyer shared destroy_run object].
      rewrite E. cbn [obind]. rewrite Ea. cbn [obind mexec destroyer shared destroy_run object threads].
      rewrite Hd. reflexivity.
    + exists 2%nat. split; [|done]. cbn [obind replicate mexec_all mexec destroying destroyer shared destroy_run object].
      rewrite (proj2 (Z.ltb_lt _ _)) by lia. cbn [mexec destroyer shared destroy_run object].
      rewrite E. cbn [obind]. by rewrite Ea.
Qed.

(** * The destructor on an object that nobody else uses *)

(** What holds then at each of its statements: [k] levels are left to release,
    or [k] and the one under way. *)
Definition destroy_ok (t : tid) (p : dposition) (o : OsMutex S) (k : nat) : Prop :=
  let at_level holder depth :=
    mutex_holder (mutex_ o) = release t holder /\ lock_depth_ o = Z.of_nat depth /\ Z.of_nat depth < 2 ^ 32 in
  match p with
  | DestroyTest => at_level k k
  | DestroyUnlock => at_level (Datatypes.S k) (Datatypes.S k)
  | DestroyLoad => at_level k (Datatypes.S k)
  | DestroyStore v => at_level k (Datatypes.S k) /\ v = Z.of_nat k
  end.

Definition calm (t : tid) (c : mlife S) : Prop :=
  threads (shared c) = ∅ /\
  match destroyer c with
  | None => over c = true
  | Some (t', p) => t' = t /\ over c = false /\ exists k, destroy_ok t p (object (shared c)) k
  end.

Lemma calm_destroying t p c r :
  threads c = ∅ -> (exists k, destroy_ok t p (object c) k) -> destroy_run t p c = Some r ->
  exists c', r = Ret c' /\ calm t c'.
Proof.
  destruct c as [[m depth] ths]. simpl. intros -> [k Hk]. unfold destroy_run. simpl.
  destruct p as [| | |v]; simpl in Hk.
  - destruct Hk as (Hm & -> & Hlt). intros [= <-]. eexists. split; [reflexivity|].
    destruct (Z.ltb_spec 0 (Z.of_nat k)) as [Hpos|Hz]; split; simpl; try done.
    destruct k as [|k]; [lia|].
    split_and!; [done..|]. by exists k.
  - destruct Hk as (Hm & -> & Hlt). destruct (mutex_unlock_own t m k Hm) as (m' & -> & Hm'). simpl.
    unfold is_ok. rewrite bool_decide_eq_true_2, c_assert_true by done. simpl. intros [= <-].
    eexists. split; [reflexivity|]. split; simpl; [done|]. split_and!; [done..|]. by exists k.
  - destruct Hk as (Hm & -> & Hlt). intros [= <-]. eexists. split; [reflexivity|].
    split; simpl; [done|]. split_and!; [done..|]. exists k. split_and!; [done..|]. zwrap.
  - destruct Hk as ((Hm & -> & Hlt) & ->). intros [= <-]. eexists. split; [reflexivity|].
    split; simpl; [done|]. split_and!; [done..|]. exists k. split_and!; [done..|lia].
Qed.

Lemma calm_step t c mv r : calm t c -> mexec mv c = Some r -> exists c', r = Ret c' /\ calm t c'.
Proof.
  intros [Hths Hd]. destruct mv as [mv|t'|]; cbn [mexec].
  - assert (forall s, threads (shared c) !! s = None) as Hnone by (intros s; by rewrite Hths).
    destruct (destroyer c) as [[t' p]|].
    + destruct Hd as (_ & -> & _). destruct mv as [| |s]; try done. simpl. by rewrite Hnone.
    + rewrite Hd. destruct mv as [| |s]; try done. by rewrite Hnone.
  - destruct (destroyer c) as [[t1 p]|]; [done|]. by rewrite Hd.
  - destruct (destroyer c) as [[t1 p]|]; [|done]. destruct Hd as (-> & _ & Hk). by apply calm_destroying.
Qed.

Lemma calm_not_wrong t c : calm t c -> ~ goes_wrong c.
Proof.
  intros Hc (mvs & r & E & Hr). revert c Hc E. induction mvs as [|mv mvs IH]; intros c Hc; cbn [mexec_all].
  - intros [= <-]. by apply (Hr c).
  - destruct (mexec mv c) as [r1|] eqn:E1; [|done].
    destruct (calm_step t c mv r1 Hc E1) as (c1 & -> & Hc1). by apply IH.
Qed.

Lemma calm_start t m depth :
  depth_ok (mkOsMutex m depth) -> hold_count (mutex_holder m) < 2 ^ 32 ->
  grantable t (mutex_holder m) = true -> calm t (destroying t (mkOsMutex m depth) ∅).
Proof.
  unfold depth_ok. simpl. intros Hok Hb Hg. pose proof (mutex_holder_pos m) as Hpos.
  rewrite u32_small in Hok by (unfold is_u32; destruct (mutex_holder m) as [[]|]; simpl in *; lia). subst depth.
  split; [done|]. split; [done|]. split; [done|]. destruct (mutex_holder m) as [[t1 k]|] eqn:Hm; simpl in *.
  - apply bool_decide_eq_true in Hg as ->. exists k. split_and!; [|done..]. rewrite Hm.
    specialize (Hpos t k eq_refl). destruct k; [lia|done].
  - by exists 0%nat.
Qed.

(** A destructor run alone that ends leaves the other tasks with nothing. *)
Lemma destroyed_under k t m ths s p :
  Z.of_nat k < 2 ^ 32 -> ths !! s = Some p -> goes_wrong (destroying t (mkOsMutex m (Z.of_nat k)) ths).
Proof.
  intros Hk Hs. destruct (destroy_is_run k t m ths Hk) as (n & En & Hr).
  destruct (OsMutex_destroy_loop ndebug k t (mkOsMutex m (Z.of_nat k))) as [o| | | |]; try done.
  - exists (replicate n Destroying ++ [Inside (Run s)]), Undef. split; [|done].
    rewrite (mexec_all_app _ _ _ _ En). cbn [mexec_all mexec over shared threads]. by rewrite Hs.
  - exists (replicate n Destroying), AssertFail. by split.
Qed.

(** * The property *)

(** C33. A task destroys the object, which other tasks have used as they should, in
    any interleaving of its statements with theirs: a schedule that fails an
    assertion or touches the object after its end exists if and only if a task
    is still inside a method, waiting for the native lock included, or another
    task holds the mutex. Otherwise the destructor comes to its end and leaves
    the mutex free. *)
Theorem os_mutex_destroy_exclusive o c t :
  ndebug = false -> depth_ok o -> reachable ndebug o c -> hold_count (owner c) < 2 ^ 32 ->
  threads c !! t = None ->
  exists d, mexec (BeginDestroy t) (mkMLife c None false) = Some (Ret d) /\
  (goes_wrong d <-> threads c <> ∅ \/ grantable t (owner c) = false) /\
  (threads c = ∅ -> grantable t (owner c) = true ->
     exists n d', mexec_all (replicate n Destroying) d = Some (Ret d') /\ over d' = true /\
       owner (shared d') = None).
Proof.
  intros Hnd Ho Hr Hb Ht. pose proof (reachable_ok ndebug o c Ho Hr) as Hi.
  assert (is_u32 (lock_depth_ (object c))) as Hu by (rewrite (inv_depth c Hi); apply u32_range).
  exists (destroying t (object c) (threads c)). split; [simpl; rewrite Ht; by destruct c|].
  assert (threads c = ∅ -> depth_ok (object c)) as Hok.
  { intros E. unfold depth_ok. rewrite (inv_depth c Hi), E. fold (owner c). f_equal.
    unfold lag_of. destruct (owner c) as [[t1 n]|]; [|done]. rewrite lookup_empty. lia. }
  destruct c as [[m depth] ths]. cbn [object threads lock_depth_] in *. unfold owner in *. cbn [object mutex_] in *.
  assert (depth = Z.of_nat (Z.to_nat depth) /\ depth < 2 ^ 32) as [Hdep Hlt] by (unfold is_u32 in Hu; lia).
  destruct (destroy_is_run (Z.to_nat depth) t m ths) as (n & En & Hend); [lia|]. rewrite <- Hdep in En, Hend.
  assert (ths = ∅ -> match OsMutex_destroy ndebug t (mkOsMutex m depth) with
    | Ret o' => grantable t (mutex_holder m) = true /\ mutex_holder (mutex_ o') = None /\ lock_depth_ o' = 0
    | AssertFail => grantable t (mutex_holder m) = false
    | _ => False end) as Hspec.
  { intros E. exact (os_mutex_destroy_spec ndebug t (mkOsMutex m depth) Hnd (Hok E) Hb). }
  unfold OsMutex_destroy in Hspec. cbn [lock_depth_] in Hspec. split; [split|].
  - intros Hw. destruct (decide (ths = ∅)) as [->|]; [right|by left].
    destruct (grantable t (mutex_holder m)) eqn:Hg; [|done]. exfalso. revert Hw. apply (calm_not_wrong t).
    apply calm_start; [by apply Hok|done|done].
  - intros [Hne|Hg].
    + apply map_choose in Hne as (s & p & Hs). rewrite Hdep. apply (destroyed_under _ t m ths s p); [lia|done].
    + destruct (decide (ths = ∅)) as [E|Hne].
      * specialize (Hspec E). destruct (OsMutex_destroy_loop ndebug (Z.to_nat depth) t (mkOsMutex m depth)); try done.
        -- by destruct Hspec as [Hg' _]; rewrite Hg in Hg'.
        -- by exists (replicate n Destroying), AssertFail.
      * apply map_choose in Hne as (s & p & Hs). rewrite Hdep. apply (destroyed_under _ t m ths s p); [lia|done].
  - intros E Hg. specialize (Hspec E).
    destruct (OsMutex_destroy_loop ndebug (Z.to_nat depth) t (mkOsMutex m depth)) as [o'| | | |]; try done.
    + eexists n, _. split; [exact En|]. split; [done|]. apply Hspec.
    + by rewrite Hg in Hspec.
Qed.
End OsMutexLifetime.

(** * The theorem at work *)

Section Witness.
#[local] Existing Instances linux_errno threads_witness_mutex threads_witness_laws.

(** Task 1 has locked the mutex twice. Destroyed by task 1 it comes to its end,
    unless task 2 waits for the lock at that time. *)
Definition relocked : list move :=
  [BeginLock 1 2147483647; Run 1; Run 1; Run 1; BeginLock 1 2147483647; Run 1; Run 1; Run 1].

Example os_mutex_destroy_exclusive_witness :
  exists c1 c2 d1 d2,
    exec_all false relocked (mkConfig (witness_object None 0) ∅) = Some (Ret c1) /\
    exec_all false (relocked ++ [BeginLock 2 2147483647]) (mkConfig (witness_object None 0) ∅) = Some (Ret c2) /\
    mexec false (BeginDestroy 1) (mkMLife c1 None false) = Some (Ret d1) /\
    mexec false (BeginDestroy 1) (mkMLife c2 None false) = Some (Ret d2) /\
    ~ goes_wrong false d1 /\ goes_wrong false d2 /\
    exists n d', mexec_all false (replicate n Destroying) d1 = Some (Ret d') /\ owner (shared d') = None.
Proof.
  destruct (exec_all false relocked (mkConfig (witness_object None 0) ∅)) as [[c1| | | |]|] eqn:E1;
    pose proof E1 as V1; vm_compute in V1; try discriminate V1.
  destruct (exec_all false (relocked ++ [BeginLock 2 2147483647]) (mkConfig (witness_object None 0) ∅))
    as [[c2| | | |]|] eqn:E2; pose proof E2 as V2; vm_compute in V2; try discriminate V2.
  assert (reachable false (witness_object None 0) c1) as R1.
  { apply (schedule_reachable _ _ _ _ (reach_init false _)) in E1; [exact E1|]. vm_compute. repeat split. }
  assert (reachable false (witness_object None 0) c2) as R2.
  { apply (schedule_reachable _ _ _ _ (reach_init false _)) in E2; [exact E2|]. vm_compute. repeat split. }
  destruct (os_mutex_destroy_exclusive false (witness_object None 0) c1 1) as (d1 & D1 & [W1 _] & G1);
    [reflexivity|reflexivity|exact R1|injection V1 as <-; reflexivity|injection V1 as <-; reflexivity|].
  destruct (os_mutex_destroy_exclusive false (witness_object None 0) c2 1) as (d2 & D2 & [_ W2] & _);
    [reflexivity|reflexivity|exact R2|injection V2 as <-; reflexivity|injection V2 as <-; reflexivity|].
  exists c1, c2, d1, d2. split; [reflexivity|]. split; [reflexivity|]. split; [exact D1|]. split; [exact D2|].
  assert (threads c1 = ∅ /\ grantable 1 (owner c1) = true) as [T1 H1] by (injection V1 as <-; split; reflexivity).
  split_and!.
  - intros Hw. destruct (W1 Hw) as [Hne|Hg]; [by apply Hne|by rewrite H1 in Hg].
  - apply W2. left. intros T2. injection V2 as <-. discriminate T2.
  - destruct (G1 T1 H1) as (n & d' & En & _ & Ho). by exists n, d'.
Defined.
End Witness.
