(* ===== verification/OsSemaphore.v ===== *)
(** include/poski/OsSemaphore.h: the C++ wrapper that counts the tokens taken
    through it. Verified against the semaphore interface of [OsalApi]; calls of
    several tasks are atomic here and interleave in any order (OsSemaphoreThreads
    has the statements in between). *)

From S2P Require Import Prelude OsTypes Pthread PosixUtils OsalApi.

(** [class OsSemaphore]; [take_depth_] is a [std::atomic<int32_t>], whose
    arithmetic wraps. *)
Record OsSemaphore (S : Type) := mkOsSemaphore { sem_ : S; take_depth_ : Z }.
Arguments mkOsSemaphore {S} sem_ take_depth_.
Arguments sem_ {S} o.
Arguments take_depth_ {S} o.

Section OsSemaphore.
Context {S : Type} `{OsalSem S}.
Variable ndebug : bool.

Definition is_ok (e : pos_error) : bool := bool_decide (e = POS_OK).

Definition OsSemaphore_new (initialTokens : Z) (take_on_construction : bool) (timeout : Z)
    (mem : S) : outcome (OsSemaphore S) :=
  do '(err, s) <- osal_sem_init initialTokens mem;
  c_assert ndebug (is_ok err);;
  if take_on_construction then
    do '(err, s) <- osal_sem_take timeout s;
    c_assert ndebug (is_ok err);;
    Ret (mkOsSemaphore s 1)
  else Ret (mkOsSemaphore s 0).

Definition Take (timeout : Z) (o : OsSemaphore S) : outcome (pos_error * OsSemaphore S) :=
  do '(err, s) <- osal_sem_take timeout (sem_ o);
  Ret (err, mkOsSemaphore s (if is_ok err then i32 (take_depth_ o + 1) else take_depth_ o)).

Definition Give (o : OsSemaphore S) : outcome (pos_error * OsSemaphore S) :=
  do '(err, s) <- osal_sem_give (sem_ o);
  Ret (err, mkOsSemaphore s (if is_ok err then i32 (take_depth_ o - 1) else take_depth_ o)).

(** The destructor's loop; every iteration takes one unit of fuel. *)
Fixpoint OsSemaphore_destroy_loop (fuel : nat) (o : OsSemaphore S) : outcome (OsSemaphore S) :=
  if 0 <? take_depth_ o then
    match fuel with
    | O => Block
    | Datatypes.S fuel =>
        do '(err, s) <- osal_sem_give (sem_ o);
        c_assert ndebug (is_ok err);;
        OsSemaphore_destroy_loop fuel (mkOsSemaphore s (i32 (take_depth_ o - 1)))
    end
  else Ret o.

Definition OsSemaphore_destroy (o : OsSemaphore S) : outcome (OsSemaphore S) :=
  OsSemaphore_destroy_loop (Z.to_nat (take_depth_ o)) o.

Definition GetNative (o : OsSemaphore S) : S := sem_ o.

(** * Executions *)

Inductive event := ETake (timeout : Z) | EGive.

(** One call; a call that waits ([None]) leaves the state alone. *)
Definition sem_step (ev : event) (o : OsSemaphore S) : outcome (option pos_error * OsSemaphore S) :=
  match match ev with ETake timeout => Take timeout o | EGive => Give o end with
  | Ret (e, o) => Ret (Some e, o)
  | Block => Ret (None, o)
  | AssertFail => AssertFail
  | Undef => Undef
  | Throw => Throw
  end.

Fixpoint sem_run (evs : list event) (o : OsSemaphore S)
    : outcome (list (event * option pos_error) * OsSemaphore S) :=
  match evs with
  | [] => Ret ([], o)
  | ev :: evs =>
      do '(r, o) <- sem_step ev o;
      do '(rs, o) <- sem_run evs o;
      Ret ((ev, r) :: rs, o)
  end.

Definition delta (r : event * option pos_error) : Z :=
  match r with
  | (ETake _, Some POS_OK) => 1
  | (EGive, Some POS_OK) => -1
  | _ => 0
  end.

(** Successful takes minus successful gives. *)
Definition taken (rs : list (event * option pos_error)) : Z :=
  foldr (fun r n => delta r + n) 0 rs.

(** Tokens are conserved: those in the semaphore and those counted as taken
    add up to the initial ones. *)
Definition conserved (tokens : Z) (o : OsSemaphore S) : Prop :=
  take_depth_ o = tokens - sem_value (sem_ o).

Context `{!OsalSemLaws S}.

(** The native count fits an [int32_t] (SEM_VALUE_MAX is INT_MAX on Linux). *)
Hypothesis sem_max_int32 : sem_max <= INT32_MAX.

(** A depth that conserves the tokens is in the range of its type. *)
Lemma conserved_i32 tokens v : is_u16 tokens -> 0 <= v <= sem_max -> i32 (tokens - v) = tokens - v.
Proof. intros. apply i32_small. unfold is_u16, INT32_MAX in *. lia. Qed.

Lemma give_inv s e s' :
  osal_sem_give s = Ret (e, s') ->
  e = POS_OK /\ sem_value s' = sem_value s + 1 \/ e <> POS_OK /\ sem_value s' = sem_value s.
Proof.
  intros E. pose proof (sem_value_range s). destruct (Z_lt_ge_dec (sem_value s) sem_max) as [Hlt|].
  - destruct (sem_give_ok s Hlt) as (s0 & E0 & ?). rewrite E in E0. simplify_eq. by left.
  - right. apply (sem_give_full s e s'); [lia|done].
Qed.

Lemma sem_step_ok tokens ev o r o' :
  is_u16 tokens -> conserved tokens o -> sem_step ev o = Ret (r, o') ->
  conserved tokens o' /\ sem_value (sem_ o') = sem_value (sem_ o) - delta (ev, r).
Proof.
  intros Ht Hc. unfold sem_step, conserved.
  assert (forall s, i32 (tokens - sem_value s) = tokens - sem_value s) as Hi.
  { intros s. apply conserved_i32; [done|apply sem_value_range]. }
  destruct ev as [timeout|].
  - destruct (Take timeout o) as [[e o1]| | | |] eqn:E; intros ?; simplify_eq; simpl.
    + apply obind_ret_inv in E as ([err s] & E & E'). simplify_eq. simpl. unfold is_ok.
      case_bool_decide as He.
      * subst. apply sem_take_ok in E as [_ Hv]. rewrite Hc, <- (Hi s). split; [|lia]. f_equal. lia.
      * pose proof (sem_take_err _ _ _ _ E He) as Hv. rewrite Hv. split; [done|].
        destruct e; try done; lia.
    + split; [done|lia].
  - destruct (Give o) as [[e o1]| | | |] eqn:E; intros ?; simplify_eq; simpl.
    + apply obind_ret_inv in E as ([err s] & E & E'). simplify_eq. simpl. unfold is_ok.
      destruct (give_inv _ _ _ E) as [[-> Hv]|[He Hv]].
      * rewrite bool_decide_eq_true_2, Hc, <- (Hi s) by done. split; [|lia]. f_equal. lia.
      * rewrite bool_decide_eq_false_2, Hv by done. split; [done|]. destruct e; try done; lia.
    + split; [done|lia].
Qed.

Lemma sem_run_ok tokens evs o rs o' :
  is_u16 tokens -> conserved tokens o -> sem_run evs o = Ret (rs, o') ->
  conserved tokens o' /\ sem_value (sem_ o') = sem_value (sem_ o) - taken rs.
Proof.
  intros Ht. revert o rs. induction evs as [|ev evs IH]; intros o rs Hok; simpl.
  - intros ?; simplify_eq. split; [done|]. simpl. lia.
  - intros ([r o1] & E1 & ([rs1 o2] & E2 & E)%obind_ret_inv)%obind_ret_inv. simplify_eq.
    destruct (sem_step_ok _ _ _ _ _ Ht Hok E1) as [Hok1 Hd1].
    destruct (IH _ _ Hok1 E2) as [Hok2 Hd2]. split; [done|].
    rewrite Hd2, Hd1. unfold taken. simpl. lia.
Qed.

Lemma OsSemaphore_new_inv tokens tk timeout mem o :
  is_u16 tokens -> OsSemaphore_new tokens tk timeout mem = Ret o -> ndebug = false ->
  conserved tokens o /\ take_depth_ o = if tk then 1 else 0.
Proof.
  intros [Ht _]. unfold OsSemaphore_new, conserved.
  intros ([err s] & Ei & E)%obind_ret_inv Hnd. rewrite Hnd in E.
  apply obind_ret_inv in E as (_ & Ha%c_assert_enabled_inv & E).
  apply bool_decide_eq_true in Ha as ->. apply sem_init_value in Ei; [|done].
  destruct tk; simplify_eq; simpl; [|split; [lia|done]].
  apply obind_ret_inv in E as ([err s'] & El & E).
  apply obind_ret_inv in E as (_ & Ha%c_assert_enabled_inv & E).
  apply bool_decide_eq_true in Ha as ->. simplify_eq. simpl.
  apply sem_take_ok in El as [_ ->]. split; [lia|done].
Qed.

Lemma destroy_loop_spec n s :
  sem_value s + Z.of_nat n <= sem_max ->
  exists o, OsSemaphore_destroy_loop n (mkOsSemaphore s (Z.of_nat n)) = Ret o /\
    take_depth_ o = 0 /\ sem_value (sem_ o) = sem_value s + Z.of_nat n.
Proof.
  revert s. induction n as [|n IH]; intros s Hn;
    cbn [OsSemaphore_destroy_loop take_depth_ sem_].
  - eexists; split_and!; [done|done|]. simpl. lia.
  - destruct (sem_give_ok s) as (s' & -> & Hv); [lia|].
    rewrite (proj2 (Z.ltb_lt _ _)) by lia. simpl. unfold is_ok.
    rewrite bool_decide_eq_true_2, c_assert_true by done. simpl.
    rewrite i32_small by (unfold INT32_MAX in *; pose proof (sem_value_range s); lia).
    replace (Z.of_nat (Datatypes.S n) - 1) with (Z.of_nat n) by lia.
    destruct (IH s') as (o & -> & ? & ?); [lia|]. eexists; split_and!; [done|done|lia].
Qed.

(** * Properties *)

(** Token conservation through the wrapper, over any port with the
    semaphore laws of [OsalApi] and any interleaving of takes and gives: the tokens in
    the semaphore are the initial ones minus successful takes plus successful
    gives, and [take_depth_] is exactly the difference, negative when the
    semaphore is used to signal. *)
Theorem os_semaphore_conservation tokens tk timeout mem o evs rs o' :
  ndebug = false -> is_u16 tokens ->
  OsSemaphore_new tokens tk timeout mem = Ret o -> sem_run evs o = Ret (rs, o') ->
  let d := (if tk then 1 else 0) + taken rs in
  sem_value (sem_ o') = tokens - d /\ take_depth_ o' = d.
Proof.
  intros Hnd Ht Hnew Hrun. destruct (OsSemaphore_new_inv _ _ _ _ _ Ht Hnew Hnd) as [Hc Hd].
  destruct (sem_run_ok _ _ _ _ _ Ht Hc Hrun) as [Hc' Hv]. unfold conserved in *. cbv zeta.
  destruct tk; lia.
Qed.

(** The destructor terminates without failing, and gives back exactly the
    tokens that are still out: the semaphore ends with its initial count, or
    with more when it was given more often than taken. *)
Theorem os_semaphore_destroy_spec tokens o :
  is_u16 tokens -> tokens <= sem_max -> conserved tokens o ->
  exists o', OsSemaphore_destroy o = Ret o' /\
    sem_value (sem_ o') = Z.max tokens (sem_value (sem_ o)) /\
    take_depth_ o' = Z.min 0 (take_depth_ o).
Proof.
  intros Ht Hm Hc. unfold OsSemaphore_destroy. destruct o as [s d]. unfold conserved in Hc.
  simpl in *. destruct (Z_lt_ge_dec 0 d) as [Hd|Hd].
  - destruct (destroy_loop_spec (Z.to_nat d) s) as (o & E & ? & ?); [lia|].
    rewrite Z2Nat.id in E by lia. exists o. split_and!; [done|lia|lia].
  - replace (Z.to_nat d) with 0%nat by lia. cbn [OsSemaphore_destroy_loop take_depth_].
    rewrite (proj2 (Z.ltb_ge _ _)) by lia. eexists; split_and!; [done| |]; simpl; lia.
Qed.
End OsSemaphore.

(** * Witnesses over the POSIX port *)

From S2P Require Import PosixSem.

#[local] Existing Instance linux_errno.
#[local] Instance witness_sem : OsalSem (pos_sem ref_sem) :=
  posix_osal_sem (Some (mkTimespec 5 0)).
#[local] Instance witness_sem_laws : OsalSemLaws (pos_sem ref_sem).
Proof. exact (posix_sem_osal_laws (Some (mkTimespec 5 0))). Defined.

Example os_semaphore_conservation_witness :
  let evs := [EGive; EGive; ETake 0; ETake 2147483647; ETake 0] in
  let o := mkOsSemaphore (mkPosSem (S := ref_sem) 0) 0 in
  let rs := [(EGive, Some POS_OK); (EGive, Some POS_OK); (ETake 0, Some POS_OK);
             (ETake 2147483647, Some POS_OK); (ETake 0, Some POS_TIMEOUT)] in
  let d := 0 + taken rs in
  sem_value (sem_ o) = 0 - d /\ take_depth_ o = d.
Proof.
  intros evs o rs.
  assert (is_u16 0) as Ht by (vm_compute; intuition congruence).
  refine (os_semaphore_conservation false _ 0 false 0 (mkPosSem (S := ref_sem) 7) o evs rs o
           eq_refl Ht eq_refl eq_refl).
  vm_compute. congruence.
Defined.

Example os_semaphore_destroy_spec_witness :
  let o := mkOsSemaphore (mkPosSem (S := ref_sem) 1) 2 in
  conserved 3 o /\
  exists o', OsSemaphore_destroy false o = Ret o' /\
    sem_value (sem_ o') = Z.max 3 (sem_value (sem_ o)) /\
    take_depth_ o' = Z.min 0 (take_depth_ o).
Proof.
  intros o. assert (conserved 3 o) as Hc by reflexivity. split; [exact Hc|].
  refine (os_semaphore_destroy_spec false _ 3 o _ _ Hc); vm_compute; intuition congruence.
Defined.
