(* ===== verification/OsSemaphoreThreads.v ===== *)
(** include/poski/OsSemaphore.h, statement by statement: [Take] and [Give] call
    the native semaphore and then, in another statement, change the atomic
    counter [take_depth_], while other tasks run in between. Over the semaphore
    interface of [OsalApi], like OsSemaphore, whose [Take] and [Give] are runs of
    these statements. *)

From S2P Require Import Prelude OsTypes Pthread OsalApi OsSemaphore.

(** Where a task is inside a method, named after the statement it runs next. *)
Inductive sposition :=
| TakeNative (timeout : Z)          (* pos_sem_take(&sem_, timeout) *)
| TakeCount                         (* take_depth_++ *)
| GiveNative                        (* pos_sem_give(&sem_) *)
| GiveCount.                        (* take_depth_-- *)

(** The object, the tasks inside its methods and, for the statements below,
    how many native takes and gives have answered POS_OK. *)
Record sconfig (S : Type) := mkSConfig {
  sobject : OsSemaphore S;
  stasks : gmap tid sposition;
  took : Z;
  gave : Z
}.
Arguments mkSConfig {S} sobject stasks took gave.
Arguments sobject {S} s.
Arguments stasks {S} s.
Arguments took {S} s.
Arguments gave {S} s.

Inductive smove :=
| BeginTake (t : tid) (timeout : Z)
| BeginGive (t : tid)
| SRun (t : tid).

(** The tasks whose token is taken, or given, and not counted yet. *)
Definition take_pending (p : sposition) : nat := match p with TakeCount => 1 | _ => 0 end.
Definition give_pending (p : sposition) : nat := match p with GiveCount => 1 | _ => 0 end.

Section OsSemaphoreThreads.
Context {S : Type} `{OsalSem S}.

Definition sgo (t : tid) (p : sposition) (c : sconfig S) : sconfig S :=
  mkSConfig (sobject c) (<[t := p]> (stasks c)) (took c) (gave c).
Definition sleave (t : tid) (c : sconfig S) : sconfig S :=
  mkSConfig (sobject c) (delete t (stasks c)) (took c) (gave c).
Definition with_sem (s : S) (c : sconfig S) : sconfig S :=
  mkSConfig (mkOsSemaphore s (take_depth_ (sobject c))) (stasks c) (took c) (gave c).
Definition with_depth (d : Z) (c : sconfig S) : sconfig S :=
  mkSConfig (mkOsSemaphore (sem_ (sobject c)) d) (stasks c) (took c) (gave c).
Definition with_counts (n m : Z) (c : sconfig S) : sconfig S :=
  mkSConfig (sobject c) (stasks c) n m.

(** A native call that waits is a statement that cannot run yet. *)
Definition native (m : outcome (sconfig S)) : option (outcome (sconfig S)) :=
  match m with Block => None | r => Some r end.

(** The next statement of task [t] at [p]. *)
Definition srun (t : tid) (p : sposition) (c : sconfig S) : option (outcome (sconfig S)) :=
  match p with
  | TakeNative timeout =>
      native (do '(err, s) <- osal_sem_take timeout (sem_ (sobject c));
              let c := with_sem s c in
              Ret (if is_ok err then sgo t TakeCount (with_counts (took c + 1) (gave c) c)
                   else sleave t c))
  | TakeCount => Some (Ret (sleave t (with_depth (i32 (take_depth_ (sobject c) + 1)) c)))
  | GiveNative =>
      native (do '(err, s) <- osal_sem_give (sem_ (sobject c));
              let c := with_sem s c in
              Ret (if is_ok err then sgo t GiveCount (with_counts (took c) (gave c + 1) c)
                   else sleave t c))
  | GiveCount => Some (Ret (sleave t (with_depth (i32 (take_depth_ (sobject c) - 1)) c)))
  end.

Definition sexec (mv : smove) (c : sconfig S) : option (outcome (sconfig S)) :=
  match mv with
  | BeginTake t timeout =>
      match stasks c !! t with None => Some (Ret (sgo t (TakeNative timeout) c)) | Some _ => None end
  | BeginGive t =>
      match stasks c !! t with None => Some (Ret (sgo t GiveNative c)) | Some _ => None end
  | SRun t => match stasks c !! t with Some p => srun t p c | None => None end
  end.

Fixpoint sexec_all (mvs : list smove) (c : sconfig S) : option (outcome (sconfig S)) :=
  match mvs with
  | [] => Some (Ret c)
  | mv :: mvs =>
      match sexec mv c with
      | Some (Ret c') => sexec_all mvs c'
      | r => r
      end
  end.

Inductive sreachable (o : OsSemaphore S) : sconfig S -> Prop :=
| sreach_init : sreachable o (mkSConfig o ∅ 0 0)
| sreach_step c mv c' : sreachable o c -> sexec mv c = Some (Ret c') -> sreachable o c'.

Lemma sexec_all_reachable o mvs c c' :
  sreachable o c -> sexec_all mvs c = Some (Ret c') -> sreachable o c'.
Proof.
  revert c. induction mvs as [|mv mvs IH]; simpl; intros c Hc; [by intros [= <-]|].
  destruct (sexec mv c) as [[c1| | | |]|] eqn:E; try done.
  apply IH. by apply (sreach_step _ c mv).
Qed.

(** * The invariant *)

Context `{!OsalSemLaws S}.

(** The native count moves with the native answers; the counter with the
    statements after them. *)
Record sinv (o : OsSemaphore S) (c : sconfig S) : Prop := {
  sinv_value : sem_value (sem_ (sobject c)) = sem_value (sem_ o) - took c + gave c;
  sinv_depth : take_depth_ (sobject c) =
    i32 (take_depth_ o + took c - gave c - Z.of_nat (msum take_pending (stasks c))
         + Z.of_nat (msum give_pending (stasks c)))
}.

Lemma pending_go f t p (th : gmap tid sposition) q :
  th !! t = Some q -> (msum f (<[t := p]> th) + f q = msum f th + f p)%nat.
Proof. intros Ht. pose proof (msum_insert f t p th) as Hm. by rewrite Ht in Hm. Qed.

Lemma pending_leave f t (th : gmap tid sposition) q :
  th !! t = Some q -> (msum f th = f q + msum f (delete t th))%nat.
Proof. intros Ht. pose proof (msum_delete f t th) as Hm. by rewrite Ht in Hm. Qed.

Lemma sinv_run o c t p c' :
  sinv o c -> stasks c !! t = Some p -> srun t p c = Some (Ret c') -> sinv o c'.
Proof.
  intros [Hv Hd] Ht. pose proof (pending_leave take_pending _ _ _ Ht) as Ltake.
  pose proof (pending_leave give_pending _ _ _ Ht) as Lgive.
  pose proof (fun q => pending_go take_pending _ q _ _ Ht) as Gtake.
  pose proof (fun q => pending_go give_pending _ q _ _ Ht) as Ggive.
  destruct p; simpl in *.
  - specialize (Gtake TakeCount). specialize (Ggive TakeCount). simpl in *.
    destruct (osal_sem_take timeout (sem_ (sobject c))) as [[e s]| | | |] eqn:E; simpl; try done.
    unfold is_ok. case_bool_decide as He; intros [= <-].
    + subst e. apply sem_take_ok in E as [_ Es]. split; simpl; [lia|]. rewrite Hd. f_equal. lia.
    + pose proof (sem_take_err _ _ _ _ E He) as Es. split; simpl; [lia|]. rewrite Hd. f_equal. lia.
  - intros [= <-]. split; simpl; [lia|]. rewrite Hd, i32_add. f_equal. lia.
  - specialize (Gtake GiveCount). specialize (Ggive GiveCount). simpl in *.
    destruct (osal_sem_give (sem_ (sobject c))) as [[e s]| | | |] eqn:E; simpl; try done.
    unfold is_ok. destruct (give_inv _ _ _ E) as [[-> Es]|[He Es]].
    + rewrite bool_decide_eq_true_2 by done. intros [= <-].
      split; simpl; [lia|]. rewrite Hd. f_equal. lia.
    + rewrite bool_decide_eq_false_2 by done. intros [= <-].
      split; simpl; [lia|]. rewrite Hd. f_equal. lia.
  - intros [= <-]. split; simpl; [lia|]. rewrite Hd, <- Z.add_opp_r, i32_add. f_equal. lia.
Qed.

Lemma sreachable_inv o c : is_u16 (take_depth_ o) -> sreachable o c -> sinv o c.
Proof.
  intros Ho. induction 1 as [|c mv c' _ IH E].
  - split; simpl; [lia|]. rewrite !msum_empty, i32_small; unfold is_u16 in *; lia.
  - destruct mv as [t timeout|t|t]; simpl in E.
    1, 2: destruct (stasks c !! t) eqn:Ht; [done|]; injection E as <-; destruct IH as [Hv Hd];
      (split; simpl; [done|]); rewrite !msum_insert_None by done; exact Hd.
    destruct (stasks c !! t) as [p|] eqn:Ht; [|done]. by apply (sinv_run o c t p).
Qed.

(** No task is between its native call and the counting. *)
Definition settled (c : sconfig S) : Prop :=
  forall t p, stasks c !! t = Some p -> (take_pending p + give_pending p = 0)%nat.

Lemma settled_pending c :
  settled c -> msum take_pending (stasks c) = 0%nat /\ msum give_pending (stasks c) = 0%nat.
Proof. intros Hs. split; apply msum_zero; intros t p Hp; specialize (Hs t p Hp); lia. Qed.

(** * Properties *)

(** The native count fits an [int32_t] (SEM_VALUE_MAX is INT_MAX on Linux). *)
Hypothesis sem_max_int32 : sem_max <= INT32_MAX.

(** C9. Token conservation under every interleaving of the statements of any number
    of tasks: the native count is the initial one less the takes and plus the
    gives that the native calls granted, and the counter is their difference
    less what is granted and not counted yet; a task that has been granted its
    call counts it without waiting; so when no task is in between, the counter
    is exact, and the destructor gives back exactly the tokens that are out. *)
Theorem os_semaphore_threads_conservation ndebug tokens tk timeout mem o c :
  ndebug = false -> is_u16 tokens -> tokens <= sem_max ->
  OsSemaphore_new ndebug tokens tk timeout mem = Ret o -> sreachable o c ->
  let d := (if tk then 1 else 0) + took c - gave c in
  sem_value (sem_ (sobject c)) = tokens - d /\
  take_depth_ (sobject c) =
    i32 (d - Z.of_nat (msum take_pending (stasks c)) + Z.of_nat (msum give_pending (stasks c))) /\
  (forall t p, stasks c !! t = Some p -> (take_pending p + give_pending p <> 0)%nat ->
     exists c', sexec (SRun t) c = Some (Ret c') /\ stasks c' = delete t (stasks c)) /\
  (settled c -> take_depth_ (sobject c) = d /\
     exists o', OsSemaphore_destroy ndebug (sobject c) = Ret o' /\
       sem_value (sem_ o') = Z.max tokens (tokens - d)).
Proof.
  intros Hnd Ht Hmax Hnew Hr d.
  destruct (OsSemaphore_new_inv _ _ _ _ _ _ Ht Hnew Hnd) as [Hc Hd]. unfold conserved in Hc.
  assert (is_u16 (take_depth_ o)) as Hdepth by (rewrite Hd; by destruct tk; unfold is_u16).
  destruct (sreachable_inv o c Hdepth Hr) as [Hval Hcnt]. rewrite Hd in Hc, Hcnt.
  assert (sem_value (sem_ (sobject c)) = tokens - d) as Hv by (subst d; lia).
  assert (take_depth_ (sobject c) = i32 (d - Z.of_nat (msum take_pending (stasks c))
            + Z.of_nat (msum give_pending (stasks c)))) as Hdep by exact Hcnt.
  split_and!; [done | done | |].
  - intros t p Hp Hpend. simpl. rewrite Hp. destruct p; simpl in *; try done; by eexists.
  - intros Hs. destruct (settled_pending c Hs) as [Ep Eg]. rewrite Ep, Eg in Hdep.
    replace (d - Z.of_nat 0 + Z.of_nat 0) with (tokens - sem_value (sem_ (sobject c))) in Hdep by lia.
    rewrite conserved_i32 in Hdep by (done || apply sem_value_range). split; [lia|].
    destruct (os_semaphore_destroy_spec ndebug sem_max_int32 tokens (sobject c) Ht Hmax Hdep)
      as (o' & E & Hv' & _). exists o'. split; [done|]. by rewrite Hv', Hv.
Qed.

(** Runs a method to its end: the call, the native call [E] and its answer. *)
Ltac run_method Ht E err :=
  let He := fresh in destruct (is_ok err) eqn:He; simpl; rewrite Ht; simpl;
  rewrite lookup_insert_eq; simpl; rewrite E; simpl; rewrite He; simpl;
  rewrite ?lookup_insert_eq; simpl; eexists; (split; [reflexivity|]); simpl; split_and!;
  try done; try lia; by rewrite ?insert_insert_eq, delete_insert_id.

(** The methods as one piece (OsSemaphore) are runs of these statements by the
    calling task alone: a call that returns leaves the same object, and a [Take]
    that waits is a task that cannot run its native call. *)
Theorem os_semaphore_methods_are_runs t timeout c :
  stasks c !! t = None ->
  (forall e o', Take timeout (sobject c) = Ret (e, o') ->
     exists mvs c', sexec_all (BeginTake t timeout :: mvs) c = Some (Ret c') /\
       sobject c' = o' /\ stasks c' = stasks c /\
       took c' = took c + (if is_ok e then 1 else 0) /\ gave c' = gave c) /\
  (forall e o', Give (sobject c) = Ret (e, o') ->
     exists mvs c', sexec_all (BeginGive t :: mvs) c = Some (Ret c') /\
       sobject c' = o' /\ stasks c' = stasks c /\
       gave c' = gave c + (if is_ok e then 1 else 0) /\ took c' = took c) /\
  (Take timeout (sobject c) = Block ->
     sexec_all [BeginTake t timeout; SRun t] c = None).
Proof.
  intros Ht. unfold Take, Give. split_and!.
  - intros e o' ([err s] & E & [= <- <-])%obind_ret_inv.
    exists (if is_ok err then [SRun t; SRun t] else [SRun t]).
    run_method Ht E err.
  - intros e o' ([err s] & E & [= <- <-])%obind_ret_inv.
    exists (if is_ok err then [SRun t; SRun t] else [SRun t]).
    run_method Ht E err.
  - intros E. simpl. rewrite Ht. simpl. rewrite lookup_insert_eq. simpl.
    destruct (osal_sem_take timeout (sem_ (sobject c))) as [[]| | | |]; simpl in *; done.
Qed.

End OsSemaphoreThreads.

(** * Witnesses over the POSIX port *)

From S2P Require Import PosixUtils PosixSem.

Section Witness.
#[local] Existing Instance linux_errno.
#[local] Instance witness_sem : OsalSem (pos_sem ref_sem) :=
  posix_osal_sem (Some (mkTimespec 5 0)).
#[local] Instance witness_sem_laws : OsalSemLaws (pos_sem ref_sem).
Proof. exact (posix_sem_osal_laws (Some (mkTimespec 5 0))). Defined.

Definition demo_object : OsSemaphore (pos_sem ref_sem) := mkOsSemaphore (mkPosSem (S := ref_sem) 1) 0.

Definition demo_end (mvs : list smove) : sconfig (pos_sem ref_sem) :=
  match sexec_all mvs (mkSConfig demo_object ∅ 0 0) with
  | Some (Ret c) => c
  | _ => mkSConfig demo_object ∅ 0 0
  end.

(** Task 1 has the token and has not counted it when task 2 gives one and
    counts it: the counter is -1 for a while, and 0 when both are done. *)
Definition demo_crossed : list smove := [BeginTake 1 0; SRun 1; BeginGive 2; SRun 2; SRun 2].

Example os_semaphore_threads_conservation_witness :
  take_depth_ (sobject (demo_end demo_crossed)) = -1 /\
  sem_value (sem_ (sobject (demo_end demo_crossed))) = 1 /\
  take_depth_ (sobject (demo_end (demo_crossed ++ [SRun 1]))) = 0.
Proof.
  assert (forall mvs c, sexec_all mvs (mkSConfig demo_object ∅ 0 0) = Some (Ret c) ->
            sreachable demo_object c) as Hreach.
  { intros mvs c. apply sexec_all_reachable. constructor. }
  assert (sem_max (S := pos_sem ref_sem) <= INT32_MAX) as Hmax by (vm_compute; congruence).
  assert (is_u16 1) as Hone by (vm_compute; intuition congruence).
  assert (1 <= sem_max (S := pos_sem ref_sem)) as Hle by (vm_compute; congruence).
  destruct (os_semaphore_threads_conservation Hmax false 1 false 0 (mkPosSem (S := ref_sem) 7)
    demo_object (demo_end demo_crossed) eq_refl Hone Hle eq_refl) as (Hv & Hd & _).
  { apply (Hreach demo_crossed). vm_compute. reflexivity. }
  destruct (os_semaphore_threads_conservation Hmax false 1 false 0 (mkPosSem (S := ref_sem) 7)
    demo_object (demo_end (demo_crossed ++ [SRun 1])) eq_refl Hone Hle eq_refl)
    as (_ & _ & _ & Hs).
  { apply (Hreach (demo_crossed ++ [SRun 1])). vm_compute. reflexivity. }
  split_and!.
  - rewrite Hd. vm_compute. reflexivity.
  - rewrite Hv. vm_compute. reflexivity.
  - assert (settled (demo_end (demo_crossed ++ [SRun 1]))) as Hset.
    { intros t p Hp. vm_compute in Hp. by destruct t as [|[|t]]. }
    rewrite (proj1 (Hs Hset)). vm_compute. reflexivity.
Defined.

Example os_semaphore_methods_are_runs_witness :
  exists mvs c', sexec_all (BeginTake 1 0 :: mvs) (mkSConfig demo_object ∅ 0 0) = Some (Ret c') /\
    sobject c' = mkOsSemaphore (mkPosSem (S := ref_sem) 0) 1 /\ took c' = 1.
Proof.
  destruct (os_semaphore_methods_are_runs 1%nat 0 (mkSConfig demo_object ∅ 0 0) (lookup_empty 1%nat))
    as (Htake & _ & _).
  destruct (Htake POS_OK (mkOsSemaphore (mkPosSem (S := ref_sem) 0) 1) eq_refl)
    as (mvs & c' & E & Ho & _ & Hn & _).
  exists mvs, c'. split; [exact E|]. split; [exact Ho | exact Hn].
Defined.
End Witness.
