(* ===== verification/OsRing.v ===== *)
(** The ring buffer of include/poski/OsRing.h: a byte buffer of [_itemCount]
    slots of [_itemSize] bytes, addressed by two free-running 16-bit counters.
    The file holds the class ([OsRing] and its methods), its well-formedness
    invariant [ring_wf], the abstraction [contents] to the list of queued
    messages, one lemma per method, and the refinement of the bounded FIFO
    [Fifo] by every sequence of method calls. *)

From S2P Require Import Prelude.

(** * Memory *)

(** [memcpy(dst + off, src, n)]: undefined when it leaves either object. *)
Definition memcpy (dst : list byte) (off : Z) (src : list byte) (n : Z) : option (list byte) :=
  if (0 <=? off) && (0 <=? n) && (off + n <=? Z.of_nat (length dst))
     && (n <=? Z.of_nat (length src))
  then Some (take (Z.to_nat off) dst ++ take (Z.to_nat n) src ++ drop (Z.to_nat (off + n)) dst)
  else None.

(** The [n] bytes at [off]. *)
Definition mem_read (m : list byte) (off n : Z) : list byte :=
  take (Z.to_nat n) (drop (Z.to_nat off) m).

(** * The class *)

Record OsRing := mkOsRing {
  _buffer : list byte;
  _itemSize : Z;
  _itemCount : Z;
  _readIndex : Z;
  _writeIndex : Z
}.

(** [assert(itemCount > 0 && !((itemCount - 1) & itemCount))]; the operands
    are promoted to [int]. *)
Definition item_count_ok (itemCount : Z) : bool :=
  (0 <? itemCount) && (Z.land (itemCount - 1) itemCount =? 0).

(** [itemSize * itemCount]: both operands are promoted to [int], so a product
    of [2^31] or more is an undefined overflow. *)
Definition int_product (itemSize itemCount : Z) : option Z :=
  if itemSize * itemCount <? 2 ^ 31 then Some (itemSize * itemCount) else None.

(** The constructor. [alloc n] is what [new uint8_t[n]] gives: a block of [n]
    bytes with indeterminate contents, or a [std::bad_alloc] exception. *)
Definition OsRing_new (ndebug : bool) (alloc : Z -> option (list byte))
    (itemSize itemCount : Z) : outcome OsRing :=
  c_assert ndebug (item_count_ok itemCount);;
  do bytes <- of_option Undef (int_product itemSize itemCount);
  do buffer <- of_option Throw (alloc bytes);
  Ret {| _buffer := buffer; _itemSize := itemSize; _itemCount := itemCount;
         _readIndex := 0; _writeIndex := 0 |}.

Definition item_size (r : OsRing) : Z := _itemSize r.

Definition max_size (r : OsRing) : Z := _itemCount r.

Definition size (r : OsRing) : Z := u16 (_writeIndex r - _readIndex r).

Definition empty (r : OsRing) : bool := _readIndex r =? _writeIndex r.

Definition full (r : OsRing) : bool := size r =? _itemCount r.

(** [index & (_itemCount - 1)]: the [int] operand converts to [unsigned]. *)
Definition mask (r : OsRing) (index : Z) : Z := Z.land index (u32 (_itemCount r - 1)).

Definition inc (index : Z) : Z := u32 (index + 1).

(** The offset of a slot in [_buffer]: [mask(index) * _itemSize], unsigned. *)
Definition slot_offset (r : OsRing) (index : Z) : Z := u32 (mask r index * _itemSize r).

Definition push_back (ndebug : bool) (item : list byte) (r : OsRing) : outcome OsRing :=
  c_assert ndebug (negb (full r));;
  do buffer <- of_option Undef
    (memcpy (_buffer r) (slot_offset r (_writeIndex r)) item (_itemSize r));
  Ret {| _buffer := buffer; _itemSize := _itemSize r; _itemCount := _itemCount r;
         _readIndex := _readIndex r; _writeIndex := u16 (inc (_writeIndex r)) |}.

Definition pop_front (ndebug : bool) (r : OsRing) : outcome OsRing :=
  c_assert ndebug (negb (empty r));;
  Ret {| _buffer := _buffer r; _itemSize := _itemSize r; _itemCount := _itemCount r;
         _readIndex := u16 (inc (_readIndex r)); _writeIndex := _writeIndex r |}.

(** A pointer into [_buffer], as an offset, or [NULL]. *)
Definition front (r : OsRing) : option Z :=
  let item := slot_offset r (_readIndex r) in
  if empty r then None else Some item.

(** * Memory lemmas *)

Lemma memcpy_Some dst off src n :
  0 <= off -> 0 <= n -> off + n <= Z.of_nat (length dst) -> n <= Z.of_nat (length src) ->
  is_Some (memcpy dst off src n).
Proof.
  intros. unfold memcpy.
  by rewrite !(proj2 (Z.leb_le _ _)) by lia.
Qed.

Lemma memcpy_inv dst off src n dst' :
  memcpy dst off src n = Some dst' ->
  0 <= off /\ 0 <= n /\ off + n <= Z.of_nat (length dst) /\ n <= Z.of_nat (length src) /\
  dst' = take (Z.to_nat off) dst ++ take (Z.to_nat n) src ++ drop (Z.to_nat (off + n)) dst.
Proof.
  unfold memcpy. intros H.
  destruct (_ && _) eqn:E in H; simplify_eq.
  rewrite !andb_true_iff, !Z.leb_le in E. lia || tauto.
Qed.

Lemma memcpy_length dst off src n dst' :
  memcpy dst off src n = Some dst' -> length dst' = length dst.
Proof.
  intros (? & ? & ? & ? & ->)%memcpy_inv.
  rewrite !length_app, !length_take, length_drop. lia.
Qed.

Lemma mem_read_memcpy_same dst off src n dst' :
  memcpy dst off src n = Some dst' -> mem_read dst' off n = take (Z.to_nat n) src.
Proof.
  intros (? & ? & ? & ? & ->)%memcpy_inv. unfold mem_read.
  rewrite drop_app_length' by (rewrite length_take; lia).
  by rewrite take_app_length' by (rewrite length_take; lia).
Qed.

Lemma mem_read_memcpy_other dst off src n dst' off' n' :
  memcpy dst off src n = Some dst' -> 0 <= off' -> 0 <= n' ->
  off' + n' <= off \/ off + n <= off' ->
  mem_read dst' off' n' = mem_read dst off' n'.
Proof.
  intros (? & ? & ? & ? & ->)%memcpy_inv ? ? Hd. unfold mem_read.
  apply list_eq; intros i.
  destruct (decide (i < Z.to_nat n')%nat) as [Hi|Hi]; cycle 1.
  { rewrite !lookup_take_ge by lia. done. }
  rewrite !lookup_take_lt, !lookup_drop by lia.
  destruct Hd.
  - rewrite lookup_app_l by (rewrite length_take; lia).
    by rewrite lookup_take_lt by lia.
  - rewrite lookup_app_r by (rewrite length_take; lia).
    rewrite lookup_app_r by (rewrite !length_take; lia).
    rewrite lookup_drop, !length_take. f_equal. lia.
Qed.

Lemma mem_read_length m off n :
  0 <= off -> 0 <= n -> off + n <= Z.of_nat (length m) ->
  length (mem_read m off n) = Z.to_nat n.
Proof. intros. unfold mem_read. rewrite length_take, length_drop. lia. Qed.

(** * The invariant and the abstraction *)

Record ring_wf (r : OsRing) : Prop := {
  wf_count : exists k, 0 <= k <= 15 /\ _itemCount r = 2 ^ k;
  wf_itemSize : is_u16 (_itemSize r);
  wf_read : is_u16 (_readIndex r);
  wf_write : is_u16 (_writeIndex r);
  wf_size : size r <= _itemCount r;
  wf_buffer : Z.of_nat (length (_buffer r)) = _itemSize r * _itemCount r
}.

(** The message in the slot that a counter value selects. *)
Definition slot (r : OsRing) (index : Z) : list byte :=
  mem_read (_buffer r) (slot_offset r index) (_itemSize r).

(** The queued messages, oldest first. *)
Definition contents (r : OsRing) : list (list byte) :=
  (fun i : nat => slot r (u16 (_readIndex r + Z.of_nat i))) <$> seq 0 (Z.to_nat (size r)).

Lemma count_range r : ring_wf r -> 1 <= _itemCount r <= 32768.
Proof.
  intros [(k & Hk & ->) _ _ _ _ _].
  pose proof (Z.pow_le_mono_r 2 0 k). pose proof (Z.pow_le_mono_r 2 k 15). lia.
Qed.

Lemma count_divides_u16 r : ring_wf r -> (_itemCount r | 2 ^ 16).
Proof.
  intros [(k & Hk & ->) _ _ _ _ _].
  exists (2 ^ (16 - k)). rewrite <- Z.pow_add_r by lia. f_equal. lia.
Qed.

Lemma size_range r : 0 <= size r < 2 ^ 16.
Proof. apply u16_range. Qed.

(** No [int] or [unsigned] overflow in the buffer arithmetic. *)
Lemma buffer_bytes_bound r : ring_wf r -> 0 <= _itemSize r * _itemCount r < 2 ^ 31.
Proof. intros H. pose proof (count_range r H). destruct H as [_ [] _ _ _ _]. nia. Qed.

Lemma mask_spec r index :
  ring_wf r -> mask r index = index mod _itemCount r.
Proof.
  intros H. pose proof (count_range r H). destruct H as [(k & Hk & Hc) _ _ _ _ _].
  unfold mask. rewrite u32_small by (zwrap).
  rewrite Hc. replace (2 ^ k - 1) with (Z.ones k) by (rewrite Z.ones_equiv; lia).
  apply Z.land_ones. lia.
Qed.

Lemma slot_offset_spec r index :
  ring_wf r -> slot_offset r index = (index mod _itemCount r) * _itemSize r.
Proof.
  intros H. unfold slot_offset. rewrite mask_spec by done.
  pose proof (count_range r H). pose proof (buffer_bytes_bound r H).
  pose proof (Z.mod_pos_bound index (_itemCount r)).
  destruct H as [_ [] _ _ _ _]. apply u32_small. unfold is_u32. nia.
Qed.

Lemma slot_in_bounds r index :
  ring_wf r ->
  0 <= slot_offset r index /\
  slot_offset r index + _itemSize r <= Z.of_nat (length (_buffer r)).
Proof.
  intros H. rewrite slot_offset_spec by done. rewrite (wf_buffer r H).
  pose proof (count_range r H).
  pose proof (Z.mod_pos_bound index (_itemCount r)).
  destruct H as [_ [] _ _ _ _]. nia.
Qed.

(** Truncating the counter to 16 bits does not change the slot. *)
Lemma slot_offset_u16 r index :
  ring_wf r -> slot_offset r (u16 index) = slot_offset r index.
Proof.
  intros H. rewrite !slot_offset_spec by done. unfold u16.
  destruct (count_divides_u16 r H) as [q Hq]. pose proof (count_range r H).
  rewrite Hq. f_equal.
  rewrite (Z.mul_comm q), Z.rem_mul_r by lia.
  rewrite Z.add_mod, Z.mul_mod, Z.mod_same, Z.mul_0_l, Z.mod_0_l, Z.add_0_r, !Z.mod_mod by lia.
  done.
Qed.

(** Two counter values less than a lap apart select disjoint slots. *)
Lemma slots_disjoint r i j :
  ring_wf r -> 0 < j - i < _itemCount r ->
  slot_offset r i + _itemSize r <= slot_offset r j \/
  slot_offset r j + _itemSize r <= slot_offset r i.
Proof.
  intros H Hij. rewrite !slot_offset_spec by done.
  pose proof (count_range r H). destruct H as [_ [] _ _ _ _].
  assert (i mod _itemCount r <> j mod _itemCount r) as Hne.
  { intros E.
    pose proof (Z.div_mod i (_itemCount r)). pose proof (Z.div_mod j (_itemCount r)).
    assert (j - i = _itemCount r * (j / _itemCount r - i / _itemCount r)) as Hm by nia.
    assert (0 < j / _itemCount r - i / _itemCount r) by nia. nia. }
  pose proof (Z.mod_pos_bound i (_itemCount r)).
  pose proof (Z.mod_pos_bound j (_itemCount r)).
  destruct (Z_lt_ge_dec (i mod _itemCount r) (j mod _itemCount r)); [left | right]; nia.
Qed.

(** * The methods on a well-formed ring *)

Lemma contents_length r : length (contents r) = Z.to_nat (size r).
Proof. unfold contents. by rewrite length_fmap, length_seq. Qed.

Lemma size_contents r : size r = Z.of_nat (length (contents r)).
Proof. rewrite contents_length. pose proof (size_range r). lia. Qed.

Lemma empty_spec r : ring_wf r -> empty r = bool_decide (contents r = []).
Proof.
  intros H. unfold empty.
  assert ((_readIndex r =? _writeIndex r) = (size r =? 0)) as ->.
  { destruct H as [_ _ ? ? _ _]. unfold size. zwrap. }
  rewrite (size_contents r).
  by destruct (contents r).
Qed.

Lemma full_spec r :
  full r = bool_decide (Z.of_nat (length (contents r)) = _itemCount r).
Proof.
  unfold full. rewrite <- size_contents.
  destruct (Z.eqb_spec (size r) (_itemCount r)); by case_bool_decide.
Qed.

Lemma write_index_spec r : ring_wf r -> _writeIndex r = u16 (_readIndex r + size r).
Proof. intros [_ _ ? ? _ _]. unfold size. zwrap. Qed.

Lemma push_back_enabled_full r item :
  full r = true -> push_back false item r = AssertFail.
Proof. unfold push_back. by intros ->. Qed.

(** What [push_back] stores, whatever the counters: it returns whenever it is
    let past the assertion, and only the slot at [_writeIndex] changes. *)
Lemma push_back_ret nd item r :
  ring_wf r -> _itemSize r <= Z.of_nat (length item) -> nd || negb (full r) = true ->
  exists buffer,
    memcpy (_buffer r) (slot_offset r (_writeIndex r)) item (_itemSize r) = Some buffer /\
    push_back nd item r =
      Ret (mkOsRing buffer (_itemSize r) (_itemCount r) (_readIndex r) (u16 (_writeIndex r + 1))).
Proof.
  intros H Hitem Hnd. pose proof (slot_in_bounds r (_writeIndex r) H) as [Ho Hb].
  pose proof (wf_itemSize r H) as [Hs _].
  destruct (memcpy_Some _ _ _ _ Ho Hs Hb Hitem) as [buffer Hcp].
  exists buffer. split; [done|].
  unfold push_back, c_assert. rewrite Hnd. simpl. rewrite Hcp. simpl.
  unfold inc. by rewrite u16_u32.
Qed.

Lemma push_back_spec nd item r :
  ring_wf r -> size r < _itemCount r -> _itemSize r <= Z.of_nat (length item) ->
  exists r', push_back nd item r = Ret r' /\ ring_wf r' /\
    _itemSize r' = _itemSize r /\ _itemCount r' = _itemCount r /\
    contents r' = contents r ++ [take (Z.to_nat (_itemSize r)) item].
Proof.
  intros H Hlt Hitem.
  destruct (push_back_ret nd item r H Hitem) as (buffer & Hcp & ->).
  { rewrite orb_true_iff, negb_true_iff. right. apply Z.eqb_neq. lia. }
  pose proof (count_range r H) as Hc. pose proof (size_range r) as Hs.
  eexists; split; [done|].
  set (r' := mkOsRing _ _ _ _ _).
  assert (size r' = size r + 1) as Hsize by (unfold size, r' in *; simpl; zwrap).
  split_and!; [ | done | done | ].
  - destruct H. split; try done; simpl.
    + apply u16_range.
    + rewrite Hsize. lia.
    + by rewrite (memcpy_length _ _ _ _ _ Hcp).
  - unfold contents. rewrite Hsize, Z2Nat.inj_add, Nat.add_1_r, seq_S, fmap_app by lia.
    f_equal.
    + apply list_fmap_ext. intros i x (-> & Hi)%lookup_seq. simpl. unfold slot. simpl.
      change (slot_offset r' ?i) with (slot_offset r i).
      apply (mem_read_memcpy_other _ _ _ _ _ _ _ Hcp).
      * apply slot_in_bounds, H.
      * apply (wf_itemSize r H).
      * rewrite (write_index_spec r H), !slot_offset_u16 by done.
        apply slots_disjoint; [done|]. lia.
    + simpl. f_equal. unfold slot. simpl.
      change (slot_offset r' ?i) with (slot_offset r i).
      rewrite Z2Nat.id, <- (write_index_spec r H) by lia.
      by apply (mem_read_memcpy_same _ _ _ _ _ Hcp).
Qed.

Lemma pop_front_spec nd r x l :
  ring_wf r -> contents r = x :: l ->
  exists r', pop_front nd r = Ret r' /\ ring_wf r' /\
    _itemSize r' = _itemSize r /\ _itemCount r' = _itemCount r /\ contents r' = l.
Proof.
  intros H Hx. unfold pop_front. rewrite (empty_spec r H), Hx, c_assert_true. simpl.
  pose proof (size_contents r) as Hn. rewrite Hx in Hn. simpl in Hn.
  eexists; split; [done|]. unfold inc. rewrite u16_u32.
  set (r' := mkOsRing _ _ _ _ _).
  assert (size r' = size r - 1) as Hsize.
  { pose proof (size_range r). unfold size, r' in *; simpl. zwrap. }
  split_and!; [ | done | done | ].
  - destruct H. split; try done; simpl; [apply u16_range | lia].
  - unfold contents in Hx |- *.
    replace (Z.to_nat (size r)) with (S (Z.to_nat (size r'))) in Hx by lia.
    simpl in Hx. injection Hx as _ <-.
    rewrite <- seq_shift. rewrite <- list_fmap_compose.
    apply list_fmap_ext. intros i y _. unfold slot. simpl.
    change (slot_offset r' ?i) with (slot_offset r i).
    do 2 f_equal. unfold r'. simpl. zwrap.
Qed.

Lemma pop_front_enabled_empty r : empty r = true -> pop_front false r = AssertFail.
Proof. unfold pop_front. by intros ->. Qed.

(** [front] points at the oldest message, [NULL] when there is none. *)
Lemma front_spec r :
  ring_wf r ->
  match contents r with
  | [] => front r = None
  | x :: _ => exists off, front r = Some off /\ mem_read (_buffer r) off (_itemSize r) = x
  end.
Proof.
  intros H. unfold front. rewrite (empty_spec r H).
  destruct (contents r) as [|x l] eqn:Hx; [done|]. simpl.
  eexists; split; [done|].
  unfold contents in Hx. destruct (Z.to_nat (size r)); simplify_eq/=.
  unfold slot. rewrite Z.add_0_r, u16_small; [done | apply (wf_read r H)].
Qed.

Lemma contents_item_length r :
  ring_wf r -> Forall (fun x => length x = Z.to_nat (_itemSize r)) (contents r).
Proof.
  intros H. apply Forall_fmap, Forall_true. intros i. simpl. unfold slot.
  destruct (slot_in_bounds r (u16 (_readIndex r + Z.of_nat i)) H).
  apply mem_read_length; [done | apply (wf_itemSize r H) | done].
Qed.

(** The constructor establishes the invariant, with an empty ring. *)
Lemma item_count_ok_pow2 k : 0 <= k -> item_count_ok (2 ^ k) = true.
Proof.
  intros Hk. unfold item_count_ok. rewrite Z.land_comm, pow2_land_pred by done.
  rewrite andb_true_iff, Z.ltb_lt. split; [lia | done].
Qed.

Lemma item_count_ok_inv n : item_count_ok n = true -> exists k, 0 <= k /\ n = 2 ^ k.
Proof.
  unfold item_count_ok. rewrite andb_true_iff, Z.ltb_lt, Z.eqb_eq. intros [Hpos Hand].
  exists (Z.log2 n). split; [apply Z.log2_nonneg|].
  pose proof (Z.log2_spec n Hpos) as [Hlo Hhi].
  destruct (Z.eq_dec n (2 ^ Z.log2 n)) as [|Hne]; [done|exfalso].
  assert (Z.log2 (n - 1) = Z.log2 n) as Hlog.
  { apply Z.log2_unique; [apply Z.log2_nonneg | lia]. }
  assert (Z.testbit (Z.land (n - 1) n) (Z.log2 n) = true) as Hbit.
  { rewrite Z.land_spec, (Z.bit_log2 n), andb_true_r by done.
    rewrite <- Hlog. apply Z.bit_log2.
    pose proof (Z.pow_pos_nonneg 2 (Z.log2 n)). pose proof (Z.log2_nonneg n). lia. }
  by rewrite Hand, Z.testbit_0_l in Hbit.
Qed.

Lemma item_count_ok_u16 n :
  is_u16 n -> item_count_ok n = true <-> exists k, 0 <= k <= 15 /\ n = 2 ^ k.
Proof.
  intros Hn. split.
  - intros (k & Hk & ->)%item_count_ok_inv. exists k. split; [|done].
    destruct (Z_lt_ge_dec k 16); [lia|].
    pose proof (Z.pow_le_mono_r 2 16 k). destruct Hn. lia.
  - intros (k & Hk & ->). apply item_count_ok_pow2. lia.
Qed.

(** An allocator gives blocks of the size asked for. *)
Definition alloc_ok (alloc : Z -> option (list byte)) : Prop :=
  forall n m, alloc n = Some m -> Z.of_nat (length m) = n.

Lemma OsRing_new_inv nd alloc itemSize itemCount r :
  OsRing_new nd alloc itemSize itemCount = Ret r ->
  nd || item_count_ok itemCount = true /\
  exists buffer, alloc (itemSize * itemCount) = Some buffer /\
    r = mkOsRing buffer itemSize itemCount 0 0.
Proof.
  unfold OsRing_new, int_product, c_assert. destruct (nd || _); simpl; [|done].
  destruct (_ <? _); simpl; [|done].
  intros H%obind_ret_inv. destruct H as (b & Hb & ?). simplify_eq.
  split; [done|]. exists b. destruct (alloc _); by simplify_eq/=.
Qed.

(** The item counts the assertion admits keep the product in an [int]. *)
Lemma int_product_ok itemSize itemCount :
  is_u16 itemSize -> is_u16 itemCount -> item_count_ok itemCount = true ->
  int_product itemSize itemCount = Some (itemSize * itemCount).
Proof.
  intros Hs Hc (k & Hk & ->)%(item_count_ok_u16 _ Hc). unfold int_product.
  rewrite (proj2 (Z.ltb_lt _ _)); [done|].
  pose proof (Z.pow_le_mono_r 2 k 15). pose proof (Z.pow_pos_nonneg 2 k).
  unfold is_u16 in Hs. change (2 ^ 15) with 32768 in *. change (2 ^ 31) with 2147483648. nia.
Qed.

(** With assertions on, the constructor is decided by the assertion and the
    allocation. *)
Lemma OsRing_new_eq alloc itemSize itemCount :
  is_u16 itemSize -> is_u16 itemCount ->
  OsRing_new false alloc itemSize itemCount =
    (if item_count_ok itemCount then
       match alloc (itemSize * itemCount) with
       | Some buffer => Ret (mkOsRing buffer itemSize itemCount 0 0)
       | None => Throw
       end
     else AssertFail).
Proof.
  intros Hs Hc. unfold OsRing_new, c_assert. simpl.
  destruct (item_count_ok itemCount) eqn:E; [|done]. simpl.
  rewrite (int_product_ok _ _ Hs Hc E). simpl. by destruct (alloc _).
Qed.

Lemma OsRing_new_wf alloc itemSize itemCount r :
  alloc_ok alloc -> is_u16 itemSize -> is_u16 itemCount ->
  OsRing_new false alloc itemSize itemCount = Ret r ->
  ring_wf r /\ contents r = [] /\ _itemSize r = itemSize /\ _itemCount r = itemCount.
Proof.
  intros Ha Hs Hc (Hok & buffer & Hb & ->)%OsRing_new_inv. simpl in Hok.
  apply (item_count_ok_u16 _ Hc) in Hok.
  split_and!; [ | done | done | done ].
  split; simpl; try done; unfold size; simpl.
  - destruct Hok as (k & ? & ->). change (u16 (0 - 0)) with 0. lia.
  - by apply Ha.
Qed.

(** * The specification: a bounded FIFO of messages *)

Module Fifo.

Record fifo := mkFifo { isz : Z; cap : Z; msgs : list (list byte) }.

Inductive op := Push (item : list byte) | Pop | Front | Size | Empty | Full.

Inductive obs := Unit | Msg (m : option (list byte)) | Num (n : Z) | Bool (b : bool).

Definition step (o : op) (f : fifo) : outcome (obs * fifo) :=
  match o with
  | Push item =>
      if Z.of_nat (length (msgs f)) =? cap f then AssertFail
      else Ret (Unit, mkFifo (isz f) (cap f) (msgs f ++ [take (Z.to_nat (isz f)) item]))
  | Pop =>
      match msgs f with
      | [] => AssertFail
      | _ :: l => Ret (Unit, mkFifo (isz f) (cap f) l)
      end
  | Front => Ret (Msg (head (msgs f)), f)
  | Size => Ret (Num (Z.of_nat (length (msgs f))), f)
  | Empty => Ret (Bool (bool_decide (msgs f = [])), f)
  | Full => Ret (Bool (bool_decide (Z.of_nat (length (msgs f)) = cap f)), f)
  end.

Fixpoint run (ops : list op) (f : fifo) : outcome (list obs * fifo) :=
  match ops with
  | [] => Ret ([], f)
  | o :: ops => do '(b, f) <- step o f; do '(bs, f) <- run ops f; Ret (b :: bs, f)
  end.

End Fifo.

(** The same methods on the ring; the message [front] points at is read. *)
Definition ring_step (nd : bool) (o : Fifo.op) (r : OsRing) : outcome (Fifo.obs * OsRing) :=
  match o with
  | Fifo.Push item => do r <- push_back nd item r; Ret (Fifo.Unit, r)
  | Fifo.Pop => do r <- pop_front nd r; Ret (Fifo.Unit, r)
  | Fifo.Front =>
      Ret (Fifo.Msg ((fun off => mem_read (_buffer r) off (_itemSize r)) <$> front r), r)
  | Fifo.Size => Ret (Fifo.Num (size r), r)
  | Fifo.Empty => Ret (Fifo.Bool (empty r), r)
  | Fifo.Full => Ret (Fifo.Bool (full r), r)
  end.

Fixpoint ring_run (nd : bool) (ops : list Fifo.op) (r : OsRing) : outcome (list Fifo.obs * OsRing) :=
  match ops with
  | [] => Ret ([], r)
  | o :: ops => do '(b, r) <- ring_step nd o r; do '(bs, r) <- ring_run nd ops r; Ret (b :: bs, r)
  end.

(** The ring implements the FIFO of its contents. *)
Definition ring_fifo (r : OsRing) : Fifo.fifo :=
  Fifo.mkFifo (_itemSize r) (_itemCount r) (contents r).

(** Two executions agree: the same observations and related final states, or
    both are stopped by an assertion. *)
Definition agree {A} (x : outcome (A * OsRing)) (y : outcome (A * Fifo.fifo)) : Prop :=
  match x, y with
  | Ret (a, r), Ret (b, f) => a = b /\ ring_wf r /\ f = ring_fifo r
  | AssertFail, AssertFail => True
  | _, _ => False
  end.

(** Every pushed object is as large as an item. *)
Definition op_fits (itemSize : Z) (o : Fifo.op) : Prop :=
  match o with Fifo.Push item => itemSize <= Z.of_nat (length item) | _ => True end.

Lemma ring_step_agree o r :
  ring_wf r -> op_fits (_itemSize r) o ->
  agree (ring_step false o r) (Fifo.step o (ring_fifo r)) /\
  forall b r', ring_step false o r = Ret (b, r') -> _itemSize r' = _itemSize r.
Proof.
  intros H Hfit. pose proof (size_contents r) as Hn. pose proof (wf_size r H).
  destruct o as [item| | | | |]; simpl in *.
  - destruct (Z.eqb_spec (Z.of_nat (length (contents r))) (_itemCount r)) as [E|E].
    { rewrite push_back_enabled_full by (apply Z.eqb_eq; lia). done. }
    destruct (push_back_spec false item r H) as (r' & -> & ? & Hi & Hc & Hcon); [lia|done|].
    simpl. split; [|intros; by simplify_eq].
    split_and!; [done|done|]. unfold ring_fifo. by rewrite Hi, Hc, Hcon.
  - destruct (contents r) as [|x l] eqn:Hx.
    { rewrite pop_front_enabled_empty; [done|]. by rewrite empty_spec, Hx. }
    destruct (pop_front_spec false r x l H Hx) as (r' & -> & ? & Hi & Hc & Hcon).
    simpl. split; [|intros; by simplify_eq].
    split_and!; [done|done|]. unfold ring_fifo. by rewrite Hi, Hc, Hcon.
  - pose proof (front_spec r H) as Hf. split; [|intros; by simplify_eq].
    split_and!; [|done|done]. destruct (contents r); [by rewrite Hf|].
    destruct Hf as (off & -> & Hm). simpl. by rewrite Hm.
  - split; [|intros; by simplify_eq]. split_and!; [by rewrite Hn|done|done].
  - split; [|intros; by simplify_eq]. split_and!; [by rewrite empty_spec|done|done].
  - split; [|intros; by simplify_eq]. split_and!; [by rewrite full_spec|done|done].
Qed.

(** * Properties *)

Lemma ring_run_agree ops r :
  ring_wf r -> Forall (op_fits (_itemSize r)) ops ->
  agree (ring_run false ops r) (Fifo.run ops (ring_fifo r)).
Proof.
  revert r. induction ops as [|o ops IH]; intros r H Hfit; [done|].
  apply Forall_cons in Hfit as [Ho Hops]. simpl.
  destruct (ring_step_agree o r H Ho) as [Hag Hsz].
  destruct (ring_step false o r) as [[b r']| | | |], (Fifo.step o (ring_fifo r)) as [[b' f]| | | |];
    try done.
  destruct Hag as (-> & H' & ->). simpl.
  specialize (IH r' H'). rewrite (Hsz b' r') in IH by done. specialize (IH Hops).
  destruct (ring_run false ops r') as [[bs r'']| | | |], (Fifo.run ops (ring_fifo r')) as [[bs' f]| | | |];
    try done.
  by destruct IH as (-> & ? & ->).
Qed.

Lemma fifo_step_sizes o f b f' :
  Fifo.step o f = Ret (b, f') -> Fifo.isz f' = Fifo.isz f /\ Fifo.cap f' = Fifo.cap f.
Proof.
  destruct f as [sz n l]. destruct o; simpl; repeat case_match; intros; by simplify_eq/=.
Qed.

Lemma fifo_run_sizes ops f bs f' :
  Fifo.run ops f = Ret (bs, f') -> Fifo.isz f' = Fifo.isz f /\ Fifo.cap f' = Fifo.cap f.
Proof.
  revert f bs. induction ops as [|o ops IH]; intros f bs; simpl; [by intros [= _ <-]|].
  intros ([b f1] & E & ([bs' f2] & E' & [= _ <-])%obind_ret_inv)%obind_ret_inv.
  destruct (IH _ _ E') as [-> ->]. by apply fifo_step_sizes in E.
Qed.

(** C10. The ring implements a bounded FIFO of whole messages: from any
    well-formed state, any sequence of method calls gives the observations of
    the FIFO of its contents, over any number of laps of the 16-bit counters;
    an assertion fails exactly where the FIFO has no step. *)
Theorem ring_refines_fifo ops r :
  ring_wf r -> Forall (op_fits (_itemSize r)) ops ->
  agree (ring_run false ops r) (Fifo.run ops (ring_fifo r)).
Proof. apply ring_run_agree. Qed.

Example ring_refines_fifo_witness :
  let r := mkOsRing [x00; x00; x00; x00] 1 4 65534 65534 in
  let ops := [Fifo.Push [x01]; Fifo.Push [x02]; Fifo.Push [x03]; Fifo.Front; Fifo.Pop;
              Fifo.Push [x04]; Fifo.Push [x05]; Fifo.Full; Fifo.Front; Fifo.Size] in
  ring_wf r /\ Forall (op_fits 1) ops /\
  agree (ring_run false ops r) (Fifo.run ops (ring_fifo r)).
Proof.
  assert (ring_wf (mkOsRing [x00; x00; x00; x00] 1 4 65534 65534)) as H.
  { split; try (vm_compute; intuition congruence). exists 2. vm_compute; intuition congruence. }
  assert (Forall (op_fits 1) [Fifo.Push [x01]; Fifo.Push [x02]; Fifo.Push [x03]; Fifo.Front;
    Fifo.Pop; Fifo.Push [x04]; Fifo.Push [x05]; Fifo.Full; Fifo.Front; Fifo.Size]) as Hf.
  { repeat constructor; vm_compute; congruence. }
  split_and!; [exact H | exact Hf | exact (ring_refines_fifo _ _ H Hf)].
Defined.

(** C28. The type of a ring: what the constructor returns, and what any sequence of
    calls then leaves, has its two sizes as given, a number of items that is a
    power of two, 16-bit counters at most that far apart, and a buffer of the
    right length; and every slot that a counter designates lies inside it. *)
Theorem ring_well_typed alloc itemSize itemCount r0 ops bs r :
  alloc_ok alloc -> is_u16 itemSize -> is_u16 itemCount ->
  OsRing_new false alloc itemSize itemCount = Ret r0 ->
  Forall (op_fits itemSize) ops -> ring_run false ops r0 = Ret (bs, r) ->
  ring_wf r /\ item_size r = itemSize /\ max_size r = itemCount /\ 0 <= size r <= itemCount /\
  forall index, 0 <= slot_offset r index /\
    slot_offset r index + itemSize <= Z.of_nat (length (_buffer r)).
Proof.
  intros Ha Hs Hn Hnew Hops Hrun.
  destruct (OsRing_new_wf _ _ _ _ Ha Hs Hn Hnew) as (Hwf0 & _ & Hsz & Hcnt).
  pose proof (ring_run_agree ops r0 Hwf0) as Hag. rewrite Hsz, Hrun in Hag. specialize (Hag Hops).
  destruct (Fifo.run ops (ring_fifo r0)) as [[bs' f]| | | |] eqn:E; try done.
  destruct Hag as (_ & Hwf & ->). destruct (fifo_run_sizes _ _ _ _ E) as [Hi Hc]. simpl in Hi, Hc.
  rewrite Hsz in Hi. rewrite Hcnt in Hc. unfold item_size, max_size.
  split_and!; try done; [apply size_range | rewrite <- Hc; apply (wf_size r Hwf) |].
  intros index. rewrite <- Hi. by apply slot_in_bounds.
Qed.

Example ring_well_typed_witness :
  let ops := [Fifo.Push [x01]; Fifo.Pop; Fifo.Push [x02]] in
  exists r, OsRing_new false (fun n => Some (replicate (Z.to_nat n) x00)) 1 2 =
              Ret (mkOsRing [x00; x00] 1 2 0 0) /\
    ring_run false ops (mkOsRing [x00; x00] 1 2 0 0) = Ret ([Fifo.Unit; Fifo.Unit; Fifo.Unit], r) /\
    ring_wf r.
Proof.
  intros ops. eexists. split; [reflexivity|]. split; [vm_compute; reflexivity|].
  refine (proj1 (ring_well_typed (fun n => if 0 <=? n then Some (replicate (Z.to_nat n) x00) else None)
    1 2 (mkOsRing [x00; x00] 1 2 0 0) ops [Fifo.Unit; Fifo.Unit; Fifo.Unit] _ _ _ _ eq_refl _ _)).
  - intros n m. destruct (Z.leb_spec 0 n); [|done]. intros [= <-]. rewrite length_replicate. lia.
  - unfold is_u16. lia.
  - unfold is_u16. lia.
  - repeat constructor; vm_compute; congruence.
  - vm_compute. reflexivity.
Defined.

(** The constructor, with assertions on, gives a well-formed empty ring
    exactly for the item counts that are powers of two (at most 2^15) when the
    allocation succeeds; the allocation size does not overflow [int]. *)
Theorem ring_new_spec alloc itemSize itemCount :
  alloc_ok alloc -> is_u16 itemSize -> is_u16 itemCount ->
  match OsRing_new false alloc itemSize itemCount with
  | Ret r => ring_wf r /\ ring_fifo r = Fifo.mkFifo itemSize itemCount [] /\
             itemSize * itemCount < 2 ^ 31
  | AssertFail => ~ exists k, 0 <= k <= 15 /\ itemCount = 2 ^ k
  | Throw => (exists k, 0 <= k <= 15 /\ itemCount = 2 ^ k) /\ alloc (itemSize * itemCount) = None
  | Undef | Block => False
  end.
Proof.
  intros Ha Hs Hc. destruct (OsRing_new false alloc itemSize itemCount) as [r| | | |] eqn:E.
  2-5: rewrite (OsRing_new_eq _ _ _ Hs Hc) in E;
    try rewrite <- (item_count_ok_u16 itemCount Hc);
    destruct (item_count_ok itemCount), (alloc (itemSize * itemCount)); done.
  destruct (OsRing_new_wf _ _ _ _ Ha Hs Hc E) as (H & Hcon & Hi & Hn).
  split_and!; [done | unfold ring_fifo; by rewrite Hcon, Hi, Hn |].
  rewrite <- Hi, <- Hn. by apply buffer_bytes_bound.
Qed.

Example ring_new_spec_witness :
  let alloc := fun n => Some (replicate (Z.to_nat n) x00) in
  alloc_ok (fun n => if 0 <=? n then alloc n else None) /\
  (ring_wf (mkOsRing (replicate 12 x00) 3 4 0 0) /\
   ring_fifo (mkOsRing (replicate 12 x00) 3 4 0 0) = Fifo.mkFifo 3 4 [] /\ 3 * 4 < 2 ^ 31).
Proof.
  assert (alloc_ok (fun n => if 0 <=? n then Some (replicate (Z.to_nat n) x00) else None)) as Ha.
  { intros n m. destruct (Z.leb_spec 0 n); [|done]. intros; simplify_eq.
    rewrite length_replicate. lia. }
  split; [exact Ha|].
  refine (ring_new_spec _ 3 4 Ha _ _); vm_compute; intuition congruence.
Defined.

(** Built without assertions, [push_back] on a full ring does not fail: it
    writes over the oldest message, [size()] exceeds the capacity, and the
    invariant is lost. *)
Theorem push_back_ndebug_full r item :
  ring_wf r -> full r = true -> _itemSize r <= Z.of_nat (length item) ->
  exists r', push_back true item r = Ret r' /\
    size r' = _itemCount r + 1 /\ full r' = false /\ ~ ring_wf r' /\
    front r' = Some (slot_offset r (_writeIndex r)) /\
    slot r' (_readIndex r') = take (Z.to_nat (_itemSize r)) item.
Proof.
  intros H Hfull Hitem.
  destruct (push_back_ret true item r H Hitem eq_refl) as (buffer & Hcp & ->).
  apply Z.eqb_eq in Hfull. pose proof (count_range r H). pose proof (wf_read r H).
  set (r' := mkOsRing _ _ _ _ _).
  assert (size r' = _itemCount r + 1) as Hsize.
  { unfold size, r' in *; simpl. zwrap. }
  assert (slot_offset r (_readIndex r) = slot_offset r (_writeIndex r)) as Hslot.
  { rewrite (write_index_spec r H), slot_offset_u16, !slot_offset_spec, Hfull by done.
    f_equal. rewrite <- (Z.mul_1_l (_itemCount r)) at 2. by rewrite Z.mod_add by lia. }
  exists r'. split_and!; [done | done | | | | ].
  - unfold full. rewrite Hsize. simpl. apply Z.eqb_neq. lia.
  - intros Hwf. apply wf_size in Hwf. simpl in Hwf. lia.
  - unfold front. replace (empty r') with false; [by rewrite <- Hslot|].
    symmetry. apply Z.eqb_neq. intros E. unfold size in Hsize. rewrite E, Z.sub_diag in Hsize.
    zwrap.
  - unfold slot. simpl. change (slot_offset r' ?i) with (slot_offset r i).
    rewrite Hslot. by apply (mem_read_memcpy_same _ _ _ _ _ Hcp).
Qed.

Example push_back_ndebug_full_witness :
  let r := mkOsRing [x01; x02] 1 2 0 2 in
  ring_wf r /\
    exists r', push_back true [x03] r = Ret r' /\
    size r' = 3 /\ full r' = false /\ ~ ring_wf r' /\ front r' = Some 0 /\
    slot r' (_readIndex r') = [x03].
Proof.
  assert (ring_wf (mkOsRing [x01; x02] 1 2 0 2)) as H.
  { split; try (vm_compute; intuition congruence). exists 1. vm_compute; intuition congruence. }
  split; [exact H|].
  refine (push_back_ndebug_full _ [x03] H _ _); vm_compute; congruence.
Defined.
