(* ===== verification/RingPthread.v ===== *)
(** targets/posix/RingPthread.h: the ring shared by threads under a recursive
    pthread mutex and a condition variable. A configuration is the object and
    the position of every thread that is inside a method; a move runs one
    statement of one thread, so every interleaving of the statements is a
    sequence of moves. *)

From S2P Require Import Prelude OsTypes Pthread OsRing.

(** * Threads *)

(** Where a thread is inside [put], [get] or [size], named after the statement
    it runs next. *)
Inductive position :=
| PutLock (item : list byte)           (* pthread_mutex_lock(&_mutex) *)
| PutPush (item : list byte)           (* super_t::push_back(itemIn) *)
| PutSignal                            (* pthread_cond_signal(&_condv) *)
| PutUnlock                            (* pthread_mutex_unlock(&_mutex) *)
| GetLock (tmo : Z)                    (* pthread_mutex_lock(&_mutex) *)
| GetCheck                             (* while (super_t::size() == 0) *)
| GetWaiting                           (* asleep in pthread_cond_wait *)
| GetWoken                             (* in pthread_cond_wait, to lock again *)
| GetTake                              (* if (super_t::size() != 0) ... *)
| GetUnlock (item : option (list byte))
| SizeLock
| SizeRead
| SizeUnlock (size : Z).

(** The thread holds the mutex. *)
Definition in_critical (p : position) : bool :=
  match p with
  | PutPush _ | PutSignal | PutUnlock | GetCheck | GetTake | GetUnlock _ | SizeRead
  | SizeUnlock _ => true
  | _ => false
  end.

Definition is_waiting (p : position) : bool :=
  match p with GetWaiting => true | _ => false end.

Inductive call := CallPut (item : list byte) | CallGet (tmo : Z) | CallSize.

Definition enter (c : call) : position :=
  match c with
  | CallPut item => PutLock item
  | CallGet tmo => GetLock tmo
  | CallSize => SizeLock
  end.

(** Wakes the threads of [ws] that wait. *)
Definition wake1 (t : tid) (th : gmap tid position) : gmap tid position :=
  match th !! t with Some GetWaiting => <[t := GetWoken]> th | _ => th end.

Definition wake (ws : list tid) (th : gmap tid position) : gmap tid position :=
  foldr wake1 th ws.

Definition waits (th : gmap tid position) (t : tid) : bool :=
  match th !! t with Some p => is_waiting p | None => false end.

Definition someone_waits (th : gmap tid position) : bool :=
  existsb (fun tp => is_waiting tp.2) (map_to_list th).

(** "pthread_cond_signal shall unblock at least one of the threads that are
    blocked on the condition variable, if any are." *)
Definition signal_wakes (ws : list tid) (th : gmap tid position) : bool :=
  negb (someone_waits th) || existsb (waits th) ws.

(** * Counting the threads that will look at the ring *)

(** The thread will take a message if there is one when it gets there, or is
    about to signal one that it has put. *)
Definition active (p : position) : bool :=
  match p with
  | PutSignal | GetLock _ | GetCheck | GetWoken | GetTake => true
  | _ => false
  end.

Abbreviation weight := (mweight (fun p => Nat.b2n (active p))).

(** The number of active threads. *)
Definition pot (th : gmap tid position) : nat := msum (fun p => Nat.b2n (active p)) th.

Lemma pot_delete t th : pot th = (weight (th !! t) + pot (delete t th))%nat.
Proof. apply msum_delete. Qed.

Lemma pot_insert t p th :
  (pot (<[t := p]> th) + weight (th !! t) = pot th + weight (Some p))%nat.
Proof. exact (msum_insert (fun p => Nat.b2n (active p)) t p th). Qed.

Lemma pot_zero th : pot th = 0%nat -> forall t p, th !! t = Some p -> active p = false.
Proof.
  intros Hz t p Hp. rewrite (pot_delete t), Hp in Hz. simpl in Hz. by destruct (active p).
Qed.

Lemma pot_pos th : (0 < pot th)%nat -> exists t p, th !! t = Some p /\ active p = true.
Proof.
  intros (t & p & E & Hp)%msum_pos. exists t, p. split; [done|]. by destruct (active p); simpl in Hp; [|lia].
Qed.

Lemma wake1_lookup t t' th :
  wake1 t th !! t' = th !! t' \/
  t' = t /\ th !! t' = Some GetWaiting /\ wake1 t th !! t' = Some GetWoken.
Proof.
  unfold wake1. destruct (th !! t) as [[]|] eqn:E; auto.
  destruct (decide (t' = t)) as [->|]; [right | left].
  - by rewrite lookup_insert_eq.
  - by rewrite lookup_insert_ne.
Qed.

Lemma wake_lookup ws t th :
  wake ws th !! t = th !! t \/
  existsb (waits th) ws = true /\ th !! t = Some GetWaiting /\ wake ws th !! t = Some GetWoken.
Proof.
  induction ws as [|t' ws IH]; simpl; [by left|].
  destruct (wake1_lookup t' t (wake ws th)) as [-> | (-> & E & ->)].
  - destruct IH as [|(Hx & ?)]; [by left|right]. by rewrite Hx, orb_true_r.
  - right. destruct IH as [E'|(_ & _ & E')]; rewrite E in E'; [|done].
    unfold waits. by rewrite <- E'.
Qed.

Lemma pot_wake1 t th : pot (wake1 t th) = (pot th + Nat.b2n (waits th t))%nat.
Proof.
  unfold wake1, waits. destruct (th !! t) as [p|] eqn:E; [|simpl; lia].
  destruct p; simpl; try lia. pose proof (pot_insert t GetWoken th) as Hp.
  rewrite E in Hp. simpl in Hp. lia.
Qed.

Lemma pot_wake ws th : (pot th + Nat.b2n (existsb (waits th) ws) <= pot (wake ws th))%nat.
Proof.
  induction ws as [|t ws IH]; simpl; [lia|]. rewrite pot_wake1.
  destruct (waits th t) eqn:Hw; simpl; [|lia].
  unfold waits in Hw |- *. destruct (th !! t) as [[]|] eqn:E; try done.
  destruct (wake_lookup ws t th) as [E'|(Hx & _ & E')]; rewrite E'.
  - rewrite E. simpl. lia.
  - rewrite Hx in IH. simpl in *. lia.
Qed.

Lemma someone_waits_spec th :
  someone_waits th = true <-> exists t, th !! t = Some GetWaiting.
Proof.
  unfold someone_waits. rewrite existsb_exists. split.
  - intros ([t p] & Hin & Hw). exists t. apply list_elem_of_In, elem_of_map_to_list in Hin.
    by destruct p.
  - intros [t Ht]. exists (t, GetWaiting). split; [|done].
    by apply list_elem_of_In, elem_of_map_to_list.
Qed.

(** * The mutex and the positions agree *)

Definition lock_ok (h : option (tid * nat)) (th : gmap tid position) : Prop :=
  (forall t p, th !! t = Some p -> in_critical p = true -> h = Some (t, 1%nat)) /\
  (forall t n, h = Some (t, n) -> exists p, th !! t = Some p /\ in_critical p = true).

Definition critical (o : option position) : bool :=
  match o with Some p => in_critical p | None => false end.

Lemma lock_ok_insert h th t p :
  lock_ok h th -> in_critical p = critical (th !! t) -> lock_ok h (<[t := p]> th).
Proof.
  intros [H1 H2] Hp. split.
  - intros t' p'. rewrite lookup_insert. case_decide as Ht; [intros; simplify_eq|apply H1].
    destruct (th !! t') as [p0|] eqn:E; simpl in *; [|congruence]. apply (H1 _ _ E). congruence.
  - intros t' n Hh. destruct (H2 t' n Hh) as (p0 & E & Hc). rewrite lookup_insert.
    case_decide; [subst|by exists p0]. exists p. rewrite E in Hp. by rewrite Hp.
Qed.

Lemma lock_ok_acquire th t p :
  lock_ok None th -> in_critical p = true -> lock_ok (Some (t, 1%nat)) (<[t := p]> th).
Proof.
  intros [H1 _] Hp. split.
  - intros t' p'. rewrite lookup_insert. case_decide; [by intros; subst|].
    intros E Hc. by specialize (H1 _ _ E Hc).
  - intros t' n [= <- <-]. exists p. by rewrite lookup_insert_eq.
Qed.

Lemma lock_ok_release th t p :
  lock_ok (Some (t, 1%nat)) th -> in_critical p = false -> lock_ok None (<[t := p]> th).
Proof.
  intros [H1 _] Hp. split; [|done]. intros t' p'. rewrite lookup_insert.
  case_decide; intros E Hc; simplify_eq; [congruence|].
  specialize (H1 _ _ E Hc). congruence.
Qed.

Lemma lock_ok_end th t : lock_ok (Some (t, 1%nat)) th -> lock_ok None (delete t th).
Proof.
  intros [H1 _]. split; [|done]. intros t' p'. rewrite lookup_delete.
  case_decide; [done|]. intros E Hc. specialize (H1 _ _ E Hc). congruence.
Qed.

Lemma lock_ok_wake h th ws : lock_ok h th -> lock_ok h (wake ws th).
Proof.
  intros [H1 H2]. split.
  - intros t p Hp Hc. destruct (wake_lookup ws t th) as [E|(_ & _ & E)]; rewrite E in Hp.
    + by apply (H1 t p). + by simplify_eq.
  - intros t n Hh. destruct (H2 t n Hh) as (p & E & Hc).
    destruct (wake_lookup ws t th) as [E'|(_ & E' & _)]; [|by rewrite E in E'; simplify_eq].
    exists p. by rewrite E', E.
Qed.

Section RingPthread.
Context {M : Type} `{Errno, PthreadMutex M}.

(** Whether [assert] is compiled out. *)
Variable ndebug : bool.

(** The object, the threads inside its methods, and, for the statements below,
    the messages pushed and popped so far, in order. *)
Record config := mkConfig {
  ring : OsRing;
  _mutex : M;
  threads : gmap tid position;
  pushed : list (list byte);
  popped : list (list byte)
}.

Inductive move :=
| Call (t : tid) (c : call)            (* t enters a method *)
| Run (t : tid) (ws : list tid)        (* t runs a statement; a signal wakes ws *)
| Spurious (t : tid).                  (* pthread_cond_wait returns unsignalled *)

Definition set_thread (t : tid) (p : position) (c : config) : config :=
  mkConfig (ring c) (_mutex c) (<[t := p]> (threads c)) (pushed c) (popped c).

Definition end_thread (t : tid) (c : config) : config :=
  mkConfig (ring c) (_mutex c) (delete t (threads c)) (pushed c) (popped c).

Definition set_mutex (m : M) (c : config) : config :=
  mkConfig (ring c) m (threads c) (pushed c) (popped c).

(** Locking: [None] when the thread has to wait. The code ignores the status. *)
Definition lock_then (t : tid) (p : position) (c : config) : option (outcome config) :=
  match pthread_mutex_lock t (_mutex c) with
  | Some (_, m) => Some (Ret (set_thread t p (set_mutex m c)))
  | None => None
  end.

Definition unlock (t : tid) (c : config) : config :=
  set_mutex (pthread_mutex_unlock t (_mutex c)).2 c.

(** [super_t::push_back(itemIn)] *)
Definition do_push (t : tid) (item : list byte) (c : config) : outcome config :=
  do r <- push_back ndebug item (ring c);
  Ret (mkConfig r (_mutex c) (<[t := PutSignal]> (threads c))
         (pushed c ++ [take (Z.to_nat (_itemSize (ring c))) item]) (popped c)).

(** [if (super_t::size() != 0) { item = super_t::front(); if (item) { memcpy;
    super_t::pop_front(); } }] *)
Definition do_take (t : tid) (c : config) : outcome config :=
  if size (ring c) =? 0 then Ret (set_thread t (GetUnlock None) c)
  else
    match front (ring c) with
    | None => Ret (set_thread t (GetUnlock None) c)
    | Some off =>
        let item := mem_read (_buffer (ring c)) off (_itemSize (ring c)) in
        do r <- pop_front ndebug (ring c);
        Ret (mkConfig r (_mutex c) (<[t := GetUnlock (Some item)]> (threads c))
               (pushed c) (popped c ++ [item]))
    end.

(** The next statement of thread [t] at position [p]; [None]: it cannot run. *)
Definition run_thread (t : tid) (ws : list tid) (p : position) (c : config)
    : option (outcome config) :=
  match p with
  | PutLock item => lock_then t (PutPush item) c
  | PutPush item => Some (do_push t item c)
  | PutSignal =>
      if signal_wakes ws (threads c)
      then Some (Ret (set_thread t PutUnlock
                        (mkConfig (ring c) (_mutex c) (wake ws (threads c)) (pushed c) (popped c))))
      else None
  | GetLock tmo => lock_then t (if tmo =? 0 then GetTake else GetCheck) c
  | GetCheck =>
      Some (Ret (if size (ring c) =? 0 then set_thread t GetWaiting (unlock t c)
                 else set_thread t GetTake c))
  | GetWaiting => None
  | GetWoken => lock_then t GetCheck c
  | GetTake => Some (do_take t c)
  | SizeLock => lock_then t SizeRead c
  | SizeRead => Some (Ret (set_thread t (SizeUnlock (size (ring c))) c))
  | PutUnlock | GetUnlock _ | SizeUnlock _ => Some (Ret (end_thread t (unlock t c)))
  end.

Definition exec (mv : move) (c : config) : option (outcome config) :=
  match mv with
  | Call t cl =>
      match threads c !! t with
      | None => Some (Ret (set_thread t (enter cl) c))
      | Some _ => None
      end
  | Run t ws =>
      match threads c !! t with Some p => run_thread t ws p c | None => None end
  | Spurious t =>
      match threads c !! t with
      | Some GetWaiting => Some (Ret (set_thread t GetWoken c))
      | _ => None
      end
  end.

(** The object a put passes is at least as large as an item. *)
Definition move_ok (itemSize : Z) (mv : move) : Prop :=
  match mv with
  | Call _ (CallPut item) => itemSize <= Z.of_nat (length item)
  | _ => True
  end.

(** The configurations reached from a fresh ring [r0] and a free mutex. *)
Inductive reachable (r0 : OsRing) (m0 : M) : config -> Prop :=
| reach_init : reachable r0 m0 (mkConfig r0 m0 ∅ [] [])
| reach_step c mv c' :
    reachable r0 m0 c -> move_ok (_itemSize r0) mv -> exec mv c = Some (Ret c') ->
    reachable r0 m0 c'.

Context `{!PthreadMutexLaws M}.

(** * The invariant *)

Record inv (itemSize itemCount : Z) (c : config) : Prop := {
  inv_ring : ring_wf (ring c);
  inv_itemSize : _itemSize (ring c) = itemSize;
  inv_itemCount : _itemCount (ring c) = itemCount;
  inv_fits : forall t item,
    threads c !! t = Some (PutLock item) \/ threads c !! t = Some (PutPush item) ->
    itemSize <= Z.of_nat (length item);
  inv_lock : lock_ok (holder (_mutex c)) (threads c);
  inv_fifo : pushed c = popped c ++ contents (ring c);
  inv_wake : someone_waits (threads c) = true -> size (ring c) <= Z.of_nat (pot (threads c))
}.

(** The object passed to a put stays known when a position changes. *)
Definition fits (itemSize : Z) (p : position) : Prop :=
  match p with
  | PutLock item | PutPush item => itemSize <= Z.of_nat (length item)
  | _ => True
  end.

Lemma inv_fits_spec itemSize itemCount c t p :
  inv itemSize itemCount c -> threads c !! t = Some p -> fits itemSize p.
Proof. intros Hi Ht. destruct p; simpl; try done; apply (inv_fits _ _ _ Hi t); auto. Qed.

Lemma fits_insert itemSize itemCount c t p (th : gmap tid position) :
  inv itemSize itemCount c -> fits itemSize p ->
  (forall t', t' <> t -> th !! t' = threads c !! t' \/ exists q, th !! t' = Some q /\ fits itemSize q) ->
  th !! t = Some p \/ th !! t = None ->
  forall t' item, th !! t' = Some (PutLock item) \/ th !! t' = Some (PutPush item) ->
    itemSize <= Z.of_nat (length item).
Proof.
  intros Hi Hp Hoth Ht t' item Hor. destruct (decide (t' = t)) as [->|Hne].
  - destruct Ht as [Ht|Ht]; rewrite Ht in Hor; destruct Hor; simplify_eq; done.
  - destruct (Hoth t' Hne) as [E|(q & E & Hq)]; rewrite E in Hor.
    + by apply (inv_fits _ _ _ Hi t').
    + destruct Hor; simplify_eq; done.
Qed.

(** The mutex, after a lock by a thread outside the critical sections. *)
Lemma lock_granted t c m' r itemSize itemCount :
  inv itemSize itemCount c -> critical (threads c !! t) = false ->
  pthread_mutex_lock t (_mutex c) = Some (r, m') ->
  holder (_mutex c) = None /\ holder m' = Some (t, 1%nat).
Proof.
  intros Hi Hc E. destruct (inv_lock _ _ _ Hi) as [H1 H2].
  destruct (holder (_mutex c)) as [[t' n]|] eqn:Hh.
  - destruct (H2 t' n eq_refl) as (p & Ep & Hp).
    rewrite pthread_lock_held in E; [done|]. rewrite Hh. simpl.
    apply bool_decide_eq_false_2. intros ->. rewrite Ep in Hc. simpl in Hc. congruence.
  - split; [done|]. destruct (pthread_lock_free t _ Hh) as (m0 & E0 & ?).
    rewrite E in E0. by simplify_eq.
Qed.

(** The mutex, after an unlock by the thread inside the critical section. *)
Lemma unlock_released t c itemSize itemCount :
  inv itemSize itemCount c -> critical (threads c !! t) = true ->
  holder (_mutex c) = Some (t, 1%nat) /\ holder (pthread_mutex_unlock t (_mutex c)).2 = None.
Proof.
  intros Hi Hc. destruct (inv_lock _ _ _ Hi) as [H1 _].
  destruct (threads c !! t) as [p|] eqn:E; [|done]. specialize (H1 t p E Hc).
  split; [done|]. by destruct (pthread_unlock_own t _ 0 H1) as (m & -> & ?).
Qed.

Lemma someone_waits_insert t p th :
  is_waiting p = false -> someone_waits (<[t := p]> th) = true -> someone_waits th = true.
Proof.
  rewrite !someone_waits_spec. intros Hp [t' E]. exists t'.
  rewrite lookup_insert in E. by case_decide; simplify_eq.
Qed.

Lemma someone_waits_delete t th :
  someone_waits (delete t th) = true -> someone_waits th = true.
Proof.
  rewrite !someone_waits_spec. intros [t' E]. exists t'. rewrite lookup_delete in E.
  by case_decide.
Qed.

(** Moves that change one thread's position and the mutex only. *)
Lemma inv_move itemSize itemCount c t p m :
  inv itemSize itemCount c -> fits itemSize p ->
  lock_ok (holder m) (<[t := p]> (threads c)) ->
  is_waiting p = false \/ size (ring c) = 0 ->
  (weight (threads c !! t) <= weight (Some p))%nat \/ size (ring c) = 0 ->
  inv itemSize itemCount (set_thread t p (set_mutex m c)).
Proof.
  intros Hi Hp Hl Hw Hpot. split; simpl; try apply Hi; try done.
  - apply (fits_insert _ _ _ t p _ Hi Hp); [|by left; rewrite lookup_insert_eq].
    intros t' Hne. left. by rewrite lookup_insert_ne.
  - intros Hsome. destruct Hpot as [Hpot|Hz]; [|lia]. destruct Hw as [Hw|Hz]; [|lia].
    apply someone_waits_insert in Hsome; [|done].
    pose proof (inv_wake _ _ _ Hi Hsome). pose proof (pot_insert t p (threads c)). lia.
Qed.

Lemma inv_end itemSize itemCount c t :
  inv itemSize itemCount c -> critical (threads c !! t) = true ->
  weight (threads c !! t) = 0%nat -> inv itemSize itemCount (end_thread t (unlock t c)).
Proof.
  intros Hi Hc Hw. destruct (unlock_released _ _ _ _ Hi Hc) as [Hh Hm].
  pose proof (inv_lock _ _ _ Hi) as Hl. rewrite Hh in Hl.
  split; simpl; try apply Hi.
  - apply (fits_insert _ _ _ t PutSignal _ Hi); [done| |by right; rewrite lookup_delete_eq].
    intros t' Hne. left. by rewrite lookup_delete_ne.
  - rewrite Hm. by apply lock_ok_end.
  - intros Hsome%someone_waits_delete. pose proof (inv_wake _ _ _ Hi Hsome).
    pose proof (pot_delete t (threads c)). lia.
Qed.

Lemma inv_lock_then itemSize itemCount c t p c' :
  inv itemSize itemCount c -> critical (threads c !! t) = false ->
  lock_then t p c = Some (Ret c') -> fits itemSize p -> in_critical p = true ->
  is_waiting p = false -> (weight (threads c !! t) <= weight (Some p))%nat ->
  inv itemSize itemCount c'.
Proof.
  intros Hi Hc. unfold lock_then.
  destruct (pthread_mutex_lock t (_mutex c)) as [[r m]|] eqn:E; [|done]. intros ? Hf Hp Hw Hpot.
  simplify_eq. destruct (lock_granted _ _ _ _ _ _ Hi Hc E) as [Hn Hm].
  apply inv_move; auto. rewrite Hm. apply lock_ok_acquire; [|done].
  rewrite <- Hn. apply (inv_lock _ _ _ Hi).
Qed.

Lemma inv_do_push itemSize itemCount c t item c' :
  ndebug = false -> inv itemSize itemCount c -> threads c !! t = Some (PutPush item) ->
  do_push t item c = Ret c' -> inv itemSize itemCount c'.
Proof.
  intros Hnd Hi Ht. unfold do_push. rewrite Hnd.
  intros (r & E & ?)%obind_ret_inv. simplify_eq.
  pose proof (inv_ring _ _ _ Hi) as Hwf. pose proof (inv_fits_spec _ _ _ _ _ Hi Ht) as Hfit.
  simpl in Hfit. assert (full (ring c) = false) as Hfull.
  { destruct (full (ring c)) eqn:Hf; [|done]. by rewrite push_back_enabled_full in E. }
  apply Z.eqb_neq in Hfull. pose proof (wf_size _ Hwf).
  destruct (push_back_spec false item (ring c) Hwf) as (r' & E' & Hwf' & Hs & Hn & Hcon);
    [lia | by rewrite (inv_itemSize _ _ _ Hi) |].
  rewrite E in E'. simplify_eq. rename r' into r.
  split; simpl.
  - done.
  - rewrite Hs. apply Hi.
  - rewrite Hn. apply Hi.
  - apply (fits_insert _ _ _ t PutSignal _ Hi); [done| |by left; rewrite lookup_insert_eq].
    intros t' Hne. left. by rewrite lookup_insert_ne.
  - apply lock_ok_insert; [apply Hi|]. by rewrite Ht.
  - by rewrite Hcon, (inv_fifo _ _ _ Hi), app_assoc.
  - intros Hsome%someone_waits_insert; [|done]. pose proof (inv_wake _ _ _ Hi Hsome).
    pose proof (pot_insert t PutSignal (threads c)) as Hp. rewrite Ht in Hp. simpl in Hp.
    rewrite !size_contents, Hcon, length_app in *. simpl. lia.
Qed.

Lemma inv_do_take itemSize itemCount c t c' :
  inv itemSize itemCount c -> threads c !! t = Some GetTake ->
  do_take t c = Ret c' -> inv itemSize itemCount c'.
Proof.
  intros Hi Ht. pose proof (inv_ring _ _ _ Hi) as Hwf. pose proof (front_spec _ Hwf) as Hf.
  assert (lock_ok (holder (_mutex c)) (threads c)) as Hl by apply Hi.
  unfold do_take. destruct (Z.eqb_spec (size (ring c)) 0) as [Hz|Hz].
  { intros ?; simplify_eq. apply (inv_move _ _ c t (GetUnlock None) (_mutex c) Hi);
      [done | | by left | by right].
    apply lock_ok_insert; [done|]. by rewrite Ht. }
  rewrite (size_contents (ring c)) in Hz.
  destruct (contents (ring c)) as [|x l] eqn:Hx; [done|].
  destruct Hf as (off & -> & Hm). rewrite Hm.
  destruct (pop_front_spec ndebug _ x l Hwf Hx) as (r & -> & Hwf' & Hs & Hn & Hcon).
  simpl. intros [= <-]. split; simpl.
  - done.
  - rewrite Hs. apply (inv_itemSize _ _ _ Hi).
  - rewrite Hn. apply Hi.
  - apply (fits_insert _ _ _ t (GetUnlock (Some x)) _ Hi);
      [done| |by left; rewrite lookup_insert_eq].
    intros t' Hne. left. by rewrite lookup_insert_ne.
  - apply lock_ok_insert; [done|]. by rewrite Ht.
  - by rewrite (inv_fifo _ _ _ Hi), Hx, Hcon, cons_middle, app_assoc.
  - intros Hsome%someone_waits_insert; [|done]. pose proof (inv_wake _ _ _ Hi Hsome).
    pose proof (pot_insert t (GetUnlock (Some x)) (threads c)) as Hp. rewrite Ht in Hp.
    simpl in Hp. rewrite !size_contents, Hx, Hcon in *. simpl in *. lia.
Qed.

Lemma inv_signal itemSize itemCount c t ws :
  inv itemSize itemCount c -> threads c !! t = Some PutSignal ->
  signal_wakes ws (threads c) = true ->
  inv itemSize itemCount
    (set_thread t PutUnlock
       (mkConfig (ring c) (_mutex c) (wake ws (threads c)) (pushed c) (popped c))).
Proof.
  intros Hi Ht Hws.
  assert (wake ws (threads c) !! t = Some PutSignal) as Ht'.
  { destruct (wake_lookup ws t (threads c)) as [->|(_ & E & _)]; [done|]. by rewrite E in Ht. }
  split; simpl; try apply Hi.
  - apply (fits_insert _ _ _ t PutUnlock _ Hi); [done| |by left; rewrite lookup_insert_eq].
    intros t' Hne. rewrite lookup_insert_ne by done.
    destruct (wake_lookup ws t' (threads c)) as [->|(_ & _ & E)]; [by left|right; by exists GetWoken].
  - apply lock_ok_insert; [apply lock_ok_wake, Hi|]. by rewrite Ht'.
  - intros Hsome%someone_waits_insert; [|done].
    assert (someone_waits (threads c) = true) as Hsome'.
    { apply someone_waits_spec in Hsome as [t' E]. apply someone_waits_spec. exists t'.
      destruct (wake_lookup ws t' (threads c)) as [E'|(_ & ? & E')]; [by rewrite <- E'|done]. }
    pose proof (inv_wake _ _ _ Hi Hsome') as Hle.
    unfold signal_wakes in Hws. rewrite Hsome' in Hws. simpl in Hws.
    pose proof (pot_wake ws (threads c)) as Hp. rewrite Hws in Hp. simpl in Hp.
    pose proof (pot_insert t PutUnlock (wake ws (threads c))) as Hq. rewrite Ht' in Hq.
    simpl in Hq. lia.
Qed.

Lemma inv_run itemSize itemCount c t ws p c' :
  ndebug = false -> inv itemSize itemCount c -> threads c !! t = Some p ->
  run_thread t ws p c = Some (Ret c') -> inv itemSize itemCount c'.
Proof.
  intros Hnd Hi Ht. pose proof (inv_fits_spec _ _ _ _ _ Hi Ht) as Hfit.
  pose proof (inv_lock _ _ _ Hi) as Hl.
  destruct p; cbn [run_thread]; intros E; try done;
    try match type of E with lock_then _ ?q _ = _ =>
      apply (inv_lock_then itemSize itemCount c t q c' Hi); rewrite ?Ht;
        [done | exact E | try exact Hfit | try done | try done | simpl; try lia]
    end;
    try (injection E as E); try (rewrite <- E; apply inv_end; by rewrite ?Ht).
  - by apply (inv_do_push itemSize itemCount c t item).
  - destruct (signal_wakes ws (threads c)) eqn:Hw; [|done]. injection E as <-.
    by apply inv_signal.
  - by destruct (tmo =? 0).
  - by destruct (tmo =? 0).
  - by destruct (tmo =? 0).
  - destruct (tmo =? 0); simpl; lia.
  - subst c'. destruct (Z.eqb_spec (size (ring c)) 0) as [Hz|Hz].
    + destruct (unlock_released t c _ _ Hi) as [Hh Hm]; [by rewrite Ht|].
      apply (inv_move _ _ c t GetWaiting (pthread_mutex_unlock t (_mutex c)).2 Hi);
        [done| |by right|by right].
      rewrite Hm. apply lock_ok_release; [|done]. by rewrite <- Hh.
    + apply (inv_move _ _ c t GetTake (_mutex c) Hi); [done| |by left|left; by rewrite Ht].
      apply lock_ok_insert; [done|]. by rewrite Ht.
  - by apply (inv_do_take itemSize itemCount c t).
  - subst c'.
    apply (inv_move _ _ c t (SizeUnlock _) (_mutex c) Hi); [done| |by left|left; by rewrite Ht].
    apply lock_ok_insert; [done|]. by rewrite Ht.
Qed.

Lemma inv_exec itemSize itemCount mv c c' :
  ndebug = false -> inv itemSize itemCount c -> move_ok itemSize mv ->
  exec mv c = Some (Ret c') -> inv itemSize itemCount c'.
Proof.
  intros Hnd Hi Hmv. destruct mv as [t cl|t ws|t]; simpl.
  - destruct (threads c !! t) eqn:Ht; [done|]. intros E. simplify_eq.
    apply (inv_move _ _ c t (enter cl) (_mutex c) Hi); [by destruct cl| |by destruct cl; left|].
    + apply lock_ok_insert; [apply Hi|]. rewrite Ht. by destruct cl.
    + left. rewrite Ht. simpl. lia.
  - destruct (threads c !! t) as [p|] eqn:Ht; [|done]. by apply inv_run.
  - destruct (threads c !! t) as [[]|] eqn:Ht; try done. intros E. simplify_eq.
    apply (inv_move _ _ c t GetWoken (_mutex c) Hi); [done| |by left|].
    + apply lock_ok_insert; [apply Hi|]. by rewrite Ht.
    + left. rewrite Ht. simpl. lia.
Qed.

(** * The reachable configurations *)

(** What the constructor leaves: an empty ring and a free mutex. *)
Record fresh (r0 : OsRing) (m0 : M) : Prop := {
  fresh_wf : ring_wf r0;
  fresh_empty : contents r0 = [];
  fresh_free : holder m0 = None
}.

Lemma reachable_inv r0 m0 c :
  ndebug = false -> fresh r0 m0 -> reachable r0 m0 c ->
  inv (_itemSize r0) (_itemCount r0) c.
Proof.
  intros Hnd Hf. induction 1 as [|c mv c' _ IH Hmv E]; [|by apply (inv_exec _ _ mv c)].
  pose proof (fresh_empty _ _ Hf) as He.
  split; simpl; try done; try exact (fresh_wf _ _ Hf).
  - intros t item. rewrite lookup_empty. by intros [].
  - rewrite (fresh_free _ _ Hf). split; [|done]. intros t p. by rewrite lookup_empty.
Qed.

(** The threads that wait, to be woken. *)
Definition waiters (th : gmap tid position) : list tid := (map_to_list th).*1.

Lemma signal_wakes_waiters th : signal_wakes (waiters th) th = true.
Proof.
  unfold signal_wakes. destruct (someone_waits th) eqn:E; [|done]. simpl.
  apply someone_waits_spec in E as [t Ht]. apply existsb_exists. exists t. split.
  - apply list_elem_of_In, list_elem_of_fmap. exists (t, GetWaiting).
    by rewrite elem_of_map_to_list.
  - unfold waits. by rewrite Ht.
Qed.

(** The mutex does not stop a thread when nobody is in a critical section. *)
Lemma lock_then_free t p c : holder (_mutex c) = None -> is_Some (lock_then t p c).
Proof.
  intros Hh. unfold lock_then. destruct (pthread_lock_free t _ Hh) as (m & -> & _). by eexists.
Qed.

Lemma run_free c t p :
  holder (_mutex c) = None -> is_waiting p = false ->
  is_Some (run_thread t (waiters (threads c)) p c).
Proof.
  intros Hh Hw. destruct p; simpl; try done; try by apply lock_then_free.
  rewrite signal_wakes_waiters. by eexists.
Qed.

Lemma run_critical c t p :
  in_critical p = true -> is_Some (run_thread t (waiters (threads c)) p c).
Proof.
  intros Hc. destruct p; simpl; try done. rewrite signal_wakes_waiters. by eexists.
Qed.

(** Only an assertion can stop the process, in [push_back] on a full ring. *)
Lemma run_crash itemSize itemCount c t ws p o :
  ndebug = false -> inv itemSize itemCount c -> threads c !! t = Some p ->
  run_thread t ws p c = Some o -> returns o = false ->
  o = AssertFail /\ full (ring c) = true /\ exists item, p = PutPush item.
Proof.
  intros Hnd Hi Ht. pose proof (inv_ring _ _ _ Hi) as Hwf.
  destruct p; cbn [run_thread]; intros E Hr; try done;
    try (unfold lock_then in E; destruct (pthread_mutex_lock t _) as [[]|]);
    simplify_eq; try done.
  - pose proof (inv_fits_spec _ _ _ _ _ Hi Ht) as Hfit. simpl in Hfit.
    pose proof (inv_itemSize _ _ _ Hi) as His.
    unfold do_push in *. rewrite Hnd in *. destruct (full (ring c)) eqn:Hfull.
    + rewrite push_back_enabled_full by done. eauto.
    + destruct (push_back_ret false item (ring c) Hwf) as (b & _ & E);
        [by rewrite His | by rewrite Hfull |]. rewrite E in Hr. done.
  - destruct (signal_wakes _ _); by simplify_eq.
  - unfold do_take in Hr. destruct (_ =? 0) eqn:Hz; [done|]. apply Z.eqb_neq in Hz.
    pose proof (front_spec _ Hwf) as Hf. rewrite size_contents in Hz.
    destruct (contents (ring c)) as [|x l] eqn:Hx; [done|].
    destruct Hf as (off & Hf & _). rewrite Hf in Hr.
    destruct (pop_front_spec ndebug _ x l Hwf Hx) as (r & E & _). by rewrite E in Hr.
Qed.

(** Unless every thread sleeps, one can run. *)
Lemma reachable_progress r0 m0 c t p :
  ndebug = false -> fresh r0 m0 -> reachable r0 m0 c -> threads c !! t = Some p ->
  (exists t' ws o, exec (Run t' ws) c = Some o) \/
  (forall t' p', threads c !! t' = Some p' -> p' = GetWaiting) /\ contents (ring c) = [].
Proof.
  intros Hnd Hf Hr Ht. pose proof (reachable_inv _ _ _ Hnd Hf Hr) as Hi.
  destruct (inv_lock _ _ _ Hi) as [_ H2].
  destruct (holder (_mutex c)) as [[t' n]|] eqn:Hh.
  - left. destruct (H2 t' n eq_refl) as (q & Eq & Hq).
    destruct (run_critical c t' q Hq) as [o Ho].
    exists t', (waiters (threads c)), o. simpl. by rewrite Eq.
  - destruct (decide (map_Forall (fun _ q => is_waiting q = true) (threads c))) as [Hall|Hnot].
    + right. assert (forall t' p', threads c !! t' = Some p' -> p' = GetWaiting) as Hw.
      { intros t' p' E. specialize (Hall t' p' E). by destruct p'. }
      split; [done|]. apply length_zero_iff_nil.
      assert (someone_waits (threads c) = true) as Hsome.
      { apply someone_waits_spec. exists t. by rewrite Ht, (Hw _ _ Ht). }
      pose proof (inv_wake _ _ _ Hi Hsome) as Hle. rewrite size_contents in Hle.
      destruct (decide (pot (threads c) = 0%nat)) as [|Hne]; [lia|].
      destruct (pot_pos (threads c)) as (t' & q & Eq & Hq); [lia|].
      by rewrite (Hw _ _ Eq) in Hq.
    + left. apply map_not_Forall in Hnot as (t' & q & Eq & Hq); [|apply _].
      destruct (run_free c t' q Hh) as [o Ho]; [by destruct (is_waiting q)|].
      exists t', (waiters (threads c)), o. simpl. by rewrite Eq.
Qed.

(** * Calls that no other thread interrupts *)

(** The object without the threads inside it. *)
Record RingPthread := mkRingPthread { super : OsRing; super_mutex : M }.

Definition object (c : config) : RingPthread := mkRingPthread (ring c) (_mutex c).

(** The constructor; a [std::bad_alloc] leaves it. *)
Definition RingPthread_new (alloc : Z -> option (list byte)) (itemSize itemCount : Z)
    : outcome RingPthread :=
  do r <- OsRing_new ndebug alloc itemSize itemCount;
  Ret (mkRingPthread r (pthread_mutex_init PTHREAD_MUTEX_RECURSIVE).2).

Definition locked (t : tid) (m : M) : outcome M :=
  match pthread_mutex_lock t m with Some (_, m') => Ret m' | None => Block end.

Definition put (t : tid) (item : list byte) (q : RingPthread) : outcome RingPthread :=
  do m <- locked t (super_mutex q);
  do r <- push_back ndebug item (super q);
  Ret (mkRingPthread r (pthread_mutex_unlock t m).2).

(** The item copied out, [None] for the result [false]; a wait on the condition
    variable needs another thread. *)
Definition get (t : tid) (tmo : Z) (q : RingPthread) : outcome (option (list byte) * RingPthread) :=
  do m <- locked t (super_mutex q);
  if negb (tmo =? 0) && (size (super q) =? 0) then Block
  else
    do '(item, r) <-
      if size (super q) =? 0 then Ret (None, super q)
      else match front (super q) with
           | None => Ret (None, super q)
           | Some off =>
               do r <- pop_front ndebug (super q);
               Ret (Some (mem_read (_buffer (super q)) off (_itemSize (super q))), r)
           end;
    Ret (item, mkRingPthread r (pthread_mutex_unlock t m).2).

Definition locked_size (t : tid) (q : RingPthread) : outcome (Z * RingPthread) :=
  do m <- locked t (super_mutex q);
  Ret (size (super q), mkRingPthread (super q) (pthread_mutex_unlock t m).2).

(** A sequence of moves. *)
Fixpoint exec_all (mvs : list move) (c : config) : option (outcome config) :=
  match mvs with
  | [] => Some (Ret c)
  | mv :: mvs =>
      match exec mv c with
      | Some (Ret c') => exec_all mvs c'
      | r => r
      end
  end.

(** The threads of [c'] are those of [c], some of them woken. *)
Definition only_wakes (c c' : config) : Prop :=
  forall t, threads c' !! t = threads c !! t \/
            threads c !! t = Some GetWaiting /\ threads c' !! t = Some GetWoken.

Lemma exec_all_cons mv mvs c c' :
  exec mv c = Some (Ret c') -> exec_all (mv :: mvs) c = exec_all mvs c'.
Proof. simpl. by intros ->. Qed.

Lemma exec_call t cl c :
  threads c !! t = None -> exec (Call t cl) c = Some (Ret (set_thread t (enter cl) c)).
Proof. simpl. by intros ->. Qed.

Lemma exec_run t ws p c :
  threads c !! t = Some p -> exec (Run t ws) c = run_thread t ws p c.
Proof. simpl. by intros ->. Qed.

Lemma exec_lock t ws p q c m m' :
  threads c !! t = Some p -> run_thread t ws p c = lock_then t q c ->
  _mutex c = m -> locked t m = Ret m' ->
  exec (Run t ws) c = Some (Ret (set_thread t q (set_mutex m' c))).
Proof.
  intros Ht Hr <-. rewrite (exec_run t ws p c Ht), Hr. unfold locked, lock_then.
  destruct (pthread_mutex_lock t (_mutex c)) as [[]|]; [|done]. by intros [= ->].
Qed.

Lemma exec_all_app l1 l2 c c1 r :
  exec_all l1 c = Some (Ret c1) -> exec_all l2 c1 = r -> exec_all (l1 ++ l2) c = r.
Proof.
  intros H1 <-. revert c H1. induction l1 as [|mv l1 IH]; simpl; intros c; [by intros [= ->]|].
  destruct (exec mv c) as [[]|]; try done. apply IH.
Qed.

(** The part of [get] from the second test of the size on. *)
Definition get_rest (t : tid) (m : M) (r : OsRing) : outcome (option (list byte) * RingPthread) :=
  do '(item, r') <-
    if size r =? 0 then Ret (None, r)
    else match front r with
         | None => Ret (None, r)
         | Some off =>
             do r' <- pop_front ndebug r;
             Ret (Some (mem_read (_buffer r) off (_itemSize r)), r')
         end;
  Ret (item, mkRingPthread r' (pthread_mutex_unlock t m).2).

Lemma get_rest_run t c :
  ring_wf (ring c) -> threads c !! t = Some GetTake ->
  exists item q c', get_rest t (_mutex c) (ring c) = Ret (item, q) /\
    exec_all [Run t []; Run t []] c = Some (Ret c') /\
    object c' = q /\ threads c' = delete t (threads c) /\ pushed c' = pushed c /\
    popped c' = popped c ++ option_list item /\
    contents (ring c) = option_list item ++ contents (ring c') /\
    (item = None -> contents (ring c) = []).
Proof.
  intros Hwf Ht. pose proof (front_spec _ Hwf) as Hf. pose proof (size_contents (ring c)) as Hs.
  cbn [exec_all]. rewrite (exec_run _ _ GetTake) by done. cbn [run_thread].
  unfold get_rest, do_take. destruct (contents (ring c)) as [|x l] eqn:Hx.
  - rewrite Hs. exists None. simpl. rewrite lookup_insert_eq. simpl. do 2 eexists.
    split_and!; try done; simpl; by rewrite ?delete_insert_eq, ?app_nil_r.
  - destruct (Z.eqb_spec (size (ring c)) 0) as [Hz|_]; [simpl in Hs; lia|].
    destruct Hf as (off & -> & Hm). rewrite Hm.
    destruct (pop_front_spec ndebug _ x l Hwf Hx) as (r & -> & Hwf' & _ & _ & Hcon).
    exists (Some x). simpl. rewrite lookup_insert_eq. simpl. do 2 eexists.
    split_and!; try done; simpl; by rewrite ?delete_insert_eq, ?Hcon.
Qed.

Lemma only_wakes_end c c' t (th : gmap tid position) :
  threads c !! t = None -> threads c' = delete t th ->
  (forall t', t' <> t -> th !! t' = threads c !! t') -> only_wakes c c'.
Proof.
  intros Ht Hc Hth t'. left. rewrite Hc. destruct (decide (t' = t)) as [->|Hne].
  - by rewrite lookup_delete_eq.
  - rewrite lookup_delete_ne by done. by apply Hth.
Qed.

(** * Properties *)

(** C2. Put and get under any interleaving of the statements of any number of
    threads, spurious wakeups included: the messages taken are, in order, the
    first of the messages put, and the rest is what the ring holds (each is
    delivered at most once and none is lost or reordered); the ring keeps its
    invariant; and no two threads are inside a critical section. *)
Theorem ring_pthread_fifo r0 m0 c :
  ndebug = false -> fresh r0 m0 -> reachable r0 m0 c ->
  pushed c = popped c ++ contents (ring c) /\
  ring_wf (ring c) /\ _itemCount (ring c) = _itemCount r0 /\
  (forall t1 t2 p1 p2,
     threads c !! t1 = Some p1 -> threads c !! t2 = Some p2 ->
     in_critical p1 = true -> in_critical p2 = true -> t1 = t2).
Proof.
  intros Hnd Hf Hr. pose proof (reachable_inv _ _ _ Hnd Hf Hr) as Hi.
  split_and!; try apply Hi. intros t1 t2 p1 p2 E1 E2 C1 C2.
  destruct (inv_lock _ _ _ Hi) as [H1 _].
  pose proof (H1 _ _ E1 C1). pose proof (H1 _ _ E2 C2). congruence.
Qed.

(** C3. No wakeup is lost: while a thread sleeps in [pthread_cond_wait], the
    ring holds no more messages than there are threads on their way to look at
    it (or about to signal); so a thread never sleeps on a message that nobody
    else is going to take. *)
Theorem ring_pthread_no_lost_wakeup r0 m0 c t :
  ndebug = false -> fresh r0 m0 -> reachable r0 m0 c ->
  threads c !! t = Some GetWaiting ->
  size (ring c) <= Z.of_nat (pot (threads c)) /\
  (size (ring c) <> 0 -> exists t' p, threads c !! t' = Some p /\ active p = true).
Proof.
  intros Hnd Hf Hr Ht. pose proof (reachable_inv _ _ _ Hnd Hf Hr) as Hi.
  assert (size (ring c) <= Z.of_nat (pot (threads c))) as Hle.
  { apply (inv_wake _ _ _ Hi), someone_waits_spec. by exists t. }
  split; [done|]. intros Hne. pose proof (size_range (ring c)).
  apply pot_pos. lia.
Qed.

(** C4. Progress: unless every thread inside a method sleeps in
    [pthread_cond_wait], one of them can run its next statement; so if nothing
    can run, they all wait for a message and the ring is empty. *)
Theorem ring_pthread_progress r0 m0 c t p :
  ndebug = false -> fresh r0 m0 -> reachable r0 m0 c -> threads c !! t = Some p ->
  (exists t' ws o, exec (Run t' ws) c = Some o) \/
  (forall t' p', threads c !! t' = Some p' -> p' = GetWaiting) /\ contents (ring c) = [].
Proof. apply reachable_progress. Qed.

(** C15. The only statement that can abort the process is the [push_back] of a
    put that finds the ring full, and there it does: [put] does not wait for
    room. No statement is undefined. *)
Theorem ring_pthread_abort_iff_full r0 m0 c t ws :
  ndebug = false -> fresh r0 m0 -> reachable r0 m0 c ->
  (forall o, exec (Run t ws) c = Some o -> returns o = false -> o = AssertFail) /\
  (exec (Run t ws) c = Some AssertFail <->
   full (ring c) = true /\ exists item, threads c !! t = Some (PutPush item)).
Proof.
  intros Hnd Hf Hr. pose proof (reachable_inv _ _ _ Hnd Hf Hr) as Hi. simpl.
  destruct (threads c !! t) as [p|] eqn:Ht; cycle 1.
  { split; [done|]. split; [done|]. by intros (_ & ? & ?). }
  split; [|split].
  - intros o E Hret. by destruct (run_crash _ _ _ _ _ _ _ Hnd Hi Ht E Hret).
  - intros E. destruct (run_crash _ _ _ _ _ _ _ Hnd Hi Ht E eq_refl) as (_ & ? & item & ->). eauto.
  - intros (Hfull & item & E). injection E as ->. simpl.
    unfold do_push. rewrite Hnd. by rewrite push_back_enabled_full.
Qed.

(** The method bodies as one piece are a run of the statements by the calling
    thread alone: a [put] that returns is a sequence of moves of that thread
    which ends with the same ring and mutex, the message recorded as put, and
    the other threads where they were or woken. *)
Theorem put_is_run t item c q :
  threads c !! t = None -> put t item (object c) = Ret q ->
  exists ws c', exec_all [Call t (CallPut item); Run t []; Run t []; Run t ws; Run t []] c
                = Some (Ret c') /\
    object c' = q /\ only_wakes c c' /\ popped c' = popped c /\
    pushed c' = pushed c ++ [take (Z.to_nat (_itemSize (ring c))) item].
Proof.
  intros Ht. unfold put. cbn [object super super_mutex].
  intros (m & Hm & (r & Hr & [= <-])%obind_ret_inv)%obind_ret_inv.
  set (th := <[t := PutSignal]> (<[t := PutPush item]> (<[t := PutLock item]> (threads c)))).
  exists (waiters th).
  rewrite (exec_all_cons _ _ _ _ (exec_call t (CallPut item) c Ht)).
  erewrite exec_all_cons; [|eapply exec_lock; [by apply lookup_insert_eq|done|done|exact Hm]].
  erewrite exec_all_cons; [|rewrite (exec_run _ _ (PutPush item)) by apply lookup_insert_eq;
    simpl; unfold do_push; simpl; rewrite Hr; reflexivity].
  fold th. erewrite exec_all_cons; [|rewrite (exec_run _ _ PutSignal) by apply lookup_insert_eq;
    simpl; fold th; rewrite signal_wakes_waiters; reflexivity].
  erewrite exec_all_cons; [|rewrite (exec_run _ _ PutUnlock) by apply lookup_insert_eq; reflexivity].
  eexists. split; [reflexivity|]. split_and!; try done.
  intros t'. simpl. fold th. destruct (decide (t' = t)) as [->|Hne].
  { left. rewrite lookup_delete_eq. done. }
  rewrite lookup_delete_ne, lookup_insert_ne by done.
  assert (th !! t' = threads c !! t') as E by (unfold th; by rewrite !lookup_insert_ne).
  rewrite <- E. destruct (wake_lookup (waiters th) t' th) as [|(_ & ? & ?)]; auto.
Qed.

(** C32. The same for [get]: a call that returns is a run of the statements by
    the calling thread, takes the oldest message (nothing only from an empty ring
    without a timeout); with a timeout, whatever its value, and an empty ring,
    the run ends asleep. *)
Theorem get_is_run t tmo c m :
  ring_wf (ring c) -> threads c !! t = None -> locked t (_mutex c) = Ret m ->
  match get t tmo (object c) with
  | Ret (item, q) =>
      exists mvs c', exec_all (Call t (CallGet tmo) :: map (Run t) mvs) c = Some (Ret c') /\
        object c' = q /\ only_wakes c c' /\ pushed c' = pushed c /\
        popped c' = popped c ++ option_list item /\
        contents (ring c) = option_list item ++ contents (ring c') /\
        (item = None -> tmo = 0)
  | Block =>
      tmo <> 0 /\ contents (ring c) = [] /\
      exists mvs c', exec_all (Call t (CallGet tmo) :: map (Run t) mvs) c = Some (Ret c') /\
        threads c' !! t = Some GetWaiting
  | _ => False
  end.
Proof.
  intros Hwf Ht Hm. unfold get. cbn [object super super_mutex]. rewrite Hm. cbn [obind].
  fold (get_rest t m (ring c)).
  set (c1 := mkConfig (ring c) m (<[t := if tmo =? 0 then GetTake else GetCheck]>
                                (<[t := GetLock tmo]> (threads c))) (pushed c) (popped c)).
  assert (exec_all [Call t (CallGet tmo); Run t []] c = Some (Ret c1)) as Hrun.
  { rewrite (exec_all_cons _ _ _ _ (exec_call t (CallGet tmo) c Ht)).
    by erewrite exec_all_cons; [|eapply exec_lock; [by apply lookup_insert_eq|done|done|exact Hm]]. }
  pose proof (size_contents (ring c)) as Hs.
  destruct (Z.eqb_spec tmo 0) as [Htmo|Htmo]; cbn [negb andb].
  - change (get_rest t m (ring c)) with (get_rest t (_mutex c1) (ring c1)).
    destruct (get_rest_run t c1) as (item & q & c' & -> & Hrun' & ? & Hth & ? & ? & ? & Hnone);
      [done | apply lookup_insert_eq |].
    exists [[]; []; []], c'. cbn [map].
    split_and!; try done; [by apply (exec_all_app [_; _] [_; _] c c1)|].
    apply (only_wakes_end _ _ t _ Ht Hth). intros t' Hne. simpl. by rewrite !lookup_insert_ne.
  - destruct (Z.eqb_spec (size (ring c)) 0) as [Hz|Hz].
    + split; [done|]. split; [apply length_zero_iff_nil; lia|]. exists [[]; []].
      eexists. split; [apply (exec_all_app [_; _] [_] c c1 _ Hrun)|].
      * cbn [exec_all]. rewrite (exec_run _ _ GetCheck) by apply lookup_insert_eq.
        cbn [run_thread ring c1]. by rewrite Hz.
      * apply lookup_insert_eq.
    + set (c2 := set_thread t GetTake c1).
      assert (exec_all [Run t []] c1 = Some (Ret c2)) as Hrun2.
      { cbn [exec_all]. rewrite (exec_run _ _ GetCheck) by apply lookup_insert_eq.
        cbn [run_thread ring c1]. by rewrite (proj2 (Z.eqb_neq _ _) Hz). }
      change (get_rest t m (ring c)) with (get_rest t (_mutex c2) (ring c2)).
      destruct (get_rest_run t c2) as (item & q & c' & -> & Hrun' & ? & Hth & ? & ? & ? & Hnone);
        [done | apply lookup_insert_eq |].
      exists [[]; []; []; []], c'. cbn [map]. split_and!; try done.
      * apply (exec_all_app [_; _] [_; _; _] c c1 _ Hrun).
        by apply (exec_all_app [_] [_; _] c1 c2).
      * apply (only_wakes_end _ _ t _ Ht Hth). intros t' Hne. simpl. by rewrite !lookup_insert_ne.
      * intros Hi. specialize (Hnone Hi). change (contents (ring c) = []) in Hnone.
        by rewrite Hs, Hnone in Hz.
Qed.

End RingPthread.

Arguments config M : clear implicits.
Arguments RingPthread M : clear implicits.

(** * The theorems at work *)

Section Witness.
#[local] Existing Instance linux_errno.

Definition demo_ring : OsRing := mkOsRing [x00; x00] 1 2 65535 65535.

Lemma demo_ring_wf : ring_wf demo_ring.
Proof.
  split; try (vm_compute; intuition congruence). exists 1. vm_compute; intuition congruence.
Qed.

Lemma demo_fresh : fresh demo_ring (None : ref_mutex).
Proof. split; [apply demo_ring_wf | done | done]. Qed.

Definition demo_end (mvs : list move) : config ref_mutex :=
  match exec_all false mvs (mkConfig demo_ring (None : ref_mutex) ∅ [] []) with
  | Some (Ret c) => c
  | _ => mkConfig demo_ring None ∅ [] []
  end.

Lemma exec_all_reachable {M} `{PthreadMutex M} (r0 : OsRing) (m0 : M) mvs c c' :
  reachable false r0 m0 c -> Forall (move_ok (_itemSize r0)) mvs ->
  exec_all false mvs c = Some (Ret c') -> reachable false r0 m0 c'.
Proof.
  intros Hc Hok. revert c Hc. induction Hok as [|mv mvs Hmv _ IH]; simpl; intros c Hc.
  - by intros [= <-].
  - destruct (exec false mv c) as [[c1| | | |]|] eqn:E; try done.
    apply IH. by apply (reach_step _ _ _ c mv c1).
Qed.

(** A consumer that sleeps, a producer in its critical section, and the
    moment after its signal. *)
Definition demo_moves : list move :=
  [Call 1 (CallGet 7); Run 1 []; Run 1 []; Call 2 (CallPut [x2a]); Run 2 []; Run 2 []].

Lemma demo_reachable :
  reachable false demo_ring (None : ref_mutex) (demo_end demo_moves).
Proof.
  apply (exec_all_reachable _ _ demo_moves (mkConfig demo_ring None ∅ [] [])).
  - constructor.
  - repeat constructor; vm_compute; congruence.
  - vm_compute. reflexivity.
Qed.

Example ring_pthread_fifo_witness :
  pushed (demo_end demo_moves) = [[x2a]] /\
  pushed (demo_end demo_moves) = popped (demo_end demo_moves) ++ contents (ring (demo_end demo_moves)).
Proof.
  split; [vm_compute; reflexivity|].
  apply (ring_pthread_fifo false demo_ring None _ eq_refl demo_fresh demo_reachable).
Defined.

Example ring_pthread_no_lost_wakeup_witness :
  exists t p, threads (demo_end demo_moves) !! t = Some p /\ active p = true.
Proof.
  apply (ring_pthread_no_lost_wakeup false demo_ring None _ 1%nat eq_refl demo_fresh demo_reachable).
  - vm_compute. reflexivity.
  - vm_compute. congruence.
Defined.

Example ring_pthread_progress_witness :
  (exists t ws o, exec false (Run t ws) (demo_end demo_moves) = Some o) \/
  (forall t p, threads (demo_end demo_moves) !! t = Some p -> p = GetWaiting) /\
  contents (ring (demo_end demo_moves)) = [].
Proof.
  apply (ring_pthread_progress false demo_ring None _ 2%nat PutSignal eq_refl demo_fresh
           demo_reachable).
  vm_compute. reflexivity.
Defined.

Definition demo_put (t : tid) : list move :=
  [Call t (CallPut [x2a]); Run t []; Run t []; Run t []; Run t []].

(** Two puts fill the ring; a third is about to push. *)
Definition demo_full : list move :=
  demo_put 1 ++ demo_put 2 ++ [Call 3 (CallPut [x2b]); Run 3 []].

Example ring_pthread_abort_iff_full_witness :
  exec false (Run 3 []) (demo_end demo_full) = Some AssertFail.
Proof.
  assert (reachable false demo_ring (None : ref_mutex) (demo_end demo_full)) as Hr.
  { apply (exec_all_reachable _ _ demo_full (mkConfig demo_ring None ∅ [] [])).
    - constructor.
    - repeat constructor; vm_compute; congruence.
    - vm_compute. reflexivity. }
  apply (ring_pthread_abort_iff_full false demo_ring None _ 3%nat [] eq_refl demo_fresh Hr).
  split; [vm_compute; reflexivity|]. exists [x2b]. vm_compute. reflexivity.
Defined.

Definition demo_config : config ref_mutex :=
  mkConfig (mkOsRing [x2a; x00] 1 2 65534 65535) None {[ 9%nat := GetWaiting ]} [] [].

Example put_is_run_witness :
  exists ws c', exec_all false [Call 1 (CallPut [x2b]); Run 1 []; Run 1 []; Run 1 ws; Run 1 []]
                  demo_config = Some (Ret c') /\
    object c' = mkRingPthread (mkOsRing [x2a; x2b] 1 2 65534 0) (None : ref_mutex) /\
    only_wakes demo_config c' /\ popped c' = [] /\ pushed c' = [[x2b]].
Proof.
  refine (put_is_run false 1%nat [x2b] demo_config _ _ _); vm_compute; reflexivity.
Defined.

Example get_is_run_witness :
  exists mvs c', exec_all false (Call 1 (CallGet 5) :: map (Run 1) mvs) demo_config = Some (Ret c') /\
    object c' = mkRingPthread (mkOsRing [x2a; x00] 1 2 65535 65535) (None : ref_mutex) /\
    only_wakes demo_config c' /\ pushed c' = [] /\ popped c' = [[x2a]] /\
    [[x2a]] = [[x2a]] ++ contents (ring c') /\ (Some [x2a] = None -> 5 = 0).
Proof.
  assert (ring_wf (ring demo_config)) as Hwf.
  { split; try (vm_compute; intuition congruence). exists 1. vm_compute; intuition congruence. }
  refine (get_is_run false 1%nat 5 demo_config (Some (1%nat, O)) Hwf _ _); vm_compute; reflexivity.
Defined.
End Witness.
