(* ===== verification/RingLinear.v ===== *)
(** targets/posix/RingPthread.h, what its callers see: the calls and the returns
    of [put], [get] and [size] by any number of threads. Every history of the
    interleaved statements of RingPthread.v is a history of an atomic bounded
    queue, each call taking effect at one moment between its call and its
    return: the object is linearizable. The proof is a forward simulation. *)

From S2P Require Import Prelude OsTypes Pthread OsRing RingPthread.

(** * Histories *)

Inductive answer :=
| AnsPut
| AnsGet (item : option (list byte))
| AnsSize (size : Z).

Inductive obs :=
| ObsCall (t : tid) (c : call)
| ObsReturn (t : tid) (r : answer).

(** * The atomic queue *)

(** A call in progress has not taken effect yet, or has, with the answer. *)
Inductive status := Pending (c : call) | Done (r : answer).

(** The queue and the calls in progress. *)
Record atomic := mkAtomic { queue : list (list byte); calls : gmap tid status }.

(** One call on a queue of [itemCount] messages of [itemSize] bytes: its answer
    and the queue after it. A put needs room; a get waits for a message, or not
    at all, as [tmo] says. *)
Inductive atomic_call (itemSize itemCount : Z) :
    call -> list (list byte) -> answer -> list (list byte) -> Prop :=
| atomic_put item l : Z.of_nat (length l) < itemCount ->
    atomic_call itemSize itemCount (CallPut item) l AnsPut (l ++ [take (Z.to_nat itemSize) item])
| atomic_get tmo x l :
    atomic_call itemSize itemCount (CallGet tmo) (x :: l) (AnsGet (Some x)) l
| atomic_get_empty :
    atomic_call itemSize itemCount (CallGet 0) [] (AnsGet None) []
| atomic_size l :
    atomic_call itemSize itemCount CallSize l (AnsSize (Z.of_nat (length l))) l.

(** A call, the moment it takes effect, which nobody sees, and a return. *)
Inductive atomic_step (itemSize itemCount : Z) : atomic -> list obs -> atomic -> Prop :=
| atomic_enter t c s : calls s !! t = None ->
    atomic_step itemSize itemCount s [ObsCall t c] (mkAtomic (queue s) (<[t := Pending c]> (calls s)))
| atomic_effect t c r l s : calls s !! t = Some (Pending c) ->
    atomic_call itemSize itemCount c (queue s) r l ->
    atomic_step itemSize itemCount s [] (mkAtomic l (<[t := Done r]> (calls s)))
| atomic_leave t r s : calls s !! t = Some (Done r) ->
    atomic_step itemSize itemCount s [ObsReturn t r] (mkAtomic (queue s) (delete t (calls s))).

Inductive atomic_history (itemSize itemCount : Z) : list obs -> atomic -> Prop :=
| atomic_nil : atomic_history itemSize itemCount [] (mkAtomic [] ∅)
| atomic_snoc tr s os s' : atomic_history itemSize itemCount tr s ->
    atomic_step itemSize itemCount s os s' -> atomic_history itemSize itemCount (tr ++ os) s'.

(** * Histories of the object *)

(** What a move shows: entering a method, and running its last statement. *)
Definition returned (p : position) : option answer :=
  match p with
  | PutUnlock => Some AnsPut
  | GetUnlock item => Some (AnsGet item)
  | SizeUnlock n => Some (AnsSize n)
  | _ => None
  end.

Definition shown {M} (mv : move) (c : config M) : list obs :=
  match mv with
  | Call t cl => [ObsCall t cl]
  | Run t _ =>
      match threads c !! t ≫= returned with Some r => [ObsReturn t r] | None => [] end
  | Spurious _ => []
  end.

Section RingLinear.
Context {M : Type} `{Errno, PthreadMutex M}.
Variable ndebug : bool.

Inductive history (r0 : OsRing) (m0 : M) : list obs -> config M -> Prop :=
| history_nil : history r0 m0 [] (mkConfig r0 m0 ∅ [] [])
| history_snoc tr c mv c' :
    history r0 m0 tr c -> move_ok (_itemSize r0) mv -> exec ndebug mv c = Some (Ret c') ->
    history r0 m0 (tr ++ shown mv c) c'.

Lemma history_reachable r0 m0 tr c : history r0 m0 tr c -> reachable ndebug r0 m0 c.
Proof. induction 1; [constructor|]. by eapply reach_step. Qed.

(** * The simulation *)

(** The position of a thread and the call it has in progress, when the ring
    holds [l]: a get that may sleep only gets past its loop with a message
    there. *)
Definition matches (l : list (list byte)) (p : position) (st : status) : Prop :=
  match p with
  | PutLock item | PutPush item => st = Pending (CallPut item)
  | PutSignal | PutUnlock => st = Done AnsPut
  | GetLock tmo => st = Pending (CallGet tmo)
  | GetCheck | GetWaiting | GetWoken => exists tmo, st = Pending (CallGet tmo) /\ tmo <> 0
  | GetTake => exists tmo, st = Pending (CallGet tmo) /\ (tmo <> 0 -> l <> [])
  | GetUnlock item => st = Done (AnsGet item)
  | SizeLock | SizeRead => st = Pending CallSize
  | SizeUnlock n => st = Done (AnsSize n)
  end.

Definition related (l : list (list byte)) (o : option position) (s : option status) : Prop :=
  match o, s with
  | Some p, Some st => matches l p st
  | None, None => True
  | _, _ => False
  end.

Record simulates (c : config M) (s : atomic) : Prop := {
  sim_queue : queue s = contents (ring c);
  sim_calls : forall t, related (contents (ring c)) (threads c !! t) (calls s !! t)
}.

(** Positions that say nothing about the ring, or the same before and after. *)
Lemma matches_other l l' p st : p <> GetTake -> matches l p st -> matches l' p st.
Proof. by destruct p. Qed.

Lemma sim_position c s t p :
  simulates c s -> threads c !! t = Some p ->
  exists st, calls s !! t = Some st /\ matches (contents (ring c)) p st.
Proof.
  intros Hs Ht. pose proof (sim_calls _ _ Hs t) as Hr. rewrite Ht in Hr. simpl in Hr.
  destruct (calls s !! t) as [st|]; [by exists st|done].
Qed.

(** One thread moves, to a position that matches its call, and the ring keeps
    its messages. *)
Lemma sim_move c s c' t p st :
  simulates c s -> contents (ring c') = contents (ring c) ->
  threads c' = <[t := p]> (threads c) -> matches (contents (ring c)) p st ->
  simulates c' (mkAtomic (queue s) (<[t := st]> (calls s))).
Proof.
  intros [Hq Hc] Hr Ht Hm. split; simpl; [by rewrite Hr|]. intros t'.
  rewrite Hr, Ht, !lookup_insert. case_decide; [done|apply Hc].
Qed.

(** The thread moves while its call stays as it is. *)
Lemma sim_stay c s c' t p p' :
  simulates c s -> contents (ring c') = contents (ring c) -> threads c !! t = Some p ->
  threads c' = <[t := p']> (threads c) ->
  (forall st, matches (contents (ring c)) p st -> matches (contents (ring c)) p' st) ->
  simulates c' s.
Proof.
  intros Hs Hr Ht Ht' Hm. destruct (sim_position _ _ _ _ Hs Ht) as (st & Est & Hst).
  replace s with (mkAtomic (queue s) (<[t := st]> (calls s))).
  - apply (sim_move c s c' t p' st); auto.
  - destruct s as [q cs]. simpl in *. by rewrite insert_id.
Qed.

Lemma sim_end c s t r p :
  simulates c s -> threads c !! t = Some p -> returned p = Some r ->
  calls s !! t = Some (Done r) /\
  simulates (end_thread t (unlock t c)) (mkAtomic (queue s) (delete t (calls s))).
Proof.
  intros Hs Ht Hp. destruct (sim_position _ _ _ _ Hs Ht) as (st & Est & Hst). split.
  - destruct p; simpl in *; simplify_eq; congruence.
  - destruct Hs as [Hq Hc]. split; simpl; [done|]. intros t'. rewrite !lookup_delete.
    case_decide; [done|apply Hc].
Qed.

(** A thread in its critical section takes effect: no other thread is at the
    one position that depends on the ring. *)
Lemma sim_effect itemSize itemCount c s c' t p p' st :
  inv itemSize itemCount c -> simulates c s -> threads c !! t = Some p -> in_critical p = true ->
  threads c' = <[t := p']> (threads c) -> matches (contents (ring c')) p' st ->
  simulates c' (mkAtomic (contents (ring c')) (<[t := st]> (calls s))).
Proof.
  intros Hi [Hq Hc] Ht Hp Ht' Hm. split; simpl; [done|]. intros t'.
  rewrite Ht', !lookup_insert. case_decide as Hne; [done|].
  specialize (Hc t'). destruct (threads c !! t') as [q|] eqn:Eq; [|done].
  destruct (calls s !! t') as [st'|]; [|done]. simpl in *.
  apply (matches_other (contents (ring c))); [|done]. intros ->.
  destruct (inv_lock _ _ _ Hi) as [H1 _].
  pose proof (H1 _ _ Ht Hp). pose proof (H1 _ _ Eq eq_refl). congruence.
Qed.

Lemma sim_lock_then c s t p q c' :
  simulates c s -> threads c !! t = Some p -> lock_then t q c = Some (Ret c') ->
  (forall st, matches (contents (ring c)) p st -> matches (contents (ring c)) q st) ->
  simulates c' s.
Proof.
  intros Hs Ht. unfold lock_then. destruct (pthread_mutex_lock t (_mutex c)) as [[r m]|]; [|done].
  intros [= <-] Hm. by apply (sim_stay c s _ t p q).
Qed.

Lemma sim_wake c s ws t :
  simulates c s -> threads c !! t = Some PutSignal ->
  simulates (set_thread t PutUnlock
    (mkConfig (ring c) (_mutex c) (wake ws (threads c)) (pushed c) (popped c))) s.
Proof.
  intros [Hq Hc] Ht. split; simpl; [done|]. intros t'. rewrite lookup_insert.
  specialize (Hc t'). case_decide as Hne.
  - subst t'. by rewrite Ht in Hc.
  - destruct (wake_lookup ws t' (threads c)) as [->|(_ & E & ->)]; [done|]. by rewrite E in Hc.
Qed.

(** Taking effect, as a step of the atomic queue. *)
Lemma effect_step itemSize itemCount c s c' t p p' cl r :
  inv itemSize itemCount c -> simulates c s -> threads c !! t = Some p -> in_critical p = true ->
  calls s !! t = Some (Pending cl) ->
  threads c' = <[t := p']> (threads c) -> (forall l, matches l p' (Done r)) ->
  atomic_call itemSize itemCount cl (contents (ring c)) r (contents (ring c')) ->
  exists s', atomic_step itemSize itemCount s [] s' /\ simulates c' s'.
Proof.
  intros Hi Hs Ht Hp Est Ht' Hm Hcall. eexists. split.
  - apply (atomic_effect _ _ t cl r (contents (ring c')) s Est). by rewrite (sim_queue _ _ Hs).
  - by apply (sim_effect itemSize itemCount c s c' t p p').
Qed.

Lemma sim_push itemSize itemCount c s t item c' :
  ndebug = false -> inv itemSize itemCount c -> simulates c s ->
  threads c !! t = Some (PutPush item) -> do_push ndebug t item c = Ret c' ->
  exists s', atomic_step itemSize itemCount s [] s' /\ simulates c' s'.
Proof.
  intros Hnd Hi Hs Ht. pose proof (inv_ring _ _ _ Hi) as Hwf.
  pose proof (inv_fits_spec _ _ _ _ _ Hi Ht) as Hfit. simpl in Hfit.
  unfold do_push. rewrite Hnd. intros (r & E & [= <-])%obind_ret_inv.
  assert (full (ring c) = false) as Hfull.
  { destruct (full (ring c)) eqn:Hf; [|done]. by rewrite push_back_enabled_full in E. }
  apply Z.eqb_neq in Hfull. pose proof (wf_size _ Hwf).
  destruct (push_back_spec false item (ring c) Hwf) as (r' & E' & _ & _ & _ & Hcon);
    [lia | by rewrite (inv_itemSize _ _ _ Hi) |].
  rewrite E in E'. injection E' as <-.
  destruct (sim_position _ _ _ _ Hs Ht) as (st & Est & Hst). simpl in Hst. subst st.
  apply (effect_step itemSize itemCount c s _ t (PutPush item) PutSignal (CallPut item) AnsPut);
    simpl; try done.
  rewrite Hcon, (inv_itemSize _ _ _ Hi). constructor.
  rewrite <- (inv_itemCount _ _ _ Hi), <- size_contents. lia.
Qed.

Lemma sim_take itemSize itemCount c s t c' :
  inv itemSize itemCount c -> simulates c s -> threads c !! t = Some GetTake ->
  do_take ndebug t c = Ret c' ->
  exists s', atomic_step itemSize itemCount s [] s' /\ simulates c' s'.
Proof.
  intros Hi Hs Ht. pose proof (inv_ring _ _ _ Hi) as Hwf. pose proof (front_spec _ Hwf) as Hf.
  destruct (sim_position _ _ _ _ Hs Ht) as (st & Est & tmo & -> & Hne).
  unfold do_take. rewrite size_contents.
  destruct (contents (ring c)) as [|x l] eqn:Hx; simpl.
  - intros [= <-]. assert (tmo = 0) as -> by (destruct (Z.eq_dec tmo 0); [done|by destruct Hne]).
    apply (effect_step itemSize itemCount c s _ t GetTake (GetUnlock None) (CallGet 0) (AnsGet None));
      try done; simpl; rewrite ?Hx; constructor.
  - destruct Hf as (off & -> & Hm). rewrite Hm.
    destruct (pop_front_spec ndebug _ x l Hwf Hx) as (r & -> & _ & _ & _ & Hcon). simpl.
    intros [= <-].
    apply (effect_step itemSize itemCount c s _ t GetTake (GetUnlock (Some x)) (CallGet tmo)
             (AnsGet (Some x))); try done; simpl; rewrite ?Hx, ?Hcon; constructor.
Qed.

(** Every move is a step of the atomic queue that shows the same, or none that
    shows nothing. *)
Lemma sim_run itemSize itemCount c s t ws p c' :
  ndebug = false -> inv itemSize itemCount c -> simulates c s -> threads c !! t = Some p ->
  run_thread ndebug t ws p c = Some (Ret c') ->
  exists s', (atomic_step itemSize itemCount s (shown (Run t ws) c) s' \/
              s' = s /\ shown (Run t ws) c = []) /\ simulates c' s'.
Proof.
  intros Hnd Hi Hs Ht. unfold shown. rewrite Ht. simpl.
  assert (forall r, returned p = Some r ->
    exists s', (atomic_step itemSize itemCount s [ObsReturn t r] s' \/ s' = s /\ [ObsReturn t r] = []) /\
      simulates (end_thread t (unlock t c)) s') as Hend.
  { intros r Hr. destruct (sim_end c s t r p Hs Ht Hr) as [Hd Hsim].
    eexists. split; [left; by apply atomic_leave|done]. }
  assert (simulates c' s -> exists s', (atomic_step itemSize itemCount s [] s' \/
    s' = s /\ @nil obs = []) /\ simulates c' s') as Hstay by (intros; exists s; auto).
  assert ((exists s', atomic_step itemSize itemCount s [] s' /\ simulates c' s') ->
    exists s', (atomic_step itemSize itemCount s [] s' \/ s' = s /\ @nil obs = []) /\
      simulates c' s') as Hstep by (intros (s' & ? & ?); eauto).
  destruct p; cbn [run_thread returned] in *; intros E; try done;
    try (injection E as E); try (rewrite <- E; by apply Hend);
    try (apply Hstay; eapply sim_lock_then; [exact Hs|exact Ht|exact E|]).
  - by intros st.
  - by apply Hstep, (sim_push itemSize itemCount c s t item).
  - destruct (signal_wakes ws (threads c)); [|done]. injection E as <-.
    by apply Hstay, sim_wake.
  - intros st Hst. simpl in Hst. subst st. destruct (Z.eqb_spec tmo 0); simpl; by exists tmo.
  - subst c'. apply Hstay. destruct (Z.eqb_spec (size (ring c)) 0) as [Hz|Hz].
    + by apply (sim_stay c s _ t GetCheck GetWaiting).
    + apply (sim_stay c s _ t GetCheck GetTake); try done. intros st (tmo & -> & _). exists tmo.
      split; [done|]. intros _ Hnil. by rewrite size_contents, Hnil in Hz.
  - by intros st.
  - by apply Hstep, (sim_take itemSize itemCount c s t).
  - by intros st.
  - subst c'. apply Hstep. destruct (sim_position _ _ _ _ Hs Ht) as (st & Est & Hst).
    simpl in Hst. subst st.
    apply (effect_step itemSize itemCount c s _ t SizeRead (SizeUnlock (size (ring c))) CallSize
             (AnsSize (size (ring c)))); try done.
    simpl. rewrite size_contents. constructor.
Qed.

Lemma sim_exec itemSize itemCount mv c s c' :
  ndebug = false -> inv itemSize itemCount c -> simulates c s ->
  exec ndebug mv c = Some (Ret c') ->
  exists s', (atomic_step itemSize itemCount s (shown mv c) s' \/ s' = s /\ shown mv c = []) /\
    simulates c' s'.
Proof.
  intros Hnd Hi Hs. destruct mv as [t cl|t ws|t]; cbn [exec].
  - destruct (threads c !! t) eqn:Ht; [done|]. intros [= <-].
    pose proof (sim_calls _ _ Hs t) as Hr. rewrite Ht in Hr.
    destruct (calls s !! t) as [st|] eqn:Est; [done|].
    eexists. split; [left; by apply atomic_enter|].
    apply (sim_move c s _ t (enter cl) (Pending cl) Hs); try done. by destruct cl.
  - destruct (threads c !! t) as [p|] eqn:Ht; [|done]. by apply sim_run.
  - destruct (threads c !! t) as [[]|] eqn:Ht; try done. intros [= <-].
    exists s. split; [by right|]. by apply (sim_stay c s _ t GetWaiting GetWoken).
Qed.

Context `{!PthreadMutexLaws M}.

(** * Properties *)

(** C1. Linearizability: with assertions on, any number of threads calling put,
    get and size on a fresh ring, in any interleaving of the statements with
    spurious wakeups, see a history of calls and returns that an atomic bounded
    queue has too, on which each call takes effect at one moment between its
    call and its return; and that queue holds what the ring holds. *)
Theorem ring_linearizable r0 m0 tr c :
  ndebug = false -> fresh r0 m0 -> history r0 m0 tr c ->
  exists s, atomic_history (_itemSize r0) (_itemCount r0) tr s /\
    queue s = contents (ring c) /\
    forall t, calls s !! t = None <-> threads c !! t = None.
Proof.
  intros Hnd Hf Hh.
  assert (exists s, atomic_history (_itemSize r0) (_itemCount r0) tr s /\ simulates c s)
    as (s & Ha & Hq & Hc).
  { induction Hh as [|tr c mv c' Hh (s & Ha & Hs) Hmv E].
    - eexists. split; [constructor|]. split; simpl; [by rewrite (fresh_empty _ _ Hf)|].
      intros t. by rewrite !lookup_empty.
    - pose proof (reachable_inv ndebug r0 m0 c Hnd Hf (history_reachable _ _ _ _ Hh)) as Hi.
      destruct (sim_exec _ _ mv c s c' Hnd Hi Hs E) as (s' & [Hstep|[-> ->]] & Hs').
      + exists s'. split; [by eapply atomic_snoc|done].
      + exists s. by rewrite app_nil_r. }
  exists s. split_and!; [done|done|]. intros t. specialize (Hc t).
  destruct (threads c !! t), (calls s !! t); done.
Qed.
End RingLinear.

(** * A witness over the reference mutex *)

Section Witness.
#[local] Existing Instance linux_errno.

(** A run and what it shows. *)
Fixpoint shown_all (mvs : list move) (c : config ref_mutex) : option (list obs * config ref_mutex) :=
  match mvs with
  | [] => Some ([], c)
  | mv :: mvs =>
      match exec false mv c with
      | Some (Ret c') =>
          match shown_all mvs c' with Some (tr, c2) => Some (shown mv c ++ tr, c2) | None => None end
      | _ => None
      end
  end.

Lemma shown_all_history r0 m0 mvs tr c tr' c' :
  history false r0 m0 tr c -> Forall (move_ok (_itemSize r0)) mvs ->
  shown_all mvs c = Some (tr', c') -> history false r0 m0 (tr ++ tr') c'.
Proof.
  intros Hh Hok. revert tr c tr' Hh. induction Hok as [|mv mvs Hmv _ IH]; simpl; intros tr c tr' Hh.
  - intros [= <- <-]. by rewrite app_nil_r.
  - destruct (exec false mv c) as [[c1| | | |]|] eqn:E; try done.
    destruct (shown_all mvs c1) as [[tr1 c2]|] eqn:E1; [|done]. intros [= <- <-].
    rewrite app_assoc. apply (IH _ c1); [|done]. by eapply history_snoc.
Qed.

(** A get that sleeps, a put that overlaps it, and a size that overlaps both. *)
Definition overlap : list move :=
  [Call 1 (CallGet 7); Run 1 []; Run 1 []; Call 2 (CallPut [x2a]); Call 3 CallSize;
   Run 2 []; Run 2 []; Run 2 [1%nat]; Run 2 []; Run 3 []; Run 3 []; Run 3 [];
   Run 1 []; Run 1 []; Run 1 []; Run 1 []].

Example ring_linearizable_witness :
  exists s, atomic_history 1 2
    [ObsCall 1 (CallGet 7); ObsCall 2 (CallPut [x2a]); ObsCall 3 CallSize; ObsReturn 2 AnsPut;
     ObsReturn 3 (AnsSize 1); ObsReturn 1 (AnsGet (Some [x2a]))] s /\
    queue s = [] /\ forall t, calls s !! t = None <-> (∅ : gmap tid position) !! t = None.
Proof.
  destruct (shown_all overlap (mkConfig demo_ring (None : ref_mutex) ∅ [] [])) as [[tr c]|] eqn:E;
    pose proof E as V; vm_compute in V; [|discriminate V].
  assert (history false demo_ring (None : ref_mutex) ([] ++ tr) c) as Hh.
  { apply (shown_all_history _ _ overlap [] (mkConfig demo_ring None ∅ [] [])); [constructor| |exact E].
    repeat constructor; vm_compute; congruence. }
  injection V as <- <-. exact (ring_linearizable false demo_ring None _ _ eq_refl demo_fresh Hh).
Defined.
End Witness.
