(* ===== verification/RingSteps.v ===== *)
(** The statements of RingPthread, seen from outside: which position follows
    which, what a statement pushes, and which threads it touches. What is proved
    of all interleavings of the ring elsewhere (RingTermination,
    PosixQueueThreads) rests on this. *)

From S2P Require Import Prelude OsTypes Pthread OsRing RingPthread.

(** The statements that leave the ring. *)
Definition leaves (p : position) : bool :=
  match p with PutUnlock | GetUnlock _ | SizeUnlock _ => true | _ => false end.

(** Where the other statements lead. *)
Definition next_of (p q : position) : bool :=
  match p, q with
  | PutLock item, PutPush item' => bool_decide (item = item')
  | PutPush _, PutSignal | PutSignal, PutUnlock => true
  | GetLock _, (GetCheck | GetTake) | GetWoken, GetCheck => true
  | GetCheck, (GetWaiting | GetTake) | GetTake, GetUnlock _ => true
  | SizeLock, SizeRead | SizeRead, SizeUnlock _ => true
  | _, _ => false
  end.

(** The message a put that has not pushed it yet carries. *)
Definition carries (p : position) : option (list byte) :=
  match p with PutLock item | PutPush item => Some item | _ => None end.

Lemma next_carries p q item : next_of p q = true -> carries q = Some item -> carries p = Some item.
Proof. destruct p, q; simpl; try done. by intros ->%bool_decide_eq_true. Qed.

(** A sum that does not tell a waiting thread from a woken one. *)
Lemma msum_wake (f : position -> nat) ws th :
  f GetWaiting = f GetWoken -> msum f (wake ws th) = msum f th.
Proof.
  intros Hf. induction ws as [|t ws IH]; [done|]. simpl. rewrite <- IH. unfold wake1.
  destruct (wake ws th !! t) as [[]|] eqn:E; try done.
  pose proof (msum_insert f t GetWoken (wake ws th)) as Hm. rewrite E in Hm. simpl in Hm. lia.
Qed.

Section RingSteps.
Context {M : Type} `{Errno, PthreadMutex M}.
Variable ndebug : bool.

(** What the statement at [p] pushes. *)
Definition pushes_of (r : config M) (p : position) : list (list byte) :=
  match p with PutPush item => [take (Z.to_nat (_itemSize (ring r))) item] | _ => [] end.

(** A statement pushes what it pushes, and moves its thread out or on; only a
    signal wakes others. *)
Lemma run_thread_shape t ws p r r' :
  run_thread ndebug t ws p r = Some (Ret r') ->
  pushed r' = pushed r ++ pushes_of r p /\
  if leaves p then threads r' = delete t (threads r)
  else exists q ws', threads r' = <[t := q]> (wake ws' (threads r)) /\ next_of p q = true /\
       (ws' = [] \/ p = PutSignal).
Proof.
  assert (forall q m, lock_then t q r = Some (Ret m) -> pushed m = pushed r ++ [] /\
            threads m = <[t := q]> (wake [] (threads r))) as Hlock.
  { intros q m. unfold lock_then. destruct (pthread_mutex_lock t (_mutex r)) as [[]|]; [|done].
    intros [= <-]. by rewrite app_nil_r. }
  destruct p; cbn [run_thread leaves pushes_of]; intros E; try done;
    try (apply Hlock in E as [-> ->]; split; [done|]; do 2 eexists; split; [done|]; split; [|by left]);
    try (injection E as E); try (subst r'; simpl; by rewrite app_nil_r).
  - simpl. by apply bool_decide_eq_true.
  - unfold do_push in E. apply obind_ret_inv in E as (b & _ & [= <-]). split; [done|].
    exists PutSignal, []. split_and!; [done | done | by left].
  - destruct (signal_wakes ws (threads r)); [|done]. injection E as <-. simpl.
    rewrite app_nil_r. split; [done|]. exists PutUnlock, ws. split_and!; [done | done | by right].
  - by destruct (tmo =? 0).
  - destruct (size (ring r) =? 0); subst r'; simpl; rewrite app_nil_r; (split; [done|]);
      eexists _, []; (split; [done|]); split; [done | by left | done | by left].
  - done.
  - unfold do_take in E. destruct (size (ring r) =? 0); [|destruct (front (ring r)) as [off|]].
    2: apply obind_ret_inv in E as (b & _ & E).
    all: injection E as <-; simpl; rewrite app_nil_r; (split; [done|]); eexists _, [];
      (split; [done|]); split; [done | by left].
  - done.
  - subst r'. simpl. rewrite app_nil_r. split; [done|]. eexists _, [].
    split; [done|]. split; [done | by left].
Qed.

Lemma wake_at t p ws th : th !! t = Some p -> p <> GetWaiting -> wake ws th !! t = Some p.
Proof. intros Ht Hp. destruct (wake_lookup ws t th) as [->|(_ & E & _)]; [done | congruence]. Qed.

Lemma run_thread_not_waiting t ws p r o : run_thread ndebug t ws p r = Some o -> p <> GetWaiting.
Proof. by destruct p. Qed.

(** No thread appears in the ring, and the one that leaves is gone. *)
Lemma run_thread_dom t ws p r r' t' q :
  threads r !! t = Some p -> run_thread ndebug t ws p r = Some (Ret r') ->
  threads r' !! t' = Some q -> is_Some (threads r !! t') /\ (leaves p = true -> t' <> t).
Proof.
  intros Ht E. apply run_thread_shape in E as [_ Hs]. destruct (leaves p).
  - rewrite Hs, lookup_delete_Some. intros [Hne Hq]. split; [by eexists | congruence].
  - destruct Hs as (q' & ws' & -> & _). rewrite lookup_insert_Some.
    intros [[<- _]|[Hne Hq]]; (split; [|done]); [by eexists|].
    destruct (wake_lookup ws' t' (threads r)) as [E|(_ & -> & _)]; [|by eexists].
    rewrite <- E. by eexists.
Qed.

End RingSteps.
