(* ===== verification/RingTermination.v ===== *)
(** Termination of the methods of RingPthread: without new calls and spurious
    wakeups, every schedule of the threads that are inside a method comes to an
    end, however the scheduler chooses, and with every method that is not a
    [get] on an empty ring completed. *)

From S2P Require Import Prelude OsTypes Pthread OsRing RingPthread RingSteps.

(** How many statements a thread has still to run, when no more than [n] threads
    can be woken: a signal may set each of them back by four. *)
Definition remaining (n : nat) (p : position) : nat :=
  match p with
  | PutLock _ => 4 * n + 4
  | PutPush _ => 4 * n + 3
  | PutSignal => 4 * n + 2
  | PutUnlock => 1
  | GetLock _ | GetWoken => 4
  | GetCheck => 3
  | GetTake => 2
  | GetUnlock _ => 1
  | GetWaiting => 0
  | SizeLock => 3
  | SizeRead => 2
  | SizeUnlock _ => 1
  end.

Definition work (n : nat) (th : gmap tid position) : nat := msum (remaining n) th.

Definition asleep (p : position) : nat := Nat.b2n (is_waiting p).

(** A waking thread is paid for by the waits that end. *)
Lemma work_wake n ws th :
  (work n (wake ws th) + 4 * msum asleep (wake ws th) = work n th + 4 * msum asleep th)%nat.
Proof.
  induction ws as [|t ws IH]; [done|]. simpl. set (th' := wake ws th) in *. clearbody th'.
  unfold wake1. destruct (th' !! t) as [p|] eqn:E; [|lia]. destruct p; try lia.
  pose proof (msum_insert (remaining n) t GetWoken th') as H1.
  pose proof (msum_insert asleep t GetWoken th') as H2. rewrite E in H1, H2.
  unfold work in *. cbn in *. lia.
Qed.

Lemma msum_le_size {A} (f : A -> nat) (m : gmap tid A) :
  (forall t x, m !! t = Some x -> (f x <= 1)%nat) -> (msum f m <= base.size m)%nat.
Proof.
  induction m as [|t x m Ht IH] using map_ind; intros Hf; [by rewrite msum_empty|].
  rewrite msum_insert_None, map_size_insert_None by done.
  assert (msum f m <= base.size m)%nat.
  { apply IH. intros t' x' E. apply (Hf t'). rewrite lookup_insert_ne; [done | congruence]. }
  specialize (Hf t x (lookup_insert_eq _ _ _)). lia.
Qed.

Lemma asleep_size (th : gmap tid position) : (msum asleep th <= base.size th)%nat.
Proof. apply msum_le_size. intros t p _. unfold asleep. by destruct p; simpl; lia. Qed.

Lemma wake_size ws (th : gmap tid position) : base.size (wake ws th) = base.size th.
Proof.
  induction ws as [|t ws IH]; [done|]. simpl. rewrite <- IH. unfold wake1.
  destruct (wake ws th !! t) as [p|] eqn:E; [|done]. destruct p; try done.
  apply map_size_insert_Some. by eexists.
Qed.

Section RingTermination.
Context {M : Type} `{Errno, PthreadMutex M, !PthreadMutexLaws M}.
Variable ndebug : bool.

(** A statement of a thread, as against a new call or a spurious wakeup. *)
Definition is_run (mv : move) : Prop := match mv with Run _ _ => True | _ => False end.

(** Every statement leaves less to do, and no more threads. *)
Lemma run_thread_work n t ws p c c' :
  (base.size (threads c) <= n)%nat -> threads c !! t = Some p ->
  run_thread ndebug t ws p c = Some (Ret c') ->
  (work n (threads c') < work n (threads c))%nat /\ (base.size (threads c') <= n)%nat.
Proof.
  intros Hn Ht E. pose proof (run_thread_not_waiting _ _ _ _ _ _ E) as Hw.
  apply run_thread_shape in E as [_ Hs]. destruct (leaves p) eqn:Hl.
  - rewrite Hs. unfold work. rewrite (msum_delete (remaining n) t (threads c)), Ht.
    rewrite map_size_delete_Some by (by eexists). destruct p; simpl in *; try done; lia.
  - destruct Hs as (q & ws' & -> & Hq & Hws).
    pose proof (wake_at t p ws' (threads c) Ht Hw) as Hwk.
    rewrite map_size_insert_Some, wake_size by (by eexists). split; [|done].
    pose proof (msum_insert (remaining n) t q (wake ws' (threads c))) as Hm. rewrite Hwk in Hm.
    pose proof (work_wake n ws' (threads c)) as Hwork. pose proof (asleep_size (threads c)).
    unfold work in *. destruct Hws as [-> | ->].
    + simpl in *. destruct p, q; simpl in *; try done; lia.
    + destruct q; try done. simpl in *. lia.
Qed.

Lemma exec_work n mv c c' :
  is_run mv -> (base.size (threads c) <= n)%nat -> exec ndebug mv c = Some (Ret c') ->
  (work n (threads c') < work n (threads c))%nat /\ (base.size (threads c') <= n)%nat.
Proof.
  intros Hmv Hn E. destruct mv as [t cl|t ws|t]; try done. simpl in E.
  destruct (threads c !! t) as [p|] eqn:Ht; [|done]. by apply (run_thread_work n t ws p).
Qed.

Lemma exec_all_work n mvs c c' :
  Forall is_run mvs -> (base.size (threads c) <= n)%nat -> exec_all ndebug mvs c = Some (Ret c') ->
  (length mvs + work n (threads c') <= work n (threads c))%nat.
Proof.
  intros Hmvs. revert c. induction Hmvs as [|mv mvs Hmv _ IH]; simpl; intros c Hn.
  - intros [= <-]. lia.
  - destruct (exec ndebug mv c) as [[c1| | | |]|] eqn:E; try done. intros E'.
    destruct (exec_work n mv c c1 Hmv Hn E) as [Hlt Hn1]. specialize (IH c1 Hn1 E'). lia.
Qed.

Lemma run_reachable (r0 : OsRing) (m0 : M) mvs c c' :
  reachable ndebug r0 m0 c -> Forall is_run mvs -> exec_all ndebug mvs c = Some (Ret c') ->
  reachable ndebug r0 m0 c'.
Proof.
  intros Hc Hmvs. revert c Hc. induction Hmvs as [|mv mvs Hmv _ IH]; simpl; intros c Hc.
  - by intros [= <-].
  - destruct (exec ndebug mv c) as [[c1| | | |]|] eqn:E; try done.
    apply IH, (reach_step _ _ _ c mv c1); [done | by destruct mv | done].
Qed.

(** No thread can run. *)
Definition stuck (c : config M) : Prop := forall t ws, exec ndebug (Run t ws) c = None.

Lemma all_waiting_stuck c :
  (forall t p, threads c !! t = Some p -> p = GetWaiting) -> stuck c.
Proof.
  intros Hw t ws. simpl. destruct (threads c !! t) as [p|] eqn:Ht; [|done].
  by rewrite (Hw t p Ht).
Qed.

(** The puts that have not pushed their message yet. *)
Definition unpushed (p : position) : nat := match carries p with Some _ => 1 | None => 0 end.

Lemma run_thread_unpushed t ws p c c' :
  threads c !! t = Some p -> run_thread ndebug t ws p c = Some (Ret c') ->
  (length (pushed c') + msum unpushed (threads c') =
   length (pushed c) + msum unpushed (threads c))%nat.
Proof.
  intros Ht E. pose proof (run_thread_not_waiting _ _ _ _ _ _ E) as Hw.
  apply run_thread_shape in E as [-> Hs]. rewrite length_app. destruct (leaves p) eqn:Hl.
  - rewrite Hs, (msum_delete unpushed t (threads c)), Ht. destruct p; simpl in *; try done; lia.
  - destruct Hs as (q & ws' & -> & Hq & _).
    pose proof (msum_insert unpushed t q (wake ws' (threads c))) as Hm.
    rewrite msum_wake, (wake_at t p) in Hm by done. simpl in Hm.
    destruct p, q; simpl in *; try done; unfold unpushed in *; simpl in *; lia.
Qed.

Lemma exec_all_unpushed mvs c c' :
  Forall is_run mvs -> exec_all ndebug mvs c = Some (Ret c') ->
  (length (pushed c') + msum unpushed (threads c') =
   length (pushed c) + msum unpushed (threads c))%nat.
Proof.
  intros Hmvs. revert c. induction Hmvs as [|mv mvs Hmv _ IH]; intros c; [by intros [= <-]|].
  cbn [exec_all]. destruct mv as [t cl|t ws|t]; try done. cbn [exec].
  destruct (threads c !! t) as [p|] eqn:Ht; [|done].
  destruct (run_thread ndebug t ws p c) as [[c1| | | |]|] eqn:E; try done.
  intros E'. rewrite <- (run_thread_unpushed t ws p c c1) by done. by apply IH.
Qed.

(** While something can run, running it ends. *)
Lemma runs_end r0 m0 n k c :
  ndebug = false -> fresh r0 m0 -> reachable ndebug r0 m0 c ->
  (base.size (threads c) <= n)%nat -> (work n (threads c) <= k)%nat ->
  exists mvs o, Forall is_run mvs /\ exec_all ndebug mvs c = Some o /\
    (o = AssertFail \/ exists c', o = Ret c' /\ stuck c').
Proof.
  intros Hnd Hf. revert c. induction k as [k IH] using lt_wf_ind. intros c Hr Hn Hk.
  destruct (decide (threads c = ∅)) as [He|He].
  { exists [], (Ret c). split_and!; [done | done |]. right. exists c. split; [done|].
    apply all_waiting_stuck. intros t p. by rewrite He, lookup_empty. }
  apply map_choose in He as (t & p & Ht).
  destruct (reachable_progress ndebug r0 m0 c t p Hnd Hf Hr Ht) as [(t' & ws & o & E)|[Hw _]].
  - destruct (returns o) eqn:Hret.
    + destruct o as [c1| | | |]; try done.
      destruct (exec_work n (Run t' ws) c c1 I Hn E) as [Hlt Hn1].
      destruct (IH (work n (threads c1)) ltac:(lia) c1) as (mvs & o & Hmvs & Eo & Ho); try done.
      * by apply (reach_step _ _ _ c (Run t' ws)).
      * exists (Run t' ws :: mvs), o. split_and!; [by constructor | | done]. cbn [exec_all]. by rewrite E.
    + exists [Run t' ws], o. split_and!; [by constructor | |].
      * cbn [exec_all]. rewrite E. by destruct o.
      * left. simpl in E. destruct (threads c !! t') as [p'|] eqn:Ht'; [|done].
        by destruct (run_crash ndebug _ _ _ _ _ _ _ Hnd (reachable_inv _ _ _ _ Hnd Hf Hr) Ht' E Hret).
  - exists [], (Ret c). split_and!; [done | done |]. right. exists c. split; [done|].
    by apply all_waiting_stuck.
Qed.

(** Termination under every scheduler: from any configuration that can arise,
    the threads inside the methods run at most [work] statements, in whatever
    order, unless new calls are made or waits end without a signal. When none
    can run any more, every put has put its message, the size queries are done
    and so are the gets, except those that sleep, and then the ring is empty.
    And such an end, or the abort of a put on a full ring, is always within
    reach. *)
Theorem ring_pthread_termination r0 m0 c :
  ndebug = false -> fresh r0 m0 -> reachable ndebug r0 m0 c ->
  (forall mvs c', Forall is_run mvs -> exec_all ndebug mvs c = Some (Ret c') ->
     (length mvs <= work (base.size (threads c)) (threads c))%nat /\
     (stuck c' ->
        (forall t p, threads c' !! t = Some p -> p = GetWaiting) /\
        (threads c' <> ∅ -> contents (ring c') = []) /\
        length (pushed c') = (length (pushed c) + msum unpushed (threads c))%nat)) /\
  (exists mvs o, Forall is_run mvs /\ exec_all ndebug mvs c = Some o /\
     (o = AssertFail \/ exists c', o = Ret c' /\ stuck c')).
Proof.
  intros Hnd Hf Hr. split; [|by apply (runs_end r0 m0 _ _ c Hnd Hf Hr (le_n _) (le_n _))].
  intros mvs c' Hmvs E. split.
  - pose proof (exec_all_work _ mvs c c' Hmvs (le_n _) E). lia.
  - intros Hst. pose proof (run_reachable r0 m0 mvs c c' Hr Hmvs E) as Hr'.
    assert (forall t p, threads c' !! t = Some p ->
      (forall t p, threads c' !! t = Some p -> p = GetWaiting) /\ contents (ring c') = []) as Hend.
    { intros t p Ht.
      destruct (reachable_progress ndebug r0 m0 c' t p Hnd Hf Hr' Ht) as [(t' & ws & o & Eo)|?];
        [|done]. by rewrite (Hst t' ws) in Eo. }
    split_and!.
    + intros t p Ht. by apply (proj1 (Hend t p Ht) t p).
    + intros (t & p & Ht)%map_choose. by apply (Hend t p Ht).
    + pose proof (exec_all_unpushed mvs c c' Hmvs E) as Hu.
      rewrite (msum_zero unpushed (threads c')) in Hu; [lia|].
      intros t p Ht. by rewrite (proj1 (Hend t p Ht) t p Ht).
Qed.

End RingTermination.

(** * The theorem at work *)

Section Witness.
#[local] Existing Instance linux_errno.

(** A consumer sleeps and a producer is about to signal ([demo_moves] of
    RingPthread): at most ten statements are left, and after six of them both
    are done. *)
Example ring_pthread_termination_witness :
  let mvs := [Run 2 [1%nat]; Run 2 []; Run 1 []; Run 1 []; Run 1 []; Run 1 []] in
  exists c', exec_all false mvs (demo_end demo_moves) = Some (Ret c') /\
    (length mvs <= work 2 (threads (demo_end demo_moves)))%nat /\
    (stuck false c' -> length (pushed c') = 1%nat).
Proof.
  intros mvs. destruct (exec_all false mvs (demo_end demo_moves)) as [[c'| | | |]|] eqn:E;
    try (vm_compute in E; discriminate E).
  exists c'. split; [reflexivity|].
  destruct (ring_pthread_termination false demo_ring (None : ref_mutex) (demo_end demo_moves)
    eq_refl demo_fresh demo_reachable) as [Hall _].
  destruct (Hall mvs c') as [Hlen Hst]; [by repeat constructor | exact E |].
  split; [exact Hlen|]. intros Hs. apply Hst in Hs as (_ & _ & ->). vm_compute. reflexivity.
Defined.
End Witness.
