(* ===== verification/PosixQueue.v ===== *)
(** targets/posix/os_queue.cc: the message queue of the API over a heap
    allocated [RingPthread], with the signal callback. The calls are taken one
    at a time here (PosixQueueThreads has their interleavings); the behaviour
    of every function, what happens to a full or an empty queue, the proof
    of the queue laws of [OsalApi], and which calls are answered as os_queue.h says. *)

From S2P Require Import Prelude OsTypes Pthread PosixUtils OsalApi OsRing RingPthread.

(** [struct pos_queue] (posix/poski/osal/os_types.h). [q] is null or the ring,
    which nothing else points to; a callback is known by the function [CB] it
    designates, its argument is a pointer [P] ([None] is null). *)
Record pos_queue (M CB P : Type) := mkPosQueue {
  q : option (RingPthread M);
  sig_cb : option CB;
  sig_arg : option P
}.
Arguments mkPosQueue {M CB P} q sig_cb sig_arg.
Arguments q {M CB P} p.
Arguments sig_cb {M CB P} p.
Arguments sig_arg {M CB P} p.

Section PosixQueue.
Context {M CB P : Type} `{Errno, PthreadMutex M}.

(** Whether [assert] is compiled out; what [new] gives ([OsRing_new]); and what
    a callback does to the queue: it is the application's code. *)
Variable ndebug : bool.
Variable alloc : Z -> option (list byte).
Variable invoke : CB -> option P -> pos_queue M CB P -> outcome (pos_queue M CB P).

Abbreviation queue := (pos_queue M CB P).

Definition set_q (p : option (RingPthread M)) (msgq : queue) : queue :=
  mkPosQueue p (sig_cb msgq) (sig_arg msgq).

(** The [size_t] arguments convert to the constructor's [uint16_t]. [new]
    throws when there is no memory, so the test of the pointer always holds. *)
Definition pos_queue_init (msg_size max_msgs : Z) (msgq : queue) : outcome (pos_error * queue) :=
  do p <- RingPthread_new ndebug alloc (u16 msg_size) (u16 max_msgs);
  let msgq := mkPosQueue (Some p) None None in
  Ret (match q msgq with Some _ => POS_OK | None => POS_ENOMEM end, msgq).

Definition pos_queue_set_signal_cb (signal_cb : option CB) (data : option P) (msgq : queue) : queue :=
  mkPosQueue (q msgq) signal_cb data.

Definition pos_queue_is_empty (t : tid) (msgq : queue) : outcome (bool * queue) :=
  do p <- deref (q msgq);
  do '(n, p) <- locked_size t p;
  Ret (n =? 0, set_q (Some p) msgq).

Definition pos_queue_inited (msgq : queue) : Z :=
  match q msgq with Some _ => 1 | None => 0 end.

Definition pos_queue_put (t : tid) (data : list byte) (msgq : queue)
    : outcome (pos_error * queue) :=
  do p <- deref (q msgq);
  do p <- put ndebug t data p;
  let msgq := set_q (Some p) msgq in
  do msgq <- match sig_cb msgq with
             | Some cb => invoke cb (sig_arg msgq) msgq
             | None => Ret msgq
             end;
  Ret (POS_OK, msgq).

(** The error, what is written to [data], and the queue. *)
Definition pos_queue_get (t : tid) (tmo : Z) (msgq : queue)
    : outcome (pos_error * option (list byte) * queue) :=
  do p <- deref (q msgq);
  do '(item, p) <- get ndebug t tmo p;
  let success := match item with Some _ => true | None => false end in
  Ret (if (success : bool) then POS_OK else POS_TIMEOUT, item, set_q (Some p) msgq).

(** [msgq] is null or points to the queue. [delete] runs the destructors, which
    destroy the mutex and the condition variable and free the buffer. *)
Definition pos_queue_deinit (msgq : option queue) : pos_error * option queue :=
  match msgq with
  | Some m => (POS_OK, match q m with Some _ => Some (set_q None m) | None => Some m end)
  | None => (POS_OK, None)
  end.

#[local] Instance posix_osal_queue : OsalQueue queue := {
  osal_queue_init := pos_queue_init;
  osal_queue_put := pos_queue_put;
  osal_queue_get := pos_queue_get;
  osal_queue_inited := pos_queue_inited;
  osal_queue_deinit := fun m => let '(e, m') := pos_queue_deinit (Some m) in
                                Ret (e, default m m');
  queue_view := fun m =>
    (fun p => (_itemSize (super p), _itemCount (super p), contents (super p))) <$> q m;
  queue_ok := fun m =>
    match q m with
    | Some p => ring_wf (super p) /\ holder (super_mutex p) = None
    | None => True
    end;
  queue_no_wait := POS_TIME_NO_WAIT;
  queue_forever := POS_TIME_FOREVER
}.

#[local] Instance posix_osal_queue_probe : OsalQueueProbe queue := {
  osal_queue_is_empty := pos_queue_is_empty
}.

#[local] Instance posix_osal_queue_signal : OsalQueueSignal queue CB P := {
  osal_queue_set_signal_cb := pos_queue_set_signal_cb
}.

Context `{!PthreadMutexLaws M}.

(** * The methods of the ring on a free mutex *)

Lemma locked_free t m :
  holder m = None ->
  exists m', locked t m = Ret m' /\ holder (pthread_mutex_unlock t m').2 = None.
Proof.
  intros Hh. destruct (pthread_lock_free t m Hh) as (m' & E & Hm').
  exists m'. unfold locked. rewrite E. split; [done|].
  by destruct (pthread_unlock_own t m' 0 Hm') as (m2 & -> & ?).
Qed.

Definition ring_ok (p : RingPthread M) : Prop :=
  ring_wf (super p) /\ holder (super_mutex p) = None.

Lemma put_room t item p :
  ring_ok p -> size (super p) < _itemCount (super p) ->
  _itemSize (super p) <= Z.of_nat (length item) ->
  exists p', put ndebug t item p = Ret p' /\ ring_ok p' /\
    _itemSize (super p') = _itemSize (super p) /\ _itemCount (super p') = _itemCount (super p) /\
    contents (super p') = contents (super p) ++ [take (Z.to_nat (_itemSize (super p))) item].
Proof.
  intros [Hwf Hh] Hlt Hitem. unfold put.
  destruct (locked_free t _ Hh) as (m & -> & Hm). simpl.
  destruct (push_back_spec ndebug item _ Hwf Hlt Hitem) as (r & -> & ? & ? & ? & ?).
  by eexists.
Qed.

Lemma put_full t item p :
  ndebug = false -> ring_ok p -> size (super p) = _itemCount (super p) ->
  put ndebug t item p = AssertFail.
Proof.
  intros -> [Hwf Hh] Hfull. unfold put. destruct (locked_free t _ Hh) as (m & -> & _). simpl.
  rewrite push_back_enabled_full; [done|]. by apply Z.eqb_eq.
Qed.

Lemma get_some t tmo p x l :
  ring_ok p -> contents (super p) = x :: l ->
  exists p', get ndebug t tmo p = Ret (Some x, p') /\ ring_ok p' /\
    _itemSize (super p') = _itemSize (super p) /\ _itemCount (super p') = _itemCount (super p) /\
    contents (super p') = l.
Proof.
  intros [Hwf Hh] Hx. unfold get. destruct (locked_free t _ Hh) as (m & -> & Hm). cbn [obind].
  pose proof (front_spec _ Hwf) as Hf. pose proof (size_contents (super p)) as Hs.
  rewrite Hx in Hf, Hs. simpl in Hs.
  destruct (Z.eqb_spec (size (super p)) 0) as [Hz|_]; [lia|]. rewrite andb_false_r.
  destruct Hf as (off & -> & ->).
  destruct (pop_front_spec ndebug _ x l Hwf Hx) as (r & -> & ? & ? & ? & ?).
  by eexists.
Qed.

Lemma get_none t tmo p :
  ring_ok p -> contents (super p) = [] ->
  if tmo =? 0
  then exists p', get ndebug t tmo p = Ret (None, p') /\ ring_ok p' /\ super p' = super p
  else get ndebug t tmo p = Block.
Proof.
  intros [Hwf Hh] Hx. unfold get. destruct (locked_free t _ Hh) as (m & -> & Hm). cbn [obind].
  rewrite (size_contents (super p)), Hx. simpl. destruct (tmo =? 0); simpl; [|done].
  by eexists.
Qed.

Lemma locked_size_spec t p :
  ring_ok p ->
  exists p', locked_size t p = Ret (Z.of_nat (length (contents (super p))), p') /\ ring_ok p' /\
    super p' = super p.
Proof.
  intros [Hwf Hh]. unfold locked_size. destruct (locked_free t _ Hh) as (m & -> & Hm).
  rewrite <- size_contents. by eexists.
Qed.

(** * The contract of the API header *)

(** A callback that leaves the queue alone, an allocator that gives what is
    asked for, and a mutex that could be initialised (the constructor does not
    look at the status). *)
Record benign : Prop := {
  benign_invoke : forall cb arg m, invoke cb arg m = Ret m;
  benign_alloc : alloc_ok alloc;
  benign_mutex : (pthread_mutex_init (M := M) PTHREAD_MUTEX_RECURSIVE).1 = 0
}.

Lemma pos_queue_init_inv size n msgq e msgq' :
  ndebug = false -> benign -> pos_queue_init size n msgq = Ret (e, msgq') ->
  e = POS_OK /\ queue_ok msgq' /\ queue_view msgq' = Some (u16 size, u16 n, []).
Proof.
  intros Hnd [_ Ha Hm]. unfold pos_queue_init, RingPthread_new. rewrite Hnd.
  intros (p & (r & Hr & [= <-])%obind_ret_inv & [= <- <-])%obind_ret_inv.
  destruct (OsRing_new_wf _ _ _ _ Ha (u16_range _) (u16_range _) Hr) as (? & Hc & Hs & Hn).
  split_and!; [done | split; [done|] | simpl; by rewrite Hs, Hn, Hc].
  destruct (pthread_mutex_init PTHREAD_MUTEX_RECURSIVE) as [st m] eqn:E. simpl in *. subst st.
  by apply pthread_init_free.
Qed.

Ltac open_queue msgq p Hok Hv :=
  destruct msgq as [[p|] ? ?]; simpl in Hok, Hv; [injection Hv as <- <- Hv | done].

Lemma pos_queue_put_room t item msgq size n l :
  benign -> queue_ok msgq -> queue_view msgq = Some (size, n, l) ->
  size <= Z.of_nat (length item) -> Z.of_nat (length l) < n ->
  exists msgq', pos_queue_put t item msgq = Ret (POS_OK, msgq') /\ queue_ok msgq' /\
    queue_view msgq' = Some (size, n, l ++ [take (Z.to_nat size) item]).
Proof.
  intros [Hq _ _] Hok Hv Hi Hl. open_queue msgq p Hok Hv. rewrite <- Hv in Hl.
  destruct (put_room t item p Hok) as (p' & E & Hok' & Hs & Hn & Hc);
    [by rewrite size_contents | done |].
  unfold pos_queue_put. simpl. rewrite E. simpl.
  exists (mkPosQueue (Some p') sig_cb0 sig_arg0). split_and!.
  - destruct sig_cb0; simpl; by rewrite ?Hq.
  - done.
  - simpl. by rewrite Hs, Hn, Hc, Hv.
Qed.

Lemma posix_queue_osal_laws : ndebug = false -> benign -> OsalQueueLaws queue.
Proof.
  intros Hnd Hb. split.
  - intros size n s s' Hs Hn E. apply (pos_queue_init_inv size n s) in E as (_ & ? & Hv); try done.
    by rewrite !u16_small in Hv.
  - intros. by apply pos_queue_put_room.
  - intros t item msgq size n l e s' Hok Hv Hi Hl. open_queue msgq p Hok Hv.
    cbn. rewrite put_full; [done | done | done |]. by rewrite size_contents, Hv.
  - intros msgq size n l Hok Hv. open_queue msgq p Hok Hv. rewrite <- Hv, <- size_contents.
    apply wf_size, Hok.
  - intros t timeout msgq size n x l Hok Hv. open_queue msgq p Hok Hv.
    destruct (get_some t timeout p x l Hok Hv) as (p' & E & Hok' & Hs & Hn & Hc).
    eexists. cbn. rewrite E. split; [done|]. split; [done|]. simpl. by rewrite Hs, Hn, Hc.
  - intros t timeout msgq size n e d s' Hok Hv. open_queue msgq p Hok Hv.
    pose proof (get_none t timeout p Hok Hv) as Hg. cbn. destruct (timeout =? 0).
    + destruct Hg as (p' & -> & Hok' & Hp). simpl. intros [= <- <- <-].
      split_and!; try done. simpl. by rewrite Hp.
    + by rewrite Hg.
  - intros [[p|] ? ?] _; simpl; by eexists.
Qed.

Lemma posix_queue_probe_laws : OsalQueueProbeLaws queue.
Proof.
  split. simpl. intros t msgq size n l Hok Hv. open_queue msgq p Hok Hv.
  destruct (locked_size_spec t p Hok) as (p' & E & Hok' & Hp). cbn. rewrite E. simpl.
  exists (mkPosQueue (Some p') sig_cb0 sig_arg0). split; [|split; [done|]].
  - rewrite Hv. do 2 f_equal. case_bool_decide; by destruct l.
  - simpl. by rewrite Hp.
Qed.

Lemma posix_queue_signal_laws : OsalQueueSignalLaws queue CB P.
Proof. by split. Qed.

(** * The documented answers *)

Lemma posix_get_documented t timeout msgq size n l :
  ndebug = false -> benign -> queue_ok msgq -> queue_view msgq = Some (size, n, l) ->
  get_documented t timeout msgq <-> l <> [] \/ timeout = POS_TIME_FOREVER.
Proof.
  intros Hnd Hb Hok Hv. destruct l as [|x l]; cycle 1.
  { split; [by left|]. intros _. pose proof (posix_queue_osal_laws Hnd Hb).
    by apply (get_documented_some t timeout msgq size n x l). }
  open_queue msgq p Hok Hv. pose proof (get_none t timeout p Hok Hv) as Hg.
  unfold get_documented. cbn. split.
  - intros Hd. specialize (Hd _ _ _ eq_refl). rewrite Hv in Hd. right.
    unfold documented_answer in Hd. simpl in Hd. unfold POS_TIME_NO_WAIT in Hd.
    destruct (timeout =? 0).
    + destruct Hg as (p' & E & _). by rewrite E in Hd.
    + rewrite Hg in Hd. by destruct (Z.eqb_spec timeout POS_TIME_FOREVER).
  - intros [Hne| ->]; [done|]. intros ? ? ? [= <- <- <-]. simpl in Hg. by rewrite Hg, Hv.
Qed.

Lemma posix_put_documented t item msgq size n l :
  ndebug = false -> benign -> queue_ok msgq -> queue_view msgq = Some (size, n, l) ->
  size <= Z.of_nat (length item) ->
  put_documented t item msgq <-> Z.of_nat (length l) < n.
Proof.
  intros Hnd Hb Hok Hv Hi. pose proof (posix_queue_osal_laws Hnd Hb). split; cycle 1.
  { by apply (put_documented_room t item msgq size n l). }
  intros Hd. specialize (Hd size n l Hv Hi). pose proof (queue_view_bound _ _ _ _ Hok Hv).
  destruct (Z.ltb_spec (Z.of_nat (length l)) n) as [|Hge]; [done|]. exfalso.
  destruct Hd as (e & msgq' & E & _). open_queue msgq p Hok Hv. cbn in E.
  rewrite put_full in E; try done. rewrite size_contents, Hv. lia.
Qed.

Lemma posix_inited_boolean msgq : inited_boolean msgq.
Proof. by destruct msgq as [[p|] ? ?]. Qed.

(** * Properties *)


(** What [pos_queue_init] does for any arguments: both are taken modulo 2^16;
    the process aborts unless the number of messages is then a power of two; an
    exception leaves the function when there is no memory; and whenever it
    returns it answers POS_OK, never POS_ENOMEM. *)
Theorem pos_queue_init_spec msg_size max_msgs msgq :
  ndebug = false -> benign ->
  match pos_queue_init msg_size max_msgs msgq with
  | Ret (e, m) => e = POS_OK /\ queue_ok m /\
                  queue_view m = Some (u16 msg_size, u16 max_msgs, []) /\ sig_cb m = None
  | AssertFail => ~ exists k, 0 <= k <= 15 /\ u16 max_msgs = 2 ^ k
  | Throw => (exists k, 0 <= k <= 15 /\ u16 max_msgs = 2 ^ k) /\
             alloc (u16 msg_size * u16 max_msgs) = None
  | Undef | Block => False
  end.
Proof.
  intros Hnd Hb. destruct (pos_queue_init msg_size max_msgs msgq) as [[e m]| | | |] eqn:E.
  { destruct (pos_queue_init_inv _ _ _ _ _ Hnd Hb E) as (? & ? & ?). split_and!; try done.
    unfold pos_queue_init in E.
    apply obind_ret_inv in E as (p & _ & E). by injection E as _ <-. }
  all: unfold pos_queue_init, RingPthread_new in E; rewrite Hnd in E;
    try rewrite <- (item_count_ok_u16 _ (u16_range max_msgs));
    rewrite (OsRing_new_eq _ _ _ (u16_range _) (u16_range _)) in E; simpl in E;
    destruct (item_count_ok (u16 max_msgs)), (alloc (u16 msg_size * u16 max_msgs));
    simpl in E; done.
Qed.

(** [pos_queue_get] on an empty queue: without waiting it answers POS_TIMEOUT
    and writes nothing; with any other timeout it waits for a message however
    long that takes, and never answers at all by itself. *)
Theorem pos_queue_get_empty t tmo msgq size n :
  queue_ok msgq -> queue_view msgq = Some (size, n, []) ->
  (tmo = 0 -> exists msgq', pos_queue_get t tmo msgq = Ret (POS_TIMEOUT, None, msgq') /\
                queue_view msgq' = Some (size, n, [])) /\
  (tmo <> 0 -> pos_queue_get t tmo msgq = Block).
Proof.
  intros Hok Hv. open_queue msgq p Hok Hv. pose proof (get_none t tmo p Hok Hv) as Hg.
  unfold pos_queue_get. simpl. destruct (Z.eqb_spec tmo 0) as [->|Hne]; split; try done.
  - intros _. destruct Hg as (p' & -> & _ & Hp). eexists. split; [done|]. simpl. by rewrite Hp, Hv.
  - intros _. by rewrite Hg.
Qed.

(** The signal callback runs once per put, with its argument, after the
    message is in the queue and with the lock of the queue free again, so that a
    callback may use the queue: a get in it gives the oldest message. *)
Theorem pos_queue_put_signals t item msgq size n l cb :
  queue_ok msgq -> queue_view msgq = Some (size, n, l) -> sig_cb msgq = Some cb ->
  size <= Z.of_nat (length item) -> Z.of_nat (length l) < n ->
  exists msgq1, queue_ok msgq1 /\
    queue_view msgq1 = Some (size, n, l ++ [take (Z.to_nat size) item]) /\
    pos_queue_put t item msgq = (do m <- invoke cb (sig_arg msgq) msgq1; Ret (POS_OK, m)) /\
    forall tmo, exists x m, head (l ++ [take (Z.to_nat size) item]) = Some x /\
      pos_queue_get t tmo msgq1 = Ret (POS_OK, Some x, m).
Proof.
  intros Hok Hv Hcb Hi Hl. open_queue msgq p Hok Hv. simpl in Hcb. subst sig_cb0.
  rewrite <- Hv in *.
  destruct (put_room t item p Hok) as (p' & E & Hok' & Hs & Hn & Hc);
    [by rewrite size_contents | done |].
  exists (mkPosQueue (Some p') (Some cb) sig_arg0). split_and!; [done | | | ].
  - simpl. by rewrite Hs, Hn, Hc.
  - unfold pos_queue_put. simpl. by rewrite E.
  - intros tmo. rewrite <- Hc. destruct (contents (super p')) as [|x l'] eqn:Hx.
    { by destruct (contents (super p)). }
    destruct (get_some t tmo p' x l' Hok' Hx) as (p2 & E2 & _).
    exists x. eexists. split; [done|]. unfold pos_queue_get. simpl. by rewrite E2.
Qed.

(** Lifecycle: deinitialising always answers POS_OK and is idempotent, also
    on a null pointer; [pos_queue_inited] tells an initialised queue; and on a
    deinitialised queue every other call follows the null pointer. *)
Theorem pos_queue_lifecycle t tmo data msgq :
  let '(e, r) := pos_queue_deinit msgq in
  e = POS_OK /\ pos_queue_deinit r = (POS_OK, r) /\
  match r with
  | None => msgq = None
  | Some m =>
      pos_queue_inited m = 0 /\ pos_queue_put t data m = Undef /\ pos_queue_get t tmo m = Undef /\
      pos_queue_is_empty t m = Undef
  end.
Proof. by destruct msgq as [[[p|] ? ?]|]. Qed.
End PosixQueue.

(** * Witnesses over the reference mutex *)

Section Witness.
#[local] Existing Instance linux_errno.

Definition demo_alloc (n : Z) : option (list byte) :=
  if (0 <=? n) && (n <=? 1000) then Some (replicate (Z.to_nat n) x00) else None.

(** A callback that does nothing, and a queue of two-byte messages with one in. *)
Definition demo_invoke (cb : unit) (arg : option unit) (m : pos_queue ref_mutex unit unit)
    : outcome (pos_queue ref_mutex unit unit) := Ret m.

Definition demo_queue (cb : option unit) (buffer : list byte) (w : Z) : pos_queue ref_mutex unit unit :=
  mkPosQueue (Some (mkRingPthread (mkOsRing buffer 2 2 0 w) None)) cb None.

Lemma demo_benign : benign demo_alloc demo_invoke.
Proof.
  split; [done| |done]. intros n m. unfold demo_alloc. case_match; [|done].
  intros [= <-]. rewrite length_replicate. lia.
Qed.

Lemma demo_queue_ok cb buffer w :
  length buffer = 4%nat -> 0 <= w <= 2 ->
  @queue_ok _ (posix_osal_queue false demo_alloc demo_invoke) (demo_queue cb buffer w).
Proof.
  intros Hb Hw. split; [|done]. split; simpl; unfold is_u16; try lia.
  - exists 1. by vm_compute.
  - unfold size. simpl. zwrap.
Qed.


(** 65538 messages of 65537 bytes are asked for; two of one byte are given. *)
Example pos_queue_init_spec_witness :
  match pos_queue_init false demo_alloc 65537 65538 (demo_queue None [] 0) with
  | Ret (e, m) => e = POS_OK /\
      @queue_view _ (posix_osal_queue false demo_alloc demo_invoke) m = Some (u16 65537, u16 65538, [])
  | AssertFail => ~ exists k, 0 <= k <= 15 /\ u16 65538 = 2 ^ k
  | _ => True
  end.
Proof.
  pose proof (pos_queue_init_spec false demo_alloc demo_invoke 65537 65538 (demo_queue None [] 0)
    eq_refl demo_benign) as H.
  destruct (pos_queue_init false demo_alloc 65537 65538 _) as [[e m]| | | |]; try exact I.
  - destruct H as (? & _ & ? & _). by split.
  - exact H.
Defined.

Example pos_queue_get_empty_witness :
  pos_queue_get false 1 20 (demo_queue None [x00; x00; x00; x00] 0) = Block.
Proof.
  refine (proj2 (pos_queue_get_empty false demo_alloc demo_invoke 1%nat 20
    (demo_queue None [x00; x00; x00; x00] 0) 2 2 _ eq_refl) _); [|done].
  by apply demo_queue_ok.
Defined.

Example pos_queue_put_signals_witness :
  exists m1, @queue_view _ (posix_osal_queue false demo_alloc demo_invoke) m1 =
      Some (2, 2, [[x01; x02]; [x03; x04]]) /\
    pos_queue_put false demo_invoke 1 [x03; x04] (demo_queue (Some tt) [x01; x02; x00; x00] 1) =
      Ret (POS_OK, m1).
Proof.
  destruct (pos_queue_put_signals false demo_alloc demo_invoke 1%nat [x03; x04]
    (demo_queue (Some tt) [x01; x02; x00; x00] 1) 2 2 [[x01; x02]] tt) as (m1 & _ & Hv & Hp & _).
  - by apply demo_queue_ok.
  - reflexivity.
  - reflexivity.
  - vm_compute. congruence.
  - vm_compute. reflexivity.
  - exists m1. split; [exact Hv | exact Hp].
Defined.
End Witness.
