(* ===== verification/OsQueue.v ===== *)
(** include/poski/OsQueue.h: the typed C++ queue. Verified against the queue
    interface of [OsalApi], so the results hold over every port that provides
    it: values come out whole, in the order they went in, and only once. *)

From S2P Require Import Prelude OsTypes Pthread OsalApi.

(** [class OsQueue<T, QueueSize>] *)
Record OsQueue (S : Type) := mkOsQueue {
  queue_ : S;
  initialized_ : bool;
  init_status_ : pos_error
}.
Arguments mkOsQueue {S} queue_ initialized_ init_status_.
Arguments queue_ {S} o.
Arguments initialized_ {S} o.
Arguments init_status_ {S} o.

Section OsQueue.
Context {S T CB P : Type} `{OsalQueue S, !OsalQueueProbe S, !OsalQueueSignal S CB P}.

(** Whether [assert] is compiled out; [sizeof(T)]; the object representation
    of the values of the trivially copyable type [T]; and [QueueSize]. *)
Variable ndebug : bool.
Variable sizeof_T : Z.
Variable bytes_of : T -> list byte.
Variable of_bytes : list byte -> T.
Variable QueueSize : Z.

Definition is_ok (e : pos_error) : bool := bool_decide (e = POS_OK).

Definition with_queue (q : S) (o : OsQueue S) : OsQueue S :=
  mkOsQueue q (initialized_ o) (init_status_ o).

(** The constructor, on zeroed storage [mem]. *)
Definition OsQueue_new (mem : S) : outcome (OsQueue S) :=
  do '(init_status, q) <- osal_queue_init sizeof_T QueueSize mem;
  c_assert ndebug (is_ok init_status);;
  Ret (mkOsQueue q (is_ok init_status) init_status).

Definition OsQueue_destroy (o : OsQueue S) : outcome (OsQueue S) :=
  if negb (initialized_ o) then Ret o
  else
    do '(err, q) <- osal_queue_deinit (queue_ o);
    c_assert ndebug (is_ok err);;
    Ret (mkOsQueue q (if is_ok err then false else initialized_ o) (init_status_ o)).

(** The error, the new value of [item] if it is written, and the object. *)
Definition Pop (t : tid) (timeout : Z) (o : OsQueue S) : outcome (pos_error * option T * OsQueue S) :=
  if negb (initialized_ o) then Ret (POS_EINVAL, None, o)
  else
    do '(err, data, q) <- osal_queue_get t timeout (queue_ o);
    Ret (err, of_bytes <$> data, with_queue q o).

Definition Push (t : tid) (item : T) (o : OsQueue S) : outcome (pos_error * OsQueue S) :=
  if negb (initialized_ o) then Ret (POS_EINVAL, o)
  else
    let mutable_item := bytes_of item in
    do '(err, q) <- osal_queue_put t mutable_item (queue_ o);
    Ret (err, with_queue q o).

Definition IsEmpty (t : tid) (o : OsQueue S) : outcome (bool * OsQueue S) :=
  if negb (initialized_ o) then Ret (false, o)
  else
    do '(b, q) <- osal_queue_is_empty t (queue_ o);
    Ret (b, with_queue q o).

Definition Inited (o : OsQueue S) : bool :=
  initialized_ o && negb (osal_queue_inited (queue_ o) =? 0).

(** The argument of [signal_cb] may be null. *)
Definition SetSignalCallback (signal_cb : option CB) (data : option P) (o : OsQueue S) : OsQueue S :=
  if negb (initialized_ o) then o
  else with_queue (osal_queue_set_signal_cb signal_cb data (queue_ o)) o.

Definition GetNative (o : OsQueue S) : option S :=
  if initialized_ o then Some (queue_ o) else None.

(** * Executions *)

Inductive event :=
| EPush (t : tid) (item : T)
| EPop (t : tid) (timeout : Z)
| EIsEmpty (t : tid)
| ESetSignal (signal_cb : option CB) (data : option P).

Inductive result :=
| RPush (item : T) (e : pos_error)
| RPop (e : pos_error) (item : option T)
| RIsEmpty (b : bool)
| RSetSignal
| RWaits.

Definition or_waits (o : OsQueue S) (m : outcome (result * OsQueue S)) : outcome (result * OsQueue S) :=
  match m with Block => Ret (RWaits, o) | m => m end.

(** One call; one that waits leaves the state alone. *)
Definition queue_step (ev : event) (o : OsQueue S) : outcome (result * OsQueue S) :=
  or_waits o
    match ev with
    | EPush t item => do '(e, o) <- Push t item o; Ret (RPush item e, o)
    | EPop t timeout => do '(e, item, o) <- Pop t timeout o; Ret (RPop e item, o)
    | EIsEmpty t => do '(b, o) <- IsEmpty t o; Ret (RIsEmpty b, o)
    | ESetSignal cb data => Ret (RSetSignal, SetSignalCallback cb data o)
    end.

Fixpoint queue_run (evs : list event) (o : OsQueue S) : outcome (list result * OsQueue S) :=
  match evs with
  | [] => Ret ([], o)
  | ev :: evs =>
      do '(r, o) <- queue_step ev o;
      do '(rs, o) <- queue_run evs o;
      Ret (r :: rs, o)
  end.

(** The values pushed and popped by the calls that succeeded, in order. *)
Definition pushes (rs : list result) : list T :=
  omap (fun r => match r with RPush x POS_OK => Some x | _ => None end) rs.

Definition pops (rs : list result) : list T :=
  omap (fun r => match r with RPop POS_OK o => o | _ => None end) rs.

(** * The invariant *)

(** The object is initialised and its queue holds the values [l]. *)
Definition holds (l : list T) (o : OsQueue S) : Prop :=
  initialized_ o = true /\ queue_ok (queue_ o) /\
  queue_view (queue_ o) = Some (sizeof_T, QueueSize, bytes_of <$> l).

Hypothesis bytes_length : forall x, Z.of_nat (length (bytes_of x)) = sizeof_T.
Hypothesis of_bytes_of : forall x, of_bytes (bytes_of x) = x.
Context `{!OsalQueueLaws S, !OsalQueueProbeLaws S, !OsalQueueSignalLaws S CB P}.

Lemma take_bytes x : take (Z.to_nat sizeof_T) (bytes_of x) = bytes_of x.
Proof. apply take_ge. rewrite <- (bytes_length x). lia. Qed.

Lemma holds_bound l o : holds l o -> Z.of_nat (length l) <= QueueSize.
Proof.
  intros (_ & Hok & Hv). pose proof (queue_view_bound _ _ _ _ Hok Hv) as Hb.
  by rewrite length_fmap in Hb.
Qed.

Lemma Push_holds t x l o e o' :
  holds l o -> Push t x o = Ret (e, o') ->
  e = POS_OK /\ holds (l ++ [x]) o' \/ e <> POS_OK /\ holds l o'.
Proof.
  intros (Hi & Hok & Hv). unfold Push. rewrite Hi. simpl.
  intros ([err q] & E & [= <- <-])%obind_ret_inv.
  pose proof (queue_view_bound _ _ _ _ Hok Hv) as Hb.
  assert (sizeof_T <= Z.of_nat (length (bytes_of x))) as Hx by (rewrite bytes_length; lia).
  destruct (Z_lt_ge_dec (Z.of_nat (length (bytes_of <$> l))) QueueSize) as [Hlt|Hge].
  - left. destruct (queue_put_room t (bytes_of x) _ _ _ _ Hok Hv Hx Hlt) as (q' & E' & ? & Hv').
    rewrite E in E'. injection E' as -> ->. split; [done|]. split_and!; [done|done|].
    simpl. rewrite Hv', take_bytes, fmap_app. done.
  - right. destruct (queue_put_full t (bytes_of x) _ _ _ _ err q Hok Hv Hx) as (? & ? & Hv');
      [lia | done |]. split; [done|]. split_and!; [done|done|]. simpl. by rewrite Hv'.
Qed.

Lemma Pop_holds t timeout l o e item o' :
  holds l o -> Pop t timeout o = Ret (e, item, o') ->
  (exists x l', l = x :: l' /\ e = POS_OK /\ item = Some x /\ holds l' o') \/
  (l = [] /\ e <> POS_OK /\ item = None /\ holds l o').
Proof.
  intros (Hi & Hok & Hv). unfold Pop. rewrite Hi. simpl.
  intros ([[err data] q] & E & [= <- <- <-])%obind_ret_inv. destruct l as [|x l].
  - right. destruct (queue_get_none t timeout _ _ _ _ _ _ Hok Hv E) as (? & -> & ? & Hv').
    split_and!; try done. split_and!; [done|done|]. simpl. by rewrite Hv'.
  - left. destruct (queue_get_some t timeout _ _ _ _ _ Hok Hv) as (q' & E' & ? & Hv').
    rewrite E in E'. injection E' as -> -> ->. exists x, l. split_and!; try done.
    simpl. by rewrite of_bytes_of.
Qed.

Lemma IsEmpty_holds t l o :
  holds l o -> exists o', IsEmpty t o = Ret (bool_decide (l = []), o') /\ holds l o'.
Proof.
  intros (Hi & Hok & Hv). unfold IsEmpty. rewrite Hi. simpl.
  destruct (queue_is_empty_ok t _ _ _ _ Hok Hv) as (q & -> & ? & Hv'). simpl.
  exists (with_queue q o). split; [|split_and!; [done|done|by rewrite <- Hv]].
  do 2 f_equal. case_bool_decide; by destruct l.
Qed.

Lemma SetSignalCallback_holds cb data l o : holds l o -> holds l (SetSignalCallback cb data o).
Proof.
  intros (Hi & Hok & Hv). unfold SetSignalCallback. rewrite Hi. simpl.
  destruct (queue_set_signal_cb_ok cb data (queue_ o)) as [Hv' Hok'].
  split_and!; [done | by apply Hok' | simpl; by rewrite Hv'].
Qed.

Lemma queue_step_holds ev l o r o' :
  holds l o -> queue_step ev o = Ret (r, o') ->
  exists l', holds l' o' /\ l ++ pushes [r] = pops [r] ++ l'.
Proof.
  intros Hl. destruct ev as [t x|t timeout|t|cb data]; unfold queue_step.
  - destruct (Push t x o) as [[e o1]| | | |] eqn:E; simpl; try done.
    + intros [= <- <-]. destruct (Push_holds _ _ _ _ _ _ Hl E) as [[-> ?]|[Hne ?]].
      * by exists (l ++ [x]).
      * exists l. split; [done|]. destruct e; simpl; by rewrite ?app_nil_r.
    + intros [= <- <-]. exists l. split; [done|]. apply app_nil_r.
  - destruct (Pop t timeout o) as [[[e item] o1]| | | |] eqn:E; simpl; try done.
    + intros [= <- <-].
      destruct (Pop_holds _ _ _ _ _ _ _ Hl E) as [(x & l' & -> & -> & -> & ?)|(-> & ? & -> & ?)].
      * exists l'. split; [done|]. simpl. by rewrite app_nil_r.
      * exists []. split; [done|]. by destruct e.
    + intros [= <- <-]. exists l. split; [done|]. apply app_nil_r.
  - destruct (IsEmpty_holds t l o Hl) as (o1 & -> & ?). simpl. intros [= <- <-].
    exists l. split; [done|]. apply app_nil_r.
  - intros [= <- <-]. exists l. split; [by apply SetSignalCallback_holds|]. apply app_nil_r.
Qed.

Lemma queue_run_holds evs l o rs o' :
  holds l o -> queue_run evs o = Ret (rs, o') ->
  exists l', holds l' o' /\ l ++ pushes rs = pops rs ++ l'.
Proof.
  revert l o rs. induction evs as [|ev evs IH]; simpl; intros l o rs Hl.
  - intros [= <- <-]. exists l. split; [done|]. apply app_nil_r.
  - intros ([r o1] & E & ([rs' o2] & E' & [= <- <-])%obind_ret_inv)%obind_ret_inv.
    destruct (queue_step_holds _ _ _ _ _ Hl E) as (l1 & Hl1 & Hr).
    destruct (IH _ _ _ Hl1 E') as (l2 & Hl2 & Hrs).
    exists l2. split; [done|].
    change (pushes (r :: rs')) with (pushes ([r] ++ rs')).
    change (pops (r :: rs')) with (pops ([r] ++ rs')).
    unfold pushes, pops in *. rewrite !omap_app, app_assoc, Hr, <- !app_assoc. by rewrite Hrs.
Qed.

Lemma OsQueue_new_holds mem o :
  is_u16 sizeof_T -> is_u16 QueueSize -> ndebug = false ->
  OsQueue_new mem = Ret o -> holds [] o.
Proof.
  intros Hs Hn Hnd. unfold OsQueue_new. rewrite Hnd.
  intros ([e q] & E & (u & Ha & [= <-])%obind_ret_inv)%obind_ret_inv.
  apply c_assert_enabled_inv in Ha. rewrite Ha.
  assert (e = POS_OK) as -> by (by apply bool_decide_eq_true in Ha).
  destruct (queue_init_ok _ _ _ _ Hs Hn E) as [? ?]. done.
Qed.

(** An object whose initialisation failed (with assertions compiled out)
    refuses every call with POS_EINVAL, is never initialised or empty, and its
    destructor leaves the native queue alone. *)
Lemma os_queue_uninitialised mem e q :
  osal_queue_init sizeof_T QueueSize mem = Ret (e, q) -> e <> POS_OK ->
  c_assert ndebug false = Ret tt ->
  exists o, OsQueue_new mem = Ret o /\ queue_ o = q /\
    (forall t x, Push t x o = Ret (POS_EINVAL, o)) /\
    (forall t tmo, Pop t tmo o = Ret (POS_EINVAL, None, o)) /\
    (forall t, IsEmpty t o = Ret (false, o)) /\
    Inited o = false /\ GetNative o = None /\ OsQueue_destroy o = Ret o.
Proof.
  intros E He Ha. exists (mkOsQueue q false e). unfold OsQueue_new, is_ok. rewrite E. simpl.
  rewrite bool_decide_eq_false_2 by done. rewrite Ha. done.
Qed.

(** * Properties *)

(** C12. The typed queue over any port with the queue laws of [OsalApi]: after
    any sequence of pushes, pops, tests and changes of callback by any tasks, the values popped are,
    in order and as they were, the first of the values pushed, and the others
    are in the queue, at most [QueueSize] of them. *)
Theorem os_queue_fifo mem evs o rs o' :
  is_u16 sizeof_T -> is_u16 QueueSize -> ndebug = false ->
  OsQueue_new mem = Ret o -> queue_run evs o = Ret (rs, o') ->
  exists l, pushes rs = pops rs ++ l /\ holds l o' /\ Z.of_nat (length l) <= QueueSize.
Proof.
  intros Hs Hn Hnd Hnew Hrun.
  destruct (queue_run_holds _ _ _ _ _ (OsQueue_new_holds _ _ Hs Hn Hnd Hnew) Hrun) as (l & Hl & E).
  exists l. split_and!; [done | done | by apply (holds_bound l o')].
Qed.

(** The life of an object that holds values, on a port whose [pos_queue_inited]
    answers a truth value, as all do and os_queue.h does not say: it reports itself initialised
    and hands out its native queue; the destructor frees the native queue once,
    after which a second one is a no-op. *)
Theorem os_queue_destroy_spec l o :
  (forall q, inited_boolean q) -> holds l o ->
  Inited o = true /\ GetNative o = Some (queue_ o) /\
  exists o', OsQueue_destroy o = Ret o' /\ queue_view (queue_ o') = None /\
    GetNative o' = None /\ Inited o' = false /\ OsQueue_destroy o' = Ret o'.
Proof.
  intros Hb (Hi & Hok & Hv). unfold Inited, GetNative, OsQueue_destroy. rewrite Hi. split_and!.
  - simpl. by rewrite (Hb (queue_ o)), Hv.
  - done.
  - destruct (queue_deinit_ok _ Hok) as (q & -> & _ & Hd). simpl. rewrite c_assert_true. simpl.
    by eexists.
Qed.
End OsQueue.

(** * Witnesses over the POSIX port *)

From S2P Require Import OsRing RingPthread PosixQueue.

Section Witness.
#[local] Existing Instance linux_errno.
#[local] Instance witness_queue : OsalQueue (pos_queue ref_mutex unit unit) :=
  posix_osal_queue false demo_alloc demo_invoke.
#[local] Existing Instance posix_osal_queue_probe.
#[local] Existing Instance posix_osal_queue_signal.
#[local] Instance witness_queue_probe_laws : OsalQueueProbeLaws (pos_queue ref_mutex unit unit) :=
  posix_queue_probe_laws false demo_alloc demo_invoke.
#[local] Instance witness_queue_signal_laws : OsalQueueSignalLaws (pos_queue ref_mutex unit unit) unit unit :=
  posix_queue_signal_laws false demo_alloc demo_invoke.
#[local] Instance witness_queue_laws : OsalQueueLaws (pos_queue ref_mutex unit unit).
Proof. exact (posix_queue_osal_laws false demo_alloc demo_invoke eq_refl demo_benign). Defined.

(** Pairs of bytes, two at a time. *)
Definition pair_bytes (x : byte * byte) : list byte := [x.1; x.2].
Definition bytes_pair (l : list byte) : byte * byte :=
  match l with [a; b] => (a, b) | _ => (x00, x00) end.

Definition witness_mem : pos_queue ref_mutex unit unit := mkPosQueue None None None.
Definition witness_object (buffer : list byte) (r w : Z) : OsQueue (pos_queue ref_mutex unit unit) :=
  mkOsQueue (mkPosQueue (Some (mkRingPthread (mkOsRing buffer 2 2 r w) None)) None None) true POS_OK.

Example os_queue_fifo_witness :
  let evs : list (@event _ unit unit) :=
    [EPush 1%nat (x01, x02); ESetSignal None (Some tt); EPop 2%nat 0; EPop 2%nat 9;
     EPush 3%nat (x03, x04)] in
  let o := witness_object [x00; x00; x00; x00] 0 0 in
  let ring := mkOsRing [x01; x02; x03; x04] 2 2 1 2 in
  let o' := mkOsQueue (mkPosQueue (Some (mkRingPthread ring None)) None (Some tt)) true POS_OK in
  let rs := [RPush (x01, x02) POS_OK; RSetSignal; RPop POS_OK (Some (x01, x02)); RWaits; RPush (x03, x04) POS_OK] in
  OsQueue_new false 2 2 witness_mem = Ret o /\
  exists l, pushes rs = pops rs ++ l /\ holds 2 pair_bytes 2 l o' /\ Z.of_nat (length l) <= 2.
Proof.
  intros evs o ring o' rs. split; [reflexivity|].
  apply (os_queue_fifo false 2 pair_bytes bytes_pair 2 (fun x => eq_refl) (fun '(a, b) => eq_refl)
           witness_mem evs o rs o'); try reflexivity; vm_compute; intuition congruence.
Defined.

Example os_queue_destroy_spec_witness :
  exists o', OsQueue_destroy false (witness_object [x01; x02; x00; x00] 0 1) = Ret o' /\
    queue_view (queue_ o') = None /\ GetNative o' = None /\ Inited o' = false /\
    OsQueue_destroy false o' = Ret o'.
Proof.
  refine (proj2 (proj2 (os_queue_destroy_spec false 2 pair_bytes 2 [(x01, x02)]
    (witness_object [x01; x02; x00; x00] 0 1) (posix_inited_boolean false demo_alloc demo_invoke) _))).
  split; [reflexivity|]. split; [|reflexivity].
  exact (demo_queue_ok None [x01; x02; x00; x00] 1 eq_refl ltac:(lia)).
Defined.
End Witness.
