(* ===== verification/PosixQueueThreads.v ===== *)
(** targets/posix/os_queue.cc, statement by statement, over the statements of
    the ring it allocates (RingPthread): the signal callback, which is read
    twice after the ring's lock is free again, [pos_queue_set_signal_cb], which
    writes the callback and its argument one after the other, and
    [pos_queue_deinit], which deletes the ring under whoever uses it. Together
    with OsQueue, the typed queue of the C++ class shared by threads. *)

From S2P Require Import Prelude OsTypes Pthread OsalApi OsRing RingPthread RingSteps PosixQueue OsQueue.

(** Where a thread is inside a function of os_queue.cc and outside the ring,
    named after the statement it runs next. *)
Inductive qposition (CB P : Type) :=
| PutTest                                        (* if (msgq->sig_cb) *)
| PutInvoke                                      (* msgq->sig_cb(msgq->sig_arg) *)
| SetCb (signal_cb : option CB) (data : option P)  (* msgq->sig_cb = signal_cb *)
| SetArg (data : option P)                       (* msgq->sig_arg = data *)
| DeinitTest                                     (* if (msgq && msgq->q) *)
| DeinitDelete                                   (* delete msgq->q *)
| DeinitClear.                                   (* msgq->q = nullptr *)
Arguments PutTest {CB P}.
Arguments PutInvoke {CB P}.
Arguments SetCb {CB P} signal_cb data.
Arguments SetArg {CB P} data.
Arguments DeinitTest {CB P}.
Arguments DeinitDelete {CB P}.
Arguments DeinitClear {CB P}.

(** The ring and the threads in its methods; whether [msgq->q] points to it and
    whether it has been deleted; the callback and its argument; the threads in
    the functions around the ring; and, for the statements below, the
    calls of the callback in order and the number of puts that found none. *)
Record qconfig (M CB P : Type) := mkQConfig {
  qring : config M;
  q_set : bool;
  alive : bool;
  qsig_cb : option CB;
  qsig_arg : option P;
  outer : gmap tid (qposition CB P);
  signals : list (CB * option P);
  unsignalled : nat
}.
Arguments mkQConfig {M CB P} qring q_set alive qsig_cb qsig_arg outer signals unsignalled.
Arguments qring {M CB P} q.
Arguments q_set {M CB P} q.
Arguments alive {M CB P} q.
Arguments qsig_cb {M CB P} q.
Arguments qsig_arg {M CB P} q.
Arguments outer {M CB P} q.
Arguments signals {M CB P} q.
Arguments unsignalled {M CB P} q.

(** A thread enters a function or runs its next statement. What the callback
    itself calls comes as further moves of the thread that runs it. *)
Inductive qmove (CB P : Type) :=
| QCall (t : tid) (cl : call)           (* put, get and is_empty enter the ring *)
| QSet (t : tid) (signal_cb : option CB) (data : option P)
| QDeinit (t : tid)
| QRun (t : tid) (ws : list tid)
| QSpurious (t : tid).
Arguments QCall {CB P} t cl.
Arguments QSet {CB P} t signal_cb data.
Arguments QDeinit {CB P} t.
Arguments QRun {CB P} t ws.
Arguments QSpurious {CB P} t.

Section PosixQueueThreads.
Context {M CB P : Type} `{Errno, PthreadMutex M}.

(** Whether [assert] is compiled out. *)
Variable ndebug : bool.

Abbreviation qcfg := (qconfig M CB P).

Definition with_ring (r : config M) (c : qcfg) : qcfg :=
  mkQConfig r (q_set c) (alive c) (qsig_cb c) (qsig_arg c) (outer c) (signals c) (unsignalled c).

Definition with_outer (th : gmap tid (qposition CB P)) (c : qcfg) : qcfg :=
  mkQConfig (qring c) (q_set c) (alive c) (qsig_cb c) (qsig_arg c) th (signals c) (unsignalled c).

Definition with_alive (set live : bool) (c : qcfg) : qcfg :=
  mkQConfig (qring c) set live (qsig_cb c) (qsig_arg c) (outer c) (signals c) (unsignalled c).

Definition with_callback (cb : option CB) (arg : option P) (c : qcfg) : qcfg :=
  mkQConfig (qring c) (q_set c) (alive c) cb arg (outer c) (signals c) (unsignalled c).

Definition with_signals (l : list (CB * option P)) (n : nat) (c : qcfg) : qcfg :=
  mkQConfig (qring c) (q_set c) (alive c) (qsig_cb c) (qsig_arg c) (outer c) l n.

Definition at_ (t : tid) (p : qposition CB P) (c : qcfg) : qcfg := with_outer (<[t := p]> (outer c)) c.
Definition leave (t : tid) (c : qcfg) : qcfg := with_outer (delete t (outer c)) c.

(** The thread is in no function of the queue. *)
Definition outside (t : tid) (c : qcfg) : bool :=
  match threads (qring c) !! t, outer c !! t with None, None => true | _, _ => false end.

(** [~RingPthread] destroys the mutex and the condition variable: "attempting
    to destroy a locked mutex results in undefined behavior", and so does
    destroying a condition variable on which threads are blocked. *)
Definition destroyable (c : qcfg) : bool :=
  alive c &&
  match holder (_mutex (qring c)) with None => true | Some _ => false end &&
  negb (someone_waits (threads (qring c))).

(** The next statement of thread [t] at [p]. A null callback that is called,
    and a second [delete], have no defined behaviour. *)
Definition run_outer (t : tid) (p : qposition CB P) (c : qcfg) : outcome qcfg :=
  match p with
  | PutTest =>
      match qsig_cb c with
      | Some _ => Ret (at_ t PutInvoke c)
      | None => Ret (with_signals (signals c) (S (unsignalled c)) (leave t c))
      end
  | PutInvoke =>
      do cb <- deref (qsig_cb c);
      Ret (with_signals (signals c ++ [(cb, qsig_arg c)]) (unsignalled c) (leave t c))
  | SetCb cb data => Ret (at_ t (SetArg data) (with_callback cb (qsig_arg c) c))
  | SetArg data => Ret (leave t (with_callback (qsig_cb c) data c))
  | DeinitTest => Ret (if q_set c then at_ t DeinitDelete c else leave t c)
  | DeinitDelete =>
      if q_set c then
        if destroyable c then Ret (at_ t DeinitClear (with_alive (q_set c) false c)) else Undef
      else Ret (at_ t DeinitClear c)
  | DeinitClear => Ret (leave t (with_alive false (alive c) c))
  end.

(** What follows a statement of the ring: after the unlock of a put, the test
    of the callback. *)
Definition after_ring (t : tid) (p : position) (r : config M) (c : qcfg) : qcfg :=
  match p with
  | PutUnlock => at_ t PutTest (with_ring r c)
  | _ => with_ring r c
  end.

(** A method of a deleted ring has no defined behaviour. *)
Definition run_ring (t : tid) (ws : list tid) (p : position) (c : qcfg) : option (outcome qcfg) :=
  if alive c then
    match run_thread ndebug t ws p (qring c) with
    | Some o => Some (do r <- o; Ret (after_ring t p r c))
    | None => None
    end
  else Some Undef.

(** [None]: the move is not possible now. *)
Definition qexec (mv : qmove CB P) (c : qcfg) : option (outcome qcfg) :=
  match mv with
  | QCall t cl =>
      if outside t c then
        Some (if q_set c then Ret (with_ring (set_thread t (enter cl) (qring c)) c) else Undef)
      else None
  | QSet t cb data => if outside t c then Some (Ret (at_ t (SetCb cb data) c)) else None
  | QDeinit t => if outside t c then Some (Ret (at_ t DeinitTest c)) else None
  | QRun t ws =>
      match threads (qring c) !! t, outer c !! t with
      | Some p, _ => run_ring t ws p c
      | None, Some p => Some (run_outer t p c)
      | None, None => None
      end
  | QSpurious t =>
      match threads (qring c) !! t with
      | Some GetWaiting => Some (Ret (with_ring (set_thread t GetWoken (qring c)) c))
      | _ => None
      end
  end.

Fixpoint qexec_all (mvs : list (qmove CB P)) (c : qcfg) : option (outcome qcfg) :=
  match mvs with
  | [] => Some (Ret c)
  | mv :: mvs =>
      match qexec mv c with
      | Some (Ret c') => qexec_all mvs c'
      | r => r
      end
  end.

(** An initialised queue with a callback. *)
Definition qinit (r0 : OsRing) (m0 : M) (cb : option CB) (arg : option P) : qcfg :=
  mkQConfig (mkConfig r0 m0 ∅ [] []) true true cb arg ∅ [] 0.

(** The object a put passes is as large as an item. *)
Definition qmove_ok (itemSize : Z) (mv : qmove CB P) : Prop :=
  match mv with QCall t cl => move_ok itemSize (Call t cl) | _ => True end.

(** What is reached by moves of a kind. *)
Inductive qreachable (allowed : qmove CB P -> Prop) (c0 : qcfg) : qcfg -> Prop :=
| qreach_init : qreachable allowed c0 c0
| qreach_step c mv c' :
    qreachable allowed c0 c -> allowed mv -> qexec mv c = Some (Ret c') ->
    qreachable allowed c0 c'.

Lemma qexec_all_reachable allowed c0 mvs c c' :
  qreachable allowed c0 c -> Forall allowed mvs -> qexec_all mvs c = Some (Ret c') ->
  qreachable allowed c0 c'.
Proof.
  intros Hc Hok. revert c Hc. induction Hok as [|mv mvs Hmv _ IH]; simpl; intros c Hc.
  - by intros [= <-].
  - destruct (qexec mv c) as [[c1| | | |]|] eqn:E; try done.
    apply IH. by apply (qreach_step _ _ c mv c1).
Qed.

Lemma qreachable_mono (allowed1 allowed2 : qmove CB P -> Prop) c0 c :
  (forall mv, allowed1 mv -> allowed2 mv) ->
  qreachable allowed1 c0 c -> qreachable allowed2 c0 c.
Proof. intros Ha. induction 1; [constructor | eapply qreach_step; eauto]. Qed.

(** An invariant of the moves of a kind. *)
Lemma qreachable_ind' (allowed : qmove CB P -> Prop) (I : qcfg -> Prop) c0 c :
  I c0 ->
  (forall c mv c', qreachable allowed c0 c -> I c -> allowed mv ->
     qexec mv c = Some (Ret c') -> I c') ->
  qreachable allowed c0 c -> I c.
Proof. intros Hi Hs. induction 1; eauto. Qed.

(** * Steps of the ring, steps outside it *)

(** What a step does: it enters the ring, runs a statement of it, or leaves the
    ring alone. *)
Inductive step_view (mv : qmove CB P) (c c' : qcfg) : Prop :=
| VCall t cl : mv = QCall t cl -> outside t c = true -> q_set c = true ->
    c' = with_ring (set_thread t (enter cl) (qring c)) c -> step_view mv c c'
| VEnter t p : mv = (match p with SetCb cb data => QSet t cb data | _ => QDeinit t end) ->
    outside t c = true -> (p = DeinitTest \/ exists cb data, p = SetCb cb data) ->
    c' = at_ t p c -> step_view mv c c'
| VRing t ws p r : mv = QRun t ws -> threads (qring c) !! t = Some p -> alive c = true ->
    run_thread ndebug t ws p (qring c) = Some (Ret r) -> c' = after_ring t p r c ->
    step_view mv c c'
| VOuter t ws p : mv = QRun t ws -> threads (qring c) !! t = None -> outer c !! t = Some p ->
    run_outer t p c = Ret c' -> step_view mv c c'
| VSpurious t : mv = QSpurious t -> threads (qring c) !! t = Some GetWaiting ->
    c' = with_ring (set_thread t GetWoken (qring c)) c -> step_view mv c c'.

Lemma qexec_view mv c c' : qexec mv c = Some (Ret c') -> step_view mv c c'.
Proof.
  destruct mv as [t cl|t cb data|t|t ws|t]; simpl.
  - destruct (outside t c) eqn:Ho; [|done]. destruct (q_set c) eqn:Hq; [|done].
    intros [= <-]. by eapply VCall.
  - destruct (outside t c) eqn:Ho; [|done]. intros [= <-].
    eapply (VEnter _ _ _ t (SetCb cb data)); eauto.
  - destruct (outside t c) eqn:Ho; [|done]. intros [= <-].
    eapply (VEnter _ _ _ t DeinitTest); eauto.
  - destruct (threads (qring c) !! t) as [p|] eqn:Ht.
    + unfold run_ring. destruct (alive c) eqn:Ha; [|done].
      destruct (run_thread ndebug t ws p (qring c)) as [[r| | | |]|] eqn:E; simpl; try done.
      intros [= <-]. by eapply VRing.
    + destruct (outer c !! t) as [p|] eqn:Hp; [|done]. intros [= E]. by eapply VOuter.
  - destruct (threads (qring c) !! t) as [[]|] eqn:Ht; try done. intros [= <-]. by eapply VSpurious.
Qed.

Lemma outside_spec t c :
  outside t c = true <-> threads (qring c) !! t = None /\ outer c !! t = None.
Proof.
  unfold outside. destruct (threads (qring c) !! t), (outer c !! t); split; try done; by intros [].
Qed.

(** The statements outside the ring leave it alone. *)
Lemma run_outer_ring t p c c' : run_outer t p c = Ret c' -> qring c' = qring c.
Proof.
  destruct p; simpl.
  - destruct (qsig_cb c); by intros [= <-].
  - destruct (qsig_cb c); simpl; [by intros [= <-] | done].
  - by intros [= <-].
  - by intros [= <-].
  - intros [= <-]. by destruct (q_set c).
  - destruct (q_set c); [destruct (destroyable c)|]; try done; by intros [= <-].
  - by intros [= <-].
Qed.

Lemma qring_after t p r c : qring (after_ring t p r c) = r.
Proof. by destruct p. Qed.

(** So a run of the queue is, for the ring, a run of the ring. *)
Lemma qreachable_ring (allowed : qmove CB P -> Prop) r0 m0 cb arg c :
  (forall mv, allowed mv -> qmove_ok (_itemSize r0) mv) ->
  qreachable allowed (qinit r0 m0 cb arg) c -> reachable ndebug r0 m0 (qring c).
Proof.
  intros Ha. apply (qreachable_ind' allowed (fun c => reachable ndebug r0 m0 (qring c)));
    [constructor|]. clear c. intros c mv c' _ Hr Hmv E.
  apply Ha in Hmv.
  destruct (qexec_view _ _ _ E) as [t cl -> [Ht _]%outside_spec _ -> | t p -> _ _ ->
    | t ws p r -> Ht _ Er -> | t ws p -> _ _ Er | t -> Ht ->].
  - apply (reach_step _ _ _ (qring c) (Call t cl)); [done..|]. by apply exec_call.
  - done.
  - rewrite qring_after. apply (reach_step _ _ _ (qring c) (Run t ws)); [done..|].
    by rewrite (exec_run _ t ws p).
  - by rewrite (run_outer_ring _ _ _ _ Er).
  - apply (reach_step _ _ _ (qring c) (Spurious t)); [done..|]. simpl. by rewrite Ht.
Qed.

(** * The messages put and the calls of the callback *)

(** The thread has put its message and not yet looked at the callback, or is
    about to call it. *)
Definition put_in_ring (p : position) : nat :=
  match p with PutSignal | PutUnlock => 1 | _ => 0 end.
Definition put_outside (p : qposition CB P) : nat :=
  match p with PutTest | PutInvoke => 1 | _ => 0 end.

Definition puts_pending (c : qcfg) : nat :=
  (msum put_in_ring (threads (qring c)) + msum put_outside (outer c))%nat.

(** What a statement of the ring does to the count. *)
Lemma run_thread_count t ws p r r' :
  threads r !! t = Some p -> run_thread ndebug t ws p r = Some (Ret r') ->
  (length (pushed r') + msum put_in_ring (threads r) =
   length (pushed r) + msum put_in_ring (threads r') +
   match p with PutUnlock => 1 | _ => 0 end)%nat.
Proof.
  intros Ht E. pose proof (run_thread_not_waiting _ _ _ _ _ _ E) as Hw.
  apply run_thread_shape in E as [-> Hs]. rewrite length_app.
  destruct (leaves p) eqn:Hl.
  - rewrite Hs, (msum_delete put_in_ring t (threads r)), Ht. destruct p; simpl in *; try done; lia.
  - destruct Hs as (q & ws' & -> & Hq & _).
    pose proof (msum_insert put_in_ring t q (wake ws' (threads r))) as Hm.
    rewrite msum_wake, (wake_at t p) in Hm by done. simpl in Hm.
    destruct p, q; simpl in *; try done; lia.
Qed.

(** A thread is in the ring or around it, never in both. *)
Definition apart (c : qcfg) : Prop :=
  forall t p, threads (qring c) !! t = Some p -> outer c !! t = None.

Definition accounted (c : qcfg) : Prop :=
  length (pushed (qring c)) = (length (signals c) + unsignalled c + puts_pending c)%nat.

Lemma apart_step mv c c' : apart c -> qexec mv c = Some (Ret c') -> apart c'.
Proof.
  intros Hi E t' p' Hp'. destruct (qexec_view _ _ _ E) as [t cl -> [Ht Ho]%outside_spec _ ->
    | t p -> [Ht Ho]%outside_spec _ -> | t ws p r -> Ht _ Er -> | t ws p -> Ht Ho Er | t -> Ht ->].
  - simpl in *. apply lookup_insert_Some in Hp' as [[<- _]|[_ Hp']]; [done | by apply (Hi t' p')].
  - simpl in *. rewrite lookup_insert_ne; [by apply (Hi t' p') | congruence].
  - rewrite qring_after in Hp'. destruct (run_thread_dom _ _ _ _ _ _ _ _ Ht Er Hp') as [[q Hq] Hl].
    specialize (Hi t' q Hq). destruct p; simpl in *; try done.
    rewrite lookup_insert_ne; [done|]. intros ->. by apply Hl.
  - rewrite (run_outer_ring _ _ _ _ Er) in Hp'. specialize (Hi t' p' Hp').
    assert (t <> t') as Hne by congruence.
    destruct p; simpl in Er;
      repeat match type of Er with
      | context [match ?x with _ => _ end] => destruct x
      | obind ?m _ = _ => destruct (qsig_cb c); simpl in Er
      end; try done; injection Er as <-; simpl; by rewrite ?lookup_insert_ne, ?lookup_delete_ne.
  - simpl in *. apply lookup_insert_Some in Hp' as [[<- _]|[_ Hp']];
      [by apply (Hi t GetWaiting) | by apply (Hi t' p')].
Qed.

Lemma outer_insert t p (th : gmap tid (qposition CB P)) :
  (msum put_outside (<[t := p]> th) + mweight put_outside (th !! t) =
   msum put_outside th + put_outside p)%nat.
Proof. exact (msum_insert put_outside t p th). Qed.

Lemma outer_delete t (th : gmap tid (qposition CB P)) :
  msum put_outside th = (mweight put_outside (th !! t) + msum put_outside (delete t th))%nat.
Proof. exact (msum_delete put_outside t th). Qed.

(** Every put that has pushed its message looks at the callback once. *)
Lemma run_outer_accounted t p c c' :
  accounted c -> outer c !! t = Some p -> run_outer t p c = Ret c' -> accounted c'.
Proof.
  unfold accounted, puts_pending. intros Ha Ht Er.
  rewrite (run_outer_ring _ _ _ _ Er), Ha. clear Ha.
  pose proof (outer_delete t (outer c)) as Hd. rewrite Ht in Hd.
  assert (forall q, (msum put_outside (<[t := q]> (outer c)) + put_outside p =
                     msum put_outside (outer c) + put_outside q)%nat) as Hi.
  { intros q. pose proof (outer_insert t q (outer c)) as Hi. by rewrite Ht in Hi. }
  destruct p; simpl in Er, Hd, Hi.
  - specialize (Hi PutInvoke). destruct (qsig_cb c); injection Er as <-; simpl in *; lia.
  - destruct (qsig_cb c); simpl in Er; [|done]. injection Er as <-. simpl.
    rewrite length_app. simpl. lia.
  - specialize (Hi (SetArg data)). injection Er as <-. simpl in *. lia.
  - injection Er as <-. simpl in *. lia.
  - specialize (Hi DeinitDelete). destruct (q_set c); injection Er as <-; simpl in *; lia.
  - specialize (Hi DeinitClear).
    destruct (q_set c); [destruct (destroyable c); [|done]|]; injection Er as <-; simpl in *; lia.
  - injection Er as <-. simpl in *. lia.
Qed.

Lemma accounted_step mv c c' :
  apart c -> accounted c -> qexec mv c = Some (Ret c') -> accounted c'.
Proof.
  intros Hap Ha E. destruct (qexec_view _ _ _ E) as [t cl -> [Ht _]%outside_spec _ ->
    | t p -> [_ Ho]%outside_spec Hp -> | t ws p r -> Ht _ Er -> | t ws p -> _ Ho Er | t -> Ht ->].
  - unfold accounted, puts_pending in *. simpl. rewrite Ha, msum_insert_None by done.
    by destruct cl.
  - unfold accounted, puts_pending in *. simpl. rewrite Ha, (msum_insert_None _ t p) by done.
    by destruct Hp as [-> | (? & ? & ->)].
  - pose proof (run_thread_count _ _ _ _ _ Ht Er) as Hc. pose proof (Hap _ _ Ht) as Ho.
    unfold accounted, puts_pending in *. rewrite qring_after.
    destruct p; simpl in *; try lia. rewrite msum_insert_None by done. simpl. lia.
  - by eapply run_outer_accounted.
  - unfold accounted, puts_pending in *. simpl. rewrite Ha.
    pose proof (msum_insert put_in_ring t GetWoken (threads (qring c))) as Hm.
    rewrite Ht in Hm. simpl in Hm. lia.
Qed.

Lemma qreachable_accounted allowed r0 m0 cb arg c :
  qreachable allowed (qinit r0 m0 cb arg) c -> apart c /\ accounted c.
Proof.
  apply (qreachable_ind' allowed (fun c => apart c /\ accounted c)).
  - split; [done|]. unfold accounted, puts_pending. simpl. by rewrite !msum_empty.
  - intros c1 mv c2 _ [Hap Ha] _ E. split; [by eapply apart_step | by eapply accounted_step].
Qed.

(** ** A callback that stays *)

(** Nobody is changing the callback. *)
Definition not_setting (mv : qmove CB P) : Prop :=
  match mv with QSet _ _ _ => False | _ => True end.

Definition setting (p : qposition CB P) : bool :=
  match p with SetCb _ _ | SetArg _ => true | _ => false end.

Record registered (cb : CB) (arg : option P) (c : qcfg) : Prop := {
  reg_cb : qsig_cb c = Some cb;
  reg_arg : qsig_arg c = arg;
  reg_outer : forall t p, outer c !! t = Some p -> setting p = false;
  reg_signals : signals c = replicate (length (signals c)) (cb, arg);
  reg_all : unsignalled c = 0%nat
}.

Lemma setting_insert t q (th : gmap tid (qposition CB P)) :
  (forall t' p, th !! t' = Some p -> setting p = false) -> setting q = false ->
  forall t' p, <[t := q]> th !! t' = Some p -> setting p = false.
Proof. intros Hth Hq t' p [[_ <-]|[_ Hp]]%lookup_insert_Some; [done | by apply (Hth t')]. Qed.

Lemma setting_delete t (th : gmap tid (qposition CB P)) :
  (forall t' p, th !! t' = Some p -> setting p = false) ->
  forall t' p, delete t th !! t' = Some p -> setting p = false.
Proof. intros Hth t' p [_ Hp]%lookup_delete_Some. by apply (Hth t'). Qed.

Lemma registered_step cb arg mv c c' :
  registered cb arg c -> not_setting mv -> qexec mv c = Some (Ret c') -> registered cb arg c'.
Proof.
  intros [Hcb Harg Hout Hsig Hall] Hmv E.
  destruct (qexec_view _ _ _ E) as [t cl -> _ _ -> | t p -> _ [->|(? & ? & ->)] ->
    | t ws p r -> Ht _ Er -> | t ws p -> _ Ho Er | t -> Ht ->]; try done.
  - split; simpl; try done. by apply setting_insert.
  - destruct p; split; simpl; try done; by apply setting_insert.
  - specialize (Hout t p Ho) as Hset. destruct p; simpl in Er; try done.
    + rewrite Hcb in Er. injection Er as <-. split; simpl; try done. by apply setting_insert.
    + rewrite Hcb in Er. injection Er as <-. split; simpl; try done; [by apply setting_delete|].
      rewrite length_app, replicate_add, <- Hsig. simpl. by rewrite Harg.
    + injection Er as <-. destruct (q_set c); split; simpl; try done;
        [by apply setting_insert | by apply setting_delete].
    + destruct (q_set c); [destruct (destroyable c); [|done]|]; injection Er as <-;
        split; simpl; try done; by apply setting_insert.
    + injection Er as <-. split; simpl; try done. by apply setting_delete.
Qed.

Lemma qreachable_registered allowed r0 m0 cb arg c :
  (forall mv, allowed mv -> not_setting mv) ->
  qreachable allowed (qinit r0 m0 (Some cb) arg) c -> registered cb arg c.
Proof.
  intros Ha. apply (qreachable_ind' allowed (registered cb arg)).
  - by split.
  - intros c1 mv c2 _ Hr Hmv E. apply (registered_step cb arg mv c1); auto.
Qed.

(** ** A callback that changes *)

(** Nobody removes the callback. *)
Definition not_removing (mv : qmove CB P) : Prop :=
  match mv with QSet _ None _ => False | _ => True end.

Definition removing (p : qposition CB P) : bool :=
  match p with SetCb None _ => true | _ => false end.

(** There is a callback and it stays one. *)
Definition callable (c : qcfg) : Prop :=
  is_Some (qsig_cb c) /\ forall t p, outer c !! t = Some p -> removing p = false.

Lemma removing_insert t q (th : gmap tid (qposition CB P)) :
  (forall t' p, th !! t' = Some p -> removing p = false) -> removing q = false ->
  forall t' p, <[t := q]> th !! t' = Some p -> removing p = false.
Proof. intros Hth Hq t' p [[_ <-]|[_ Hp]]%lookup_insert_Some; [done | by apply (Hth t')]. Qed.

Lemma removing_delete t (th : gmap tid (qposition CB P)) :
  (forall t' p, th !! t' = Some p -> removing p = false) ->
  forall t' p, delete t th !! t' = Some p -> removing p = false.
Proof. intros Hth t' p [_ Hp]%lookup_delete_Some. by apply (Hth t'). Qed.

Lemma callable_step mv c c' :
  callable c -> not_removing mv -> qexec mv c = Some (Ret c') -> callable c'.
Proof.
  intros [Hcb Hout] Hmv E.
  assert (forall t q, removing q = false -> forall t' p, <[t := q]> (outer c) !! t' = Some p ->
          removing p = false) as Hins by (intros t q; by apply removing_insert).
  assert (forall t t' p, delete t (outer c) !! t' = Some p -> removing p = false) as Hdel
    by (intros t; by apply removing_delete).
  destruct (qexec_view _ _ _ E) as [t cl -> _ _ -> | t p -> _ Hp ->
    | t ws p r -> Ht _ Er -> | t ws p -> _ Ho Er | t -> Ht ->]; try done.
  - split; [done|]. apply Hins. by destruct Hp as [-> | ([] & ? & ->)].
  - destruct p; split; simpl; try done; by apply Hins.
  - specialize (Hout t p Ho) as Hset. pose proof Hcb as [cb Heq]. destruct p; simpl in Er.
    + rewrite Heq in Er. injection Er as <-. split; [exact Hcb | by apply Hins].
    + rewrite Heq in Er. injection Er as <-. split; [exact Hcb | apply Hdel].
    + injection Er as <-. destruct signal_cb; [|done]. split; [done | by apply Hins].
    + injection Er as <-. split; [exact Hcb | apply Hdel].
    + injection Er as <-. destruct (q_set c); (split; [exact Hcb|]); [by apply Hins | apply Hdel].
    + destruct (q_set c); [destruct (destroyable c); [|done]|]; injection Er as <-;
        (split; [exact Hcb | by apply Hins]).
    + injection Er as <-. split; [exact Hcb | apply Hdel].
Qed.

Lemma qreachable_callable allowed r0 m0 cb arg c :
  (forall mv, allowed mv -> not_removing mv) ->
  qreachable allowed (qinit r0 m0 (Some cb) arg) c -> callable c.
Proof.
  intros Ha. apply (qreachable_ind' allowed callable).
  - split; [by eexists | done].
  - intros c1 mv c2 _ Hr Hmv E. apply (callable_step mv c1); auto.
Qed.

Lemma qexec_outer t ws p c :
  apart c -> outer c !! t = Some p -> qexec (QRun t ws) c = Some (run_outer t p c).
Proof.
  intros Hap Hp. simpl. destruct (threads (qring c) !! t) as [p'|] eqn:Ht.
  - by rewrite (Hap _ _ Ht) in Hp.
  - by rewrite Hp.
Qed.

(** ** The ring while it is used *)

Context `{!PthreadMutexLaws M}.

(** The mutex is held, or someone waits, exactly when a thread is in the middle
    of a method. *)
Lemma destroyable_spec r0 m0 c :
  ndebug = false -> fresh r0 m0 -> reachable ndebug r0 m0 (qring c) -> alive c = true ->
  destroyable c = false <->
  exists t p, threads (qring c) !! t = Some p /\ (in_critical p = true \/ p = GetWaiting).
Proof.
  intros Hnd Hf Hr Ha. pose proof (reachable_inv _ _ _ _ Hnd Hf Hr) as Hi.
  destruct (inv_lock _ _ _ Hi) as [H1' H2']. unfold destroyable. rewrite Ha. simpl. split.
  - destruct (holder (_mutex (qring c))) as [[t n]|] eqn:Hh; simpl.
    + intros _. destruct (H2' t n eq_refl) as (p & Hp & Hc). eauto.
    + intros Hs%negb_false_iff. apply someone_waits_spec in Hs as [t Ht]. eauto.
  - intros (t & p & Hp & [Hc | ->]).
    + by rewrite (H1' t p Hp Hc).
    + assert (someone_waits (threads (qring c)) = true) as -> by (apply someone_waits_spec; eauto).
      by rewrite andb_false_r.
Qed.

(** * Typed values *)

Section Typed.
Context {T : Type}.
Variable bytes_of : T -> list byte.

(** The puts come from [OsQueue::Push], which passes the bytes of a value. *)
Definition typed (mv : qmove CB P) : Prop :=
  match mv with QCall _ (CallPut item) => exists x, item = bytes_of x | _ => True end.

Record typed_inv (c : qcfg) : Prop := {
  typed_pushed : exists xs, pushed (qring c) = bytes_of <$> xs;
  typed_carried : forall t p item,
    threads (qring c) !! t = Some p -> carries p = Some item -> exists x, item = bytes_of x
}.

Lemma typed_inv_move c t q :
  typed_inv c -> (forall item, carries q = Some item -> exists x, item = bytes_of x) ->
  typed_inv (with_ring (set_thread t q (qring c)) c).
Proof.
  intros [Hp Hc] Hq. split; [done|]. intros t' p item. simpl.
  intros [[_ <-]|[_ Ht]]%lookup_insert_Some; [apply Hq | by apply (Hc t')].
Qed.

Lemma typed_inv_step mv c c' :
  (forall x, take (Z.to_nat (_itemSize (ring (qring c)))) (bytes_of x) = bytes_of x) ->
  typed_inv c -> typed mv -> qexec mv c = Some (Ret c') -> typed_inv c'.
Proof.
  intros Htake Hi Hmv E.
  destruct (qexec_view _ _ _ E) as [t cl -> _ _ -> | t p -> _ _ ->
    | t ws p r -> Ht _ Er -> | t ws p -> _ Ho Er | t -> Ht ->].
  - apply typed_inv_move; [done|]. destruct cl; simpl; try done. by intros ? [= <-].
  - split; simpl; apply Hi.
  - destruct Hi as [[xs Hxs] Hc]. apply run_thread_shape in Er as [Hpush Hth].
    split; rewrite qring_after.
    + rewrite Hpush, Hxs. destruct p; simpl; try (exists xs; apply app_nil_r).
      destruct (Hc t _ item Ht eq_refl) as [x ->]. rewrite Htake. exists (xs ++ [x]).
      by rewrite fmap_app.
    + intros t' p' item. destruct (leaves p).
      * rewrite Hth. intros [_ Hp]%lookup_delete_Some. by apply (Hc t').
      * destruct Hth as (q & ws' & -> & Hq & _).
        intros [[_ <-]|[_ Hp]]%lookup_insert_Some Hcar; [by eapply (Hc t p), next_carries|].
        destruct (wake_lookup ws' t' (threads (qring c))) as [Ew|(_ & _ & Ew)]; rewrite Ew in Hp.
        -- by apply (Hc t' p').
        -- by injection Hp as <-.
  - pose proof (run_outer_ring _ _ _ _ Er) as Eq. destruct Hi as [Hp Hc].
    split; rewrite Eq; [exact Hp | exact Hc].
  - by apply typed_inv_move.
Qed.

Lemma qreachable_typed r0 m0 cb arg c :
  ndebug = false -> fresh r0 m0 ->
  (forall x, Z.of_nat (length (bytes_of x)) = _itemSize r0) ->
  qreachable typed (qinit r0 m0 cb arg) c ->
  reachable ndebug r0 m0 (qring c) /\ typed_inv c.
Proof.
  intros Hnd Hf Hlen.
  assert (forall mv, typed mv -> qmove_ok (_itemSize r0) mv) as Hok.
  { intros [t [item| |]| | | |]; simpl; try done. intros [x ->]. by rewrite Hlen. }
  intros Hr. split; [by eapply qreachable_ring|]. revert Hr. apply qreachable_ind'.
  - split; [by exists [] | done].
  - intros c1 mv c2 Hr Hi Hmv E.
    assert (reachable ndebug r0 m0 (qring c1)) as Hring by (by eapply qreachable_ring).
    pose proof (inv_itemSize _ _ _ (reachable_inv _ _ _ _ Hnd Hf Hring)) as Hs.
    apply (typed_inv_step mv c1); [|done..]. intros x. apply take_ge. rewrite Hs, <- (Hlen x). lia.
Qed.
End Typed.

(** * Properties *)

(** C7. With a callback that was registered before the threads start and is not
    changed, the callback is called exactly once for each message put, with the
    registered argument, under every interleaving: the calls so far and the puts
    that have pushed and not yet called it add up to the messages put; and a put
    past the ring gets to its call without waiting for anyone. *)
Theorem queue_signal_exactly_once r0 m0 cb arg c :
  qreachable not_setting (qinit r0 m0 (Some cb) arg) c ->
  (exists n, signals c = replicate n (cb, arg) /\
     length (pushed (qring c)) = (n + puts_pending c)%nat) /\
  (forall t, outer c !! t = Some PutTest ->
     exists c', qexec_all [QRun t []; QRun t []] c = Some (Ret c') /\
       signals c' = signals c ++ [(cb, arg)] /\ outer c' = delete t (outer c)).
Proof.
  intros Hr. destruct (qreachable_accounted _ _ _ _ _ _ Hr) as [Hap Ha].
  pose proof (qreachable_registered _ _ _ _ _ _ (fun mv Hmv => Hmv) Hr) as Hreg.
  split.
  - exists (length (signals c)). split; [apply (reg_signals _ _ _ Hreg)|].
    rewrite Ha, (reg_all _ _ _ Hreg). lia.
  - intros t Ht. eexists. cbn [qexec_all]. rewrite (qexec_outer t [] PutTest) by done.
    cbn [run_outer]. rewrite (reg_cb _ _ _ Hreg).
    rewrite (qexec_outer t [] PutInvoke); cycle 1.
    { intros t' p' Hp'. simpl in *. rewrite lookup_insert_ne; [by apply (Hap t' p')|].
      intros <-. by rewrite (Hap _ _ Hp') in Ht. }
    { apply lookup_insert_eq. }
    cbn [run_outer at_ with_outer qsig_cb]. rewrite (reg_cb _ _ _ Hreg).
    split; [reflexivity|]. simpl. rewrite (reg_arg _ _ _ Hreg). by rewrite delete_insert_eq.
Qed.

(** Whatever is done to the callback meanwhile, each message put is followed by
    one look at it, which calls it or finds none. *)
Theorem queue_signal_accounting allowed r0 m0 cb arg c :
  qreachable allowed (qinit r0 m0 cb arg) c ->
  length (pushed (qring c)) = (length (signals c) + unsignalled c + puts_pending c)%nat.
Proof. intros Hr. apply (qreachable_accounted _ _ _ _ _ _ Hr). Qed.

(** Changing the callback races with a put that has tested it and not called
    it yet: a callback removed in between is called as a null pointer, which is
    undefined; a new one is called with the argument of the old one, as the two
    are written one after the other. If nobody removes the callback, the first
    cannot happen. *)
Theorem queue_set_signal_race c t1 t2 cb' data :
  t1 <> t2 -> apart c -> outer c !! t1 = Some PutInvoke -> outer c !! t2 = Some (SetCb cb' data) ->
  match cb' with
  | None => qexec_all [QRun t2 []; QRun t1 []] c = Some Undef
  | Some cb =>
      exists c', qexec_all [QRun t2 []; QRun t1 []] c = Some (Ret c') /\
        signals c' = signals c ++ [(cb, qsig_arg c)]
  end.
Proof.
  intros Hne Hap Ht1 Ht2. set (c1 := at_ t2 (SetArg data) (with_callback cb' (qsig_arg c) c)).
  assert (qexec (QRun t2 []) c = Some (Ret c1)) as E by (by rewrite (qexec_outer _ _ _ _ Hap Ht2)).
  assert (qexec (QRun t1 []) c1 = Some (run_outer t1 PutInvoke c1)) as E1.
  { apply qexec_outer; [by apply (apart_step _ _ _ Hap E)|]. simpl. by rewrite lookup_insert_ne. }
  cbn [qexec_all]. rewrite E, E1. destruct cb' as [cb|]; [|done]. by eexists.
Qed.

Theorem queue_callback_kept r0 m0 cb arg c t ws :
  qreachable not_removing (qinit r0 m0 (Some cb) arg) c -> outer c !! t = Some PutInvoke ->
  exists c', qexec (QRun t ws) c = Some (Ret c') /\ length (signals c') = S (length (signals c)).
Proof.
  intros Hr Ht. destruct (qreachable_accounted _ _ _ _ _ _ Hr) as [Hap _].
  destruct (qreachable_callable _ _ _ _ _ _ (fun mv Hmv => Hmv) Hr) as [[cb' Hcb] _].
  rewrite (qexec_outer t ws PutInvoke) by done. simpl. rewrite Hcb. eexists. split; [done|].
  simpl. rewrite length_app. simpl. lia.
Qed.

(** C16. [pos_queue_deinit] needs a queue that nobody uses. The [delete] is
    undefined exactly when a thread is in the middle of a method (it holds the
    mutex or waits for a message); when it goes through, the next statement of
    every thread that is still on its way into a method is undefined, and so is
    a second [delete]; once the pointer is cleared, so is every call. *)
Theorem queue_deinit_exclusive r0 m0 cb arg c t ws :
  ndebug = false -> fresh r0 m0 ->
  qreachable (qmove_ok (_itemSize r0)) (qinit r0 m0 cb arg) c ->
  outer c !! t = Some DeinitDelete -> q_set c = true -> alive c = true ->
  (qexec (QRun t ws) c = Some Undef <->
   exists t' p, threads (qring c) !! t' = Some p /\ (in_critical p = true \/ p = GetWaiting)) /\
  (forall c', qexec (QRun t ws) c = Some (Ret c') ->
     (forall t' p ws', threads (qring c) !! t' = Some p -> qexec (QRun t' ws') c' = Some Undef) /\
     (forall t' ws', t' <> t -> outer c !! t' = Some DeinitDelete ->
        qexec (QRun t' ws') c' = Some Undef) /\
     exists c2, qexec (QRun t ws) c' = Some (Ret c2) /\ q_set c2 = false /\
       forall t' cl, outside t' c2 = true -> qexec (QCall t' cl) c2 = Some Undef).
Proof.
  intros Hnd Hf Hr Ht Hq Ha.
  destruct (qreachable_accounted _ _ _ _ _ _ Hr) as [Hap _].
  assert (reachable ndebug r0 m0 (qring c)) as Hring by (by eapply qreachable_ring; [|exact Hr]).
  pose proof (destroyable_spec r0 m0 c Hnd Hf Hring Ha) as Hd.
  assert (qexec (QRun t ws) c = Some (if destroyable c
            then Ret (at_ t DeinitClear (with_alive true false c)) else Undef)) as E.
  { rewrite (qexec_outer t ws DeinitDelete) by done. simpl. by rewrite Hq. }
  split.
  - rewrite <- Hd, E. destruct (destroyable c); by split.
  - intros c' E'. pose proof (apart_step _ _ _ Hap E') as Hap'. rewrite E in E'.
    destruct (destroyable c); [|done]. injection E' as <-. split_and!.
    + intros t' p ws' Hp. simpl. by rewrite Hp.
    + intros t' ws' Hne Hp. rewrite (qexec_outer t' ws' DeinitDelete); [done|done|].
      simpl. by rewrite lookup_insert_ne.
    + rewrite (qexec_outer t ws DeinitClear); [|done|apply lookup_insert_eq].
      eexists. split; [reflexivity|]. split; [done|]. intros t' cl Ho. cbn [qexec].
      by rewrite Ho.
Qed.

(** C6. The typed queue of the C++ class over this port, shared by any number of
    threads: from the object its constructor makes, and under every
    interleaving of pushes, pops, tests, signals and even a [delete], the values
    popped so far are, in order and as they were, the first of the values
    pushed, and the rest, at most [QueueSize] of them, is in the ring. *)
Theorem os_queue_threads_fifo {T} (bytes_of : T -> list byte) of_bytes sizeof_T QueueSize
    alloc invoke mem (o : OsQueue (pos_queue M CB P)) :
  ndebug = false -> benign alloc invoke -> is_u16 sizeof_T -> is_u16 QueueSize ->
  (forall x, Z.of_nat (length (bytes_of x)) = sizeof_T) ->
  (forall x, of_bytes (bytes_of x) = x) ->
  OsQueue_new (H := posix_osal_queue ndebug alloc invoke) ndebug sizeof_T QueueSize mem = Ret o ->
  exists p, q (queue_ o) = Some p /\
    forall c, qreachable (typed bytes_of) (qinit (super p) (super_mutex p) None None) c ->
      exists got rest, pushed (qring c) = bytes_of <$> got ++ rest /\
        of_bytes <$> popped (qring c) = got /\ contents (ring (qring c)) = bytes_of <$> rest /\
        Z.of_nat (length rest) <= QueueSize.
Proof.
  intros Hnd Hb Hs Hn Hlen Hof. unfold OsQueue_new.
  intros ([e mq] & Ei & (u & Hok & [= <-])%obind_ret_inv)%obind_ret_inv.
  change (pos_queue_init ndebug alloc sizeof_T QueueSize mem = Ret (e, mq)) in Ei.
  apply (pos_queue_init_inv ndebug alloc invoke _ _ _ _ _ Hnd Hb) in Ei as (_ & Hqok & Hview).
  simpl in *. destruct (q mq) as [p|]; [|done]. destruct Hqok as [Hwf Hh].
  rewrite !u16_small in Hview by done. injection Hview as Hsz Hct Hemp.
  exists p. split; [done|]. intros c Hr.
  assert (fresh (super p) (super_mutex p)) as Hf by (by split).
  destruct (qreachable_typed bytes_of _ _ _ _ _ Hnd Hf (fun x => eq_trans (Hlen x) (eq_sym Hsz)) Hr)
    as [Hring [[xs Hxs] _]].
  pose proof (reachable_inv _ _ _ _ Hnd Hf Hring) as Hi.
  pose proof (inv_fifo _ _ _ Hi) as Hfifo. rewrite Hxs in Hfifo.
  apply fmap_app_inv in Hfifo as (got & rest & Hgot & Hrest & ->).
  exists got, rest. split_and!; [done | | done |].
  - rewrite Hgot, <- list_fmap_compose. rewrite <- (list_fmap_id got) at 2.
    apply list_fmap_ext. intros ? x _. apply Hof.
  - pose proof (wf_size _ (inv_ring _ _ _ Hi)) as Hsize.
    rewrite size_contents, (inv_itemCount _ _ _ Hi), Hct, Hrest, length_fmap in Hsize. lia.
Qed.

End PosixQueueThreads.

(** * The theorems at work *)

Section Witness.
#[local] Existing Instance linux_errno.

(** A queue with the callback 7 and the argument 9. *)
Definition demo_queue_init : qconfig ref_mutex nat nat :=
  qinit demo_ring (None : ref_mutex) (Some 7%nat) (Some 9%nat).

Definition demo_queue_end (mvs : list (qmove nat nat)) : qconfig ref_mutex nat nat :=
  match qexec_all false mvs demo_queue_init with Some (Ret c) => c | _ => demo_queue_init end.

(** A put that is past the ring. *)
Definition demo_put_done : list (qmove nat nat) :=
  [QCall 1 (CallPut [x2a]); QRun 1 []; QRun 1 []; QRun 1 []; QRun 1 []].

Lemma demo_queue_reachable allowed mvs :
  Forall allowed mvs -> qexec_all false mvs demo_queue_init = Some (Ret (demo_queue_end mvs)) ->
  qreachable false allowed demo_queue_init (demo_queue_end mvs).
Proof. intros. eapply qexec_all_reachable; [constructor | done | done]. Qed.

Example queue_signal_exactly_once_witness :
  exists c', qexec_all false [QRun 1 []; QRun 1 []] (demo_queue_end demo_put_done) = Some (Ret c') /\
    signals c' = [(7%nat, Some 9%nat)].
Proof.
  destruct (queue_signal_exactly_once false demo_ring (None : ref_mutex) 7%nat (Some 9%nat)
    (demo_queue_end demo_put_done)) as [_ Hcall].
  - apply demo_queue_reachable; [by repeat constructor | vm_compute; reflexivity].
  - destruct (Hcall 1%nat) as (c' & E & Hs & _); [vm_compute; reflexivity|].
    exists c'. split; [exact E | exact Hs].
Defined.

(** Thread 1 has tested the callback, thread 2 is about to remove it. *)
Definition demo_removed : list (qmove nat nat) := demo_put_done ++ [QRun 1 []; QSet 2 None None].

Example queue_set_signal_race_witness :
  qreachable false (fun _ => True) demo_queue_init (demo_queue_end demo_removed) /\
  qexec_all false [QRun 2 []; QRun 1 []] (demo_queue_end demo_removed) = Some Undef.
Proof.
  assert (qreachable false (fun _ => True) demo_queue_init (demo_queue_end demo_removed)) as Hr.
  { apply demo_queue_reachable; [by repeat constructor | vm_compute; reflexivity]. }
  split; [exact Hr|].
  apply (queue_set_signal_race false (demo_queue_end demo_removed) 1%nat 2%nat None None).
  - done.
  - exact (proj1 (qreachable_accounted _ _ _ _ _ _ _ Hr)).
  - vm_compute. reflexivity.
  - vm_compute. reflexivity.
Defined.

(** A consumer that has not locked the mutex yet, and a thread that is about to
    delete the ring. *)
Definition demo_deleting : list (qmove nat nat) := [QCall 1 (CallGet 5); QDeinit 2; QRun 2 []].

Example queue_deinit_exclusive_witness :
  exists c', qexec false (QRun 2 []) (demo_queue_end demo_deleting) = Some (Ret c') /\
    qexec false (QRun 1 []) c' = Some Undef.
Proof.
  assert (qreachable false (qmove_ok (_itemSize demo_ring)) demo_queue_init
            (demo_queue_end demo_deleting)) as Hr.
  { apply demo_queue_reachable; [by repeat constructor | vm_compute; reflexivity]. }
  destruct (queue_deinit_exclusive false demo_ring (None : ref_mutex) (Some 7%nat) (Some 9%nat)
    (demo_queue_end demo_deleting) 2%nat [] eq_refl demo_fresh Hr) as [_ Hd];
    [vm_compute; reflexivity..|].
  destruct (qexec false (QRun 2 []) (demo_queue_end demo_deleting)) as [[c'| | | |]|] eqn:E;
    try (vm_compute in E; discriminate E).
  exists c'. split; [reflexivity|].
  apply (proj1 (Hd c' eq_refl) 1%nat (GetLock 5) []). vm_compute. reflexivity.
Defined.

Definition demo_mem : pos_queue ref_mutex unit unit := mkPosQueue None None None.
Definition demo_object : OsQueue (pos_queue ref_mutex unit unit) :=
  mkOsQueue (mkPosQueue (Some (mkRingPthread (mkOsRing [x00; x00; x00; x00] 2 2 0 0) None))
               None None) true POS_OK.

(** Two threads push pairs of bytes and one of them pops. *)
Definition demo_pairs : list (qmove unit unit) :=
  let push t item := [QCall t (CallPut item); QRun t []; QRun t []; QRun t []; QRun t []; QRun t []] in
  push 1%nat [x01; x02] ++ push 2%nat [x03; x04] ++
  [QCall 1 (CallGet 5); QRun 1 []; QRun 1 []; QRun 1 []].

Example os_queue_threads_fifo_witness :
  exists c, qexec_all false demo_pairs
      (qinit (mkOsRing [x00; x00; x00; x00] 2 2 0 0) (None : ref_mutex) None None) = Some (Ret c) /\
    exists got rest, pushed (qring c) = pair_bytes <$> got ++ rest /\
      bytes_pair <$> popped (qring c) = got /\ contents (ring (qring c)) = pair_bytes <$> rest /\
      Z.of_nat (length rest) <= 2.
Proof.
  destruct (qexec_all false demo_pairs
    (qinit (mkOsRing [x00; x00; x00; x00] 2 2 0 0) (None : ref_mutex) None None))
    as [[c| | | |]|] eqn:E; try (vm_compute in E; discriminate E).
  exists c. split; [reflexivity|].
  assert (is_u16 2) as Htwo by (vm_compute; split; congruence).
  assert (OsQueue_new (H := posix_osal_queue false demo_alloc demo_invoke) false 2 2 demo_mem
          = Ret demo_object) as Hnew by reflexivity.
  destruct (os_queue_threads_fifo false pair_bytes bytes_pair 2 2 demo_alloc demo_invoke demo_mem
    demo_object eq_refl demo_benign Htwo Htwo (fun x => eq_refl) (fun '(a, b) => eq_refl) Hnew)
    as (p & Hp & Hfifo).
  injection Hp as <-. apply (Hfifo c).
  refine (qexec_all_reachable _ _ _ demo_pairs _ _ (qreach_init _ _ _) _ E).
  repeat constructor; simpl; try exact I; [by exists (x01, x02) | by exists (x03, x04)].
Defined.
End Witness.
