(* ===== verification/QueueTermination.v ===== *)
(** Termination of the functions of targets/posix/os_queue.cc under threads:
    the measure of RingTermination for the statements of the ring, and the
    statements around it. Every schedule of the calls that are under way ends,
    and at its end every message put has been announced to the callback. *)

From S2P Require Import Prelude OsTypes Pthread OsRing RingPthread RingSteps RingTermination PosixQueueThreads.

(** How many statements of os_queue.cc a thread has still to run. *)
Definition outer_remaining {CB P} (p : qposition CB P) : nat :=
  match p with
  | DeinitTest => 3
  | PutTest | SetCb _ _ | DeinitDelete => 2
  | PutInvoke | SetArg _ | DeinitClear => 1
  end.

(** A thread in [RingPthread::put] comes back to the test of the callback. *)
Definition comes_back (p : position) : nat :=
  match p with PutLock _ | PutPush _ | PutSignal | PutUnlock => 2 | _ => 0 end.

Section QueueTermination.
Context {M CB P : Type} `{Errno, PthreadMutex M, !PthreadMutexLaws M}.
Variable ndebug : bool.

Abbreviation qcfg := (qconfig M CB P).

(** The statements left when no more than [n] threads can be woken. *)
Definition qwork (n : nat) (c : qcfg) : nat :=
  (work n (threads (qring c)) + msum comes_back (threads (qring c)) + msum outer_remaining (outer c))%nat.

Definition is_qrun (mv : qmove CB P) : Prop := match mv with QRun _ _ => True | _ => False end.

(** No thread can run. *)
Definition qstuck (c : qcfg) : Prop := forall t ws, qexec ndebug (QRun t ws) c = None.

(** A statement of the ring that does not leave it brings nobody back. *)
Lemma run_thread_comes_back t ws p r r' :
  threads r !! t = Some p -> run_thread ndebug t ws p r = Some (Ret r') ->
  (msum comes_back (threads r') + match p with PutUnlock => 2 | _ => 0 end)%nat =
    msum comes_back (threads r).
Proof.
  intros Ht E. pose proof (run_thread_not_waiting _ _ _ _ _ _ E) as Hw.
  apply run_thread_shape in E as [_ Hs]. destruct (leaves p) eqn:Hl.
  - rewrite Hs, (msum_delete comes_back t (threads r)), Ht. destruct p; simpl in *; try done; lia.
  - destruct Hs as (q & ws' & -> & Hq & _).
    pose proof (msum_insert comes_back t q (wake ws' (threads r))) as Hm.
    rewrite msum_wake, (wake_at t p) in Hm by done. simpl in Hm.
    destruct p, q; simpl in *; try done; lia.
Qed.

Lemma outer_set t p q (th : gmap tid (qposition CB P)) :
  th !! t = Some p ->
  (msum outer_remaining (<[t := q]> th) + outer_remaining p = msum outer_remaining th + outer_remaining q)%nat.
Proof. intros Ht. pose proof (msum_insert outer_remaining t q th) as Hm. by rewrite Ht in Hm. Qed.

Lemma outer_gone t p (th : gmap tid (qposition CB P)) :
  th !! t = Some p ->
  msum outer_remaining th = (outer_remaining p + msum outer_remaining (delete t th))%nat.
Proof. intros Ht. pose proof (msum_delete outer_remaining t th) as Hm. by rewrite Ht in Hm. Qed.

(** A statement outside the ring leaves less to do. *)
Lemma run_outer_work t p (c c' : qcfg) :
  outer c !! t = Some p -> run_outer t p c = Ret c' ->
  (msum outer_remaining (outer c') < msum outer_remaining (outer c))%nat.
Proof.
  intros Ht E. pose proof (fun q => outer_set t p q _ Ht) as Hset. pose proof (outer_gone t p _ Ht) as Hgone.
  destruct p; simpl in E, Hset, Hgone.
  - specialize (Hset PutInvoke). destruct (qsig_cb c); injection E as <-; simpl in *; lia.
  - destruct (qsig_cb c); simpl in E; [|done]. injection E as <-. simpl. lia.
  - specialize (Hset (SetArg data)). injection E as <-. simpl in *. lia.
  - injection E as <-. simpl. lia.
  - specialize (Hset DeinitDelete). destruct (q_set c); injection E as <-; simpl in *; lia.
  - specialize (Hset DeinitClear).
    destruct (q_set c); [destruct (destroyable c); [|done]|]; injection E as <-; simpl in *; lia.
  - injection E as <-. simpl. lia.
Qed.

(** Every statement leaves less to do, and no more threads in the ring. *)
Lemma qexec_work n mv (c c' : qcfg) :
  is_qrun mv -> apart c -> (base.size (threads (qring c)) <= n)%nat -> qexec ndebug mv c = Some (Ret c') ->
  (qwork n c' < qwork n c)%nat /\ (base.size (threads (qring c')) <= n)%nat.
Proof.
  intros Hmv Hap Hn E. unfold qwork.
  destruct (qexec_view _ _ _ _ E) as [? ? -> | t [] -> | t ws p r -> Ht _ Er -> | t ws p -> Ht Ho Er | ? ->]; try done.
  - destruct (run_thread_work ndebug n t ws p _ _ Hn Ht Er) as [Hw Hs].
    pose proof (run_thread_comes_back _ _ _ _ _ Ht Er) as Hb. rewrite qring_after. split; [|done].
    pose proof (Hap t p Ht) as Ho. destruct p; simpl in *; try lia.
    rewrite msum_insert_None by done. simpl. lia.
  - rewrite (run_outer_ring _ _ _ _ Er). pose proof (run_outer_work _ _ _ _ Ho Er). split; [lia|done].
Qed.

Lemma qexec_all_work n mvs (c c' : qcfg) :
  Forall is_qrun mvs -> apart c -> (base.size (threads (qring c)) <= n)%nat ->
  qexec_all ndebug mvs c = Some (Ret c') -> (length mvs + qwork n c' <= qwork n c)%nat.
Proof.
  intros Hmvs. revert c. induction Hmvs as [|mv mvs Hmv _ IH]; simpl; intros c Hap Hn.
  - intros [= <-]. lia.
  - destruct (qexec ndebug mv c) as [[c1| | | |]|] eqn:E; try done. intros E'.
    destruct (qexec_work n mv c c1 Hmv Hap Hn E) as [Hlt Hn1].
    specialize (IH c1 (apart_step _ _ _ _ Hap E) Hn1 E'). lia.
Qed.

(** The puts that have not pushed their message yet stay as many. *)
Lemma qexec_all_unpushed mvs (c c' : qcfg) :
  Forall is_qrun mvs -> qexec_all ndebug mvs c = Some (Ret c') ->
  (length (pushed (qring c')) + msum unpushed (threads (qring c')) =
   length (pushed (qring c)) + msum unpushed (threads (qring c)))%nat.
Proof.
  intros Hmvs. revert c. induction Hmvs as [|mv mvs Hmv _ IH]; cbn [qexec_all]; intros c; [by intros [= <-]|].
  destruct (qexec ndebug mv c) as [[c1| | | |]|] eqn:E; try done.
  intros E'. rewrite (IH c1 E').
  destruct (qexec_view _ _ _ _ E) as [? ? -> | t [] -> | t ws p r -> Ht _ Er -> | t ws p -> Ht Ho Er | ? ->]; try done.
  - rewrite qring_after. by apply (run_thread_unpushed ndebug t ws p).
  - by rewrite (run_outer_ring _ _ _ _ Er).
Qed.

Lemma qrun_reachable (r0 : OsRing) (m0 : M) (cb : option CB) (arg : option P) mvs (c c' : qcfg) :
  qreachable ndebug (qmove_ok (_itemSize r0)) (qinit r0 m0 cb arg) c -> Forall is_qrun mvs ->
  qexec_all ndebug mvs c = Some (Ret c') ->
  qreachable ndebug (qmove_ok (_itemSize r0)) (qinit r0 m0 cb arg) c'.
Proof.
  intros Hc Hmvs. eapply qexec_all_reachable; [done|]. eapply Forall_impl; [done|]. by intros [].
Qed.

(** ** What can run *)

(** A statement the ring can run, the queue can run. *)
Lemma qexec_ring t ws (c : qcfg) o :
  exec ndebug (Run t ws) (qring c) = Some o -> exists o', qexec ndebug (QRun t ws) c = Some o'.
Proof.
  simpl. destruct (threads (qring c) !! t) as [p|]; [|done]. intros E. unfold run_ring. rewrite E.
  destruct (alive c); eauto.
Qed.

(** Some thread can go on, unless all are done but those that sleep on an empty
    ring; and then none can. *)
Lemma queue_progress r0 m0 cb arg (c : qcfg) :
  ndebug = false -> fresh r0 m0 ->
  qreachable ndebug (qmove_ok (_itemSize r0)) (qinit r0 m0 cb arg) c ->
  (exists t ws o, qexec ndebug (QRun t ws) c = Some o) \/
  (qstuck c /\ outer c = ∅ /\ (forall t p, threads (qring c) !! t = Some p -> p = GetWaiting) /\
   (threads (qring c) <> ∅ -> contents (ring (qring c)) = [])).
Proof.
  intros Hnd Hf Hr. destruct (qreachable_accounted _ _ _ _ _ _ _ Hr) as [Hap _].
  destruct (decide (outer c = ∅)) as [He|Hne].
  2: { apply map_choose in Hne as (t & p & Hp). left. exists t, [], (run_outer t p c). by apply qexec_outer. }
  destruct (decide (threads (qring c) = ∅)) as [Hte|Htne].
  { right. split_and!; [|done|intros t p; by rewrite Hte|done].
    intros t ws. simpl. by rewrite Hte, He, !lookup_empty. }
  apply map_choose in Htne as (t & p & Ht).
  destruct (alive c) eqn:Ha.
  2: { left. exists t, [], Undef. simpl. rewrite Ht. unfold run_ring. by rewrite Ha. }
  pose proof (qreachable_ring ndebug _ r0 m0 cb arg c (fun _ H => H) Hr) as Hring.
  destruct (reachable_progress ndebug r0 m0 (qring c) t p Hnd Hf Hring Ht) as [(t' & ws & o & E)|[Hw Hempty]].
  - left. apply qexec_ring in E as [o' E]. eauto.
  - right. split_and!; [|done|done|done].
    intros t' ws. simpl. rewrite He, lookup_empty. destruct (threads (qring c) !! t') as [q|] eqn:Ht'; [|done].
    rewrite (Hw t' q Ht'). unfold run_ring. by rewrite Ha.
Qed.

(** While something can run, running it ends. *)
Lemma queue_runs_end r0 m0 cb arg n k (c : qcfg) :
  ndebug = false -> fresh r0 m0 ->
  qreachable ndebug (qmove_ok (_itemSize r0)) (qinit r0 m0 cb arg) c ->
  (base.size (threads (qring c)) <= n)%nat -> (qwork n c <= k)%nat ->
  exists mvs o, Forall is_qrun mvs /\ qexec_all ndebug mvs c = Some o /\
    (returns o = false \/ exists c', o = Ret c' /\ qstuck c').
Proof.
  intros Hnd Hf. revert c. induction k as [k IH] using lt_wf_ind. intros c Hr Hn Hk.
  destruct (queue_progress r0 m0 cb arg c Hnd Hf Hr) as [(t & ws & o & E)|[Hst _]].
  2: { exists [], (Ret c). split_and!; [done|done|]. right. by exists c. }
  destruct (returns o) eqn:Hret.
  - destruct o as [c1| | | |]; try done.
    destruct (qreachable_accounted _ _ _ _ _ _ _ Hr) as [Hap _].
    destruct (qexec_work n (QRun t ws) c c1 I Hap Hn E) as [Hlt Hn1].
    destruct (IH (qwork n c1) ltac:(lia) c1) as (mvs & o & Hmvs & Eo & Ho); try done.
    + by apply (qreach_step _ _ _ c (QRun t ws)).
    + exists (QRun t ws :: mvs), o. split_and!; [by constructor | | done]. cbn [qexec_all]. by rewrite E.
  - exists [QRun t ws], o. split_and!; [by constructor | | by left]. cbn [qexec_all]. rewrite E. by destruct o.
Qed.

(** At the end no put is between its message and the callback. *)
Lemma ended_accounted (c : qcfg) :
  accounted c -> outer c = ∅ -> (forall t p, threads (qring c) !! t = Some p -> p = GetWaiting) ->
  length (pushed (qring c)) = (length (signals c) + unsignalled c)%nat.
Proof.
  unfold accounted, puts_pending. intros -> -> Hw. rewrite msum_empty.
  rewrite (msum_zero put_in_ring (threads (qring c))); [lia|]. intros t p Hp. by rewrite (Hw t p Hp).
Qed.

(** C5. Termination of the queue functions under every scheduler: from any
    configuration that can arise, with callbacks being set and the queue being
    deleted as well, the threads inside run at most [qwork] statements, in
    whatever order, unless new calls are made or waits end without a signal.
    When none can run any more, every call has returned, but for gets that sleep
    on an empty ring; every put has put its message, and for every message ever
    put the callback was called, or there was none to call. And such an end, or
    a statement that aborts or is undefined, is always within reach. *)
Theorem queue_threads_termination r0 m0 cb arg (c : qcfg) :
  ndebug = false -> fresh r0 m0 ->
  qreachable ndebug (qmove_ok (_itemSize r0)) (qinit r0 m0 cb arg) c ->
  (forall mvs c', Forall is_qrun mvs -> qexec_all ndebug mvs c = Some (Ret c') ->
     (length mvs <= qwork (base.size (threads (qring c))) c)%nat /\
     (qstuck c' ->
        outer c' = ∅ /\ (forall t p, threads (qring c') !! t = Some p -> p = GetWaiting) /\
        (threads (qring c') <> ∅ -> contents (ring (qring c')) = []) /\
        length (pushed (qring c')) = (length (pushed (qring c)) + msum unpushed (threads (qring c)))%nat /\
        length (pushed (qring c')) = (length (signals c') + unsignalled c')%nat)) /\
  (exists mvs o, Forall is_qrun mvs /\ qexec_all ndebug mvs c = Some o /\
     (returns o = false \/ exists c', o = Ret c' /\ qstuck c')).
Proof.
  intros Hnd Hf Hr. split; [|by apply (queue_runs_end r0 m0 cb arg _ _ c Hnd Hf Hr (le_n _) (le_n _))].
  intros mvs c' Hmvs E. destruct (qreachable_accounted _ _ _ _ _ _ _ Hr) as [Hap _]. split.
  - pose proof (qexec_all_work _ mvs c c' Hmvs Hap (le_n _) E). lia.
  - intros Hst. pose proof (qrun_reachable r0 m0 cb arg mvs c c' Hr Hmvs E) as Hr'.
    destruct (queue_progress r0 m0 cb arg c' Hnd Hf Hr') as [(t & ws & o & Eo)|(_ & He & Hw & Hemp)].
    { by rewrite (Hst t ws) in Eo. }
    destruct (qreachable_accounted _ _ _ _ _ _ _ Hr') as [_ Hacc].
    pose proof (qexec_all_unpushed mvs c c' Hmvs E) as Hu.
    split_and!; [done | done | done | | by apply ended_accounted].
    rewrite (msum_zero unpushed (threads (qring c'))) in Hu; [lia|].
    intros t p Ht. by rewrite (Hw t p Ht).
Qed.
End QueueTermination.

(** * The theorem at work *)

Section Witness.
#[local] Existing Instance linux_errno.

(** A consumer sleeps; a producer has called, and so has a thread that replaces
    the callback. *)
Definition demo_calls : list (qmove nat nat) :=
  [QCall 1 (CallGet 5); QRun 1 []; QRun 1 []; QCall 2 (CallPut [x2a]); QSet 3 (Some 8%nat) None].

(** One of the ways in which they end: the consumer has the message, and the
    new callback was called, with the old argument. *)
Example queue_threads_termination_witness :
  let mvs := [QRun 2 []; QRun 2 []; QRun 2 [1%nat]; QRun 2 []; QRun 3 []; QRun 2 []; QRun 2 [];
              QRun 1 []; QRun 1 []; QRun 1 []; QRun 3 []; QRun 1 []] in
  exists c', qexec_all false mvs (demo_queue_end demo_calls) = Some (Ret c') /\
    signals c' = [(8%nat, Some 9%nat)] /\
    (length mvs <= qwork 2 (demo_queue_end demo_calls))%nat /\
    (qstuck false c' -> length (pushed (qring c')) = (length (signals c') + unsignalled c')%nat).
Proof.
  intros mvs.
  assert (qreachable false (qmove_ok (_itemSize demo_ring)) demo_queue_init (demo_queue_end demo_calls)) as Hr.
  { apply demo_queue_reachable; [by repeat constructor | vm_compute; reflexivity]. }
  destruct (qexec_all false mvs (demo_queue_end demo_calls)) as [[c'| | | |]|] eqn:E;
    try (vm_compute in E; discriminate E).
  exists c'. split; [reflexivity|].
  destruct (queue_threads_termination false demo_ring (None : ref_mutex) (Some 7%nat) (Some 9%nat)
    (demo_queue_end demo_calls) eq_refl demo_fresh Hr) as [Hall _].
  destruct (Hall mvs c') as [Hlen Hst]; [by repeat constructor | exact E |].
  split; [vm_compute in E; injection E as <-; vm_compute; reflexivity|].
  split; [exact Hlen|]. intros Hs. by apply Hst in Hs as (_ & _ & _ & _ & ?).
Defined.
End Witness.
