(* ===== verification/Binary64.v ===== *)
(** The [double] arithmetic of targets/posix/os_time.c: IEEE 754 binary64
    operations, as the exact operation on rationals followed by a rounding to
    nearest, ties to even, with 53 bits of precision and gradual underflow, every
    operation being rounded to [double] (FLT_EVAL_METHOD 0). No
    operation of the code comes near the overflow threshold (2^1024), which is
    not modelled. *)

From Stdlib Require Export QArith.QArith QArith.Qround.
From S2P Require Import Prelude.
#[global] Open Scope Z_scope.

(** [n / d] to the nearest integer, ties to even, for [0 < d]. *)
Definition nearest_even (n d : Z) : Z :=
  let q := n / d in
  let r := n mod d in
  if 2 * r <? d then q
  else if d <? 2 * r then q + 1
  else if Z.even q then q else q + 1.

(** The exponent of the leading bit of [n / d], for positive [n] and [d]. *)
Definition leading (n d : Z) : Z :=
  let k := Z.log2 n - Z.log2 d in
  if d * 2 ^ Z.max 0 k <=? n * 2 ^ Z.max 0 (- k) then k else k - 1.

(** The exponent of the last bit of the significand. *)
Definition last_bit (n d : Z) : Z := Z.max (leading n d - 52) (-1074).

Definition dyadic (m e : Z) : Q :=
  if 0 <=? e then inject_Z (m * 2 ^ e) else m # Z.to_pos (2 ^ (- e)).

Definition round_pos (x : Q) : Q :=
  let n := Qnum x in
  let d := Z.pos (Qden x) in
  if n =? 0 then inject_Z 0
  else
    let e := last_bit n d in
    dyadic (nearest_even (n * 2 ^ Z.max 0 (- e)) (d * 2 ^ Z.max 0 e)) e.

(** Rounding to binary64. *)
Definition round64 (x : Q) : Q :=
  if Qnum x <? 0 then Qopp (round_pos (Qopp x)) else round_pos x.

(** The operations of the code on doubles, and the conversions between them and
    the integers: from an integer, rounded; to a 32-bit unsigned one, truncated,
    undefined when the truncated value does not fit. *)
Definition dbl (z : Z) : Q := round64 (inject_Z z).
Definition dadd (x y : Q) : Q := round64 (x + y).
Definition dmul (x y : Q) : Q := round64 (x * y).
Definition ddiv (x y : Q) : Q := round64 (x / y).

Definition trunc (x : Q) : Z := if Qnum x <? 0 then - Qfloor (Qopp x) else Qfloor x.

Definition to_u32 (x : Q) : outcome Z :=
  let z := trunc x in
  if (0 <=? z) && (z <? 2 ^ 32) then Ret z else Undef.

(** * Rounding keeps the order with respect to representable numbers *)

Lemma nearest_even_range n d :
  0 < d -> n / d <= nearest_even n d <= n / d + 1 /\
  (n mod d = 0 -> nearest_even n d = n / d).
Proof.
  intros Hd. pose proof (Z.mod_pos_bound n d Hd). unfold nearest_even.
  destruct (Z.ltb_spec (2 * (n mod d)) d), (Z.ltb_spec d (2 * (n mod d))), (Z.even (n / d)); lia.
Qed.

Lemma nearest_even_le n d q : 0 < d -> n <= q * d -> nearest_even n d <= q.
Proof.
  intros Hd Hn. destruct (nearest_even_range n d Hd) as [Hr H0].
  pose proof (Z.div_mod n d). pose proof (Z.mod_pos_bound n d Hd).
  destruct (Z.eq_dec (n mod d) 0) as [E|E]; [rewrite (H0 E)|]; nia.
Qed.

Lemma nearest_even_ge n d q : 0 < d -> q * d <= n -> q <= nearest_even n d.
Proof.
  intros Hd Hn. destruct (nearest_even_range n d Hd) as [Hr _].
  assert (q <= n / d) by (apply Z.div_le_lower_bound; lia). lia.
Qed.

Lemma pow2_pos k : 0 < 2 ^ Z.max 0 k.
Proof. apply Z.pow_pos_nonneg; lia. Qed.

Lemma leading_le n d :
  0 < n -> 0 < d ->
  d * 2 ^ Z.max 0 (leading n d) <= n * 2 ^ Z.max 0 (- leading n d).
Proof.
  intros Hn Hd. unfold leading. cbv zeta.
  set (k := Z.log2 n - Z.log2 d). destruct (Z.leb_spec (d * 2 ^ Z.max 0 k) (n * 2 ^ Z.max 0 (- k)));
    [done|].
  pose proof (Z.log2_spec n Hn) as [Hn1 _]. pose proof (Z.log2_spec d Hd) as [_ Hd2].
  pose proof (Z.log2_nonneg n). pose proof (Z.log2_nonneg d).
  unfold Z.succ in *.
  assert (d * 2 ^ Z.max 0 (k - 1) < 2 ^ (Z.log2 d + 1 + Z.max 0 (k - 1))).
  { rewrite Z.pow_add_r by lia. apply Z.mul_lt_mono_pos_r; [apply pow2_pos | lia]. }
  assert (2 ^ (Z.log2 n + Z.max 0 (- (k - 1))) <= n * 2 ^ Z.max 0 (- (k - 1))).
  { rewrite Z.pow_add_r by lia. apply Z.mul_le_mono_nonneg_r; [pose proof (pow2_pos (- (k - 1))); lia | lia]. }
  assert (2 ^ (Z.log2 d + 1 + Z.max 0 (k - 1)) <= 2 ^ (Z.log2 n + Z.max 0 (- (k - 1)))); [|lia].
  apply Z.pow_le_mono_r; lia.
Qed.

(** [a / 2^s] is representable. *)
Definition representable (a s : Z) : Prop := 0 <= a < 2 ^ 53 /\ 0 <= s <= 1074.

Definition frac (a s : Z) : Q := a # Z.to_pos (2 ^ s).

Lemma frac_den s : 0 <= s -> Z.pos (Z.to_pos (2 ^ s)) = 2 ^ s.
Proof. intros. apply Z2Pos.id. by apply Z.pow_pos_nonneg. Qed.

Lemma dyadic_frac m e a s :
  0 <= s ->
  ((dyadic m e <= frac a s)%Q <-> m * 2 ^ Z.max 0 e * 2 ^ s <= a * 2 ^ Z.max 0 (- e)) /\
  ((frac a s <= dyadic m e)%Q <-> a * 2 ^ Z.max 0 (- e) <= m * 2 ^ Z.max 0 e * 2 ^ s).
Proof.
  intros Hs. unfold dyadic, frac, Qle. destruct (Z.leb_spec 0 e); simpl.
  - rewrite frac_den by done. replace (Z.max 0 e) with e by lia.
    replace (Z.max 0 (- e)) with 0 by lia. lia.
  - rewrite !frac_den by lia. replace (Z.max 0 e) with 0 by lia.
    replace (Z.max 0 (- e)) with (- e) by lia. lia.
Qed.

(** On the grid of the result, a representable number at most as fine as the
    grid is a grid point; a finer one lies below the leading bit. *)
Lemma grid_cases n d a s :
  0 < n -> 0 < d -> representable a s ->
  let e := last_bit n d in
  (e <= - s /\ exists t, 0 <= t /\ - e = s + t) \/
  (- s < e /\ e = leading n d - 52 /\ a * 2 ^ Z.max 0 (- e) < 2 ^ 52 * 2 ^ Z.max 0 e * 2 ^ s).
Proof.
  intros Hn Hd [Ha Hs] e. destruct (Z_le_gt_dec e (- s)) as [Hle|Hgt].
  - left. split; [done|]. exists (- e - s). lia.
  - right. unfold e, last_bit in *. split; [lia|]. split; [lia|].
    replace (Z.max (leading n d - 52) (-1074)) with (leading n d - 52) in * by lia.
    set (l := leading n d - 52) in *.
    rewrite <- !Z.pow_add_r by lia.
    apply (Z.lt_le_trans _ (2 ^ 53 * 2 ^ Z.max 0 (- l))).
    + apply Z.mul_lt_mono_pos_r; [apply pow2_pos | lia].
    + rewrite <- Z.pow_add_r by lia. apply Z.pow_le_mono_r; lia.
Qed.

(** The significand is at least 2^52 when the exponent is the normal one. *)
Lemma significand_ge n d :
  0 < n -> 0 < d -> last_bit n d = leading n d - 52 ->
  2 ^ 52 * (d * 2 ^ Z.max 0 (last_bit n d)) <= n * 2 ^ Z.max 0 (- last_bit n d).
Proof.
  intros Hn Hd ->. pose proof (leading_le n d Hn Hd) as Hl.
  set (l := leading n d) in *.
  destruct (Z_le_gt_dec 52 l); [|destruct (Z_le_gt_dec 0 l)].
  - rewrite (Z.max_r 0 l), (Z.max_l 0 (- l)) in Hl by lia.
    rewrite (Z.max_r 0 (l - 52)), (Z.max_l 0 (- (l - 52))) by lia.
    assert (2 ^ l = 2 ^ 52 * 2 ^ (l - 52)) as E by (rewrite <- Z.pow_add_r by lia; f_equal; lia).
    nia.
  - rewrite (Z.max_r 0 l), (Z.max_l 0 (- l)) in Hl by lia.
    rewrite (Z.max_l 0 (l - 52)), (Z.max_r 0 (- (l - 52))) by lia.
    assert (2 ^ 52 = 2 ^ l * 2 ^ (- (l - 52))) as -> by (rewrite <- Z.pow_add_r by lia; f_equal; lia).
    pose proof (Z.pow_pos_nonneg 2 (- (l - 52))). nia.
  - rewrite (Z.max_l 0 l), (Z.max_r 0 (- l)) in Hl by lia.
    rewrite (Z.max_l 0 (l - 52)), (Z.max_r 0 (- (l - 52))) by lia.
    assert (2 ^ (- (l - 52)) = 2 ^ 52 * 2 ^ (- l)) as -> by (rewrite <- Z.pow_add_r by lia; f_equal; lia).
    nia.
Qed.

Section Order.
Variables (x : Q) (a s : Z).
Hypothesis (Hx : 0 <= Qnum x) (Hr : representable a s).

Lemma frac_le : (x <= frac a s)%Q <-> Qnum x * 2 ^ s <= a * Z.pos (Qden x).
Proof. unfold frac, Qle. simpl. by rewrite frac_den by apply Hr. Qed.

Lemma frac_ge : (frac a s <= x)%Q <-> a * Z.pos (Qden x) <= Qnum x * 2 ^ s.
Proof. unfold frac, Qle. simpl. by rewrite frac_den by apply Hr. Qed.

Lemma round_pos_le : (x <= frac a s)%Q -> (round_pos x <= frac a s)%Q.
Proof.
  rewrite frac_le. unfold round_pos. set (n := Qnum x) in *. set (d := Z.pos (Qden x)).
  destruct Hr as [Ha Hs]. intros Hle. destruct (Z.eqb_spec n 0) as [Hz|Hz].
  { unfold Qle, frac. simpl. lia. }
  assert (0 < n) as Hn by lia. assert (0 < d) as Hd by done. cbv zeta.
  apply dyadic_frac; [lia|].
  set (e := last_bit n d). pose proof (grid_cases n d a s Hn Hd Hr) as Hg. simpl in Hg.
  fold e in Hg. destruct Hg as [(He & t & Ht & Het)|(He & Hle' & Hlt)].
  - rewrite (Z.max_l 0 e), (Z.max_r 0 (- e)), Het, Z.pow_add_r by lia.
    assert (nearest_even (n * (2 ^ s * 2 ^ t)) (d * 2 ^ 0) <= a * 2 ^ t); [|nia].
    apply nearest_even_le; [lia|]. pose proof (Z.pow_pos_nonneg 2 t). nia.
  - exfalso. pose proof (significand_ge n d Hn Hd Hle') as Hsig. fold e in Hsig.
    pose proof (pow2_pos e). pose proof (pow2_pos (- e)). pose proof (Z.pow_pos_nonneg 2 s).
    set (E1 := 2 ^ Z.max 0 e) in *. set (E2 := 2 ^ Z.max 0 (- e)) in *. set (P := 2 ^ s) in *.
    assert (2 ^ 52 * (d * E1) * P <= n * E2 * P) by nia.
    assert (n * P * E2 <= a * d * E2) by nia.
    assert (a * E2 * d < 2 ^ 52 * E1 * P * d) by nia. lia.
Qed.

Lemma round_pos_ge : (frac a s <= x)%Q -> (frac a s <= round_pos x)%Q.
Proof.
  rewrite frac_ge. unfold round_pos. set (n := Qnum x) in *. set (d := Z.pos (Qden x)).
  destruct Hr as [Ha Hs]. intros Hle. destruct (Z.eqb_spec n 0) as [Hz|Hz].
  { unfold Qle, frac. simpl. rewrite Hz in Hle. assert (0 < d) by done. nia. }
  assert (0 < n) as Hn by lia. assert (0 < d) as Hd by done. cbv zeta.
  apply dyadic_frac; [lia|].
  set (e := last_bit n d). pose proof (grid_cases n d a s Hn Hd Hr) as Hg. simpl in Hg.
  fold e in Hg. destruct Hg as [(He & t & Ht & Het)|(He & Hle' & Hlt)].
  - rewrite (Z.max_l 0 e), (Z.max_r 0 (- e)), Het, Z.pow_add_r by lia.
    assert (a * 2 ^ t <= nearest_even (n * (2 ^ s * 2 ^ t)) (d * 2 ^ 0)).
    + apply nearest_even_ge; [lia|]. pose proof (Z.pow_pos_nonneg 2 t). nia.
    + pose proof (Z.pow_pos_nonneg 2 s). nia.
  - pose proof (significand_ge n d Hn Hd Hle') as Hsig. fold e in Hsig.
    assert (2 ^ 52 <= nearest_even (n * 2 ^ Z.max 0 (- e)) (d * 2 ^ Z.max 0 e)) as Hm.
    { apply nearest_even_ge; [|done]. pose proof (pow2_pos e). nia. }
    pose proof (pow2_pos e). pose proof (Z.pow_pos_nonneg 2 s). nia.
Qed.
End Order.

(** * The rounding of non-negative numbers *)

Lemma round64_pos x : 0 <= Qnum x -> round64 x = round_pos x.
Proof. intros. unfold round64. by destruct (Z.ltb_spec (Qnum x) 0); [lia|]. Qed.

Lemma round64_le x a s :
  0 <= Qnum x -> representable a s -> (x <= frac a s)%Q -> (round64 x <= frac a s)%Q.
Proof. intros. rewrite round64_pos by done. by apply round_pos_le. Qed.

Lemma round64_ge x a s :
  0 <= Qnum x -> representable a s -> (frac a s <= x)%Q -> (frac a s <= round64 x)%Q.
Proof. intros. rewrite round64_pos by done. by apply round_pos_ge. Qed.

(** Integers below 2^53 are not rounded. *)
Lemma round64_exact x z :
  0 <= z < 2 ^ 53 -> (x == inject_Z z)%Q -> (round64 x == inject_Z z)%Q.
Proof.
  intros Hz Hx. assert (representable z 0) as Hr by (split; lia).
  assert (frac z 0 = inject_Z z) as E by done.
  assert (0 <= Qnum x) as Hn.
  { unfold Qeq in Hx. simpl in Hx. nia. }
  apply Qle_antisym; rewrite <- E.
  - apply round64_le; [done|done|]. rewrite E, Hx. apply Qle_refl.
  - apply round64_ge; [done|done|]. rewrite E, Hx. apply Qle_refl.
Qed.

(** Truncating a number between an integer and the next. *)
Lemma trunc_between x z :
  0 <= z -> (inject_Z z <= x)%Q -> (x < inject_Z (z + 1))%Q -> trunc x = z.
Proof.
  intros Hz Hl Hu. assert (0 <= Qnum x) by (unfold Qle in Hl; simpl in Hl; nia).
  unfold trunc. destruct (Z.ltb_spec (Qnum x) 0); [lia|].
  pose proof (Qfloor_le x). pose proof (Qlt_floor x).
  assert (inject_Z (Qfloor x) < inject_Z (z + 1))%Q as A1 by (eapply Qle_lt_trans; eauto).
  assert (inject_Z z < inject_Z (Qfloor x + 1))%Q as A2 by (eapply Qle_lt_trans; eauto).
  rewrite <- Zlt_Qlt in A1. rewrite <- Zlt_Qlt in A2. lia.
Qed.

Lemma trunc_exact x z : 0 <= z -> (x == inject_Z z)%Q -> trunc x = z.
Proof.
  intros Hz Hx. apply trunc_between; [done| |]; rewrite Hx; [apply Qle_refl|].
  rewrite <- Zlt_Qlt. lia.
Qed.

Lemma to_u32_ret x z : trunc x = z -> is_u32 z -> to_u32 x = Ret z.
Proof.
  intros E Hz. unfold to_u32, is_u32 in *. rewrite E.
  rewrite (proj2 (Z.leb_le _ _)), (proj2 (Z.ltb_lt _ _)) by lia. done.
Qed.
