(* ===== verification/PosixTime.v ===== *)
(** targets/posix/os_time.c (Linux branch): uptime and the conversions between
    milliseconds and ticks, which go through [double]. The constants POS_TICKS_PER_SEC and the
    type [timespec] are those of PosixUtils and Pthread. *)

From S2P Require Import Prelude Pthread PosixUtils Binary64.
#[local] Open Scope Z_scope.

Definition ONE_THOUSAND : Q := dbl 1000.
Definition ONE_BILLION : Q := dbl 1000000000.
Definition POS_TICKS_PER_SEC_F : Q := dbl POS_TICKS_PER_SEC.
Definition POS_TICKS_PER_NANOSEC_F : Q := ddiv ONE_BILLION POS_TICKS_PER_SEC_F.

(** [clock] is what [clock_gettime(CLOCK_MONOTONIC, &now)] reads, [None] when it
    fails. *)
Definition pos_time_get (clock : option timespec) : outcome Z :=
  match clock with
  | None => Ret 0
  | Some now =>
      to_u32 (dadd (dmul (dbl (tv_sec now)) POS_TICKS_PER_SEC_F)
                   (ddiv (dbl (tv_nsec now)) POS_TICKS_PER_NANOSEC_F))
  end.

Definition pos_time_ms_to_ticks (ms : Z) : outcome Z :=
  to_u32 (ddiv (dmul (dbl ms) POS_TICKS_PER_SEC_F) ONE_THOUSAND).

Definition pos_time_ticks_to_ms (ticks : Z) : outcome Z :=
  to_u32 (ddiv (dmul (dbl ticks) ONE_THOUSAND) POS_TICKS_PER_SEC_F).

Definition pos_time_get_ms (clock : option timespec) : outcome Z :=
  do ticks <- pos_time_get clock; pos_time_ticks_to_ms ticks.

(** * Exactness *)

Lemma dbl_exact z : 0 <= z < 2 ^ 53 -> (dbl z == inject_Z z)%Q.
Proof. intros. by apply round64_exact. Qed.

Lemma ticks_per_sec_exact : (POS_TICKS_PER_SEC_F == inject_Z 1000)%Q.
Proof. by apply dbl_exact. Qed.

Lemma one_thousand_exact : (ONE_THOUSAND == inject_Z 1000)%Q.
Proof. by apply dbl_exact. Qed.

Lemma ticks_per_nanosec_exact : (POS_TICKS_PER_NANOSEC_F == inject_Z 1000000)%Q.
Proof. reflexivity. Qed.

Lemma dmul_exact x y a b :
  (x == inject_Z a)%Q -> (y == inject_Z b)%Q -> 0 <= a * b < 2 ^ 53 ->
  (dmul x y == inject_Z (a * b))%Q.
Proof. intros Hx Hy Hb. apply round64_exact; [done|]. by rewrite Hx, Hy, inject_Z_mult. Qed.

Lemma ddiv_exact x y a b :
  (x == inject_Z (a * b))%Q -> (y == inject_Z b)%Q -> 0 <= a < 2 ^ 53 -> b <> 0 ->
  (ddiv x y == inject_Z a)%Q.
Proof.
  intros Hx Hy Ha Hb. apply round64_exact; [done|].
  rewrite Hx, Hy, inject_Z_mult. apply Qdiv_mult_l.
  intros E. apply Hb. unfold Qeq in E. simpl in E. lia.
Qed.

Lemma pos_time_ms_to_ticks_ret ms : is_u32 ms -> pos_time_ms_to_ticks ms = Ret ms.
Proof.
  intros Hms. apply to_u32_ret; [|done]. unfold is_u32 in Hms.
  apply trunc_exact; [lia|].
  apply (ddiv_exact _ _ _ 1000); [|apply one_thousand_exact|lia|done].
  apply dmul_exact; [apply dbl_exact; lia | apply ticks_per_sec_exact | lia].
Qed.

Lemma pos_time_ticks_to_ms_ret ticks : is_u32 ticks -> pos_time_ticks_to_ms ticks = Ret ticks.
Proof.
  intros Ht. apply to_u32_ret; [|done]. unfold is_u32 in Ht.
  apply trunc_exact; [lia|].
  apply (ddiv_exact _ _ _ 1000); [|apply ticks_per_sec_exact|lia|done].
  apply dmul_exact; [apply dbl_exact; lia | apply one_thousand_exact | lia].
Qed.

Lemma Qnum_nonneg x n d : 0 <= n -> (x == n # d)%Q -> 0 <= Qnum x.
Proof.
  intros Hn Hx. unfold Qeq in Hx. simpl in Hx.
  assert (0 <= Qnum x * Z.pos d) by (rewrite Hx; apply Z.mul_nonneg_nonneg; lia). nia.
Qed.

Lemma million_div n : 1000000 * (n / 1000000) <= n /\ n < 1000000 * (n / 1000000 + 1).
Proof. pose proof (Z.div_mod n 1000000). pose proof (Z.mod_pos_bound n 1000000). lia. Qed.

(** The milliseconds of the nanosecond field: rounding does not reach the next
    millisecond. *)
Lemma nsec_part n :
  0 <= n < NSEC_PER_SEC ->
  let k := n / 1000000 in
  let q := ddiv (dbl n) POS_TICKS_PER_NANOSEC_F in
  (inject_Z k <= q)%Q /\ (q <= frac ((k + 1) * 2 ^ 20 - 1) 20)%Q /\ 0 <= k < 1000.
Proof.
  intros Hn. unfold NSEC_PER_SEC in Hn. destruct (million_div n) as [Hlo Hhi].
  cbv zeta. set (k := n / 1000000) in *. clearbody k.
  assert (0 <= k < 1000) as Hk by lia. assert (1000000 * k <= n < 1000000 * (k + 1)) as Hdiv by lia.
  set (x := (dbl n / POS_TICKS_PER_NANOSEC_F)%Q).
  assert (x == n # 1000000)%Q as Hx.
  { unfold x. rewrite ticks_per_nanosec_exact, dbl_exact by lia.
    unfold Qdiv, Qeq. simpl. lia. }
  change (ddiv (dbl n) POS_TICKS_PER_NANOSEC_F) with (round64 x). clearbody x.
  assert (0 <= Qnum x) as Hx0 by (apply (Qnum_nonneg x n 1000000); [lia | done]).
  split_and!; try lia.
  - change (inject_Z k) with (frac k 0). apply round64_ge; [done | split; lia |].
    rewrite Hx. unfold Qle. simpl. lia.
  - apply round64_le; [done | split; lia |].
    rewrite Hx. apply frac_le; [split; lia|]. cbn [Qnum Qden]. lia.
Qed.

Lemma pos_time_get_trunc now :
  nsec_valid now = true -> 0 <= tv_sec now ->
  let ms := tv_sec now * 1000 + tv_nsec now / 1000000 in
  ms < 2 ^ 33 - 1 ->
  trunc (dadd (dmul (dbl (tv_sec now)) POS_TICKS_PER_SEC_F)
              (ddiv (dbl (tv_nsec now)) POS_TICKS_PER_NANOSEC_F)) = ms.
Proof.
  intros Hv Hs ms Hms. unfold nsec_valid in Hv. rewrite andb_true_iff, Z.leb_le, Z.ltb_lt in Hv.
  destruct (nsec_part (tv_nsec now) Hv) as (Hlo & Hhi & Hk).
  set (k := tv_nsec now / 1000000) in *. set (q := ddiv _ _) in *. clearbody k q.
  assert (dmul (dbl (tv_sec now)) POS_TICKS_PER_SEC_F == inject_Z (tv_sec now * 1000))%Q as Ha.
  { apply dmul_exact; [apply dbl_exact; lia | apply ticks_per_sec_exact | lia]. }
  set (a := dmul _ _) in *. clearbody a. unfold dadd. set (x := (a + q)%Q).
  assert (inject_Z ms <= x)%Q as Hxl.
  { unfold x, ms. rewrite Ha, inject_Z_plus. apply Qplus_le_compat; [apply Qle_refl | done]. }
  assert (x <= frac ((ms + 1) * 2 ^ 20 - 1) 20)%Q as Hxh.
  { unfold x. rewrite Ha. eapply Qle_trans; [apply Qplus_le_compat; [apply Qle_refl | apply Hhi]|].
    unfold Qle, frac, ms. simpl. lia. }
  clearbody x. assert (0 <= Qnum x) as Hx0 by (unfold Qle in Hxl; simpl in Hxl; nia).
  apply trunc_between; [unfold ms; lia | |].
  - change (inject_Z ms) with (frac ms 0). apply round64_ge; [done | split; lia | done].
  - eapply Qle_lt_trans; [apply round64_le; [done | | exact Hxh]; split; lia|].
    unfold Qlt, frac. simpl. lia.
Qed.

Lemma Qnum_of_le z x : 0 <= z -> (inject_Z z <= x)%Q -> 0 <= Qnum x.
Proof. intros Hz Hl. unfold Qle in Hl. simpl in Hl. nia. Qed.

Lemma round64_ge_int x z : 0 <= z < 2 ^ 53 -> (inject_Z z <= x)%Q -> (inject_Z z <= round64 x)%Q.
Proof.
  intros Hz Hl. change (inject_Z z) with (frac z 0). apply round64_ge; [|split; lia|done].
  by apply (Qnum_of_le z); [lia|].
Qed.

Lemma trunc_ge x z : 0 <= z -> (inject_Z z <= x)%Q -> z <= trunc x.
Proof.
  intros Hz Hl. pose proof (Qnum_of_le z x Hz Hl). unfold trunc.
  rewrite (proj2 (Z.ltb_ge (Qnum x) 0)) by lia. rewrite <- (Qfloor_Z z). by apply Qfloor_resp_le.
Qed.

(** However long the system has been up, the sum does not fall back below. *)
Lemma pos_time_get_large now :
  nsec_valid now = true -> 8589934 <= tv_sec now ->
  2 ^ 32 <= trunc (dadd (dmul (dbl (tv_sec now)) POS_TICKS_PER_SEC_F)
                        (ddiv (dbl (tv_nsec now)) POS_TICKS_PER_NANOSEC_F)).
Proof.
  intros Hv Hs. unfold nsec_valid in Hv. rewrite andb_true_iff, Z.leb_le, Z.ltb_lt in Hv.
  destruct (nsec_part (tv_nsec now) Hv) as (Hlo & _ & Hk).
  assert (inject_Z 0 <= ddiv (dbl (tv_nsec now)) POS_TICKS_PER_NANOSEC_F)%Q as Hq.
  { eapply Qle_trans; [|exact Hlo]. rewrite <- Zle_Qle. lia. }
  clear Hlo Hk. set (q := ddiv _ _) in *. clearbody q.
  assert (inject_Z 8589934 <= dbl (tv_sec now))%Q as Hd.
  { apply round64_ge_int; [lia|]. by rewrite <- Zle_Qle. }
  assert (inject_Z 8589934000 <= dmul (dbl (tv_sec now)) POS_TICKS_PER_SEC_F)%Q as Ha.
  { apply round64_ge_int; [lia|]. rewrite ticks_per_sec_exact.
    change (inject_Z 8589934000) with (inject_Z 8589934 * inject_Z 1000)%Q.
    apply Qmult_le_compat_r; [done | discriminate]. }
  set (a := dmul _ _) in *. clearbody a.
  transitivity 8589934000; [lia|]. apply trunc_ge; [lia|]. apply round64_ge_int; [lia|].
  rewrite <- (Qplus_0_r (inject_Z 8589934000)). by apply Qplus_le_compat.
Qed.

Lemma pos_time_get_ticks now :
  nsec_valid now = true -> 0 <= tv_sec now ->
  let ms := tv_sec now * 1000 + tv_nsec now / 1000000 in
  pos_time_get (Some now) = if ms <? 2 ^ 32 then Ret ms else Undef.
Proof.
  intros Hv Hs ms. unfold pos_time_get, to_u32.
  pose proof Hv as Hr. unfold nsec_valid in Hr. rewrite andb_true_iff, Z.leb_le, Z.ltb_lt in Hr.
  assert (0 <= tv_nsec now / 1000000 < 1000) as Hk by (unfold NSEC_PER_SEC in Hr; zwrap).
  destruct (Z_lt_ge_dec ms (2 ^ 33 - 1)) as [Hms|Hms].
  - rewrite (pos_time_get_trunc now Hv Hs Hms). fold ms.
    by rewrite (proj2 (Z.leb_le 0 ms)) by (unfold ms; lia).
  - pose proof (pos_time_get_large now Hv ltac:(unfold ms in Hms; lia)) as Hl.
    set (t := trunc _) in *. clearbody t. rewrite (proj2 (Z.ltb_ge t _)), (proj2 (Z.ltb_ge ms _)) by lia.
    by rewrite andb_false_r.
Qed.

(** * Properties *)

(** On Linux a tick is a millisecond, and the two conversions are the
    identity on every 32-bit value, although they compute in [double]. *)
Theorem ms_ticks_roundtrip n :
  is_u32 n ->
  pos_time_ms_to_ticks n = Ret n /\ pos_time_ticks_to_ms n = Ret n.
Proof.
  intros Hn. split; [by apply pos_time_ms_to_ticks_ret | by apply pos_time_ticks_to_ms_ret].
Qed.

Example ms_ticks_roundtrip_witness :
  is_u32 4294967295 /\ pos_time_ms_to_ticks 4294967295 = Ret 4294967295 /\
  pos_time_ticks_to_ms 4294967295 = Ret 4294967295.
Proof.
  assert (is_u32 4294967295) as H by (unfold is_u32; lia). split; [exact H|].
  exact (ms_ticks_roundtrip _ H).
Defined.

(** C29. [pos_time_get] (and [pos_time_get_ms]) is the clock in whole
    milliseconds, rounded down: the floating-point sum never rounds up to the
    next millisecond. From 2^32 ms (49.7 days) of uptime on, however long it is,
    the conversion to [pos_time_t] has no defined result instead of wrapping. *)
Theorem pos_time_get_spec now :
  nsec_valid now = true -> 0 <= tv_sec now ->
  let ms := tv_sec now * 1000 + tv_nsec now / 1000000 in
  pos_time_get (Some now) = (if ms <? 2 ^ 32 then Ret ms else Undef) /\
  pos_time_get_ms (Some now) = (if ms <? 2 ^ 32 then Ret ms else Undef).
Proof.
  intros Hv Hs ms. pose proof (pos_time_get_ticks now Hv Hs) as Hget. fold ms in Hget.
  split; [done|]. unfold pos_time_get_ms. rewrite Hget.
  destruct (Z.ltb_spec ms (2 ^ 32)); [|done]. simpl. apply pos_time_ticks_to_ms_ret.
  unfold nsec_valid in Hv. rewrite andb_true_iff, Z.leb_le, Z.ltb_lt in Hv.
  unfold ms, NSEC_PER_SEC in *. zwrap.
Qed.

Example pos_time_get_spec_witness :
  pos_time_get (Some (mkTimespec 4294967 295999999)) = Ret 4294967295 /\
  pos_time_get (Some (mkTimespec 4294967 296000000)) = Undef /\
  pos_time_get_ms (Some (mkTimespec 9007199254740993 0)) = Undef.
Proof.
  split; [refine (proj1 (pos_time_get_spec (mkTimespec 4294967 295999999) eq_refl _))|].
  { vm_compute; congruence. }
  split; [refine (proj1 (pos_time_get_spec (mkTimespec 4294967 296000000) eq_refl _))
         |refine (proj2 (pos_time_get_spec (mkTimespec 9007199254740993 0) eq_refl _))];
    vm_compute; congruence.
Defined.
