(* ===== verification/PosixTask.v ===== *)
(** targets/posix/os_task.c: threads as tasks, the task counter, sleeping.
    The pthread calls and [nanosleep] are interfaces with their documented
    behaviour; the state is the caller's [struct pos_task], the static counter
    and the threads the kernel runs. *)

From S2P Require Import Prelude OsTypes Pthread PosixUtils OsalApi Binary64 PosixTime.
#[local] Open Scope Z_scope.

(** * Threads of the platform *)

Inductive policy := SCHED_OTHER | SCHED_FIFO | SCHED_RR.

(** Thread attributes [A], handles [H] (zero is [None]), start routines [F] with
    arguments [X], and the kernel's threads [W]. *)
Class PthreadThreads (A H F X W : Type) := {
  PTHREAD_STACK_MIN : Z;
  pthread_attr_init : Z * A;
  pthread_attr_getschedparam : A -> Z * Z;
  pthread_attr_setschedpolicy : A -> policy -> Z * A;
  pthread_attr_setstacksize : A -> Z -> Z * A;
  pthread_attr_setschedparam : A -> Z -> Z * A;
  pthread_create : A -> F -> X -> W -> Z * option H * W;
  pthread_cancel : H -> W -> Z * W;
  attr_policy : A -> policy;
  attr_stacksize : A -> Z;
  attr_priority : A -> Z;
  (* the threads created so far: handle, attributes, routine and argument *)
  spawned : W -> list (H * A * F * X);
  cancelled : W -> list H
}.

(** What POSIX documents of them. *)
Class PthreadThreadsLaws (A H F X W : Type) `{Errno, PthreadThreads A H F X W} : Prop := {
  stack_min_pos : 0 < PTHREAD_STACK_MIN;
  setschedpolicy_ok : forall a p a', pthread_attr_setschedpolicy a p = (0, a') ->
    attr_policy a' = p;
  setstacksize_ok : forall a n, PTHREAD_STACK_MIN <= n ->
    exists a', pthread_attr_setstacksize a n = (0, a') /\ attr_stacksize a' = n /\
      attr_policy a' = attr_policy a;
  setstacksize_small : forall a n, n < PTHREAD_STACK_MIN ->
    (pthread_attr_setstacksize a n).1 = EINVAL;
  setschedparam_ok : forall a p a', pthread_attr_setschedparam a p = (0, a') ->
    attr_priority a' = p /\ attr_stacksize a' = attr_stacksize a /\ attr_policy a' = attr_policy a;
  create_ok : forall a f x w h w', pthread_create a f x w = (0, h, w') ->
    exists i, h = Some i /\ spawned w' = spawned w ++ [(i, a, f, x)] /\ cancelled w' = cancelled w;
  create_err : forall a f x w r h w', pthread_create a f x w = (r, h, w') -> r <> 0 -> w' = w;
  cancel_ok : forall h w w', pthread_cancel h w = (0, w') ->
    spawned w' = spawned w /\ cancelled w' = cancelled w ++ [h];
  cancel_err : forall h w r w', pthread_cancel h w = (r, w') -> r <> 0 -> w' = w
}.

(** [struct pos_task]: fields before their first assignment are indeterminate;
    [param] is its [sched_priority]. *)
Record pos_task (A H : Type) := mkPosTask {
  handle : option H;
  attr : A;
  param : Z;
  name : list byte
}.
Arguments mkPosTask {A H} handle attr param name.
Arguments handle {A H} p.
Arguments attr {A H} p.
Arguments param {A H} p.
Arguments name {A H} p.

(** The state the functions share: the counter and the kernel. *)
Record tasks (W : Type) := mkTasks { s_task_count : Z; kernel : W }.
Arguments mkTasks {W} s_task_count kernel.
Arguments s_task_count {W} t.
Arguments kernel {W} t.

Section PosixTask.
Context {A H F X W : Type} `{Errno, PthreadThreads A H F X W}.

(** The stack size the code asks for: the maximum with the platform's minimum,
    stored back in the [uint16_t] parameter. *)
Definition clamp_stack (stack_size : Z) : Z :=
  u16 (if stack_size <? PTHREAD_STACK_MIN then PTHREAD_STACK_MIN else stack_size).

(** [t] and [func] are null or not; the result, the task and the state. *)
Definition pos_task_init (t : option (pos_task A H)) (nm : list byte) (func : option F) (arg : X)
    (prio stack_size : Z) (st : tasks W) : pos_error * option (pos_task A H) * tasks W :=
  match t, func with
  | Some t, Some func =>
      let exit ret t st := (map_posix_to_osal_error ret, Some t, st) in
      let '(ret, a) := pthread_attr_init in
      let t := mkPosTask (handle t) a (param t) (name t) in
      success_or_exit ret (exit ret t st)
      (let '(ret, p) := pthread_attr_getschedparam (attr t) in
       let t := mkPosTask (handle t) (attr t) p (name t) in
       success_or_exit ret (exit ret t st)
       (let '(ret, a) := pthread_attr_setschedpolicy (attr t) SCHED_RR in
        let t := mkPosTask (handle t) a (param t) (name t) in
        success_or_exit ret (exit ret t st)
        (let stack_size := clamp_stack stack_size in
         let '(ret, a) := pthread_attr_setstacksize (attr t) stack_size in
         let t := mkPosTask (handle t) a (param t) (name t) in
         success_or_exit ret (exit ret t st)
         (let t := mkPosTask (handle t) (attr t) prio (name t) in
          let '(ret, a) := pthread_attr_setschedparam (attr t) (param t) in
          let t := mkPosTask (handle t) a (param t) (name t) in
          success_or_exit ret (exit ret t st)
          (let t := mkPosTask (handle t) (attr t) (param t) nm in
           let '(ret, h, w) := pthread_create (attr t) func arg (kernel st) in
           let t := mkPosTask h (attr t) (param t) (name t) in
           let st := mkTasks (s_task_count st) w in
           success_or_exit ret (exit ret t st)
           (exit ret t (mkTasks (i32 (s_task_count st + 1)) (kernel st))))))))
  | _, _ => (POS_INVALID_PARAM, t, st)
  end.

Definition pos_task_remove (t : option (pos_task A H)) (st : tasks W) : pos_error * tasks W :=
  let ret := match t with None => EINVAL | Some _ => 0 end in
  success_or_exit ret (map_posix_to_osal_error ret, st)
  (let h := match t with Some t => handle t | None => None end in
   let ret := match h with None => EINVAL | Some _ => 0 end in
   success_or_exit ret (map_posix_to_osal_error ret, st)
   match h with
   | None => (map_posix_to_osal_error ret, st)
   | Some h =>
       let '(ret, w) := pthread_cancel h (kernel st) in
       let st := mkTasks (s_task_count st) w in
       success_or_exit ret (map_posix_to_osal_error ret, st)
       (map_posix_to_osal_error ret, mkTasks (i32 (s_task_count st - 1)) (kernel st))
   end).

Definition pos_task_count (st : tasks W) : Z := u8 (s_task_count st).

(** * Calls in sequence *)

Inductive event :=
| EInit (t : option (pos_task A H)) (nm : list byte) (func : option F) (arg : X) (prio stack_size : Z)
| ERemove (t : option (pos_task A H)).

(** The result, and whether it was a successful creation or removal. *)
Definition task_step (ev : event) (st : tasks W) : pos_error * tasks W :=
  match ev with
  | EInit t nm func arg prio stack_size =>
      let '(e, _, st) := pos_task_init t nm func arg prio stack_size st in (e, st)
  | ERemove t => pos_task_remove t st
  end.

Fixpoint task_run (evs : list event) (st : tasks W) : list (event * pos_error) * tasks W :=
  match evs with
  | [] => ([], st)
  | ev :: evs =>
      let '(e, st) := task_step ev st in
      let '(rs, st) := task_run evs st in
      ((ev, e) :: rs, st)
  end.

Definition delta (r : event * pos_error) : Z :=
  match r with
  | (EInit _ _ _ _ _ _, POS_OK) => 1
  | (ERemove _, POS_OK) => -1
  | _ => 0
  end.

(** Successful creations minus successful removals. *)
Definition balance (rs : list (event * pos_error)) : Z := foldr (fun r n => delta r + n) 0 rs.

(** * Lemmas *)

Lemma success_or_exit_ok {R} (a b : R) : success_or_exit 0 a b = b.
Proof. done. Qed.

Lemma success_or_exit_err {R} r (a b : R) : r <> 0 -> success_or_exit r a b = a.
Proof. intros. unfold success_or_exit. by rewrite (proj2 (Z.eqb_neq _ _)). Qed.

Context `{!PthreadThreadsLaws A H F X W}.

Lemma map_posix_err_neq r : r <> 0 -> map_posix_to_osal_error r <> POS_OK.
Proof. by intros ? ?%map_posix_ok_iff. Qed.

(** Splits the statements of a [SuccessOrExit] chain. *)
Ltac exit_step :=
  match goal with
  | |- context [success_or_exit ?r _ _] =>
      let Hr := fresh "Hr" in
      destruct (Z.eq_dec r 0) as [Hr|Hr];
      [rewrite Hr, success_or_exit_ok | rewrite success_or_exit_err by exact Hr]
  end.

(** What a call that fails leaves alone, and what one that succeeds did. *)
Lemma pos_task_init_inv t nm func arg prio stack_size st e t' st' :
  pos_task_init t nm func arg prio stack_size st = (e, t', st') ->
  (e = POS_OK /\ PTHREAD_STACK_MIN <= clamp_stack stack_size /\
   exists f i a, func = Some f /\ t' = Some (mkPosTask (Some i) a prio nm) /\
     s_task_count st' = i32 (s_task_count st + 1) /\
     spawned (kernel st') = spawned (kernel st) ++ [(i, a, f, arg)] /\
     cancelled (kernel st') = cancelled (kernel st) /\
     attr_policy a = SCHED_RR /\ attr_stacksize a = clamp_stack stack_size /\
     attr_priority a = prio) \/
  (e <> POS_OK /\ st' = st).
Proof.
  unfold pos_task_init. destruct st as [n w].
  destruct t as [t|]; [|intros [= <- <- <-]; by right].
  destruct func as [f|]; [|intros [= <- <- <-]; by right].
  destruct pthread_attr_init as [r1 a1]. cbn [attr handle param name].
  exit_step; [|intros [= <- <- <-]; right; eauto using map_posix_err_neq].
  destruct (pthread_attr_getschedparam a1) as [r2 p2]. cbn [attr handle param name].
  exit_step; [|intros [= <- <- <-]; right; eauto using map_posix_err_neq].
  destruct (pthread_attr_setschedpolicy a1 SCHED_RR) as [r3 a3] eqn:E3. cbn [attr handle param name].
  exit_step; [subst r3|intros [= <- <- <-]; right; eauto using map_posix_err_neq].
  apply setschedpolicy_ok in E3.
  destruct (pthread_attr_setstacksize a3 (clamp_stack stack_size)) as [r4 a4] eqn:E4.
  cbn [attr handle param name].
  exit_step; [subst r4|intros [= <- <- <-]; right; eauto using map_posix_err_neq].
  assert (PTHREAD_STACK_MIN <= clamp_stack stack_size) as Hmin.
  { destruct (Z_le_gt_dec PTHREAD_STACK_MIN (clamp_stack stack_size)); [done|].
    pose proof (setstacksize_small a3 (clamp_stack stack_size)) as Hs. rewrite E4 in Hs.
    pose proof errno_pos as Hp. rewrite Forall_forall in Hp.
    specialize (Hp EINVAL). simpl in Hs. rewrite <- Hs in Hp by lia.
    exfalso. assert (0 < 0); [|lia]. apply Hp. rewrite Hs by lia. set_solver. }
  destruct (setstacksize_ok a3 _ Hmin) as (a4' & E4' & Hst & Hpol).
  rewrite E4 in E4'. injection E4' as <-.
  destruct (pthread_attr_setschedparam a4 prio) as [r5 a5] eqn:E5.
  cbn [attr handle param name kernel].
  exit_step; [subst r5|intros [= <- <- <-]; right; eauto using map_posix_err_neq].
  apply setschedparam_ok in E5 as (Hprio & Hst5 & Hpol5).
  destruct (pthread_create a5 f arg w) as [[r6 h] w'] eqn:E6. cbn [attr handle param name kernel s_task_count].
  exit_step; [subst r6|].
  - apply create_ok in E6 as (i & -> & Hsp & Hca). intros [= <- <- <-]. left. split; [done|].
    split; [done|]. exists f, i, a5. split_and!; try done; congruence.
  - apply create_err in E6; [|done]. intros [= <- <- <-]. right. subst.
    eauto using map_posix_err_neq.
Qed.

Lemma pos_task_init_cancelled t nm func arg prio stack_size st e t' st' :
  pos_task_init t nm func arg prio stack_size st = (e, t', st') ->
  (e = POS_OK /\ length (spawned (kernel st')) = S (length (spawned (kernel st))) /\
   cancelled (kernel st') = cancelled (kernel st)) \/ (e <> POS_OK /\ st' = st).
Proof.
  intros E. destruct (pos_task_init_inv _ _ _ _ _ _ _ _ _ _ E)
    as [(-> & _ & ? & ? & ? & _ & _ & _ & Hsp & Hc & _)|]; [left|by right].
  by rewrite Hsp, length_app, Nat.add_comm.
Qed.

Lemma pos_task_remove_inv t st e st' :
  pos_task_remove t st = (e, st') ->
  (e = POS_OK /\ s_task_count st' = i32 (s_task_count st - 1) /\
   exists tk h, t = Some tk /\ handle tk = Some h /\
     spawned (kernel st') = spawned (kernel st) /\
     cancelled (kernel st') = cancelled (kernel st) ++ [h]) \/
  (e <> POS_OK /\ st' = st).
Proof.
  assert (EINVAL <> 0) as Hne.
  { pose proof errno_pos as Hp. rewrite Forall_forall in Hp.
    specialize (Hp EINVAL ltac:(set_solver)). lia. }
  unfold pos_task_remove. destruct st as [n w]. destruct t as [tk|].
  2: { rewrite success_or_exit_err by done. intros [= <- <-]. right. eauto using map_posix_err_neq. }
  rewrite success_or_exit_ok. destruct (handle tk) as [h|] eqn:Hh.
  2: { rewrite success_or_exit_err by done. intros [= <- <-]. right. eauto using map_posix_err_neq. }
  rewrite success_or_exit_ok. cbn [kernel s_task_count].
  destruct (pthread_cancel h w) as [r w'] eqn:E.
  destruct (Z.eq_dec r 0) as [->|Hr].
  - rewrite success_or_exit_ok. apply cancel_ok in E as [? ?].
    intros [= <- <-]. left. split_and!; try done. exists tk, h. by split_and!.
  - rewrite success_or_exit_err by done. apply cancel_err in E; [|done]. subst w'.
    intros [= <- <-]. right. eauto using map_posix_err_neq.
Qed.

(** The task contract: [None] is the null function. *)
#[local] Instance posix_osal_task : OsalTask (pos_task A H) (option F) X (tasks W) := {
  osal_task_init := fun nm func arg prio stack_size t st =>
    let '(e, t', st) := pos_task_init (Some t) nm func arg prio stack_size st in
    Ret (e, default t t', st);
  osal_task_remove := fun t st => Ret (pos_task_remove (Some t) st);
  tasks_started := fun st => length (spawned (kernel st));
  tasks_removed := fun st => length (cancelled (kernel st))
}.

#[local] Arguments pos_task_init : simpl never.
#[local] Arguments pos_task_remove : simpl never.

Lemma posix_task_laws : OsalTaskLaws (pos_task A H) (option F) X (tasks W).
Proof.
  split; simpl.
  - intros nm f x prio size t st e t' st'.
    destruct (pos_task_init (Some t) nm f x prio size st) as [[e1 t1] st1] eqn:E. intros [= <- <- <-].
    destruct (pos_task_init_cancelled _ _ _ _ _ _ _ _ _ _ E) as [(-> & -> & ->)|[He ->]].
    + simpl. by rewrite Nat.add_comm.
    + by rewrite bool_decide_eq_false_2, Nat.add_0_r by done.
  - intros t st e st' [= E].
    destruct (pos_task_remove_inv _ _ _ _ E) as [(-> & _ & ? & ? & _ & _ & -> & ->)|[He ->]].
    + by rewrite length_app.
    + by rewrite bool_decide_eq_false_2, Nat.add_0_r by done.
Qed.

Lemma task_step_count ev st e st' :
  task_step ev st = (e, st') ->
  s_task_count st' = s_task_count st /\ delta (ev, e) = 0 \/
  s_task_count st' = i32 (s_task_count st + delta (ev, e)).
Proof.
  destruct ev as [t nm f x prio sz|t]; simpl.
  - destruct (pos_task_init t nm f x prio sz st) as [[e' t'] st1] eqn:E. intros [= <- <-].
    destruct (pos_task_init_inv _ _ _ _ _ _ _ _ _ _ E) as [(-> & _ & ? & ? & ? & _ & _ & Hn & _)|[He ->]].
    + by right.
    + left. by destruct e'.
  - intros E. destruct (pos_task_remove_inv _ _ _ _ E) as [(-> & Hn & _)|[He ->]].
    + by right.
    + left. by destruct e.
Qed.

(** The threads created are those of the successful creations. *)
Definition is_create (r : event * pos_error) : bool :=
  match r with (EInit _ _ _ _ _ _, POS_OK) => true | _ => false end.

Lemma task_step_spawned ev st e st' :
  task_step ev st = (e, st') ->
  length (spawned (kernel st')) =
    (length (spawned (kernel st)) + if is_create (ev, e) then 1 else 0)%nat.
Proof.
  destruct ev as [t nm f x prio sz|t]; simpl.
  - destruct (pos_task_init t nm f x prio sz st) as [[e' t'] st1] eqn:E. intros [= <- <-].
    destruct (pos_task_init_inv _ _ _ _ _ _ _ _ _ _ E)
      as [(-> & _ & ? & ? & ? & _ & _ & _ & Hsp & _)|[He ->]].
    + by rewrite Hsp, length_app.
    + destruct e'; try done; lia.
  - intros E. destruct (pos_task_remove_inv _ _ _ _ E) as [(-> & _ & ? & ? & _ & _ & -> & _)|[He ->]]; lia.
Qed.

Lemma task_run_count evs st rs st' :
  task_run evs st = (rs, st') -> s_task_count st = i32 (s_task_count st) ->
  s_task_count st' = i32 (s_task_count st + balance rs) /\
  length (spawned (kernel st')) =
    (length (spawned (kernel st)) + length (filter (fun r => is_create r = true) rs))%nat.
Proof.
  revert st rs. induction evs as [|ev evs IH]; simpl; intros st rs.
  - intros [= <- <-] Hi. simpl. rewrite Z.add_0_r. split; [done|lia].
  - destruct (task_step ev st) as [e st1] eqn:E. destruct (task_run evs st1) as [rs' st2] eqn:E'.
    intros [= <- <-] Hi.
    assert (s_task_count st1 = i32 (s_task_count st + delta (ev, e))) as H1c.
    { destruct (task_step_count _ _ _ _ E) as [[Hc Hd]|Hc]; [|done].
      rewrite Hc, Hd, Z.add_0_r. done. }
    destruct (IH st1 rs' E') as [Hc Hs]; [rewrite H1c; clear; zwrap|].
    split.
    + rewrite Hc, H1c. change (balance ((ev, e) :: rs')) with (delta (ev, e) + balance rs').
      rewrite i32_add. f_equal. lia.
    + rewrite Hs, (task_step_spawned _ _ _ _ E), filter_cons.
      destruct (is_create (ev, e)); [rewrite decide_True by done|rewrite decide_False by done];
        simpl; lia.
Qed.

(** * Properties *)

(** [pos_task_init] answers POS_OK exactly when it has started one thread, at
    the function and argument given, round-robin, at the priority given, and
    with the larger of the stack size given and the platform's minimum; else it
    has started none and counted none. Where the minimum does not fit the 16-bit
    size (PTHREAD_STACK_MIN of 64 KiB or more) it cannot succeed. *)
Theorem pos_task_init_spec t nm func arg prio stack_size st :
  is_u16 stack_size ->
  let '(e, t', st') := pos_task_init t nm func arg prio stack_size st in
  (e = POS_OK /\ PTHREAD_STACK_MIN < 2 ^ 16 /\
   exists f i a, func = Some f /\ t' = Some (mkPosTask (Some i) a prio nm) /\
     s_task_count st' = i32 (s_task_count st + 1) /\
     spawned (kernel st') = spawned (kernel st) ++ [(i, a, f, arg)] /\
     cancelled (kernel st') = cancelled (kernel st) /\
     attr_policy a = SCHED_RR /\ attr_stacksize a = Z.max stack_size PTHREAD_STACK_MIN /\
     attr_priority a = prio) \/
  (e <> POS_OK /\ st' = st).
Proof.
  intros Hs. destruct (pos_task_init t nm func arg prio stack_size st) as [[e t'] st'] eqn:E.
  destruct (pos_task_init_inv _ _ _ _ _ _ _ _ _ _ E) as [(-> & Hmin & f & i & a & Hok)|]; [left|by right].
  split; [done|]. unfold clamp_stack in *. pose proof stack_min_pos as Hp.
  destruct (Z.ltb_spec stack_size PTHREAD_STACK_MIN) as [Hlt|Hge].
  - assert (PTHREAD_STACK_MIN < 2 ^ 16) as Hsm.
    { pose proof (u16_range PTHREAD_STACK_MIN) as [_ ?]. lia. }
    rewrite u16_small in * by (split; lia). split; [done|].
    rewrite Z.max_r by lia. by exists f, i, a.
  - rewrite u16_small in * by done. split; [destruct Hs; lia|].
    rewrite Z.max_l by lia. by exists f, i, a.
Qed.

(** The task counter after any sequence of creations and removals, some of
    which fail, on any tasks: it is the number of successful creations minus
    the number of successful removals, so [pos_task_count] is that number
    modulo 256; and the kernel has exactly the threads that were created. *)
Theorem task_count_balance evs w rs st' :
  task_run evs (mkTasks 0 w) = (rs, st') ->
  s_task_count st' = i32 (balance rs) /\
  pos_task_count st' = balance rs mod 256 /\
  length (spawned (kernel st')) =
    (length (spawned w) + length (filter (fun r => is_create r = true) rs))%nat.
Proof.
  intros E. destruct (task_run_count _ _ _ _ E eq_refl) as [Hc Hs]. simpl in Hc.
  split_and!; [done | | done]. unfold pos_task_count. rewrite Hc. clear. zwrap.
Qed.
End PosixTask.

(** * Sleeping *)

(** [nanosleep]: the status, the remaining time, and the new state of the world,
    in which [elapsed] nanoseconds have passed and [interruptions] more signals
    are still to come. *)
Class NanoSleep (W : Type) := {
  nanosleep : timespec -> W -> sysret * timespec * W;
  elapsed : W -> Z;
  interruptions : W -> nat
}.

Definition sleepable (ts : timespec) : Prop := nsec_valid ts = true /\ 0 <= tv_sec ts.

Definition interrupted `{Errno} (r : sysret) : bool := (ret r =? -1) && (errno r =? EINTR).

Class NanoSleepLaws (W : Type) `{Errno, NanoSleep W} : Prop := {
  nanosleep_done : forall req w r rem w', sleepable req -> nanosleep req w = (r, rem, w') ->
    interrupted r = false -> ret r = 0 /\ elapsed w + to_ns req <= elapsed w';
  nanosleep_interrupted : forall req w r rem w', sleepable req -> nanosleep req w = (r, rem, w') ->
    interrupted r = true ->
    sleepable rem /\ elapsed w + (to_ns req - to_ns rem) <= elapsed w' /\
    (interruptions w' < interruptions w)%nat
}.

Section Sleep.
Context {W : Type} `{Errno, NanoSleep W}.

(** The loop, and [None] when the fuel runs out. *)
Fixpoint sleep_loop (fuel : nat) (sleep_time : timespec) (w : W) : option W :=
  let '(r, remaining, w) := nanosleep sleep_time w in
  if interrupted r then
    match fuel with
    | O => None
    | S fuel => sleep_loop fuel remaining w
    end
  else Some w.

Definition pos_task_sleep_ms (fuel : nat) (ms : Z) (w : W) : option W :=
  sleep_loop fuel {| tv_sec := ms / 1000; tv_nsec := u32 ((ms mod 1000) * 1000000) |} w.

Definition pos_task_sleep (fuel : nat) (ticks : Z) (w : W) : outcome (option W) :=
  do ms <- pos_time_ticks_to_ms ticks; Ret (pos_task_sleep_ms fuel ms w).

Context `{!NanoSleepLaws W}.

Lemma sleep_loop_spec fuel ts w :
  sleepable ts -> (interruptions w <= fuel)%nat ->
  exists w', sleep_loop fuel ts w = Some w' /\ elapsed w + to_ns ts <= elapsed w'.
Proof.
  revert ts w. induction fuel as [|fuel IH]; intros ts w Hts Hf; simpl;
    destruct (nanosleep ts w) as [[r rem] w1] eqn:E; destruct (interrupted r) eqn:Hr.
  - destruct (nanosleep_interrupted _ _ _ _ _ Hts E Hr) as (_ & _ & ?). lia.
  - destruct (nanosleep_done _ _ _ _ _ Hts E Hr) as [_ ?]. by exists w1.
  - destruct (nanosleep_interrupted _ _ _ _ _ Hts E Hr) as (Hrem & Hel & Hlt).
    destruct (IH rem w1 Hrem) as (w' & -> & ?); [lia|]. exists w'. split; [done|lia].
  - destruct (nanosleep_done _ _ _ _ _ Hts E Hr) as [_ ?]. by exists w1.
Qed.

Lemma posix_sleep_enough n w : is_u32 n ->
  exists w', pos_task_sleep_ms (interruptions w) n w = Some w' /\
    elapsed w + n * 1000000 <= elapsed w'.
Proof.
  intros Hn. unfold is_u32 in Hn.
  assert (u32 ((n mod 1000) * 1000000) = (n mod 1000) * 1000000) as E.
  { apply u32_small. zwrap. }
  set (ts := mkTimespec (n / 1000) ((n mod 1000) * 1000000)).
  assert (sleepable ts) as Hts.
  { split; [|simpl; zwrap]. unfold nsec_valid, NSEC_PER_SEC. simpl.
    rewrite (proj2 (Z.leb_le _ _)), (proj2 (Z.ltb_lt _ _)); [done| |]; zwrap. }
  destruct (sleep_loop_spec _ ts w Hts (le_n _)) as (w' & Hw & Hel).
  exists w'. split; [unfold pos_task_sleep_ms; by rewrite E|].
  assert (to_ns ts = n * 1000000) as <-; [|done].
  unfold to_ns, NSEC_PER_SEC. simpl. pose proof (Z.div_mod n 1000). lia.
Qed.

(** C34. Sleeping ends, whatever signals interrupt it, and never early: with as
    much fuel as there are interruptions the loop finishes, and at least the
    milliseconds asked for have elapsed; a sleep in ticks is one in
    milliseconds. *)
Theorem sleep_not_early n w :
  is_u32 n ->
  exists w', pos_task_sleep_ms (interruptions w) n w = Some w' /\
    pos_task_sleep (interruptions w) n w = Ret (Some w') /\
    elapsed w + n * 1000000 <= elapsed w'.
Proof.
  intros Hn. destruct (posix_sleep_enough n w Hn) as (w' & Hw & Hel). exists w'.
  split_and!; [done| |done]. unfold pos_task_sleep. rewrite pos_time_ticks_to_ms_ret by done. simpl. by rewrite Hw.
Qed.
End Sleep.

(** * The other calls *)

(** [sched_yield] and [pthread_self], seen by the current thread of the system [W]. *)
Class PosixScheduler (H W : Type) := {
  sched_yield : W -> W;
  pthread_self : W -> H
}.

Section Scheduler.
Context {H W : Type} `{PosixScheduler H W}.

Definition pos_get_current_task_id (w : W) : H := pthread_self w.
Definition pos_task_yield (w : W) : W := sched_yield w.

Definition pos_sched_started : bool := true.

(** The loop yields for ever: no amount of fuel makes it return. *)
Fixpoint pos_sched_start (fuel : nat) (w : W) : outcome W :=
  match fuel with
  | O => Block
  | S fuel => pos_sched_start fuel (pos_task_yield w)
  end.

Lemma pos_sched_start_never fuel w : pos_sched_start fuel w = Block.
Proof. revert w. induction fuel; intros w; simpl; auto. Qed.

(** Sleeping as an interface; a tick is a millisecond. *)
#[local] Instance posix_osal_sleep `{Errno, NanoSleep W} : OsalSleep H W := {
  osal_task_yield := pos_task_yield;
  osal_task_sleep := fun n w => do r <- pos_task_sleep (interruptions w) n w; of_option Block r;
  osal_task_sleep_ms := fun n w => of_option Block (pos_task_sleep_ms (interruptions w) n w);
  osal_get_current_task_id := pos_get_current_task_id;
  elapsed_ns := elapsed;
  tick_ns := 1000000
}.

Lemma posix_sleep_laws `{NanoSleepLaws W} :
  (forall w, elapsed w <= elapsed (sched_yield w)) -> OsalSleepLaws H W.
Proof.
  intros Hy. split; simpl; [done| |].
  - intros n w Hn. destruct (posix_sleep_enough n w Hn) as (w' & Hw & Hel). exists w'.
    unfold pos_task_sleep. rewrite pos_time_ticks_to_ms_ret by done. simpl. by rewrite Hw.
  - intros n w Hn. destruct (posix_sleep_enough n w Hn) as (w' & Hw & Hel). exists w'. by rewrite Hw.
Qed.
End Scheduler.

(** * Witnesses *)

Section Witness.
#[local] Existing Instance linux_errno.

(** Threads named by numbers that run routines named by numbers. *)
Record demo_attr := mkDemoAttr { demo_policy : policy; demo_stack : Z; demo_prio : Z }.

Definition demo_world : Type := list (nat * demo_attr * nat * nat) * list nat.

#[local] Instance demo_threads : PthreadThreads demo_attr nat nat nat demo_world := {
  PTHREAD_STACK_MIN := 16384;
  pthread_attr_init := (0, mkDemoAttr SCHED_OTHER 8388608 0);
  pthread_attr_getschedparam a := (0, demo_prio a);
  pthread_attr_setschedpolicy a p := (0, mkDemoAttr p (demo_stack a) (demo_prio a));
  pthread_attr_setstacksize a n :=
    if n <? 16384 then (EINVAL, a) else (0, mkDemoAttr (demo_policy a) n (demo_prio a));
  pthread_attr_setschedparam a p :=
    if p <? 100 then (0, mkDemoAttr (demo_policy a) (demo_stack a) p) else (EINVAL, a);
  pthread_create a f x w := (0, Some (length w.1), (w.1 ++ [(length w.1, a, f, x)], w.2));
  pthread_cancel h w := if bool_decide (h < length w.1)%nat then (0, (w.1, w.2 ++ [h])) else (3, w);
  attr_policy := demo_policy;
  attr_stacksize := demo_stack;
  attr_priority := demo_prio;
  spawned w := w.1;
  cancelled w := w.2
}.

#[local] Instance demo_threads_laws : PthreadThreadsLaws demo_attr nat nat nat demo_world.
Proof.
  split; simpl; try done.
  - by intros a p a' [= <-].
  - intros a n Hn. rewrite (proj2 (Z.ltb_ge _ _)) by done. by eexists.
  - intros a n Hn. by rewrite (proj2 (Z.ltb_lt _ _)).
  - intros a p a'. destruct (p <? 100); [|done]. by intros [= <-].
  - intros a f x w h w' [= <- <-]. by eexists.
  - by intros a f x w r h w' [= <- _ _].
  - intros h w w'. case_bool_decide; [|done]. by intros [= <-].
  - intros h w r w'. case_bool_decide; by intros [= <- <-].
Qed.

Definition demo_task : pos_task demo_attr nat := mkPosTask None (mkDemoAttr SCHED_OTHER 0 0) 0 [].

Example pos_task_init_spec_witness :
  is_u16 1024 /\
  let '(e, t', st') := pos_task_init (Some demo_task) [x61] (Some 7%nat) 9%nat 2 1024
                         (mkTasks 0 ([], [])) in
  (e = POS_OK /\ 16384 < 2 ^ 16 /\
   exists f i a, Some 7%nat = Some f /\ t' = Some (mkPosTask (Some i) a 2 [x61]) /\
     s_task_count st' = i32 (0 + 1) /\ spawned (kernel st') = [] ++ [(i, a, f, 9%nat)] /\
     cancelled (kernel st') = [] /\
     attr_policy a = SCHED_RR /\ attr_stacksize a = Z.max 1024 16384 /\ attr_priority a = 2) \/
  (e <> POS_OK /\ st' = mkTasks 0 ([], [])).
Proof.
  assert (is_u16 1024) as Hu by (unfold is_u16; lia). split; [exact Hu|].
  exact (pos_task_init_spec (Some demo_task) [x61] (Some 7%nat) 9%nat 2 1024
           (mkTasks 0 ([], [])) Hu).
Defined.

(** A removal twice of the same task is counted twice. *)
Example task_count_balance_witness :
  let t := Some (mkPosTask (Some 0%nat) (mkDemoAttr SCHED_RR 16384 2) 2 [x61]) in
  exists rs st', task_run [EInit (Some demo_task) [x61] (Some 7%nat) 9%nat 2 1024; ERemove t; ERemove t]
      (mkTasks 0 ([], [])) = (rs, st') /\
    s_task_count st' = i32 (balance rs) /\ pos_task_count st' = balance rs mod 256 /\
    balance rs mod 256 = 255.
Proof.
  intros t.
  destruct (task_run [EInit (Some demo_task) [x61] (Some 7%nat) 9%nat 2 1024; ERemove t; ERemove t]
    (mkTasks 0 ([], []))) as [rs st'] eqn:E.
  exists rs, st'. split; [reflexivity|]. destruct (task_count_balance _ _ _ _ E) as (Hc & Hn & _).
  split_and!; [exact Hc | exact Hn |]. vm_compute in E. injection E as <- <-. vm_compute. reflexivity.
Defined.

Lemma of_ns_spec x :
  0 <= x -> let ts := mkTimespec (x / NSEC_PER_SEC) (x mod NSEC_PER_SEC) in
  sleepable ts /\ to_ns ts = x.
Proof.
  intros Hx. assert (0 < NSEC_PER_SEC) as Hp by done. cbv zeta.
  pose proof (Z.mod_pos_bound x NSEC_PER_SEC Hp) as [? ?].
  unfold sleepable, nsec_valid, to_ns. cbn [tv_sec tv_nsec].
  rewrite (proj2 (Z.leb_le _ _)), (proj2 (Z.ltb_lt _ _)) by done.
  split_and!; [done | by apply Z.div_pos |]. rewrite Z.mul_comm. symmetry. by apply Z.div_mod.
Qed.

(** A sleeper: the time, and after how long each signal comes. *)
#[local] Instance demo_sleep : NanoSleep (Z * list Z) := {
  nanosleep req w :=
    match w.2 with
    | d :: ds =>
        let left := to_ns req - d in
        if (0 <=? d) && (0 <=? left)
        then (sys_err EINTR, mkTimespec (left / NSEC_PER_SEC) (left mod NSEC_PER_SEC), (w.1 + d, ds))
        else (sys_ok, req, (w.1 + to_ns req, []))
    | [] => (sys_ok, req, (w.1 + to_ns req, []))
    end;
  elapsed w := w.1;
  interruptions w := length w.2
}.

#[local] Instance demo_sleep_laws : NanoSleepLaws (Z * list Z).
Proof.
  split; simpl; intros req [now [|d ds]] r rem w' Hreq; simpl;
    try (intros [= <- <- <-]; unfold interrupted; simpl; intros; try done; lia).
  - destruct (_ && _); intros [= <- <- <-]; unfold interrupted; simpl; intros; try done; lia.
  - destruct (_ && _) eqn:Hd; intros [= <- <- <-]; [|done]. intros _.
    rewrite andb_true_iff, !Z.leb_le in Hd. simpl.
    destruct (of_ns_spec (to_ns req - d)) as [? ->]; [lia|]. split_and!; [done | lia | lia].
Qed.

Example sleep_not_early_witness :
  exists w' : Z * list Z, pos_task_sleep_ms 2 1500 (0, [700000000; 0]) = Some w' /\
    pos_task_sleep 2 1500 (0, [700000000; 0]) = Ret (Some w') /\ 0 + 1500 * 1000000 <= elapsed w'.
Proof.
  refine (sleep_not_early 1500 ((0, [700000000; 0]) : Z * list Z) _). unfold is_u32. lia.
Defined.
End Witness.
