(* ===== verification/PosixTaskThreads.v ===== *)
(** targets/posix/os_task.c shared by threads: [s_task_count += 1] and
    [s_task_count -= 1] read the static counter and write it back, and no lock
    is held in between. How far the counter can be from the truth: it never
    exceeds the threads created, nor falls below the cancellations; it is exact
    while no update disturbs another; and any number of creations at once can be
    counted as one. *)

From S2P Require Import Prelude OsTypes Pthread PosixUtils PosixTask.
#[local] Open Scope Z_scope.

(** A thread inside a function, past its successful [pthread_create] or
    [pthread_cancel]; [d] is what it adds to the counter, [n] what it is about
    to write. *)
Inductive count_position :=
| CountLoad (d : Z)
| CountStore (d n : Z).

Record shared (W : Type) := mkShared {
  state : tasks W;
  counting : gmap tid count_position
}.
Arguments mkShared {W} state counting.
Arguments state {W} s.
Arguments counting {W} s.

Section PosixTaskThreads.
Context {A H F X W : Type} `{Errno, PthreadThreads A H F X W}.

(** A call up to its update of the counter, or one half of an update. *)
Inductive count_move :=
| CBeginInit (t : tid) (task : option (pos_task A H)) (nm : list byte) (func : option F) (arg : X)
    (prio stack_size : Z)
| CBeginRemove (t : tid) (task : option (pos_task A H))
| CRun (t : tid).

Definition with_kernel (w : W) (s : tasks W) : tasks W := mkTasks (s_task_count s) w.

(** Everything before the update touches the caller's task and the kernel; a
    call that fails returns without an update. *)
Definition count_begin (t : tid) (d : Z) (e : pos_error) (w : W) (c : shared W) : shared W :=
  mkShared (with_kernel w (state c))
    (if bool_decide (e = POS_OK) then <[t := CountLoad d]> (counting c) else counting c).

Definition count_run (t : tid) (p : count_position) (c : shared W) : shared W :=
  match p with
  | CountLoad d =>
      mkShared (state c) (<[t := CountStore d (i32 (s_task_count (state c) + d))]> (counting c))
  | CountStore _ n =>
      mkShared (mkTasks n (kernel (state c))) (delete t (counting c))
  end.

Definition count_exec (mv : count_move) (c : shared W) : option (shared W) :=
  match mv with
  | CBeginInit t task nm func arg prio stack_size =>
      match counting c !! t with
      | None =>
          let '(e, _, s) := pos_task_init task nm func arg prio stack_size (state c) in
          Some (count_begin t 1 e (kernel s) c)
      | Some _ => None
      end
  | CBeginRemove t task =>
      match counting c !! t with
      | None => let '(e, s) := pos_task_remove task (state c) in Some (count_begin t (-1) e (kernel s) c)
      | Some _ => None
      end
  | CRun t => match counting c !! t with Some p => Some (count_run t p c) | None => None end
  end.

Fixpoint count_exec_all (mvs : list count_move) (c : shared W) : option (shared W) :=
  match mvs with
  | [] => Some c
  | mv :: mvs => match count_exec mv c with Some c' => count_exec_all mvs c' | None => None end
  end.

Lemma count_exec_all_app mvs mvs' c :
  count_exec_all (mvs ++ mvs') c =
    match count_exec_all mvs c with Some c' => count_exec_all mvs' c' | None => None end.
Proof. revert c. induction mvs; simpl; intros c; [done|]. by destruct (count_exec _ c). Qed.

(** * The bounds *)

Definition adds (p : count_position) : nat :=
  match p with CountLoad d | CountStore d _ => if (d =? 1)%Z then 1%nat else 0%nat end.
Definition subtracts (p : count_position) : nat :=
  match p with CountLoad d | CountStore d _ => if (d =? -1)%Z then 1%nat else 0%nat end.

Definition created (c : shared W) : nat := length (spawned (kernel (state c))).
Definition removed (c : shared W) : nat := length (cancelled (kernel (state c))).

(** The updates still to come are among the creations and cancellations, with
    the one that is about to write counted in what it writes. *)
Record count_inv (c0 r0 : nat) (c : shared W) : Prop := {
  count_grows : (c0 <= created c /\ r0 <= removed c)%nat;
  count_upper : s_task_count (state c) + Z.of_nat (msum adds (counting c)) <=
    Z.of_nat (created c) - Z.of_nat c0;
  count_lower : Z.of_nat r0 - Z.of_nat (removed c) + Z.of_nat (msum subtracts (counting c)) <=
    s_task_count (state c);
  count_positions : forall t p, counting c !! t = Some p ->
    match p with
    | CountLoad d => d = 1 \/ d = -1
    | CountStore d n => (d = 1 \/ d = -1) /\
        n + Z.of_nat (msum adds (counting c)) - Z.of_nat (adds p) <= Z.of_nat (created c) - Z.of_nat c0 /\
        Z.of_nat r0 - Z.of_nat (removed c) + Z.of_nat (msum subtracts (counting c)) -
          Z.of_nat (subtracts p) <= n
    end
}.

(** Fewer than 2^31 threads ever: the counter does not overflow. *)
Definition count_fits (c : shared W) : Prop :=
  Z.of_nat (created c) < 2 ^ 31 /\ Z.of_nat (removed c) < 2 ^ 31.

Context `{!PthreadThreadsLaws A H F X W}.

Lemma count_inv_begin c0 r0 t d e w c :
  count_inv c0 r0 c -> counting c !! t = None -> d = 1 \/ d = -1 ->
  (e = POS_OK /\
   length (spawned w) = (created c + if (d =? 1)%Z then 1 else 0)%nat /\
   length (cancelled w) = (removed c + if (d =? -1)%Z then 1 else 0)%nat) \/
  (e <> POS_OK /\ w = kernel (state c)) ->
  count_inv c0 r0 (count_begin t d e w c).
Proof.
  intros [Hg Hu Hl Hp] Ht Hd [(-> & Hs & Hc)|[He ->]]; unfold count_begin.
  - rewrite bool_decide_eq_true_2 by done.
    unfold created, removed in *.
    split; unfold created, removed; simpl; rewrite ?msum_insert_None by done; simpl; rewrite ?Hs, ?Hc.
    + lia.
    + destruct Hd as [-> | ->]; simpl; lia.
    + destruct Hd as [-> | ->]; simpl; lia.
    + intros t' p [[<- <-]|[Hne E]]%lookup_insert_Some; [done|]. specialize (Hp t' p E).
      destruct p as [d'|d' n]; [done|]. destruct Hp as (? & ? & ?).
      simpl in *. destruct Hd as [-> | ->]; simpl; split_and!; try done; lia.
  - rewrite bool_decide_eq_false_2 by done. destruct c as [[n w] th]. by split.
Qed.

Lemma count_inv_run c0 r0 t p c :
  count_inv c0 r0 c -> count_fits c -> counting c !! t = Some p -> count_inv c0 r0 (count_run t p c).
Proof.
  intros [Hg Hu Hl Hp] [Hf1 Hf2] Ht. pose proof (Hp t p Ht) as Hpt.
  pose proof (fun q => msum_insert adds t q (counting c)) as Ha.
  pose proof (fun q => msum_insert subtracts t q (counting c)) as Hb.
  pose proof (msum_delete adds t (counting c)) as Hda.
  pose proof (msum_delete subtracts t (counting c)) as Hdb.
  rewrite Ht in Ha, Hb, Hda, Hdb. simpl in Ha, Hb, Hda, Hdb.
  unfold created, removed in *. destruct p as [d|d n]; simpl in *.
  - assert (i32 (s_task_count (state c) + d) = s_task_count (state c) + d) as E.
    { apply i32_small. destruct Hpt as [-> | ->]; simpl in *; lia. }
    specialize (Ha (CountStore d (i32 (s_task_count (state c) + d)))).
    specialize (Hb (CountStore d (i32 (s_task_count (state c) + d)))). simpl in Ha, Hb.
    unfold count_run. split; simpl; unfold created, removed; simpl; [lia|lia|lia|].
    intros t' p [[<- <-]|[Hne Ep]]%lookup_insert_Some.
    + rewrite E in *. destruct Hpt as [-> | ->]; simpl in *; split_and!; auto; lia.
    + specialize (Hp t' p Ep). destruct p as [d'|d' n']; [done|]. destruct Hp as (? & ? & ?).
      split_and!; [done|lia|lia].
  - destruct Hpt as (Hd & Hn1 & Hn2).
    unfold count_run. split; simpl; unfold created, removed; simpl; [lia|lia|lia|].
    intros t' p [Hne Ep]%lookup_delete_Some. specialize (Hp t' p Ep).
    destruct p as [d'|d' n']; [done|]. destruct Hp as (? & ? & ?). split_and!; [done|lia|lia].
Qed.

Lemma count_inv_exec c0 r0 mv c c' :
  count_inv c0 r0 c -> count_fits c -> count_exec mv c = Some c' -> count_inv c0 r0 c'.
Proof.
  intros Hi Hf. destruct mv as [t task nm f x prio sz|t task|t]; simpl.
  - destruct (counting c !! t) eqn:Ht; [done|].
    destruct (pos_task_init task nm f x prio sz (state c)) as [[e t1] s] eqn:E. intros [= <-].
    apply count_inv_begin; [done|done|by left|].
    destruct (pos_task_init_inv _ _ _ _ _ _ _ _ _ _ E)
      as [(-> & _ & f' & i & a & _ & _ & _ & Hs & Hc & _)|[He ->]]; [left|by right].
    unfold created, removed. rewrite Hs, Hc, length_app. simpl. split_and!; [done|done|lia].
  - destruct (counting c !! t) eqn:Ht; [done|].
    destruct (pos_task_remove task (state c)) as [e s] eqn:E. intros [= <-].
    apply count_inv_begin; [done|done|by right|].
    destruct (pos_task_remove_inv _ _ _ _ E) as [(-> & _ & tk & h & _ & _ & Hs & Hc)|[He ->]]; [left|by right].
    unfold created, removed. rewrite Hs, Hc, length_app. simpl. split_and!; [done|lia|done].
  - destruct (counting c !! t) as [p|] eqn:Ht; [|done]. intros [= <-]. by apply count_inv_run.
Qed.

(** Threads are never forgotten, so a state that fits was reached by states
    that fit. *)
Lemma count_exec_grows mv c c' :
  count_exec mv c = Some c' -> (created c <= created c' /\ removed c <= removed c')%nat.
Proof.
  unfold created, removed. destruct mv as [t task nm f x prio sz|t task|t]; simpl.
  - destruct (counting c !! t) eqn:Ht; [done|].
    destruct (pos_task_init task nm f x prio sz (state c)) as [[e t1] s] eqn:E. intros [= <-]. simpl.
    destruct (pos_task_init_inv _ _ _ _ _ _ _ _ _ _ E)
      as [(-> & _ & f' & i & a & _ & _ & _ & -> & -> & _)|[He ->]]; rewrite ?length_app; lia.
  - destruct (counting c !! t) eqn:Ht; [done|].
    destruct (pos_task_remove task (state c)) as [e s] eqn:E. intros [= <-]. simpl.
    destruct (pos_task_remove_inv _ _ _ _ E) as [(-> & _ & tk & h & _ & _ & -> & ->)|[He ->]];
      rewrite ?length_app; lia.
  - destruct (counting c !! t) as [[d|d n]|] eqn:Ht; intros [= <-]; simpl; lia.
Qed.

Lemma count_exec_all_grows mvs c c' :
  count_exec_all mvs c = Some c' -> (created c <= created c' /\ removed c <= removed c')%nat.
Proof.
  revert c. induction mvs as [|mv mvs IH]; simpl; intros c; [intros [= <-]; lia|].
  destruct (count_exec mv c) as [c1|] eqn:E; [|done]. intros Hall.
  apply count_exec_grows in E. apply IH in Hall. lia.
Qed.

Lemma count_inv_exec_all c0 r0 mvs c c' :
  count_inv c0 r0 c -> count_exec_all mvs c = Some c' -> count_fits c' -> count_inv c0 r0 c'.
Proof.
  revert c. induction mvs as [|mv mvs IH]; simpl; intros c Hi; [by intros [= <-]|].
  destruct (count_exec mv c) as [c1|] eqn:E; [|done]. intros Hall [Hf1 Hf2].
  pose proof (count_exec_all_grows _ _ _ Hall) as [? ?]. pose proof (count_exec_grows _ _ _ E) as [? ?].
  apply (IH c1); [|done|done]. eapply count_inv_exec; [done| |done]. split; lia.
Qed.

(** * Updates that no other update disturbs *)

(** No thread writes the counter between the read and the write of another:
    [fresh] are the threads that have read it since it was last written. *)
Fixpoint undisturbed (mvs : list count_move) (fresh : gset tid) (c : shared W) : bool :=
  match mvs with
  | [] => true
  | mv :: mvs =>
      match count_exec mv c with
      | None => true
      | Some c' =>
          match mv with
          | CRun t =>
              match counting c !! t with
              | Some (CountStore _ _) => bool_decide (t ∈ fresh) && undisturbed mvs ∅ c'
              | _ => undisturbed mvs ({[t]} ∪ fresh) c'
              end
          | _ => undisturbed mvs fresh c'
          end
      end
  end.

(** The counter and the updates still to come make up for all the calls, and
    what a fresh thread is about to write is right. *)
Record exact_inv (c0 r0 : nat) (fresh : gset tid) (c : shared W) : Prop := {
  exact_count : s_task_count (state c) + Z.of_nat (msum adds (counting c)) -
      Z.of_nat (msum subtracts (counting c)) =
    (Z.of_nat (created c) - Z.of_nat c0) - (Z.of_nat (removed c) - Z.of_nat r0);
  exact_fresh : forall t, t ∈ fresh -> exists d, (d = 1 \/ d = -1) /\
    counting c !! t = Some (CountStore d (s_task_count (state c) + d))
}.

(** A call up to its update: a failed one leaves the threads and the counter. *)
Lemma count_begin_cases mv c c' :
  count_exec mv c = Some c' -> (forall t, mv <> CRun t) ->
  s_task_count (state c') = s_task_count (state c) /\
  ((counting c' = counting c /\ created c' = created c /\ removed c' = removed c) \/
   exists t d, counting c !! t = None /\ counting c' = <[t := CountLoad d]> (counting c) /\
     (d = 1 /\ created c' = S (created c) /\ removed c' = removed c \/
      d = -1 /\ created c' = created c /\ removed c' = S (removed c))).
Proof.
  unfold created, removed. destruct mv as [t task nm f x prio sz|t task|t]; simpl; [| |intros _ Hm; by destruct (Hm t)].
  - destruct (counting c !! t) eqn:Ht; [done|].
    destruct (pos_task_init task nm f x prio sz (state c)) as [[e t1] s] eqn:E. intros [= <-] _.
    unfold count_begin. simpl. split; [done|]. destruct (pos_task_init_inv _ _ _ _ _ _ _ _ _ _ E)
      as [(-> & _ & f' & i & a & _ & _ & _ & -> & -> & _)|[He ->]]; [right|left; by rewrite bool_decide_eq_false_2].
    exists t, 1. rewrite bool_decide_eq_true_2, length_app by done. simpl.
    split; [done|]. split; [done|]. left. split_and!; lia.
  - destruct (counting c !! t) eqn:Ht; [done|].
    destruct (pos_task_remove task (state c)) as [e s] eqn:E. intros [= <-] _.
    unfold count_begin. simpl. split; [done|].
    destruct (pos_task_remove_inv _ _ _ _ E) as [(-> & _ & tk & h & _ & _ & -> & ->)|[He ->]];
      [right|left; by rewrite bool_decide_eq_false_2].
    exists t, (-1). rewrite bool_decide_eq_true_2, length_app by done. simpl.
    split; [done|]. split; [done|]. right. split_and!; lia.
Qed.

Lemma exact_begin c0 r0 fresh mv c c' :
  exact_inv c0 r0 fresh c -> count_exec mv c = Some c' -> (forall t, mv <> CRun t) ->
  exact_inv c0 r0 fresh c'.
Proof.
  intros [Hc Hf] E Hmv. destruct (count_begin_cases mv c c' E Hmv)
    as [Hn [(Hp & Hcr & Hre)|(t & d & Ht & Hp & Hd)]]; split; rewrite ?Hn, Hp.
  - by rewrite Hcr, Hre.
  - done.
  - rewrite !msum_insert_None by done.
    destruct Hd as [(-> & -> & ->)|(-> & -> & ->)]; simpl; lia.
  - intros t' Ht'. destruct (Hf t' Ht') as (d' & ? & E'). exists d'. split; [done|].
    rewrite lookup_insert_ne; [done|]. congruence.
Qed.

Lemma exact_load c0 r0 fresh t d c :
  exact_inv c0 r0 fresh c -> count_inv c0 r0 c -> count_fits c -> counting c !! t = Some (CountLoad d) ->
  exact_inv c0 r0 ({[t]} ∪ fresh) (count_run t (CountLoad d) c).
Proof.
  intros [Hc Hf] Hi Hfit Ht. destruct Hi as [Hg Hu Hl Hp]. pose proof (Hp t _ Ht) as Hd. simpl in Hd.
  destruct Hfit as [Hf1 Hf2].
  assert ((1 <= msum adds (counting c))%nat \/ d = -1) as Hua.
  { destruct Hd as [-> | ->]; [left|by right]. pose proof (msum_delete adds t (counting c)) as Hda.
    rewrite Ht in Hda. simpl in Hda. lia. }
  assert ((1 <= msum subtracts (counting c))%nat \/ d = 1) as Hus.
  { destruct Hd as [-> | ->]; [by right|left]. pose proof (msum_delete subtracts t (counting c)) as Hda.
    rewrite Ht in Hda. simpl in Hda. lia. }
  assert (i32 (s_task_count (state c) + d) = s_task_count (state c) + d) as E.
  { apply i32_small. destruct Hd as [-> | ->]; lia. }
  pose proof (msum_insert adds t (CountStore d (s_task_count (state c) + d)) (counting c)) as Ha.
  pose proof (msum_insert subtracts t (CountStore d (s_task_count (state c) + d)) (counting c)) as Hb.
  rewrite Ht in Ha, Hb. simpl in Ha, Hb. unfold count_run. rewrite E.
  split; unfold created, removed in *; simpl; [lia|].
  intros t' [->%elem_of_singleton|Ht']%elem_of_union; [exists d; by rewrite lookup_insert_eq|].
  destruct (Hf t' Ht') as (d' & ? & E'). exists d'. split; [done|].
  rewrite lookup_insert_ne; [done|]. congruence.
Qed.

Lemma exact_store c0 r0 fresh t d n c :
  exact_inv c0 r0 fresh c -> t ∈ fresh -> counting c !! t = Some (CountStore d n) ->
  exact_inv c0 r0 ∅ (count_run t (CountStore d n) c).
Proof.
  intros [Hc Hf] Hin Ht. destruct (Hf t Hin) as (d' & Hd & E). rewrite Ht in E. injection E as <- ->.
  pose proof (msum_delete adds t (counting c)) as Ha. pose proof (msum_delete subtracts t (counting c)) as Hb.
  rewrite Ht in Ha, Hb. simpl in Ha, Hb.
  split; [|by intros t' []%elem_of_empty]. unfold count_run, created, removed in *. simpl.
  destruct Hd as [-> | ->]; simpl in *; lia.
Qed.

Lemma exact_run mvs fresh c0 r0 c c' :
  count_inv c0 r0 c -> exact_inv c0 r0 fresh c -> undisturbed mvs fresh c = true ->
  count_exec_all mvs c = Some c' -> count_fits c' -> exists fresh', exact_inv c0 r0 fresh' c'.
Proof.
  revert fresh c. induction mvs as [|mv mvs IH]; simpl; intros fresh c Hi Hx Hund; [intros [= <-]; eauto|].
  destruct (count_exec mv c) as [c1|] eqn:E; [|done]. intros Hall Hfit.
  assert (count_fits c) as Hfc.
  { destruct Hfit. pose proof (count_exec_all_grows _ _ _ Hall). pose proof (count_exec_grows _ _ _ E).
    split; lia. }
  pose proof (count_inv_exec _ _ _ _ _ Hi Hfc E) as Hi1.
  destruct mv as [t task nm f x prio sz|t task|t];
    [by apply (IH fresh c1); first [done | eapply exact_begin; [done | exact E | done]] ..|].
  simpl in E. destruct (counting c !! t) as [[d|d n]|] eqn:Ht; [| |done]; injection E as <-.
  - exact (IH _ _ Hi1 (exact_load _ _ _ t d c Hx Hi Hfc Ht) Hund Hall Hfit).
  - apply andb_true_iff in Hund as [Hin%bool_decide_eq_true Hund].
    exact (IH _ _ Hi1 (exact_store _ _ _ t d n c Hx Hin Ht) Hund Hall Hfit).
Qed.

Lemma count_inv_init w : count_inv (length (spawned w)) (length (cancelled w)) (mkShared (mkTasks 0 w) ∅).
Proof. split; unfold created, removed; simpl; rewrite ?msum_empty; [lia|lia|lia|done]. Qed.

Lemma exact_inv_init w :
  exact_inv (length (spawned w)) (length (cancelled w)) ∅ (mkShared (mkTasks 0 w) ∅).
Proof.
  split; [|by intros t []%elem_of_empty]. unfold created, removed. simpl. rewrite !msum_empty. lia.
Qed.

(** C23. Creations and removals that run at once, from a counter at 0. Whatever
    the schedule, the counter never says more tasks than were created, less the
    creations still to be counted, nor fewer than the removals take away. And
    when no thread writes the counter between the read and the write of another,
    it is exact: the counter plus the creations still to be counted minus the
    removals still to be counted is the number of tasks created minus the number
    removed. (With fewer than 2^31 of either.) *)
Theorem task_count_bounds w mvs c :
  count_exec_all mvs (mkShared (mkTasks 0 w) ∅) = Some c -> count_fits c ->
  (Z.of_nat (length (cancelled w)) - Z.of_nat (removed c) <= s_task_count (state c) /\
   s_task_count (state c) + Z.of_nat (msum adds (counting c)) <=
     Z.of_nat (created c) - Z.of_nat (length (spawned w))) /\
  (undisturbed mvs ∅ (mkShared (mkTasks 0 w) ∅) = true ->
   s_task_count (state c) + Z.of_nat (msum adds (counting c)) - Z.of_nat (msum subtracts (counting c)) =
     (Z.of_nat (created c) - Z.of_nat (length (spawned w))) -
     (Z.of_nat (removed c) - Z.of_nat (length (cancelled w)))).
Proof.
  intros Hall Hf. pose proof (count_inv_init w) as Hi. split.
  - destruct (count_inv_exec_all _ _ _ _ _ Hi Hall Hf). lia.
  - intros Hund. by destruct (exact_run mvs ∅ _ _ _ c Hi (exact_inv_init w) Hund Hall Hf) as (fresh & []).
Qed.

(** * One call alone *)

Lemma init_is_run t task nm func arg prio stack_size st task' st' :
  pos_task_init task nm func arg prio stack_size st = (POS_OK, task', st') ->
  count_exec_all [CBeginInit t task nm func arg prio stack_size; CRun t; CRun t] (mkShared st ∅) =
    Some (mkShared st' ∅).
Proof.
  intros E. destruct (pos_task_init_inv _ _ _ _ _ _ _ _ _ _ E)
    as [(_ & _ & f' & i & a & _ & _ & Hn & _)|[He _]]; [|done].
  simpl. rewrite lookup_empty, E. unfold count_begin. simpl. rewrite lookup_insert_eq.
  simpl. rewrite lookup_insert_eq. simpl. rewrite <- Hn, !delete_insert_eq, delete_empty.
  by destruct st' as [n' w'].
Qed.

(** * The updates that are lost *)

Lemma load_all ts c :
  NoDup ts -> (forall t, t ∈ ts -> counting c !! t = Some (CountLoad 1)) ->
  exists c', count_exec_all (map CRun ts) c = Some c' /\ state c' = state c /\
    (forall t, t ∈ ts -> counting c' !! t = Some (CountStore 1 (i32 (s_task_count (state c) + 1)))) /\
    (forall t, t ∉ ts -> counting c' !! t = counting c !! t).
Proof.
  revert c. induction ts as [|t ts IH]; simpl; intros c Hnd Hts.
  { exists c. by split_and!; [done|done|intros ? ?%elem_of_nil|]. }
  apply NoDup_cons in Hnd as [Hn Hnd]. rewrite (Hts t) by apply list_elem_of_here. cbv beta iota.
  destruct (IH (count_run t (CountLoad 1) c)) as (c' & -> & Hs & Hin & Hout); [done| |].
  { intros t' Ht'. simpl. rewrite lookup_insert_ne by congruence. apply Hts. by right. }
  exists c'. split; [done|]. split; [done|]. split.
  - intros t' [->|Ht']%elem_of_cons; [|by apply Hin].
    rewrite Hout by done. simpl. by rewrite lookup_insert_eq.
  - intros t' [Hne Ht']%not_elem_of_cons. rewrite Hout by done. simpl. by rewrite lookup_insert_ne.
Qed.

Lemma store_all n ts c :
  NoDup ts -> (forall t, t ∈ ts -> counting c !! t = Some (CountStore 1 n)) ->
  exists c', count_exec_all (map CRun ts) c = Some c' /\
    s_task_count (state c') = (if bool_decide (ts = []) then s_task_count (state c) else n) /\
    kernel (state c') = kernel (state c) /\ (forall t, t ∈ ts -> counting c' !! t = None) /\
    (forall t, t ∉ ts -> counting c' !! t = counting c !! t).
Proof.
  revert c. induction ts as [|t ts IH]; simpl; intros c Hnd Hts.
  { exists c. repeat (split; [done|]). split; [by intros t Ht%elem_of_nil|done]. }
  apply NoDup_cons in Hnd as [Hn Hnd]. rewrite (Hts t) by apply list_elem_of_here. cbv beta iota.
  destruct (IH (count_run t (CountStore 1 n) c)) as (c' & Hc & Hs & Hk & Hin & Hout); [done| |].
  { intros t' Ht'. simpl. rewrite lookup_delete_ne by congruence. apply Hts. by right. }
  exists c'. split_and!; [done| |done| |].
  - rewrite Hs. by case_bool_decide.
  - intros t' [->|Ht']%elem_of_cons; [|by apply Hin]. rewrite Hout by done. simpl. by rewrite lookup_delete_eq.
  - intros t' [Hne Ht']%not_elem_of_cons. rewrite Hout by done. simpl. by rewrite lookup_delete_ne.
Qed.

(** Any number of threads that have each created a task, and whose updates of
    the counter all begin before the first one ends: the counter goes up by
    one, whatever their number, and every call has returned. *)
Theorem task_count_lost_updates ts c :
  NoDup ts -> ts <> [] -> (forall t, t ∈ ts -> counting c !! t = Some (CountLoad 1)) ->
  exists c', count_exec_all (map CRun ts ++ map CRun ts) c = Some c' /\
    s_task_count (state c') = i32 (s_task_count (state c) + 1) /\
    kernel (state c') = kernel (state c) /\ forall t, t ∈ ts -> counting c' !! t = None.
Proof.
  intros Hnd Hne Hts. rewrite count_exec_all_app.
  destruct (load_all ts c Hnd Hts) as (c1 & -> & Hs & Hin & _).
  destruct (store_all _ ts c1 Hnd Hin) as (c' & -> & Hn & Hk & Hend & _).
  exists c'. rewrite bool_decide_eq_false_2 in Hn by done. split_and!; [done|done|by rewrite Hk, Hs|done].
Qed.
End PosixTaskThreads.

(** * Witnesses *)

Section Witness.
#[local] Existing Instance linux_errno.
#[local] Existing Instance demo_threads.
#[local] Existing Instance demo_threads_laws.

(** Two creations whose updates overlap, and a removal: two threads, one of
    them cancelled, are counted as none. *)
Definition demo_calls : list (count_move (A := demo_attr) (H := nat) (F := nat) (X := nat)) :=
  [CBeginInit 1 (Some demo_task) [x61] (Some 7%nat) 9%nat 2 1024;
   CBeginInit 2 (Some demo_task) [x61] (Some 8%nat) 9%nat 2 1024].

Definition demo_removal : list (count_move (A := demo_attr) (H := nat) (F := nat) (X := nat)) :=
  [CBeginRemove 3 (Some (mkPosTask (Some 0%nat) (mkDemoAttr SCHED_RR 16384 2) 2 [x61])); CRun 3; CRun 3].

(** The same calls, the updates one after the other: one task is left. *)
Example task_count_bounds_witness :
  exists c c' : shared demo_world,
    count_exec_all (demo_calls ++ map CRun [1; 2]%nat ++ map CRun [1; 2]%nat ++ demo_removal)
      (mkShared (mkTasks 0 ([], [])) ∅) = Some c /\
    created c = 2%nat /\ removed c = 1%nat /\ s_task_count (state c) = 0 /\
    -1 <= s_task_count (state c) <= 2 /\
    count_exec_all (demo_calls ++ map CRun [1; 1]%nat ++ map CRun [2; 2]%nat ++ demo_removal)
      (mkShared (mkTasks 0 ([], [])) ∅) = Some c' /\
    created c' = 2%nat /\ removed c' = 1%nat /\ s_task_count (state c') = 1.
Proof.
  destruct (count_exec_all (demo_calls ++ map CRun [1; 2]%nat ++ map CRun [1; 2]%nat ++ demo_removal)
    (mkShared (mkTasks 0 ([], [])) ∅)) as [c|] eqn:E; [|by vm_compute in E].
  destruct (count_exec_all (demo_calls ++ map CRun [1; 1]%nat ++ map CRun [2; 2]%nat ++ demo_removal)
    (mkShared (mkTasks 0 ([], [])) ∅)) as [c'|] eqn:E'; [|by vm_compute in E'].
  exists c, c'.
  assert (created c = 2%nat /\ removed c = 1%nat /\ s_task_count (state c) = 0) as (Hc & Hr & Hn).
  { vm_compute in E. injection E as <-. by split_and!. }
  assert (created c' = 2%nat /\ removed c' = 1%nat /\ counting c' = ∅) as (Hc' & Hr' & Hp').
  { vm_compute in E'. injection E' as <-. by split_and!. }
  assert (count_fits c) as Hf by (unfold count_fits; rewrite Hc, Hr; lia).
  assert (count_fits c') as Hf' by (unfold count_fits; rewrite Hc', Hr'; lia).
  destruct (task_count_bounds _ _ c E Hf) as [[Hl Hu] _]. rewrite Hr in Hl. rewrite Hc in Hu.
  destruct (task_count_bounds _ _ c' E' Hf') as [_ Hx]. rewrite Hc', Hr', Hp' in Hx.
  split; [reflexivity|]. split; [exact Hc|]. split; [exact Hr|]. split; [exact Hn|].
  split; [split; [exact Hl|]; eapply Z.le_trans; [|exact Hu]; apply Z.le_sub_le_add_l;
    rewrite Z.sub_diag; apply Nat2Z.is_nonneg|].
  split; [reflexivity|]. split; [exact Hc'|]. split; [exact Hr'|].
  specialize (Hx ltac:(vm_compute; reflexivity)). rewrite !msum_empty in Hx.
  change (length (spawned ([], []))) with 0%nat in Hx. change (length (cancelled ([], []))) with 0%nat in Hx.
  assert (forall n, n + Z.of_nat 0 - Z.of_nat 0 = Z.of_nat 2 - Z.of_nat 0 - (Z.of_nat 1 - Z.of_nat 0) -> n = 1)
    as H1 by (intros; lia).
  exact (H1 _ Hx).
Defined.

Example task_count_lost_updates_witness :
  exists c c' : shared demo_world,
    count_exec_all demo_calls (mkShared (mkTasks 0 ([], [])) ∅) = Some c /\ created c = 2%nat /\
    count_exec_all (A := demo_attr) (F := nat) (X := nat) (map CRun [1; 2]%nat ++ map CRun [1; 2]%nat) c = Some c' /\
    created c' = 2%nat /\ s_task_count (state c') = 1.
Proof.
  destruct (count_exec_all demo_calls (mkShared (mkTasks 0 ([], [])) ∅)) as [c|] eqn:E; [|by vm_compute in E].
  assert (created c = 2%nat /\ s_task_count (state c) = 0) as [Hc Hn].
  { vm_compute in E. injection E as <-. by split. }
  destruct (task_count_lost_updates (A := demo_attr) (F := nat) (X := nat) [1; 2]%nat c)
    as (c' & Hall & Hs & Hk & _).
  - by apply (bool_decide_unpack _); vm_compute.
  - done.
  - intros t Ht. vm_compute in E. injection E as <-. clear Hc Hn.
    apply elem_of_cons in Ht as [->|Ht]; [done|]. by apply list_elem_of_singleton in Ht as ->.
  - exists c, c'. split_and!; [done | done | exact Hall | |].
    + exact (eq_trans (f_equal (fun w => length (spawned w)) Hk) Hc).
    + exact (eq_trans Hs (f_equal (fun n => i32 (n + 1)) Hn)).
Defined.
End Witness.
