(* ===== verification/Apple.v ===== *)
(** The Apple branches of targets/posix/os_sem.c and os_time.c: semaphores of
    libdispatch and the calendar clock of Mach. There [pos_time_t] is 64-bit,
    a tick is a microsecond, and POS_TIME_FOREVER is DISPATCH_TIME_FOREVER. (The
    Apple branch of [pos_mutex_lock] is in PosixMutex, the one of os_timer.c in
    AppleTimer.) *)

From S2P Require Import Prelude OsTypes Pthread Binary64 PosixTime.
#[local] Open Scope Z_scope.

(** os_time.h *)
Definition DISPATCH_TIME_FOREVER : Z := 2 ^ 64 - 1.
Definition POS_TIME_FOREVER : Z := DISPATCH_TIME_FOREVER.
Definition POS_TIME_NO_WAIT : Z := 0.
Definition POS_TICKS_PER_SEC : Z := 1000000.

Definition u64 (z : Z) : Z := z mod 2 ^ 64.

(** * libdispatch semaphores *)

Definition LONG_MAX : Z := 2 ^ 63 - 1.

(** [dispatch_semaphore_wait timeout s] is [None] if it waits for good; its
    timeout is a [dispatch_time_t], a point in time. What
    [dispatch_semaphore_signal] does at the largest value is not documented. *)
Class DispatchSemaphores (S : Type) := {
  dispatch_semaphore_create : Z -> option S;
  dispatch_semaphore_signal : S -> option (Z * S);
  dispatch_semaphore_wait : Z -> S -> option (Z * S);
  dispatch_value : S -> Z
}.

(** "Returns zero on success, or non-zero if the timeout occurred." The code
    relies on a non-zero result that an [int] can hold. *)
Class DispatchSemaphoresLaws (S : Type) `{DispatchSemaphores S} : Prop := {
  dispatch_value_range : forall s, 0 <= dispatch_value s <= LONG_MAX;
  dispatch_create_value : forall v s, 0 <= v -> dispatch_semaphore_create v = Some s -> dispatch_value s = v;
  dispatch_signal_ok : forall s, dispatch_value s < LONG_MAX ->
    exists r s', dispatch_semaphore_signal s = Some (r, s') /\ dispatch_value s' = dispatch_value s + 1;
  dispatch_wait_avail : forall timeout s, 0 < dispatch_value s ->
    exists s', dispatch_semaphore_wait timeout s = Some (0, s') /\
      dispatch_value s' = dispatch_value s - 1;
  dispatch_wait_forever : forall s, dispatch_value s = 0 ->
    dispatch_semaphore_wait DISPATCH_TIME_FOREVER s = None;
  dispatch_wait_until : forall timeout s, dispatch_value s = 0 -> timeout <> DISPATCH_TIME_FOREVER ->
    exists r, dispatch_semaphore_wait timeout s = Some (r, s) /\ r <> 0 /\ - 2 ^ 31 <= r < 2 ^ 31
}.

(** [struct pos_sem] of the branch (os_types.h). *)
Record pos_sem (S : Type) := mkPosSem { lock : option S }.
Arguments mkPosSem {S} lock.
Arguments lock {S} p.

Section AppleSem.
Context {S : Type} `{DispatchSemaphores S}.

Definition pos_sem_init (tokens : Z) (mem : pos_sem S) : pos_error * pos_sem S :=
  let sem := mkPosSem (dispatch_semaphore_create tokens) in
  (match lock sem with None => POS_ENOMEM | Some _ => POS_OK end, sem).

Definition pos_sem_give (sem : pos_sem S) : outcome (pos_error * pos_sem S) :=
  do h <- deref (lock sem);
  do '(woke, h) <- of_option AssertFail (dispatch_semaphore_signal h);
  Ret (POS_OK, mkPosSem (Some h)).

(** The timeout of the API, a number of milliseconds, is passed as it is where
    libdispatch takes a point in time. *)
Definition pos_sem_take (timeout : Z) (sem : pos_sem S) : outcome (pos_error * pos_sem S) :=
  do h <- deref (lock sem);
  do '(r, h) <- of_option Block (dispatch_semaphore_wait timeout h);
  let expired := i32 r in
  Ret (if negb (expired =? 0) then POS_TIMEOUT else POS_OK, mkPosSem (Some h)).

Context `{!DispatchSemaphoresLaws S}.

(** What the calls do to a semaphore that has been created: a take removes a
    token that is there; without one it blocks for POS_TIME_FOREVER and is
    otherwise answered POS_TIMEOUT, also for POS_TIME_NO_WAIT, where os_sem.h
    documents POS_EBUSY; a give below LONG_MAX adds a token. *)
Theorem apple_sem_spec timeout s :
  (0 < dispatch_value s -> exists s', pos_sem_take timeout (mkPosSem (Some s)) =
     Ret (POS_OK, mkPosSem (Some s')) /\ dispatch_value s' = dispatch_value s - 1) /\
  (dispatch_value s = 0 -> pos_sem_take timeout (mkPosSem (Some s)) =
     if timeout =? POS_TIME_FOREVER then Block else Ret (POS_TIMEOUT, mkPosSem (Some s))) /\
  (dispatch_value s < LONG_MAX -> exists s', pos_sem_give (mkPosSem (Some s)) =
     Ret (POS_OK, mkPosSem (Some s')) /\ dispatch_value s' = dispatch_value s + 1).
Proof.
  unfold pos_sem_take, pos_sem_give. simpl. split_and!.
  - intros Hp. destruct (dispatch_wait_avail timeout s Hp) as (s' & -> & ?). by exists s'.
  - intros Hz. destruct (Z.eqb_spec timeout POS_TIME_FOREVER) as [->|Hne].
    + unfold POS_TIME_FOREVER. by rewrite dispatch_wait_forever.
    + destruct (dispatch_wait_until timeout s Hz Hne) as (r & -> & Hr & Hi). simpl.
      by rewrite i32_small, (proj2 (Z.eqb_neq r 0)).
  - intros Hl. destruct (dispatch_signal_ok s Hl) as (r & s' & -> & ?). by exists s'.
Qed.
End AppleSem.

(** * os_time.c *)

Section AppleTime.
Abbreviation ONE_BILLION := (dbl 1000000000).

Definition POS_TICKS_PER_SEC_F : Q := dbl POS_TICKS_PER_SEC.
Definition POS_TICKS_PER_NANOSEC_F : Q := ddiv ONE_BILLION POS_TICKS_PER_SEC_F.

(** The conversion of a [double] to [uint64_t]. *)
Definition to_u64 (x : Q) : outcome Z :=
  let z := trunc x in
  if (0 <=? z) && (z <? 2 ^ 64) then Ret z else Undef.

(** [mts] is what [clock_get_time] reads: the calendar clock, with unsigned
    32-bit seconds. *)
Definition pos_time_get (mts : timespec) : outcome Z :=
  to_u64 (dadd (dmul (dbl (tv_sec mts)) POS_TICKS_PER_SEC_F)
               (ddiv (dbl (tv_nsec mts)) POS_TICKS_PER_NANOSEC_F)).

Definition pos_time_ms_to_ticks (ms : Z) : outcome Z :=
  to_u64 (ddiv (dmul (dbl ms) POS_TICKS_PER_SEC_F) ONE_THOUSAND).

Definition pos_time_ticks_to_ms (ticks : Z) : outcome Z :=
  to_u64 (ddiv (dmul (dbl ticks) ONE_THOUSAND) POS_TICKS_PER_SEC_F).

Definition pos_time_get_ms (mts : timespec) : outcome Z :=
  do ticks <- pos_time_get mts; pos_time_ticks_to_ms ticks.

Lemma to_u64_ret x z : trunc x = z -> 0 <= z < 2 ^ 64 -> to_u64 x = Ret z.
Proof.
  intros E Hz. unfold to_u64. rewrite E, (proj2 (Z.leb_le 0 z)), (proj2 (Z.ltb_lt z _)) by lia. done.
Qed.

Lemma apple_ticks_per_sec_exact : (POS_TICKS_PER_SEC_F == inject_Z 1000000)%Q.
Proof. by apply dbl_exact. Qed.

(** The doubles in between are off by less than one tick. *)
Lemma apple_nsec_part n : 0 <= n < NSEC_PER_SEC ->
  let q := ddiv (dbl n) POS_TICKS_PER_NANOSEC_F in
  (inject_Z (n / 1000) <= q)%Q /\ (q <= inject_Z (n / 1000 + 1))%Q /\ 0 <= n / 1000 < 1000000.
Proof.
  intros Hn. unfold NSEC_PER_SEC in Hn. cbv zeta.
  assert (1000 * (n / 1000) <= n < 1000 * (n / 1000 + 1)) as Hdiv by (Z.to_euclidean_division_equations; lia).
  set (k := n / 1000) in *. clearbody k.
  set (x := (dbl n / POS_TICKS_PER_NANOSEC_F)%Q).
  assert (POS_TICKS_PER_NANOSEC_F == inject_Z 1000)%Q as Hns by reflexivity.
  assert (x == n # 1000)%Q as Hx.
  { unfold x. rewrite Hns, dbl_exact by lia. unfold Qdiv, Qeq. simpl. lia. }
  change (ddiv (dbl n) POS_TICKS_PER_NANOSEC_F) with (round64 x). clearbody x.
  assert (0 <= Qnum x) as Hx0 by (apply (Qnum_nonneg x n 1000); [lia | done]).
  change (inject_Z k) with (frac k 0). change (inject_Z (k + 1)) with (frac (k + 1) 0).
  split_and!; try lia.
  - apply round64_ge; [done | split; lia |]. rewrite Hx. unfold Qle. simpl. lia.
  - apply round64_le; [done | split; lia |]. rewrite Hx. unfold Qle. simpl. lia.
Qed.

Lemma apple_sum_between mts :
  is_u32 (tv_sec mts) -> nsec_valid mts = true ->
  let x := dadd (dmul (dbl (tv_sec mts)) POS_TICKS_PER_SEC_F)
                (ddiv (dbl (tv_nsec mts)) POS_TICKS_PER_NANOSEC_F) in
  let us := tv_sec mts * 1000000 + tv_nsec mts / 1000 in
  (inject_Z us <= x)%Q /\ (x <= inject_Z (us + 1))%Q /\ 0 <= us < 2 ^ 53 - 1.
Proof.
  intros Hs Hv. unfold is_u32 in Hs. unfold nsec_valid in Hv. rewrite andb_true_iff, Z.leb_le, Z.ltb_lt in Hv.
  destruct (apple_nsec_part (tv_nsec mts) Hv) as (Hlo & Hhi & Hk). cbv zeta.
  set (k := tv_nsec mts / 1000) in *. set (q := ddiv _ _) in *. clearbody k q.
  assert (dmul (dbl (tv_sec mts)) POS_TICKS_PER_SEC_F == inject_Z (tv_sec mts * 1000000))%Q as Ha.
  { apply dmul_exact; [apply dbl_exact; lia | apply apple_ticks_per_sec_exact | lia]. }
  set (a := dmul _ _) in *. clearbody a. unfold dadd. set (us := tv_sec mts * 1000000 + k).
  assert (inject_Z us <= a + q)%Q as Hl.
  { unfold us. rewrite Ha, inject_Z_plus. apply Qplus_le_compat; [apply Qle_refl | done]. }
  assert (a + q <= inject_Z (us + 1))%Q as Hh.
  { unfold us. rewrite Ha, <- Z.add_assoc, inject_Z_plus. apply Qplus_le_compat; [apply Qle_refl | done]. }
  set (x := (a + q)%Q) in *. clearbody x.
  assert (0 <= us < 2 ^ 53 - 1) as Hus by (unfold us; lia). clearbody us.
  assert (0 <= Qnum x) as Hx0 by (unfold Qle in Hl; simpl in Hl; nia).
  change (inject_Z us) with (frac us 0) in *. change (inject_Z (us + 1)) with (frac (us + 1) 0) in *.
  split_and!; try lia; [apply round64_ge | apply round64_le]; try done; split; lia.
Qed.

Lemma trunc_le x z : 0 <= z -> (inject_Z z <= x)%Q -> (x <= inject_Z (z + 1))%Q ->
  z <= trunc x <= z + 1.
Proof.
  intros Hz Hl Hh. destruct (Qlt_le_dec x (inject_Z (z + 1))) as [Hlt|Hge].
  - rewrite (trunc_between x z) by done. lia.
  - rewrite (trunc_exact x (z + 1)); [lia|lia|]. by apply Qle_antisym.
Qed.

(** The clock in microseconds, but not always rounded down: a [double] has too
    few bits for the fraction of today's times (the witness is in 2023), and the
    answer may be one tick ahead of the clock. *)
Theorem apple_time_get_spec mts :
  is_u32 (tv_sec mts) -> nsec_valid mts = true ->
  let us := tv_sec mts * 1000000 + tv_nsec mts / 1000 in
  exists ticks, pos_time_get mts = Ret ticks /\ us <= ticks <= us + 1.
Proof.
  intros Hs Hv us. destruct (apple_sum_between mts Hs Hv) as (Hl & Hh & Hb).
  pose proof (trunc_le _ us (proj1 Hb) Hl Hh) as Ht.
  eexists. split; [|exact Ht]. apply to_u64_ret; [done|]. fold us in Hb. lia.
Qed.

Lemma apple_now mts : is_u32 (tv_sec mts) -> nsec_valid mts = true -> exists ticks, pos_time_get mts = Ret ticks.
Proof.
  intros Hs Hv. destruct (apple_sum_between mts Hs Hv) as (Hl & Hh & Hb).
  pose proof (trunc_le _ _ (proj1 Hb) Hl Hh) as Ht. eexists. apply to_u64_ret; [done|]. lia.
Qed.

Example apple_time_get_spec_witness :
  pos_time_get (mkTimespec 1700000000 875) = Ret 1700000000000001 /\
  exists ticks, pos_time_get (mkTimespec 1700000000 999) = Ret ticks /\
    1700000000 * 1000000 + 999 / 1000 <= ticks <= 1700000000 * 1000000 + 999 / 1000 + 1.
Proof.
  split; [vm_compute; reflexivity|].
  refine (apple_time_get_spec (mkTimespec 1700000000 999) _ eq_refl). unfold is_u32. simpl. lia.
Defined.

Lemma apple_ms_to_ticks_ret ms : 0 <= ms -> ms * 1000000 < 2 ^ 53 ->
  pos_time_ms_to_ticks ms = Ret (ms * 1000).
Proof.
  intros H1 H2. apply to_u64_ret; [|lia]. apply trunc_exact; [lia|].
  apply (ddiv_exact _ _ _ 1000); [|apply one_thousand_exact|lia|done].
  replace (ms * 1000 * 1000) with (ms * 1000000) by lia.
  apply dmul_exact; [apply dbl_exact; lia | apply apple_ticks_per_sec_exact | lia].
Qed.

(** Any number of ticks that fits is converted to whole milliseconds. *)
Lemma apple_ticks_to_ms_floor n : 0 <= n -> n * 1000 < 2 ^ 53 -> pos_time_ticks_to_ms n = Ret (n / 1000).
Proof.
  intros Hn Hb. assert (1000 * (n / 1000) <= n < 1000 * (n / 1000 + 1)) as Hd
    by (Z.to_euclidean_division_equations; lia).
  set (k := n / 1000) in *. clearbody k.
  set (x := (dmul (dbl n) ONE_THOUSAND / POS_TICKS_PER_SEC_F)%Q).
  assert (x == n # 1000)%Q as Hx.
  { unfold x. rewrite apple_ticks_per_sec_exact.
    rewrite (dmul_exact _ _ n 1000) by (apply dbl_exact || apply one_thousand_exact || lia; lia).
    unfold Qdiv, Qeq. simpl. lia. }
  change (to_u64 (round64 x) = Ret k). clearbody x.
  assert (0 <= Qnum x) as Hx0 by (apply (Qnum_nonneg x n 1000); [lia | done]).
  apply to_u64_ret; [|lia]. apply trunc_between; [lia| |].
  - change (inject_Z k) with (frac k 0). apply round64_ge; [done | split; lia |]. rewrite Hx. unfold Qle. simpl. lia.
  - eapply Qle_lt_trans; [apply (round64_le x ((k + 1) * 2 ^ 10 - 1) 10); [done | split; lia |]|].
    + rewrite Hx. unfold Qle, frac. simpl. lia.
    + unfold Qlt, frac. simpl. lia.
Qed.
End AppleTime.

(** * A witness for the semaphores *)

Section Witness.

(** A semaphore is its value, kept within the range. *)
Definition demo_clamp (s : Z) : Z := Z.max 0 (Z.min LONG_MAX s).

#[local] Instance demo_dispatch : DispatchSemaphores Z := {
  dispatch_semaphore_create v := if bool_decide (demo_clamp v = v) then Some v else None;
  dispatch_semaphore_signal s :=
    if demo_clamp s <? LONG_MAX then Some (0, demo_clamp s + 1) else None;
  dispatch_semaphore_wait timeout s :=
    if 0 <? demo_clamp s then Some (0, demo_clamp s - 1)
    else if timeout =? DISPATCH_TIME_FOREVER then None else Some (49, s);
  dispatch_value := demo_clamp
}.

#[local] Instance demo_dispatch_laws : DispatchSemaphoresLaws Z.
Proof.
  split; simpl; unfold LONG_MAX.
  - intros s. unfold demo_clamp, LONG_MAX. lia.
  - intros v s _. case_bool_decide; [|done]. by intros [= <-].
  - intros s Hs. rewrite (proj2 (Z.ltb_lt _ _) Hs). do 2 eexists. split; [done|].
    unfold demo_clamp, LONG_MAX in *. lia.
  - intros timeout s Hs. rewrite (proj2 (Z.ltb_lt _ _) Hs). eexists. split; [done|].
    unfold demo_clamp, LONG_MAX in *. lia.
  - intros s ->. done.
  - intros timeout s -> Hne. simpl. rewrite (proj2 (Z.eqb_neq _ _) Hne). by eexists.
Qed.

Example apple_sem_spec_witness :
  pos_sem_take POS_TIME_NO_WAIT (mkPosSem (Some 0)) = Ret (POS_TIMEOUT, mkPosSem (Some 0)).
Proof. exact (proj1 (proj2 (apple_sem_spec POS_TIME_NO_WAIT 0)) eq_refl). Defined.
End Witness.
