(* ===== verification/AppleTimer.v ===== *)
(** targets/posix/os_timer.c, Apple branch: timers over libdispatch sources. The
    functions as the code has them, then every sequence of calls and expiries
    against the one-shot life that a source allows. *)

From S2P Require Import Prelude OsTypes Pthread Binary64 Apple.
#[local] Open Scope Z_scope.

(** * Sources of type DISPATCH_SOURCE_TYPE_TIMER *)

(** A source is created suspended. [dispatch_resume] traps ([None]) when the
    source is not suspended; nothing suspends one again here. [source_fire] is the step of the
    main queue: the event handler of a resumed source that is due is called. *)
Class DispatchSources (K : Type) := {
  dispatch_source_create : option K;
  dispatch_source_set_timer : Z -> K -> K;
  dispatch_resume : K -> option K;
  dispatch_source_cancel : K -> K;
  source_fire : K -> option K;
  source_resumed : K -> bool;
  source_cancelled : K -> bool;
  source_due : K -> bool
}.

(** "It is important to balance calls to dispatch_suspend and dispatch_resume";
    dispatch_source_cancel "prevents any further invocation of the event handler
    block"; "calling this function [set_timer] has no effect if the timer source
    has already been canceled". With the interval DISPATCH_TIME_FOREVER the
    source fires once per setting. *)
Class DispatchSourcesLaws (K : Type) `{DispatchSources K} : Prop := {
  source_created : forall k, dispatch_source_create = Some k ->
    source_resumed k = false /\ source_cancelled k = false /\ source_due k = false;
  source_set : forall delay k, let k' := dispatch_source_set_timer delay k in
    source_resumed k' = source_resumed k /\ source_cancelled k' = source_cancelled k /\
    source_due k' = negb (source_cancelled k) || source_due k;
  source_resume_ok : forall k, source_resumed k = false ->
    exists k', dispatch_resume k = Some k' /\ source_resumed k' = true /\
      source_cancelled k' = source_cancelled k /\ source_due k' = source_due k;
  source_resume_again : forall k, source_resumed k = true -> dispatch_resume k = None;
  source_cancel : forall k, let k' := dispatch_source_cancel k in
    source_resumed k' = source_resumed k /\ source_cancelled k' = true;
  source_fire_ok : forall k,
    source_resumed k && negb (source_cancelled k) && source_due k = true ->
    exists k', source_fire k = Some k' /\ source_resumed k' = true /\
      source_cancelled k' = false /\ source_due k' = false;
  source_fire_none : forall k,
    source_resumed k && negb (source_cancelled k) && source_due k = false -> source_fire k = None
}.

(** [struct pos_timer] of the branch (os_time.h). *)
Record pos_timer (K CB P : Type) := mkPosTimer {
  tm_cb : CB;
  tm_ticks : Z;
  tm_timer : option K;
  tm_active : bool;
  tm_arg : option P
}.
Arguments mkPosTimer {K CB P} tm_cb tm_ticks tm_timer tm_active tm_arg.
Arguments tm_cb {K CB P} p.
Arguments tm_ticks {K CB P} p.
Arguments tm_timer {K CB P} p.
Arguments tm_active {K CB P} p.
Arguments tm_arg {K CB P} p.

Section AppleTimer.
Context {K CB P : Type} `{DispatchSources K}.

Abbreviation timer := (pos_timer K CB P).

Definition pos_timer_inited (t : timer) : pos_error :=
  match tm_timer t with None => POS_EINVAL | Some _ => POS_OK end.

(** The result of [dispatch_source_create] is used unchecked. *)
Definition pos_timer_init (cb : CB) (arg : option P) (mem : timer) : outcome (pos_error * timer) :=
  do dispatch <- deref dispatch_source_create;
  Ret (POS_OK, mkPosTimer cb 0 (Some dispatch) false arg).

(** [ticks * (1000000000.0 / POS_TICKS_PER_SEC)], converted to [uint64_t]. *)
Definition delay_ns (ticks : Z) : outcome Z :=
  to_u64 (dmul (dbl ticks) (ddiv (dbl 1000000000) (dbl POS_TICKS_PER_SEC))).

(** The two checks of the handle are the same; [dispatch_resume] traps when the
    source is not suspended. *)
Definition pos_timer_start (clock : timespec) (ticks : Z) (t : timer) : outcome (pos_error * timer) :=
  match tm_timer t with
  | None => Ret (POS_EINVAL, t)
  | Some dispatch =>
      do now <- pos_time_get clock;
      do ns <- delay_ns ticks;
      do dispatch <- of_option AssertFail (dispatch_resume (dispatch_source_set_timer ns dispatch));
      Ret (POS_OK, mkPosTimer (tm_cb t) (u64 (now + ticks)) (Some dispatch) true (tm_arg t))
  end.

Definition pos_timer_stop (t : timer) : pos_error * timer :=
  match tm_timer t with
  | None => (POS_EINVAL, t)
  | Some dispatch =>
      (POS_OK, mkPosTimer (tm_cb t) (tm_ticks t) (Some (dispatch_source_cancel dispatch)) false (tm_arg t))
  end.

Definition pos_timer_start_ms (clock : timespec) (duration : Z) (t : timer) : outcome (pos_error * timer) :=
  do delta <- pos_time_ms_to_ticks duration;
  pos_timer_start clock delta t.

Definition pos_timer_is_active (t : timer) : bool := tm_active t.

Definition pos_timer_remaining_ticks (t : timer) (now : Z) : Z := 0.

(** The source fires: the handler stops the timer, then makes the call. *)
Definition pos_timer_cb (t : timer) : option (CB * option P * timer) :=
  match tm_timer t ≫= source_fire with
  | Some k =>
      let t := (pos_timer_stop (mkPosTimer (tm_cb t) (tm_ticks t) (Some k) (tm_active t) (tm_arg t))).2 in
      Some (tm_cb t, tm_arg t, t)
  | None => None
  end.

(** * Any sequence of calls and expiries *)

Inductive event := EStart (clock : timespec) (ticks : Z) | EStop | EExpire.

(** One event, and whether it called the callback. *)
Definition timer_step (ev : event) (t : timer) : outcome (bool * timer) :=
  match ev with
  | EStart clock ticks => do '(_, t) <- pos_timer_start clock ticks t; Ret (false, t)
  | EStop => Ret (false, (pos_timer_stop t).2)
  | EExpire => Ret match pos_timer_cb t with Some (_, t) => (true, t) | None => (false, t) end
  end.

Fixpoint timer_run (evs : list event) (t : timer) : outcome (list bool * timer) :=
  match evs with
  | [] => Ret ([], t)
  | ev :: evs =>
      do '(b, t) <- timer_step ev t;
      do '(bs, t) <- timer_run evs t;
      Ret (b :: bs, t)
  end.

(** * The life of a timer: it can be started once, and fires if it was not
    stopped before. *)

Inductive life := Fresh | Stopped | Running | Stuck | Over.

#[local] Instance life_eq_dec : EqDecision life.
Proof. solve_decision. Defined.

(** [None]: the process is stopped. *)
Definition life_step (ev : event) (l : life) : option (bool * life) :=
  match ev, l with
  | EStart _ _, Fresh => Some (false, Running)
  | EStart _ _, Stopped => Some (false, Stuck)
  | EStart _ _, (Running | Stuck | Over) => None
  | EStop, (Fresh | Stopped) => Some (false, Stopped)
  | EStop, (Running | Stuck | Over) => Some (false, Over)
  | EExpire, Running => Some (true, Over)
  | EExpire, _ => Some (false, l)
  end.

Fixpoint life_run (evs : list event) (l : life) : option (list bool * life) :=
  match evs with
  | [] => Some ([], l)
  | ev :: evs =>
      match life_step ev l with
      | Some (b, l) => (fun r => (b :: r.1, r.2)) <$> life_run evs l
      | None => None
      end
  end.

Definition life_active (l : life) : bool :=
  match l with Running | Stuck => true | Fresh | Stopped | Over => false end.

(** How often the timer has been started, and may still fire. *)
Definition life_started (l : life) : nat :=
  match l with Fresh | Stopped => 0 | Running | Stuck | Over => 1 end.
Definition life_shots (l : life) : nat := match l with Fresh | Running => 1 | _ => 0 end.

Definition starts (evs : list event) : nat :=
  sum_list_with (fun ev => match ev with EStart _ _ => 1 | _ => 0 end)%nat evs.
Definition fires (bs : list bool) : nat := sum_list_with Nat.b2n bs.

(** The clock is in range, and the ticks are under 104 days. *)
Definition event_ok (ev : event) : Prop :=
  match ev with
  | EStart clock ticks => is_u32 (tv_sec clock) /\ nsec_valid clock = true /\
                          0 <= ticks /\ ticks * 1000 < 2 ^ 53
  | _ => True
  end.

Lemma life_run_starts evs l : life_run evs l = None <-> (2 <= life_started l + starts evs)%nat.
Proof.
  revert l. induction evs as [|ev evs IH]; intros l.
  - split; [done|]. destruct l; unfold starts; simpl; lia.
  - unfold starts in *. cbn [life_run sum_list_with]. destruct (life_step ev l) as [[b l']|] eqn:E.
    + rewrite fmap_None, IH. destruct ev, l; try discriminate E; injection E as <- <-; simpl; lia.
    + split; [intros _|done]. destruct ev, l; try discriminate E; simpl; lia.
Qed.

Lemma life_run_fires evs l bs l' : life_run evs l = Some (bs, l') -> (fires bs <= life_shots l)%nat.
Proof.
  revert l bs. induction evs as [|ev evs IH]; intros l bs; cbn [life_run].
  - intros [= <- _]. unfold fires. simpl. lia.
  - destruct (life_step ev l) as [[b l1]|] eqn:E; [|done].
    intros ([bs1 l2] & Hrun & [= -> ->])%fmap_Some. apply IH in Hrun. unfold fires in *. simpl.
    destruct ev, l; try discriminate E; injection E as <- <-; simpl in *; lia.
Qed.

Context `{!DispatchSourcesLaws K}.

(** What a source is in each state of its life. *)
Definition lives (l : life) (t : timer) : Prop :=
  tm_active t = life_active l /\
  exists k, tm_timer t = Some k /\
    source_resumed k = match l with Fresh | Stopped => false | _ => true end /\
    source_cancelled k = match l with Fresh | Running => false | _ => true end /\
    (l = Running -> source_due k = true).

Lemma delay_ns_ret ticks : 0 <= ticks -> ticks * 1000 < 2 ^ 53 -> delay_ns ticks = Ret (ticks * 1000).
Proof.
  intros H1 H2. apply to_u64_ret; [|lia]. apply trunc_exact; [lia|].
  apply PosixTime.dmul_exact; [apply PosixTime.dbl_exact; lia | reflexivity | lia].
Qed.

Lemma timer_step_lives ev l t :
  event_ok ev -> lives l t ->
  match life_step ev l with
  | Some (b, l') => exists t', timer_step ev t = Ret (b, t') /\ lives l' t'
  | None => timer_step ev t = AssertFail
  end.
Proof.
  intros Hev (Ha & k & Ht & Hr & Hc & Hd). destruct ev as [clock ticks| |]; simpl.
  - destruct Hev as (H1 & H2 & H3 & H4).
    destruct (apple_now clock H1 H2) as [now Hnow].
    unfold pos_timer_start. rewrite Ht, Hnow, delay_ns_ret by done. cbn [obind].
    destruct (source_set (ticks * 1000) k) as (Sr & Sc & Sd).
    set (k1 := dispatch_source_set_timer _ _) in *. clearbody k1. rewrite Hr in Sr. rewrite Hc in Sc, Sd.
    destruct l; try (by rewrite (source_resume_again k1 Sr));
      destruct (source_resume_ok k1 Sr) as (k2 & -> & Rr & Rc & Rd); cbn [of_option obind];
      (eexists; split; [done|]); split; try done; exists k2; simpl; rewrite Rc, Rd, Sc, Sd; done.
  - unfold pos_timer_stop. rewrite Ht. destruct (source_cancel k) as [Cr Cc].
    set (k1 := dispatch_source_cancel k) in *. clearbody k1. rewrite Hr in Cr.
    destruct l; (eexists; split; [done|]); (split; [done|]); by exists k1.
  - unfold pos_timer_cb. rewrite Ht. simpl. destruct (decide (l = Running)) as [->|Hne].
    + destruct (source_fire_ok k) as (k1 & -> & Fr & Fc & Fd); [by rewrite Hr, Hc, Hd|]. simpl.
      destruct (source_cancel k1) as [Cr Cc]. eexists. split; [done|]. split; [done|].
      eexists. split; [done|]. by rewrite Cr, Cc.
    + rewrite source_fire_none; [|rewrite Hr, Hc; by destruct l].
      destruct l; try done; (eexists; split; [done|]); (split; [done|]); by exists k.
Qed.

Lemma timer_run_lives evs l t :
  Forall event_ok evs -> lives l t ->
  match life_run evs l with
  | Some (bs, l') => exists t', timer_run evs t = Ret (bs, t') /\ lives l' t'
  | None => timer_run evs t = AssertFail
  end.
Proof.
  intros Hevs. revert l t. induction Hevs as [|ev evs Hev _ IH]; intros l t Hl; cbn [life_run timer_run].
  - by exists t.
  - pose proof (timer_step_lives ev l t Hev Hl) as Hs. destruct (life_step ev l) as [[b l1]|]; [|by rewrite Hs].
    destruct Hs as (t1 & -> & Hl1). specialize (IH l1 t1 Hl1). cbn [obind].
    destruct (life_run evs l1) as [[bs l2]|]; simpl; [|by rewrite IH].
    destruct IH as (t2 & -> & Hl2). by exists t2.
Qed.

(** * Properties *)

(** C27. The API documents that a timer may be started again and again. Over
    libdispatch the code can start one once: the sequences of calls and
    expiries in which it is started a second time are exactly those that stop
    the process, because [dispatch_resume] is not balanced. In the others it
    goes through the life above: it fires at most once, never if it was stopped
    before or after its start, and a timer that was stopped before its start is
    active from then on until it is stopped again. (Each start is for less than
    2^53 ns, and the clock is in range: [event_ok].) *)
Theorem apple_timer_single_use cb arg mem t evs :
  pos_timer_init cb arg mem = Ret (POS_OK, t) -> Forall event_ok evs ->
  (timer_run evs t = AssertFail <-> (2 <= starts evs)%nat) /\
  ((starts evs <= 1)%nat -> exists bs l t',
     timer_run evs t = Ret (bs, t') /\ life_run evs Fresh = Some (bs, l) /\ (fires bs <= 1)%nat /\
     pos_timer_is_active t' = life_active l).
Proof.
  unfold pos_timer_init. destruct dispatch_source_create as [k|] eqn:Ek; [|done]. intros [= <-] Hevs.
  destruct (source_created k Ek) as (Hr & Hc & Hd).
  assert (lives Fresh (mkPosTimer cb 0 (Some k) false arg)) as Hl by (split; [done|]; by exists k).
  pose proof (timer_run_lives evs Fresh _ Hevs Hl) as Hrun. pose proof (life_run_starts evs Fresh) as Hst.
  destruct (life_run evs Fresh) as [[bs l]|] eqn:El; simpl in Hst.
  - destruct Hrun as (t' & E & Ha & _). split.
    + rewrite E. split; [done|]. intros Hn. by apply Hst in Hn.
    + intros _. exists bs, l, t'. split_and!; try done. by apply (life_run_fires evs Fresh bs l).
  - split; [by rewrite Hrun; split; [intros _; apply Hst|]|]. intros Hn.
    destruct Hst as [Hst _]. specialize (Hst eq_refl). lia.
Qed.
End AppleTimer.

(** * A witness *)

Section Witness.

(** A source: resumed, cancelled, due. *)
Definition demo_source : Type := bool * bool * bool.

#[local] Instance demo_sources : DispatchSources demo_source := {
  dispatch_source_create := Some (false, false, false);
  dispatch_source_set_timer delay k := let '(r, c, d) := k in (r, c, negb c || d);
  dispatch_resume k := let '(r, c, d) := k in if (r : bool) then None else Some (true, c, d);
  dispatch_source_cancel k := let '(r, c, d) := k in (r, true, d);
  source_fire k := let '(r, c, d) := k in if r && negb c && d then Some (r, c, false) else None;
  source_resumed k := k.1.1;
  source_cancelled k := k.1.2;
  source_due k := k.2
}.

#[local] Instance demo_sources_laws : DispatchSourcesLaws demo_source.
Proof.
  split; simpl.
  - by intros k [= <-].
  - by intros delay [[r c] d].
  - intros [[r c] d]. simpl. intros ->. by eexists.
  - intros [[r c] d]. simpl. by intros ->.
  - by intros [[r c] d].
  - intros [[r c] d]. simpl. destruct r, c, d; try done. intros _. by eexists.
  - intros [[r c] d]. simpl. by intros ->.
Qed.

(** Started, expired, and started again; and stopped before the first start. *)
Example apple_timer_single_use_witness :
  let clock := mkTimespec 1700000000 0 in
  let t : pos_timer demo_source nat nat :=
    mkPosTimer 1%nat 0 (Some (false, false, false)) false (Some 2%nat) in
  timer_run [EStart clock 1000; EExpire; EStart clock 1000] t = AssertFail /\
  exists bs l t', timer_run [EStop; EStart clock 1000; EExpire] t = Ret (bs, t') /\
    life_run [EStop; EStart clock 1000; EExpire] Fresh = Some (bs, l) /\ (fires bs <= 1)%nat /\
    pos_timer_is_active t' = life_active l.
Proof.
  intros clock t.
  assert (event_ok (EStart clock 1000)) as Hok by (unfold event_ok, is_u32; simpl; split_and!; try lia; done).
  assert (pos_timer_init 1%nat (Some 2%nat) t = Ret (POS_OK, t)) as Hinit by reflexivity.
  assert (Forall event_ok [EStart clock 1000; EExpire; EStart clock 1000]) as H1
    by (repeat first [exact Hok | exact I | constructor]).
  assert (Forall event_ok [EStop; EStart clock 1000; EExpire]) as H2
    by (repeat first [exact Hok | exact I | constructor]).
  split.
  - apply (proj1 (apple_timer_single_use _ _ t t _ Hinit H1)). vm_compute. lia.
  - apply (proj2 (apple_timer_single_use _ _ t t _ Hinit H2)). vm_compute. lia.
Defined.
End Witness.
