(* ===== verification/OsTask.v ===== *)
(** include/poski/OsTask.h: the wrapper remembers whether its task runs, and so
    removes it at most once. Verified against the task interface of [OsalApi],
    so the results hold over every port that provides it. The static members
    forward to the scheduler. *)

From S2P Require Import Prelude OsTypes Pthread PosixUtils OsalApi PosixTask.

(** [class OsTask]. *)
Record OsTask (S : Type) := mkOsTask { task_ : S; inited_ : bool }.
Arguments mkOsTask {S} task_ inited_.
Arguments task_ {S} o.
Arguments inited_ {S} o.

Section OsTask.
Context {S F X W : Type} `{OsalTask S F X W}.

(** The constructor, on storage that holds [mem]. *)
Definition OsTask_new (mem : S) : OsTask S := mkOsTask mem false.

Definition Start (nm : list byte) (func : F) (arg : X) (prio stackSize : Z)
    (o : OsTask S) (w : W) : outcome (pos_error * OsTask S * W) :=
  do '(err, t, w) <- osal_task_init nm func arg prio stackSize (task_ o) w;
  Ret (err, mkOsTask t (if decide (err = POS_OK) then true else inited_ o), w).

Definition Remove (o : OsTask S) (w : W) : outcome (pos_error * OsTask S * W) :=
  if inited_ o then
    do '(err, w) <- osal_task_remove (task_ o) w;
    Ret (err, mkOsTask (task_ o) (if decide (err = POS_OK) then false else inited_ o), w)
  else Ret (POS_ERROR, o, w).

Definition GetNative (o : OsTask S) : S := task_ o.

(** * Calls in sequence *)

Inductive event := EStart (nm : list byte) (func : F) (arg : X) (prio stackSize : Z) | ERemove.

Definition step (ev : event) (o : OsTask S) (w : W) : outcome (pos_error * OsTask S * W) :=
  match ev with
  | EStart nm func arg prio stackSize => Start nm func arg prio stackSize o w
  | ERemove => Remove o w
  end.

Fixpoint run (evs : list event) (o : OsTask S) (w : W)
    : outcome (list (event * pos_error) * OsTask S * W) :=
  match evs with
  | [] => Ret ([], o, w)
  | ev :: evs =>
      do '(e, o, w) <- step ev o w;
      do '(rs, o, w) <- run evs o w;
      Ret ((ev, e) :: rs, o, w)
  end.

Definition is_start (r : event * pos_error) : bool :=
  match r with (EStart _ _ _ _ _, POS_OK) => true | _ => false end.

Definition is_remove (r : event * pos_error) : bool :=
  match r with (ERemove, POS_OK) => true | _ => false end.

Definition count (f : event * pos_error -> bool) (rs : list (event * pos_error)) : nat :=
  length (List.filter f rs).

Lemma count_cons f r rs : count f (r :: rs) = (Nat.b2n (f r) + count f rs)%nat.
Proof. unfold count. simpl. by destruct (f r). Qed.

Context `{!OsalTaskLaws S F X W}.

(** What one call adds to the tasks started and removed, and that a removal uses
    up the object's right to one. *)
Lemma step_spec ev o w e o' w' :
  step ev o w = Ret (e, o', w') ->
  tasks_started w' = (tasks_started w + Nat.b2n (is_start (ev, e)))%nat /\
  tasks_removed w' = (tasks_removed w + Nat.b2n (is_remove (ev, e)))%nat /\
  (Nat.b2n (is_remove (ev, e)) + Nat.b2n (inited_ o') <=
   Nat.b2n (is_start (ev, e)) + Nat.b2n (inited_ o))%nat.
Proof.
  destruct ev as [nm f x prio sz|]; simpl.
  - unfold Start. intros ([[err t] w1] & E & [= <- <- <-])%obind_ret_inv.
    destruct (task_init_counts _ _ _ _ _ _ _ _ _ _ E) as [-> ->]. simpl.
    destruct (decide (err = POS_OK)) as [->|He]; simpl; [destruct (inited_ o); simpl; lia|].
    rewrite bool_decide_eq_false_2 by done. destruct err; simpl; try done; lia.
  - unfold Remove. destruct (inited_ o) eqn:Hi; [|intros [= <- <- <-]; rewrite Hi; simpl; lia].
    intros ([err w1] & E & [= <- <- <-])%obind_ret_inv.
    destruct (task_remove_counts _ _ _ _ E) as [-> ->]. simpl.
    destruct (decide (err = POS_OK)) as [->|He]; simpl; [lia|].
    rewrite bool_decide_eq_false_2 by done. destruct err; simpl; try done; lia.
Qed.

Lemma run_spec evs o w rs o' w' :
  run evs o w = Ret (rs, o', w') ->
  (count is_remove rs + Nat.b2n (inited_ o') <= count is_start rs + Nat.b2n (inited_ o))%nat /\
  tasks_started w' = (tasks_started w + count is_start rs)%nat /\
  tasks_removed w' = (tasks_removed w + count is_remove rs)%nat.
Proof.
  revert o w rs. induction evs as [|ev evs IH]; simpl; intros o w rs.
  { intros [= <- <- <-]. unfold count. simpl. lia. }
  intros ([[e o1] w1] & E & ([[rs' o2] w2] & E' & [= <- <- <-])%obind_ret_inv)%obind_ret_inv.
  destruct (IH _ _ _ E') as (IH1 & IH2 & IH3). destruct (step_spec _ _ _ _ _ _ E) as (S1 & S2 & S3).
  rewrite !count_cons. lia.
Qed.

(** * Properties *)

(** Over any port with the task laws of [OsalApi], whatever calls are made on
    one wrapper object and whichever fail: the port has started one task per
    successful start and removed one per successful removal, there are no more
    removals than starts, and a removal with no start left to undo answers
    POS_ERROR and does nothing. *)
Theorem os_task_remove_once mem evs w rs o w' :
  run evs (OsTask_new mem) w = Ret (rs, o, w') ->
  (count is_remove rs <= count is_start rs)%nat /\
  tasks_started w' = (tasks_started w + count is_start rs)%nat /\
  tasks_removed w' = (tasks_removed w + count is_remove rs)%nat /\
  (count is_start rs = count is_remove rs -> Remove o w' = Ret (POS_ERROR, o, w')).
Proof.
  intros E. destruct (run_spec _ _ _ _ _ _ E) as (Hle & Hs & Hc). simpl in *.
  split_and!; try lia. intros Heq. unfold Remove.
  destruct (inited_ o); [simpl in Hle; lia | done].
Qed.
End OsTask.

(** * The static members *)

Section Statics.
Context {H W : Type} `{OsalSleep H W}.

Definition Yield (w : W) : W := osal_task_yield w.
Definition Sleep (ms : Z) (w : W) : outcome W := osal_task_sleep_ms ms w.
Definition SleepTicks (ticks : Z) (w : W) : outcome W := osal_task_sleep ticks w.
Definition SleepMs (ms : Z) (w : W) : outcome W := osal_task_sleep_ms ms w.
Definition GetCurrentTaskId (w : W) : H := osal_get_current_task_id w.

Context `{OsalSched W}.

Definition SchedStart (w : W) : outcome W := osal_sched_start w.
Definition SchedStarted (w : W) : bool := osal_sched_started w.

(** What a task does that only waits. *)
Inductive pause := PYield | PSleep (ms : Z) | PSleepTicks (ticks : Z) | PSleepMs (ms : Z).

Definition pause_step (p : pause) (w : W) : outcome W :=
  match p with
  | PYield => Ret (Yield w)
  | PSleep ms => Sleep ms w
  | PSleepTicks n => SleepTicks n w
  | PSleepMs ms => SleepMs ms w
  end.

Fixpoint pause_run (ps : list pause) (w : W) : outcome W :=
  match ps with
  | [] => Ret w
  | p :: ps => do w <- pause_step p w; pause_run ps w
  end.

(** The time asked for, in nanoseconds. *)
Definition pause_ns (p : pause) : Z :=
  match p with
  | PYield => 0
  | PSleep ms | PSleepMs ms => ms * 1000000
  | PSleepTicks n => n * tick_ns
  end.

Definition pause_ok (p : pause) : Prop :=
  match p with PYield => True | PSleep n | PSleepTicks n | PSleepMs n => is_u32 n end.

Definition total_ns (ps : list pause) : Z := foldr (fun p n => pause_ns p + n) 0 ps.

Context `{!OsalSleepLaws H W}.

Lemma pause_step_time p w : pause_ok p ->
  exists w', pause_step p w = Ret w' /\ elapsed_ns w + pause_ns p <= elapsed_ns w'.
Proof.
  destruct p as [|ms|n|ms]; simpl; intros Hp;
    [|by apply task_sleep_millis | by apply task_sleep_ticks | by apply task_sleep_millis].
  eexists. split; [done|]. pose proof (task_yield_time w). unfold Yield. lia.
Qed.

(** Over any port that provides the sleeping interface, any sequence of sleeps
    and yields ends, and not before the sum of the times asked for. *)
Theorem os_task_sleeps_enough ps w : Forall pause_ok ps ->
  exists w', pause_run ps w = Ret w' /\ elapsed_ns w + total_ns ps <= elapsed_ns w'.
Proof.
  intros Hps. revert w. induction Hps as [|p ps Hp _ IH]; intros w; simpl.
  - exists w. split; [done|]. unfold total_ns. simpl. lia.
  - destruct (pause_step_time p w Hp) as (w1 & -> & Hstep). destruct (IH w1) as (w' & Hw & Hrest).
    exists w'. split; [exact Hw|]. unfold total_ns in *. simpl. lia.
Qed.
End Statics.

(** * A witness over the demonstration threads of PosixTask *)

Section Witness.
#[local] Existing Instances linux_errno demo_threads demo_threads_laws posix_osal_task.
#[local] Existing Instance posix_task_laws.

Example os_task_remove_once_witness :
  let evs := [EStart [x61] (Some 7%nat) 9%nat 2 1024; ERemove; ERemove] in
  exists rs o st, run evs (OsTask_new demo_task) (mkTasks 0 ([], [])) = Ret (rs, o, st) /\
    count is_remove rs = 1%nat /\ Remove o st = Ret (POS_ERROR, o, st).
Proof.
  intros evs.
  destruct (run evs (OsTask_new demo_task) (mkTasks 0 ([], []))) as [[[rs o] st]| | | |] eqn:E;
    pose proof E as V; vm_compute in V; try discriminate V.
  exists rs, o, st. split; [reflexivity|].
  destruct (os_task_remove_once demo_task evs (mkTasks 0 ([], [])) rs o st E) as (_ & _ & _ & Hr).
  split; [|apply Hr]; clear Hr; injection V as <- <- <-; vm_compute; reflexivity.
Defined.
#[local] Existing Instances demo_sleep demo_sleep_laws.

#[local] Instance demo_scheduler : PosixScheduler nat (Z * list Z) :=
  {| sched_yield w := w; pthread_self _ := 1%nat |}.
#[local] Instance witness_sleep : OsalSleep nat (Z * list Z) := posix_osal_sleep.
#[local] Instance witness_sleep_laws : OsalSleepLaws nat (Z * list Z).
Proof. apply posix_sleep_laws. simpl. intros w. reflexivity. Defined.

(** Two sleeps, the first of them interrupted twice. *)
Example os_task_sleeps_enough_witness :
  exists w', pause_run [PSleep 1500; PYield; PSleepTicks 3] (0, [400000000; 600000000]) = Ret w' /\
    0 + 1503 * 1000000 <= w'.1.
Proof.
  destruct (os_task_sleeps_enough (H := nat) [PSleep 1500; PYield; PSleepTicks 3] (0, [400000000; 600000000]))
    as (w' & Hw & Hel); [repeat constructor; vm_compute; congruence|].
  exists w'. split; [exact Hw|exact Hel].
Defined.
End Witness.
