(* ===== verification/OsTaskThreads.v ===== *)
(** include/poski/OsTask.h, statement by statement: threads that call [Start]
    and [Remove] on objects of the class, which share the tasks of the platform.
    Between the native call and the assignment of [inited_], and between the
    test of [inited_] and the native call, other threads run. Over the task
    interface of [OsalApi], like OsTask, whose methods are runs of these
    statements. *)

From S2P Require Import Prelude OsTypes Pthread PosixUtils OsalApi PosixTask OsTask.

(** Where a thread is inside a method, named after the statement it runs next. *)
Inductive tposition (F X : Type) :=
| StartNative (nm : list byte) (func : F) (arg : X) (prio stackSize : Z)  (* pos_task_init(&task_, ...) *)
| StartSet                                                        (* inited_ = true *)
| RemoveTest                                                      (* if (inited_) *)
| RemoveNative                                                    (* pos_task_remove(&task_) *)
| RemoveClear.                                                    (* inited_ = false *)
Arguments StartNative {F X} nm func arg prio stackSize.
Arguments StartSet {F X}.
Arguments RemoveTest {F X}.
Arguments RemoveNative {F X}.
Arguments RemoveClear {F X}.

(** The objects; the tasks of the platform; the threads, each inside a method of
    one object; and, for the statements below, the native calls that answered
    POS_OK: the object, and whether it was a creation. *)
Record tconfig (S F X W : Type) := mkTConfig {
  tobjects : gmap nat (OsTask S);
  platform : W;
  tthreads : gmap tid (nat * tposition F X);
  granted : list (nat * bool)
}.
Arguments mkTConfig {S F X W} tobjects platform tthreads granted.
Arguments tobjects {S F X W} t.
Arguments platform {S F X W} t.
Arguments tthreads {S F X W} t.
Arguments granted {S F X W} t.

(** A thread calls a method of an object, or runs its next statement. *)
Inductive tmove (F X : Type) :=
| BeginStart (t : tid) (i : nat) (nm : list byte) (func : F) (arg : X) (prio stackSize : Z)
| BeginRemove (t : tid) (i : nat)
| TRun (t : tid).
Arguments BeginStart {F X} t i nm func arg prio stackSize.
Arguments BeginRemove {F X} t i.
Arguments TRun {F X} t.

Section OsTaskThreads.
Context {S F X W : Type} `{OsalTask S F X W}.

Abbreviation tcfg := (tconfig S F X W).

Definition tgo (t : tid) (i : nat) (p : tposition F X) (c : tcfg) : tcfg :=
  mkTConfig (tobjects c) (platform c) (<[t := (i, p)]> (tthreads c)) (granted c).
Definition tleave (t : tid) (c : tcfg) : tcfg :=
  mkTConfig (tobjects c) (platform c) (delete t (tthreads c)) (granted c).
Definition with_object (i : nat) (o : OsTask S) (c : tcfg) : tcfg :=
  mkTConfig (<[i := o]> (tobjects c)) (platform c) (tthreads c) (granted c).
Definition with_platform (w : W) (c : tcfg) : tcfg :=
  mkTConfig (tobjects c) w (tthreads c) (granted c).
Definition grant (i : nat) (creation : bool) (c : tcfg) : tcfg :=
  mkTConfig (tobjects c) (platform c) (tthreads c) (granted c ++ [(i, creation)]).

(** The next statement of thread [t] at [p] in a method of object [i], which is
    [o]. *)
Definition trun (t : tid) (i : nat) (o : OsTask S) (p : tposition F X) (c : tcfg) : outcome tcfg :=
  match p with
  | StartNative nm func arg prio stackSize =>
      do '(err, task, w) <- osal_task_init nm func arg prio stackSize (task_ o) (platform c);
      let c := with_platform w (with_object i (mkOsTask task (inited_ o)) c) in
      Ret (if decide (err = POS_OK) then tgo t i StartSet (grant i true c) else tleave t c)
  | StartSet => Ret (tleave t (with_object i (mkOsTask (task_ o) true) c))
  | RemoveTest => Ret (if inited_ o then tgo t i RemoveNative c else tleave t c)
  | RemoveNative =>
      do '(err, w) <- osal_task_remove (task_ o) (platform c);
      let c := with_platform w c in
      Ret (if decide (err = POS_OK) then tgo t i RemoveClear (grant i false c) else tleave t c)
  | RemoveClear => Ret (tleave t (with_object i (mkOsTask (task_ o) false) c))
  end.

Definition texec (mv : tmove F X) (c : tcfg) : option (outcome tcfg) :=
  match mv with
  | BeginStart t i nm func arg prio stackSize =>
      match tthreads c !! t, tobjects c !! i with
      | None, Some _ => Some (Ret (tgo t i (StartNative nm func arg prio stackSize) c))
      | _, _ => None
      end
  | BeginRemove t i =>
      match tthreads c !! t, tobjects c !! i with
      | None, Some _ => Some (Ret (tgo t i RemoveTest c))
      | _, _ => None
      end
  | TRun t =>
      match tthreads c !! t with
      | Some (i, p) => match tobjects c !! i with Some o => Some (trun t i o p c) | None => None end
      | None => None
      end
  end.

Fixpoint texec_all (mvs : list (tmove F X)) (c : tcfg) : option (outcome tcfg) :=
  match mvs with
  | [] => Some (Ret c)
  | mv :: mvs =>
      match texec mv c with
      | Some (Ret c') => texec_all mvs c'
      | r => r
      end
  end.

(** The class is not synchronised: one thread at a time uses an object. *)
Definition one_user (mv : tmove F X) (c : tcfg) : Prop :=
  match mv with
  | BeginStart _ i _ _ _ _ _ | BeginRemove _ i =>
      forall t p, tthreads c !! t <> Some (i, p)
  | TRun _ => True
  end.

Inductive treachable (ok : tmove F X -> tcfg -> Prop) (c0 : tcfg) : tcfg -> Prop :=
| treach_init : treachable ok c0 c0
| treach_step c mv c' :
    treachable ok c0 c -> ok mv c -> texec mv c = Some (Ret c') -> treachable ok c0 c'.

(** Objects just constructed, and no thread inside. *)
Definition tinit (objs : gmap nat (OsTask S)) (w : W) : tcfg := mkTConfig objs w ∅ [].

(** * One call alone *)

(** A method called by one thread, with no other statement in between, is the
    method of OsTask. *)
Lemma start_is_run t i o c nm func arg prio size err o' w' :
  tthreads c !! t = None -> tobjects c !! i = Some o ->
  Start nm func arg prio size o (platform c) = Ret (err, o', w') ->
  exists n c', texec_all (BeginStart t i nm func arg prio size :: replicate n (TRun t)) c = Some (Ret c') /\
    tobjects c' = <[i := o']> (tobjects c) /\ platform c' = w' /\ tthreads c' = tthreads c.
Proof.
  intros Ht Ho E. apply obind_ret_inv in E as ([[e task] w] & En & [= <- <- <-]).
  exists (if decide (e = POS_OK) then 2 else 1)%nat. destruct (decide (e = POS_OK)) as [->|He];
    simpl; rewrite Ht, Ho; simpl; rewrite lookup_insert_eq, Ho; simpl; rewrite En; simpl.
  - rewrite !lookup_insert_eq. simpl. eexists. split; [reflexivity|]. simpl.
    by rewrite insert_insert_eq, !delete_insert_eq, delete_id.
  - rewrite decide_False by done. eexists. split; [reflexivity|]. simpl. by rewrite delete_insert_eq, delete_id.
Qed.

Lemma remove_is_run t i o c err o' w' :
  tthreads c !! t = None -> tobjects c !! i = Some o -> Remove o (platform c) = Ret (err, o', w') ->
  exists n c', texec_all (BeginRemove t i :: replicate n (TRun t)) c = Some (Ret c') /\
    tobjects c' = <[i := o']> (tobjects c) /\ platform c' = w' /\ tthreads c' = tthreads c.
Proof.
  intros Ht Ho. unfold Remove. destruct (inited_ o) eqn:Hin.
  - intros ([e w] & En & [= <- <- <-])%obind_ret_inv.
    exists (if decide (e = POS_OK) then 3 else 2)%nat. destruct (decide (e = POS_OK)) as [->|He];
      simpl; rewrite Ht, Ho; simpl; rewrite lookup_insert_eq, Ho; simpl; rewrite Hin; simpl;
      rewrite lookup_insert_eq, Ho; simpl; rewrite En; simpl.
    + rewrite !lookup_insert_eq, Ho. simpl. eexists. split; [reflexivity|]. simpl.
      by rewrite !insert_insert_eq, delete_insert_eq, delete_id.
    + rewrite decide_False by done. eexists. split; [reflexivity|]. simpl.
      rewrite insert_insert_eq, delete_insert_eq, delete_id by done. split_and!; [|done|done].
      rewrite insert_id; [done|]. rewrite Ho. f_equal. destruct o. simpl in *. congruence.
  - intros [= <- <- <-]. exists 1%nat. simpl. rewrite Ht, Ho. simpl. rewrite lookup_insert_eq, Ho. simpl.
    rewrite Hin. eexists. split; [reflexivity|]. simpl. by rewrite delete_insert_eq, delete_id, insert_id.
Qed.

(** * Rights to remove *)

(** The native creations and removals granted to object [i]. *)
Definition grants (i : nat) (creation : bool) (l : list (nat * bool)) : nat :=
  length (filter (fun g => g = (i, creation)) l).
Definition all_grants (creation : bool) (l : list (nat * bool)) : nat :=
  length (filter (fun g => g.2 = creation) l).

(** What a thread inside a method still adds to the right of its object: a task
    created and not noted yet, or removed and not noted yet. *)
Definition right_change (p : tposition F X) : option bool :=
  match p with StartSet => Some true | RemoveClear => Some false | _ => None end.

(** Whether object [o] can still remove a task, with thread position [p] in it. *)
Definition right (o : OsTask S) (p : option (tposition F X)) : bool :=
  default (inited_ o) (p ≫= right_change).

Lemma grants_snoc i b j b' l :
  grants i b (l ++ [(j, b')]) = (grants i b l + if bool_decide ((j, b') = (i, b)) then 1 else 0)%nat.
Proof. unfold grants. rewrite filter_app, length_app, filter_cons. by case_decide; case_bool_decide. Qed.

Lemma all_grants_snoc b j b' l :
  all_grants b (l ++ [(j, b')]) = (all_grants b l + if bool_decide (b' = b) then 1 else 0)%nat.
Proof. unfold all_grants. rewrite filter_app, length_app, filter_cons. by case_decide; case_bool_decide. Qed.

(** The grants of one object, and the others. *)
Lemma grants_split i b l :
  all_grants b l = (grants i b l + all_grants b (filter (fun g => g.1 <> i) l))%nat.
Proof.
  induction l as [|[j b'] l IH] using rev_ind; [done|].
  rewrite all_grants_snoc, grants_snoc, IH, filter_app, (filter_cons _ (j, b')). simpl.
  case_decide as Hd; [rewrite all_grants_snoc | rewrite app_nil_r]; repeat case_bool_decide;
    simplify_eq/=; try lia; by destruct Hd; congruence.
Qed.

Lemma grants_others i j b l :
  grants j b (filter (fun g => g.1 <> i) l) = if decide (j = i) then 0%nat else grants j b l.
Proof.
  induction l as [|[k b'] l IH] using rev_ind; [by case_decide|].
  rewrite filter_app, (grants_snoc j b k b' l). destruct (decide (k = i)) as [->|Hne].
  - rewrite filter_cons_False, filter_nil, app_nil_r, IH by (by intros []).
    repeat case_decide; repeat case_bool_decide; simplify_eq/=; lia.
  - rewrite filter_cons_True, filter_nil, grants_snoc, IH by done.
    repeat case_decide; repeat case_bool_decide; simplify_eq/=; lia.
Qed.

(** No object removes more than it creates: neither do all together. *)
Lemma grants_total l :
  (forall i, (grants i false l <= grants i true l)%nat) -> (all_grants false l <= all_grants true l)%nat.
Proof.
  remember (length l) as n eqn:Hn. revert l Hn. induction n as [n IH] using lt_wf_ind. intros l -> Hle.
  destruct l as [|[i b] l]; [unfold all_grants; simpl; lia|].
  pose proof (grants_split i false ((i, b) :: l)) as Hf. pose proof (grants_split i true ((i, b) :: l)) as Ht.
  specialize (Hle i) as Hi.
  assert (all_grants false (filter (fun g => g.1 <> i) ((i, b) :: l)) <=
          all_grants true (filter (fun g => g.1 <> i) ((i, b) :: l)))%nat; [|lia].
  eapply IH; [|done|].
  - rewrite filter_cons_False by (by intros []). pose proof (length_filter (fun g => g.1 <> i) l). simpl. lia.
  - intros j. rewrite !grants_others. by case_decide.
Qed.

(** * The invariant *)

Context `{!OsalTaskLaws S F X W}.

(** The one thread inside a method of object [i], if any. *)
Definition in_object (c : tcfg) (i : nat) (p : option (tposition F X)) : Prop :=
  match p with
  | Some p => exists t, tthreads c !! t = Some (i, p)
  | None => forall t p, tthreads c !! t <> Some (i, p)
  end.

Record tinv (w0 : W) (c : tcfg) : Prop := {
  tinv_started : tasks_started (platform c) = (tasks_started w0 + all_grants true (granted c))%nat;
  tinv_removed : tasks_removed (platform c) = (tasks_removed w0 + all_grants false (granted c))%nat;
  tinv_users : forall t1 t2 i p1 p2, tthreads c !! t1 = Some (i, p1) -> tthreads c !! t2 = Some (i, p2) -> t1 = t2;
  tinv_absent : forall i b, tobjects c !! i = None -> grants i b (granted c) = 0%nat;
  tinv_rights : forall i o p, tobjects c !! i = Some o -> in_object c i p ->
    (grants i false (granted c) + Nat.b2n (right o p) <= grants i true (granted c))%nat;
  tinv_native : forall t i o, tthreads c !! t = Some (i, RemoveNative) -> tobjects c !! i = Some o -> inited_ o = true
}.

(** Some position is the one inside object [i]. *)
Lemma in_object_exists c i : exists p, in_object c i p.
Proof.
  destruct (decide (map_Exists (fun _ q => q.1 = i) (tthreads c))) as [Hex|Hno].
  - destruct Hex as (t & [j p] & Ht & <-). exists (Some p). by exists t.
  - exists None. intros t p Ht. apply Hno. by exists t, (i, p).
Qed.

(** A statement of thread [t] in object [i], from position [p] to [q], when the
    object becomes [o'] and the grants of that object alone change: the other
    objects keep their rights. *)
Lemma tinv_step w0 t i p q o o' c c' :
  tinv w0 c -> tthreads c !! t = Some (i, p) -> tobjects c !! i = Some o ->
  tobjects c' = <[i := o']> (tobjects c) ->
  tthreads c' = match q with Some q => <[t := (i, q)]> (tthreads c) | None => delete t (tthreads c) end ->
  tasks_started (platform c') = (tasks_started w0 + all_grants true (granted c'))%nat ->
  tasks_removed (platform c') = (tasks_removed w0 + all_grants false (granted c'))%nat ->
  (forall j b, j <> i -> grants j b (granted c') = grants j b (granted c)) ->
  (grants i false (granted c') + Nat.b2n (right o' q) <= grants i true (granted c'))%nat ->
  (q = Some RemoveNative -> inited_ o' = true) -> tinv w0 c'.
Proof.
  intros Hi Ht Ho Hob Hth Hs Hr Hg Hright Hnat.
  assert (forall t' j r, tthreads c' !! t' = Some (j, r) ->
            (t' = t /\ j = i /\ q = Some r) \/ (t' <> t /\ j <> i /\ tthreads c !! t' = Some (j, r))) as Hcase.
  { intros t' j r. rewrite Hth. destruct q as [q|].
    - intros [[<- [= <- <-]]|[Hne E]]%lookup_insert_Some; [by left|]. right. split_and!; [congruence| |done].
      intros ->. by destruct Hne; apply (tinv_users _ _ Hi t t' i p r).
    - intros [Hne E]%lookup_delete_Some. right. split_and!; [congruence| |done].
      intros ->. by destruct Hne; apply (tinv_users _ _ Hi t t' i p r). }
  split; [done|done| | | |].
  - intros t1 t2 j p1 p2 [(-> & -> & _)|(? & ? & E1)]%Hcase [(-> & ? & _)|(? & ? & E2)]%Hcase; try done.
    by apply (tinv_users _ _ Hi t1 t2 j p1 p2).
  - intros j b. rewrite Hob. intros [Hj Hne]%lookup_insert_None. rewrite Hg by done. by apply Hi.
  - intros j oj r. rewrite Hob. destruct (decide (j = i)) as [->|Hne].
    + rewrite lookup_insert_eq. intros [= <-] Hin.
      assert (r = q) as ->; [|done].
      destruct r as [r|]; [destruct Hin as [t' [(-> & _ & ->)|(_ & ? & _)]%Hcase]; done|].
      destruct q as [q|]; [|done]. destruct (Hin t q). rewrite Hth. by rewrite lookup_insert_eq.
    + rewrite lookup_insert_ne, !Hg by done. intros Hoj Hin. apply (tinv_rights _ _ Hi j oj r Hoj).
      destruct r as [r|].
      * destruct Hin as [t' [(_ & ? & _)|(_ & _ & E)]%Hcase]; [done|by exists t'].
      * intros t' r E. apply (Hin t' r). rewrite Hth.
        assert (t <> t') by (intros ->; rewrite Ht in E; by simplify_eq).
        destruct q; [by rewrite lookup_insert_ne|by rewrite lookup_delete_ne].
  - intros t' j oj [(-> & -> & ->)|(? & ? & E)]%Hcase; rewrite Hob.
    + rewrite lookup_insert_eq. intros [= <-]. by apply Hnat.
    + rewrite lookup_insert_ne by done. by apply (tinv_native _ _ Hi t').
Qed.

Lemma grants_grant i j b b' l : j <> i -> grants j b (l ++ [(i, b')]) = grants j b l.
Proof. intros Hne. rewrite grants_snoc, bool_decide_eq_false_2 by congruence. lia. Qed.

Lemma tinv_run w0 t i p o c c' :
  tinv w0 c -> tthreads c !! t = Some (i, p) -> tobjects c !! i = Some o ->
  trun t i o p c = Ret c' -> tinv w0 c'.
Proof.
  intros Hi Ht Ho E. pose proof (tinv_rights _ _ Hi i o (Some p) Ho (ex_intro _ t Ht)) as Hr.
  pose proof (tinv_started _ _ Hi) as Hs. pose proof (tinv_removed _ _ Hi) as Hd.
  assert (<[i := o]> (tobjects c) = tobjects c) as Hsame by by apply insert_id.
  destruct p as [nm f x prio sz| | | |]; simpl in E.
  - apply obind_ret_inv in E as ([[err task] w] & En & [= <-]).
    destruct (task_init_counts _ _ _ _ _ _ _ _ _ _ En) as [Hs' Hd'].
    destruct (decide (err = POS_OK)) as [->|He].
    + apply (tinv_step w0 t i _ (Some StartSet) o (mkOsTask task (inited_ o)) c _ Hi Ht Ho); try done; simpl in *.
      * rewrite all_grants_snoc. simpl. lia.
      * rewrite all_grants_snoc. simpl. lia.
      * intros. by apply grants_grant.
      * rewrite !grants_snoc, bool_decide_eq_false_2, bool_decide_eq_true_2 by done. lia.
    + rewrite bool_decide_eq_false_2 in Hs' by done.
      apply (tinv_step w0 t i _ None o (mkOsTask task (inited_ o)) c _ Hi Ht Ho); try done; simpl in *; lia.
  - injection E as <-. by apply (tinv_step w0 t i _ None o (mkOsTask (task_ o) true) c _ Hi Ht Ho).
  - injection E as <-. destruct (inited_ o) eqn:Hin.
    + by apply (tinv_step w0 t i _ (Some RemoveNative) o o c _ Hi Ht Ho).
    + by apply (tinv_step w0 t i _ None o o c _ Hi Ht Ho).
  - pose proof (tinv_native _ _ Hi t i o Ht Ho) as Hin.
    apply obind_ret_inv in E as ([err w] & En & [= <-]).
    destruct (task_remove_counts _ _ _ _ En) as [Hs' Hd'].
    destruct (decide (err = POS_OK)) as [->|He].
    + apply (tinv_step w0 t i _ (Some RemoveClear) o o c _ Hi Ht Ho); try done; simpl in *.
      * rewrite all_grants_snoc. simpl. lia.
      * rewrite all_grants_snoc. simpl. lia.
      * intros. by apply grants_grant.
      * unfold right in Hr. simpl in Hr. rewrite Hin in Hr. simpl in Hr.
        rewrite !grants_snoc, bool_decide_eq_true_2, bool_decide_eq_false_2 by done. lia.
    + rewrite bool_decide_eq_false_2 in Hd' by done.
      apply (tinv_step w0 t i _ None o o c _ Hi Ht Ho); try done; simpl in *; lia.
  - injection E as <-. by apply (tinv_step w0 t i _ None o (mkOsTask (task_ o) false) c _ Hi Ht Ho).
Qed.

(** A thread that enters a method of an object that no other thread uses. *)
Lemma tinv_enter w0 t i q c :
  tinv w0 c -> tthreads c !! t = None -> (forall t' p, tthreads c !! t' <> Some (i, p)) ->
  right_change q = None -> q <> RemoveNative -> tinv w0 (tgo t i q c).
Proof.
  intros Hi Ht Hfree Hq Hnq. split; simpl; [apply Hi | apply Hi | | apply Hi | |].
  - intros t1 t2 j p1 p2 E1 E2. apply lookup_insert_Some in E1 as [[<- E1]|[_ E1]];
      apply lookup_insert_Some in E2 as [[<- E2]|[_ E2]]; simplify_eq; try done.
    + by apply Hfree in E2.
    + by apply Hfree in E1.
    + by apply (tinv_users _ _ Hi t1 t2 j p1 p2).
  - intros j o p Ho Hin. destruct (decide (j = i)) as [->|Hne].
    + assert (right o p = inited_ o) as ->; [|by apply (tinv_rights _ _ Hi i o None)].
      destruct p as [p|]; [|done]. destruct Hin as [t' E]. simpl in E.
      apply lookup_insert_Some in E as [[_ E]|[_ E]]; [|by apply Hfree in E].
      injection E as <-. unfold right. simpl. by rewrite Hq.
    + apply (tinv_rights _ _ Hi j o p Ho). destruct p as [p|]; simpl in Hin.
      * destruct Hin as [t' E]. apply lookup_insert_Some in E as [[_ E]|[_ E]]; [congruence|by exists t'].
      * intros t' p E. apply (Hin t' p). rewrite lookup_insert_ne; [done|]. congruence.
  - intros t' j o E. apply lookup_insert_Some in E as [[_ E]|[_ E]]; [congruence|].
    by apply (tinv_native _ _ Hi t').
Qed.

Lemma treachable_tinv objs w c :
  (forall i o, objs !! i = Some o -> inited_ o = false) -> treachable one_user (tinit objs w) c -> tinv w c.
Proof.
  intros Hnew. induction 1 as [|c mv c' _ Hi Hok E].
  { split; unfold tinit; simpl; try done; intros i o p Ho Hin.
    destruct p as [p|]; [by destruct Hin|]. unfold right. simpl. by rewrite (Hnew i o Ho). }
  destruct mv as [t i nm f x prio sz|t i|t]; simpl in E, Hok.
  - destruct (tthreads c !! t) eqn:Ht; [done|]. destruct (tobjects c !! i) eqn:Ho; [|done].
    injection E as <-. by apply tinv_enter.
  - destruct (tthreads c !! t) eqn:Ht; [done|]. destruct (tobjects c !! i) eqn:Ho; [|done].
    injection E as <-. by apply tinv_enter.
  - destruct (tthreads c !! t) as [[i p]|] eqn:Ht; [|done]. destruct (tobjects c !! i) as [o|] eqn:Ho; [|done].
    injection E as E. by eapply tinv_run.
Qed.

(** * Properties *)

(** C31. Any number of objects of the class over any port with the task laws
    of [OsalApi], and any number of threads that call [Start] and [Remove] on them,
    each object used by one thread at a time, in every interleaving of their
    statements: the platform has started and removed exactly the tasks that the
    native calls were granted; no object removes more tasks than it started, so
    all together they do not; and a removal that has passed the test of
    [inited_] has a task of its own object left to remove. *)
Theorem os_task_threads_removals objs w c :
  (forall i o, objs !! i = Some o -> inited_ o = false) ->
  treachable one_user (tinit objs w) c ->
  tasks_started (platform c) = (tasks_started w + all_grants true (granted c))%nat /\
  tasks_removed (platform c) = (tasks_removed w + all_grants false (granted c))%nat /\
  (forall i, (grants i false (granted c) <= grants i true (granted c))%nat) /\
  (all_grants false (granted c) <= all_grants true (granted c))%nat /\
  (forall t i o, tthreads c !! t = Some (i, RemoveNative) -> tobjects c !! i = Some o ->
     (grants i false (granted c) < grants i true (granted c))%nat).
Proof.
  intros Hnew Hr. pose proof (treachable_tinv objs w c Hnew Hr) as Hi.
  assert (forall i, (grants i false (granted c) <= grants i true (granted c))%nat) as Hle.
  { intros i. destruct (tobjects c !! i) as [o|] eqn:Ho.
    - destruct (in_object_exists c i) as [p Hp]. pose proof (tinv_rights _ _ Hi i o p Ho Hp). lia.
    - by rewrite !(tinv_absent _ _ Hi). }
  split_and!; [apply Hi | apply Hi | done | by apply grants_total |].
  intros t i o Ht Ho. pose proof (tinv_native _ _ Hi t i o Ht Ho) as Hin.
  pose proof (tinv_rights _ _ Hi i o (Some RemoveNative) Ho (ex_intro _ t Ht)) as Hright.
  unfold right in Hright. simpl in Hright. rewrite Hin in Hright. simpl in Hright. lia.
Qed.

(** Two threads that remove the task of the same object at once, when the port
    answers POS_OK to both: both pass the test of [inited_], and the platform is
    asked to remove the one task twice. *)
Theorem os_task_remove_race c t1 t2 i o w1 w2 :
  t1 <> t2 -> tobjects c !! i = Some o -> inited_ o = true ->
  tthreads c !! t1 = Some (i, RemoveTest) -> tthreads c !! t2 = Some (i, RemoveTest) ->
  osal_task_remove (task_ o) (platform c) = Ret (POS_OK, w1) ->
  osal_task_remove (task_ o) w1 = Ret (POS_OK, w2) ->
  exists c', texec_all (concat (replicate 3 [TRun t1; TRun t2])) c = Some (Ret c') /\
    platform c' = w2 /\ tasks_removed w2 = (tasks_removed (platform c) + 2)%nat /\
    granted c' = granted c ++ [(i, false); (i, false)] /\
    tthreads c' !! t1 = None /\ tthreads c' !! t2 = None.
Proof.
  intros Ht Ho Hin H1 H2 E1 E2. destruct c as [objs w th l]. simpl in *.
  destruct (task_remove_counts _ _ _ _ E1) as [_ C1]. destruct (task_remove_counts _ _ _ _ E2) as [_ C2].
  do 6 (simpl; rewrite ?lookup_insert_ne, ?lookup_delete_ne, ?lookup_insert_eq, ?H1, ?H2, ?Ho by done;
        simpl; rewrite ?Hin, ?E1, ?E2; simpl; rewrite ?Ho).
  eexists. split; [reflexivity|]. simpl. split_and!.
  - done.
  - rewrite C2, C1. simpl. lia.
  - by rewrite <- app_assoc.
  - by rewrite lookup_delete_ne, lookup_delete_eq.
  - by rewrite lookup_delete_eq.
Qed.
End OsTaskThreads.

(** * The theorems at work *)

Section Witness.
#[local] Existing Instances linux_errno demo_threads demo_threads_laws posix_osal_task.
#[local] Existing Instance posix_task_laws.

Abbreviation demo_cfg := (tconfig (pos_task demo_attr nat) (option nat) nat (tasks demo_world)).
Abbreviation demo_move := (tmove (option nat) nat).

Definition demo_start : demo_cfg :=
  tinit {[ 0%nat := OsTask_new demo_task; 1%nat := OsTask_new demo_task ]} (mkTasks 0 ([], [])).

(** The discipline, decided. *)
Definition one_userb (mv : demo_move) (c : demo_cfg) : bool :=
  match mv with
  | BeginStart _ i _ _ _ _ _ | BeginRemove _ i => bool_decide (map_Forall (fun _ q => q.1 <> i) (tthreads c))
  | TRun _ => true
  end.

Fixpoint well_used (mvs : list demo_move) (c : demo_cfg) : bool :=
  match mvs with
  | [] => true
  | mv :: mvs =>
      one_userb mv c && match texec mv c with Some (Ret c') => well_used mvs c' | _ => true end
  end.

Lemma texec_all_reachable mvs c0 c c' :
  treachable one_user c0 c -> well_used mvs c = true -> texec_all mvs c = Some (Ret c') ->
  treachable one_user c0 c'.
Proof.
  revert c. induction mvs as [|mv mvs IH]; intros c Hc; cbn [well_used texec_all]; [by intros _ [= <-]|].
  intros [Hok Hd]%andb_true_iff. destruct (texec mv c) as [[c1| | | |]|] eqn:E; try done.
  apply IH; [|done]. eapply treach_step; [done| |done].
  destruct mv as [t i nm f x prio sz|t i|t]; simpl in Hok |- *; [| |done].
  - apply bool_decide_eq_true in Hok. intros t' p Hp. by apply (Hok t' (i, p)).
  - apply bool_decide_eq_true in Hok. intros t' p Hp. by apply (Hok t' (i, p)).
Qed.

(** Two threads start the tasks of two objects, statement by statement in turn,
    and one of them removes its task; it is about to call the platform. *)
Definition demo_turns : list demo_move :=
  [BeginStart 1 0 [x61] (Some 7%nat) 9%nat 2 1024; BeginStart 2 1 [x62] (Some 8%nat) 9%nat 2 1024;
   TRun 1; TRun 2; TRun 1; BeginRemove 1 0; TRun 1; TRun 2].

Example os_task_threads_removals_witness :
  exists c : demo_cfg, texec_all demo_turns demo_start = Some (Ret c) /\
    treachable one_user demo_start c /\
    tasks_started (platform c) = 2%nat /\ tasks_removed (platform c) = 0%nat /\
    (grants 0 false (granted c) < grants 0 true (granted c))%nat.
Proof.
  destruct (texec_all demo_turns demo_start) as [[c| | | |]|] eqn:E; try (vm_compute in E; discriminate E).
  exists c. split; [reflexivity|].
  assert (treachable one_user demo_start c) as Hr.
  { apply (texec_all_reachable demo_turns demo_start demo_start); [apply treach_init|by vm_compute|exact E]. }
  split; [exact Hr|].
  assert (forall i o, tobjects demo_start !! i = Some o -> inited_ o = false) as Hnew.
  { intros i o Ho. unfold demo_start, tinit in Ho. cbn [tobjects] in Ho.
    apply lookup_insert_Some in Ho as [[_ <-]|[_ Ho]]; [reflexivity|].
    by apply lookup_singleton_Some in Ho as [_ <-]. }
  destruct (os_task_threads_removals _ _ c Hnew Hr) as (Hs & Hd & _ & _ & Hlt).
  rewrite Hs, Hd. clear Hr Hs Hd. vm_compute in E. injection E as <-.
  split_and!; [reflexivity | reflexivity |]. eapply (Hlt 1%nat); reflexivity.
Defined.

(** Two threads have called [Remove] on the object whose task runs. *)
Definition demo_both : demo_cfg :=
  mkTConfig {[ 0%nat := mkOsTask (mkPosTask (Some 0%nat) (mkDemoAttr SCHED_RR 16384 2) 2 [x61]) true ]}
    (mkTasks 1 ([(0%nat, mkDemoAttr SCHED_RR 16384 2, 7%nat, 9%nat)], []))
    {[ 1%nat := (0%nat, RemoveTest); 2%nat := (0%nat, RemoveTest) ]} [(0%nat, true)].

Example os_task_remove_race_witness :
  exists c' : demo_cfg, texec_all (concat (replicate 3 [TRun 1; TRun 2])) demo_both = Some (Ret c') /\
    grants 0 true (granted c') = 1%nat /\ grants 0 false (granted c') = 2%nat.
Proof.
  edestruct (os_task_remove_race demo_both 1 2 0) as (c' & E & _ & _ & Hg & _);
    [done | reflexivity | reflexivity | reflexivity | reflexivity | vm_compute; reflexivity |
     vm_compute; reflexivity |].
  exists c'. split; [exact E|]. rewrite Hg. split; reflexivity.
Defined.
End Witness.
