(* ===== verification/PosixTimer.v ===== *)
(** targets/posix/os_timer.c (Linux branch): one-shot timers over POSIX
    per-process timers, whose expiry starts a thread that runs [pos_timer_cb]. The functions as the
    code has them, then the interleavings of the application's calls with the
    notification threads, statement by statement. Called one after the other, the
    functions provide the timer interface of [OsalApi]. *)

From S2P Require Import Prelude OsTypes Pthread PosixUtils OsalApi Binary64 PosixTime.
#[local] Open Scope Z_scope.

(** * Per-process timers of the platform *)

Record itimerspec := mkItimerspec { it_interval : timespec; it_value : timespec }.

Definition zero_time : timespec := mkTimespec 0 0.

(** The kernel's state [K] of one timer with SIGEV_THREAD notification.
    [timer_expire] is the kernel's step: an armed timer that comes due starts a
    notification thread. *)
Class PosixTimers (K : Type) := {
  timer_create : Z * K;
  timer_settime : itimerspec -> K -> Z * K;
  timer_gettime : K -> itimerspec;
  timer_expire : K -> option K;
  is_armed : K -> bool
}.

Definition is_zero (ts : timespec) : bool := (tv_sec ts =? 0) && (tv_nsec ts =? 0).

Class PosixTimersLaws (K : Type) `{Errno, PosixTimers K} : Prop := {
  timer_create_idle : forall k, timer_create = (0, k) -> is_armed k = false;
  timer_settime_valid : forall its k, nsec_valid (it_value its) = true -> 0 <= tv_sec (it_value its) ->
    exists k', timer_settime its k = (0, k') /\ is_armed k' = negb (is_zero (it_value its));
  timer_settime_invalid : forall its k, nsec_valid (it_value its) = false ->
    timer_settime its k = (-1, k);
  timer_expire_armed : forall k, is_armed k = true ->
    exists k', timer_expire k = Some k' /\ is_armed k' = false;
  timer_expire_idle : forall k, is_armed k = false -> timer_expire k = None
}.

(** [struct pos_timer] (posix/poski/osal/os_time.h). [tm_timer] is null or the
    timer of the kernel; a callback is known by the function [CB] it
    designates, its argument is a pointer [P]. *)
Record pos_timer (K CB P : Type) := mkPosTimer {
  tm_cb : CB;
  tm_ticks : Z;
  tm_timer : option K;
  tm_active : bool;
  tm_arg : option P
}.
Arguments mkPosTimer {K CB P} tm_cb tm_ticks tm_timer tm_active tm_arg.
Arguments tm_cb {K CB P} p.
Arguments tm_ticks {K CB P} p.
Arguments tm_timer {K CB P} p.
Arguments tm_active {K CB P} p.
Arguments tm_arg {K CB P} p.

Section PosixTimer.
Context {K CB P : Type} `{Errno, PosixTimers K}.

Abbreviation timer := (pos_timer K CB P).

Definition with_ticks (ticks : Z) (t : timer) : timer :=
  mkPosTimer (tm_cb t) ticks (tm_timer t) (tm_active t) (tm_arg t).
Definition with_timer (k : option K) (t : timer) : timer :=
  mkPosTimer (tm_cb t) (tm_ticks t) k (tm_active t) (tm_arg t).
Definition with_active (b : bool) (t : timer) : timer :=
  mkPosTimer (tm_cb t) (tm_ticks t) (tm_timer t) b (tm_arg t).

Definition pos_timer_inited (t : timer) : pos_error :=
  match tm_timer t with None => POS_EINVAL | Some _ => POS_OK end.

(** [timer_create] leaves the null handle of [memset] when it fails. *)
Definition pos_timer_init (cb : CB) (arg : option P) (mem : timer) : pos_error * timer :=
  let t := mkPosTimer cb 0 None false arg in
  let '(ret, k) := timer_create in
  if ret =? 0 then (POS_OK, with_timer (Some k) t) else (POS_ERROR, t).

(** [timer_settime(timer->tm_timer, 0, &its, NULL)] *)
Definition settime (its : itimerspec) (t : timer) : Z * timer :=
  match tm_timer t with
  | Some k => let '(ret, k) := timer_settime its k in (ret, with_timer (Some k) t)
  | None => (-1, t)
  end.

(** The one-shot setting for a number of ticks. *)
Definition one_shot (ticks : Z) : itimerspec :=
  mkItimerspec zero_time
    (mkTimespec (ticks / 1000) (u32 ((ticks mod 1000) * 1000000) mod 1000000000)).

(** [pos_timer_start] up to and including [tm_active = true]: the error that
    ends it early, or the number of ticks to set. *)
Definition start_prepare (clock : option timespec) (ticks : Z) (t : timer)
    : outcome (pos_error + Z * timer) :=
  match pos_timer_inited t with
  | POS_OK =>
      let ticks := if ticks =? 0 then 1 else ticks in
      do now <- pos_time_get clock;
      Ret (inr (ticks, with_active true (with_ticks (u32 (now + ticks)) t)))
  | err => Ret (inl err)
  end.

Definition start_arm (ticks : Z) (t : timer) : pos_error * timer :=
  let '(ret, t) := settime (one_shot ticks) t in
  (if ret =? 0 then POS_OK else POS_EINVAL, t).

Definition pos_timer_start (clock : option timespec) (ticks : Z) (t : timer)
    : outcome (pos_error * timer) :=
  do r <- start_prepare clock ticks t;
  match r with
  | inl err => Ret (err, t)
  | inr (ticks, t) => Ret (start_arm ticks t)
  end.

(** [pos_timer_stop] up to the call that disarms. *)
Definition stop_disarm (t : timer) : pos_error * timer :=
  match pos_timer_inited t with
  | POS_OK =>
      let '(ret, t) := settime (mkItimerspec zero_time zero_time) t in
      (if ret =? 0 then POS_OK else POS_EINVAL, t)
  | err => (err, t)
  end.

Definition pos_timer_stop (t : timer) : pos_error * timer :=
  match stop_disarm t with
  | (POS_OK, t) => (POS_OK, with_active false t)
  | r => r
  end.

(** [now] is the caller's clock; the [int64] seconds convert to [uint32_t].
    [None]: [timer_gettime] on the null handle leaves [its] indeterminate. *)
Definition pos_timer_remaining_ticks (t : timer) (now : Z) : outcome Z :=
  do k <- deref (tm_timer t);
  let exp := u32 (tv_sec (it_value (timer_gettime k)) * 1000) in
  Ret (if now <? exp then exp - now else 0).

Definition pos_timer_start_ms (clock : option timespec) (duration : Z) (t : timer)
    : outcome (pos_error * timer) :=
  do delta <- pos_time_ms_to_ticks duration;
  pos_timer_start clock delta t.

Definition pos_timer_is_active (t : timer) : bool := tm_active t.
Definition pos_timer_get_ticks (t : timer) : Z := tm_ticks t.
Definition pos_timer_arg_get (t : timer) : option P := tm_arg t.
Definition pos_timer_arg_set (arg : option P) (t : timer) : timer :=
  mkPosTimer (tm_cb t) (tm_ticks t) (tm_timer t) (tm_active t) arg.

(** An expiry whose notification thread runs to its end: the call it makes. *)
Definition pos_timer_fire (t : timer) : option (CB * option P * timer) :=
  match tm_timer t ≫= timer_expire with
  | Some k => Some (tm_cb t, tm_arg t, with_active false (with_timer (Some k) t))
  | None => None
  end.

(** * Interleavings *)

(** Where the application's thread is, and a notification thread in
    [pos_timer_cb], named after the statement it runs next. *)
Inductive app_position := Idle | StartArm (ticks : Z) | StopClear.
Inductive cb_position := CbClear | CbInvoke.

(** The object; the two kinds of threads; the callbacks made, and the number of
    times the timer was set, so far. *)
Record config := mkConfig {
  object : timer;
  app : app_position;
  notifications : list cb_position;
  fired : list (CB * option P);
  settings : nat
}.

Inductive move :=
| Start (clock : option timespec) (ticks : Z)
| Arm
| Stop
| Clear
| Expire
| Notify (i : nat).

Definition exec (mv : move) (c : config) : option (outcome config) :=
  match mv, app c with
  | Start clock ticks, Idle =>
      Some (do r <- start_prepare clock ticks (object c);
            Ret match r with
                | inl _ => c
                | inr (ticks, t) =>
                    mkConfig t (StartArm ticks) (notifications c) (fired c) (settings c)
                end)
  | Arm, StartArm ticks =>
      Some (Ret (mkConfig (start_arm ticks (object c)).2 Idle (notifications c) (fired c)
                   (S (settings c))))
  | Stop, Idle =>
      Some (Ret (let '(err, t) := stop_disarm (object c) in
                 mkConfig t (if bool_decide (err = POS_OK) then StopClear else Idle)
                   (notifications c) (fired c) (settings c)))
  | Clear, StopClear =>
      Some (Ret (mkConfig (with_active false (object c)) Idle (notifications c) (fired c) (settings c)))
  | Expire, _ =>
      match tm_timer (object c) ≫= timer_expire with
      | Some k => Some (Ret (mkConfig (with_timer (Some k) (object c)) (app c)
                               (notifications c ++ [CbClear]) (fired c) (settings c)))
      | None => None
      end
  | Notify i, _ =>
      match notifications c !! i with
      | Some CbClear =>
          Some (Ret (mkConfig (with_active false (object c)) (app c)
                       (<[i := CbInvoke]> (notifications c)) (fired c) (settings c)))
      | Some CbInvoke =>
          Some (Ret (mkConfig (object c) (app c) (delete i (notifications c))
                       (fired c ++ [(tm_cb (object c), tm_arg (object c))]) (settings c)))
      | None => None
      end
  | _, _ => None
  end.

(** The moves carry 32-bit ticks. *)
Definition move_ok (mv : move) : Prop :=
  match mv with Start _ ticks => is_u32 ticks | _ => True end.

Inductive reachable (t0 : timer) : config -> Prop :=
| reach_init : reachable t0 (mkConfig t0 Idle [] [] 0)
| reach_step c mv c' :
    reachable t0 c -> move_ok mv -> exec mv c = Some (Ret c') -> reachable t0 c'.

Fixpoint exec_all (mvs : list move) (c : config) : option (outcome config) :=
  match mvs with
  | [] => Some (Ret c)
  | mv :: mvs =>
      match exec mv c with
      | Some (Ret c') => exec_all mvs c'
      | r => r
      end
  end.

Definition armed (t : timer) : bool :=
  match tm_timer t with Some k => is_armed k | None => false end.

Context `{!PosixTimersLaws K}.

(** * What is set *)

(** The setting is the ticks as milliseconds, and always a valid one. *)
Lemma one_shot_spec ticks :
  is_u32 ticks ->
  let v := it_value (one_shot ticks) in
  nsec_valid v = true /\ 0 <= tv_sec v /\ to_ns v = ticks * 1000000 /\
  is_zero v = (ticks =? 0).
Proof.
  intros Ht. simpl. unfold is_u32 in Ht.
  assert (u32 ((ticks mod 1000) * 1000000) mod 1000000000 = (ticks mod 1000) * 1000000) as E.
  { rewrite u32_small by zwrap. apply Z.mod_small. zwrap. }
  rewrite E. pose proof (Z.mod_pos_bound ticks 1000). pose proof (Z.div_mod ticks 1000).
  set (s := ticks / 1000) in *. set (m := ticks mod 1000) in *. clearbody s m.
  split_and!.
  - unfold nsec_valid, NSEC_PER_SEC. simpl.
    rewrite (proj2 (Z.leb_le _ _)), (proj2 (Z.ltb_lt _ _)) by lia. done.
  - simpl. lia.
  - unfold to_ns, NSEC_PER_SEC. simpl. lia.
  - unfold is_zero. simpl. destruct (Z.eqb_spec s 0), (Z.eqb_spec (m * 1000000) 0), (Z.eqb_spec ticks 0);
      simpl; lia.
Qed.

Lemma start_prepare_inv clock ticks (t : timer) r :
  start_prepare clock ticks t = Ret r ->
  (tm_timer t = None /\ r = inl POS_EINVAL) \/
  (exists now k, pos_time_get clock = Ret now /\ tm_timer t = Some k /\
     r = inr (Z.max 1 ticks, with_active true (with_ticks (u32 (now + Z.max 1 ticks)) t))) \/
  ticks < 0.
Proof.
  unfold start_prepare, pos_timer_inited. destruct (tm_timer t) as [k|] eqn:Ek.
  - intros (now & En & [= <-])%obind_ret_inv. right.
    destruct (Z_lt_ge_dec ticks 0); [by right|left].
    exists now, k. split_and!; [done|done|].
    destruct (Z.eqb_spec ticks 0) as [->|]; [done|]. by rewrite Z.max_r by lia.
  - intros [= <-]. by left.
Qed.

Lemma start_arm_ok ticks (t : timer) k :
  is_u32 ticks -> 1 <= ticks -> tm_timer t = Some k ->
  exists k', start_arm ticks t = (POS_OK, with_timer (Some k') t) /\ is_armed k' = true /\
    timer_settime (one_shot ticks) k = (0, k').
Proof.
  intros Hu H1t Ek. destruct (one_shot_spec ticks Hu) as (Hv & Hs & _ & Hz).
  destruct (timer_settime_valid (one_shot ticks) k Hv Hs) as (k' & E & Ha).
  exists k'. unfold start_arm, settime. rewrite Ek, E. split_and!; try done.
  rewrite Ha, Hz. apply negb_true_iff, Z.eqb_neq. lia.
Qed.

Lemma stop_disarm_ok (t : timer) k :
  tm_timer t = Some k ->
  exists k', stop_disarm t = (POS_OK, with_timer (Some k') t) /\ is_armed k' = false.
Proof.
  intros Ek. destruct (timer_settime_valid (mkItimerspec zero_time zero_time) k) as (k' & E & Ha);
    [done|done|].
  exists k'. unfold stop_disarm, pos_timer_inited, settime. by rewrite Ek, E.
Qed.

(** * The invariant of the interleavings *)

Definition to_clear (l : list cb_position) : bool :=
  existsb (fun p => match p with CbClear => true | CbInvoke => false end) l.

Definition about_to_clear (c : config) : bool :=
  to_clear (notifications c) ||
  match app c with Idle => false | _ => true end.

Definition shots (c : config) : nat :=
  (length (fired c) + length (notifications c) + Nat.b2n (armed (object c)))%nat.

Record inv (c : config) : Prop := {
  inv_arm : forall ticks, app c = StartArm ticks ->
    is_u32 ticks /\ 1 <= ticks /\ is_Some (tm_timer (object c));
  inv_active : tm_active (object c) = true ->
    armed (object c) = true \/ about_to_clear c = true;
  inv_shots : (shots c <= settings c)%nat
}.

Lemma to_clear_delete l i : l !! i = Some CbInvoke -> to_clear (delete i l) = to_clear l.
Proof.
  revert i. induction l as [|p l IH]; intros [|i]; simpl; try done.
  - by intros [= ->].
  - intros E. unfold to_clear in *. simpl. f_equal. by apply IH.
Qed.

Lemma timer_inv_exec mv c c' :
  inv c -> move_ok mv -> exec mv c = Some (Ret c') -> inv c'.
Proof.
  intros [Harm Hact Hsh] Hmv. unfold shots, armed, about_to_clear in *.
  destruct c as [t ap ns fd st]. simpl in *.
  destruct mv as [clock ticks| | | | |i]; simpl.
  - destruct ap; try done. intros [= (r & E & Hc)%obind_ret_inv]. injection Hc as <-.
    destruct (start_prepare_inv _ _ _ _ E) as [(Hn & ->)|[(now & k & _ & Ek & ->)|Hneg]].
    + by split.
    + simpl in Hmv. split; unfold about_to_clear; simpl; [|by right; rewrite orb_true_r|done].
      intros ? [= <-]. rewrite Ek. split_and!; [unfold is_u32 in *; lia|lia|done].
    + simpl in Hmv. unfold is_u32 in Hmv. lia.
  - destruct ap as [|ticks|]; try done. intros [= <-].
    destruct (Harm ticks eq_refl) as (Hu & H1t & [k Ek]).
    destruct (start_arm_ok ticks t k Hu H1t Ek) as (k' & -> & Ha & _).
    rewrite Ek in *. split; unfold shots, armed; simpl; rewrite ?Ha; [done|by left|].
    destruct (is_armed k); simpl in *; lia.
  - destruct ap; try done. intros [= <-]. destruct (tm_timer t) as [k|] eqn:Ek.
    + destruct (stop_disarm_ok t k Ek) as (k' & -> & Ha). simpl.
      split; unfold about_to_clear, shots, armed; simpl; rewrite ?Ha, ?orb_true_r; [done|by right|].
      simpl. lia.
    + unfold stop_disarm, pos_timer_inited. rewrite Ek. simpl.
      split; unfold shots, armed; simpl; rewrite ?Ek; done.
  - destruct ap; try done. intros [= <-]. by split.
  - destruct (tm_timer t) as [k|] eqn:Ek; [|done]. simpl.
    destruct (is_armed k) eqn:Ha; [|by rewrite timer_expire_idle].
    destruct (timer_expire_armed k Ha) as (k' & -> & Ha'). intros [= <-].
    split; simpl; unfold shots, armed; simpl.
    + intros ticks Hst. destruct (Harm ticks Hst) as (? & ? & _). by split_and!.
    + intros _. right. unfold about_to_clear. simpl. unfold to_clear. by rewrite existsb_app, orb_true_r.
    + rewrite Ha', length_app. simpl in *. lia.
  - destruct (ns !! i) as [[]|] eqn:Ei; try done; intros [= <-].
    + split; simpl; [done|done|]. unfold shots, armed in *. simpl. rewrite length_insert. done.
    + pose proof (to_clear_delete ns i Ei) as Hex.
      split; simpl; [done| |].
      * unfold about_to_clear, armed in *. simpl in *. by rewrite Hex.
      * unfold shots, armed in *. simpl in *. rewrite length_app, length_delete by (by eexists).
        assert (0 < length ns)%nat by (apply lookup_lt_Some in Ei; lia). simpl. lia.
Qed.

Lemma timer_reachable_inv t0 c :
  tm_active t0 = false -> armed t0 = false -> reachable t0 c -> inv c.
Proof.
  intros Ha Hb. induction 1 as [|c mv c' _ IH Hmv E]; [|by apply (timer_inv_exec mv c)].
  split; unfold shots; simpl; [done | by rewrite Ha | by rewrite Hb].
Qed.

(** * The timer contract *)

(** Between calls, with no notification under way, the flag is the truth. *)
Definition timer_wf (t : timer) : Prop := is_Some (tm_timer t) /\ tm_active t = armed t.

#[local] Instance posix_osal_timer (clock : option timespec) : OsalTimer timer CB P := {
  osal_timer_init := fun cb a t => Ret (pos_timer_init cb a t);
  osal_timer_start := pos_timer_start clock;
  osal_timer_start_ms := pos_timer_start_ms clock;
  osal_timer_is_active := fun t => Ret (pos_timer_is_active t);
  osal_timer_remaining_ticks := fun now t => pos_timer_remaining_ticks t now;
  osal_timer_arg_get := fun t => Ret (pos_timer_arg_get t);
  osal_timer_expire := pos_timer_fire;
  timer_ok := timer_wf;
  timer_running := armed;
  timer_action := fun t => Some (tm_cb t, tm_arg t)
}.

#[local] Instance posix_osal_timer_control : OsalTimerControl timer P := {
  osal_timer_stop := fun t => Ret (pos_timer_stop t);
  osal_timer_get_ticks := fun t => Ret (pos_timer_get_ticks t);
  osal_timer_arg_set := fun a t => Ret (pos_timer_arg_set a t)
}.

Lemma posix_start_set clock ticks (t : timer) now :
  pos_time_get clock = Ret now -> timer_wf t -> is_u32 ticks ->
  exists t', pos_timer_start clock ticks t = Ret (POS_OK, t') /\ timer_wf t' /\ armed t' = true /\
    tm_cb t' = tm_cb t /\ tm_arg t' = tm_arg t.
Proof.
  intros Hnow [[k Ek] _] Ht. unfold pos_timer_start, start_prepare, pos_timer_inited.
  rewrite Ek, Hnow. simpl. unfold is_u32 in Ht.
  assert ((if ticks =? 0 then 1 else ticks) = Z.max 1 ticks) as -> by (destruct (Z.eqb_spec ticks 0); lia).
  destruct (start_arm_ok (Z.max 1 ticks) (with_active true (with_ticks (u32 (now + Z.max 1 ticks)) t)) k)
    as (k' & -> & Ha & _); [unfold is_u32; lia | lia | done |].
  eexists. split; [done|]. unfold timer_wf, armed. simpl. by rewrite Ha.
Qed.

Lemma posix_timer_laws clock now :
  pos_time_get clock = Ret now ->
  @OsalTimerLaws timer CB P (posix_osal_timer clock).
Proof.
  intros Hnow. split; cbn [osal_timer_init osal_timer_start osal_timer_start_ms osal_timer_is_active
    osal_timer_remaining_ticks osal_timer_arg_get osal_timer_expire timer_ok timer_running timer_action
    posix_osal_timer].
  - intros cb a t t' E. unfold pos_timer_init in E. destruct timer_create as [r k] eqn:Ec.
    destruct (Z.eqb_spec r 0) as [->|]; [|done]. injection E as <-.
    unfold timer_wf, armed. simpl. by rewrite (timer_create_idle k Ec).
  - intros ticks t Hwf Ht. destruct (posix_start_set clock ticks t now Hnow Hwf Ht)
      as (t' & ? & ? & ? & Hc & Ha). exists t'. simpl. by rewrite Hc, Ha.
  - intros ms t Hwf Ht. unfold pos_timer_start_ms.
    rewrite pos_time_ms_to_ticks_ret by done. simpl.
    destruct (posix_start_set clock ms t now Hnow Hwf Ht) as (t' & ? & ? & ? & Hc & Ha).
    exists t'. simpl. by rewrite Hc, Ha.
  - intros t [_ Ha]. unfold pos_timer_is_active. by rewrite Ha.
  - intros time t [[k Ek] _]. unfold pos_timer_remaining_ticks. rewrite Ek. by eexists.
  - by intros t cb a _ [= _ <-].
  - intros t cb a [[k Ek] _] Ha [= <- <-]. unfold pos_timer_fire, armed in *. rewrite Ek in *. simpl.
    destruct (timer_expire_armed k Ha) as (k' & -> & Hk'). eexists. split; [done|].
    unfold timer_wf, armed. simpl. by rewrite Hk'.
  - intros t _ Ha. unfold pos_timer_fire, armed in *. destruct (tm_timer t) as [k|]; [|done]. simpl.
    by rewrite timer_expire_idle.
Qed.

Lemma posix_timer_control_laws clock :
  @OsalTimerControlLaws timer CB P (posix_osal_timer clock) posix_osal_timer_control.
Proof.
  split.
  - intros t [[k Ek] _]. destruct (stop_disarm_ok t k Ek) as (k' & Es & Ha).
    exists (with_active false (with_timer (Some k') t)). simpl. unfold pos_timer_stop.
    rewrite Es. unfold timer_wf, armed. simpl. by rewrite Ha.
  - by eexists.
  - intros t cb a a' Hwf [= <- _]. by eexists.
Qed.

(** The two statements of a call, run one after the other, are the call. *)
Lemma start_is_moves clock ticks c e t :
  app c = Idle -> pos_timer_start clock ticks (object c) = Ret (e, t) ->
  exists mvs c', (mvs = [Start clock ticks] \/ mvs = [Start clock ticks; Arm]) /\
    exec_all mvs c = Some (Ret c') /\ object c' = t /\ app c' = Idle /\
    notifications c' = notifications c /\ fired c' = fired c.
Proof.
  destruct c as [t0 ap ns fd st]. simpl. intros ->. unfold pos_timer_start.
  intros (r & Er & E)%obind_ret_inv. destruct r as [err|[n t1]].
  - injection E as <- <-. exists [Start clock ticks]. eexists. split; [by left|].
    simpl. rewrite Er. simpl. by split_and!.
  - injection E as E. exists [Start clock ticks; Arm]. eexists. split; [by right|].
    simpl. rewrite Er. simpl. rewrite E. by split_and!.
Qed.

Lemma pos_timer_stop_err (t : timer) err t1 :
  stop_disarm t = (err, t1) -> err <> POS_OK -> pos_timer_stop t = (err, t1).
Proof. unfold pos_timer_stop. intros -> He. by destruct err. Qed.

Lemma stop_is_moves c e t :
  app c = Idle -> pos_timer_stop (object c) = (e, t) ->
  exists mvs c', (mvs = [Stop] \/ mvs = [Stop; Clear]) /\
    exec_all mvs c = Some (Ret c') /\ object c' = t /\ app c' = Idle /\
    notifications c' = notifications c /\ fired c' = fired c.
Proof.
  destruct c as [t0 ap ns fd st]. simpl. intros ->.
  destruct (stop_disarm t0) as [err t1] eqn:Es. destruct (decide (err = POS_OK)) as [->|Hne].
  - unfold pos_timer_stop. rewrite Es. intros [= <- <-]. exists [Stop; Clear]. eexists. split; [by right|]. simpl.
    rewrite Es. simpl. by split_and!.
  - rewrite (pos_timer_stop_err t0 err t1) by done.
    intros [= <- <-]. exists [Stop]. eexists. split; [by left|]. simpl.
    rewrite Es, bool_decide_eq_false_2 by done. by split_and!.
Qed.

(** A timer that is not armed, with no notification under way, stays quiet
    until it is started. *)
Lemma quiet_exec mv c c' :
  armed (object c) = false -> notifications c = [] -> (forall n, app c <> StartArm n) ->
  (forall clock ticks, mv <> Start clock ticks) -> exec mv c = Some (Ret c') ->
  armed (object c') = false /\ notifications c' = [] /\ (forall n, app c' <> StartArm n) /\
  fired c' = fired c.
Proof.
  destruct c as [t ap ns fd st]. unfold armed. simpl. intros Ha -> Hap Hmv.
  destruct mv as [clock ticks| | | | |i]; simpl.
  - by destruct (Hmv clock ticks).
  - destruct ap as [|n|]; try done. by destruct (Hap n).
  - destruct ap; try done. intros [= <-]. destruct (tm_timer t) as [k|] eqn:Ek.
    + destruct (stop_disarm_ok t k Ek) as (k' & -> & Hk'). by split_and!.
    + unfold stop_disarm, pos_timer_inited. rewrite Ek. simpl. by rewrite Ek.
  - destruct ap; try done. intros [= <-]. simpl. by split_and!.
  - destruct (tm_timer t) as [k|] eqn:Ek; [|done]. simpl. by rewrite timer_expire_idle.
  - done.
Qed.

(** * Properties *)

(** Starting an initialised timer sets it to fire once, exactly the given
    number of ticks (at least one) from now to the nanosecond, records the
    absolute expiry modulo 2^32 and reports it active, and never fails; an
    uninitialised timer is refused with POS_EINVAL and left alone. *)
Theorem pos_timer_start_spec clock ticks (t : timer) now :
  is_u32 ticks -> pos_time_get clock = Ret now ->
  match tm_timer t with
  | None => pos_timer_start clock ticks t = Ret (POS_EINVAL, t)
  | Some k =>
      exists its k', timer_settime its k = (0, k') /\ is_armed k' = true /\
        it_interval its = zero_time /\ to_ns (it_value its) = Z.max 1 ticks * 1000000 /\
        pos_timer_start clock ticks t =
          Ret (POS_OK, mkPosTimer (tm_cb t) (u32 (now + Z.max 1 ticks)) (Some k') true (tm_arg t))
  end.
Proof.
  intros Hu Hnow. destruct (tm_timer t) as [k|] eqn:Ek; cycle 1.
  { unfold pos_timer_start, start_prepare, pos_timer_inited. by rewrite Ek. }
  set (n := Z.max 1 ticks).
  assert (is_u32 n) as Hn by (unfold n, is_u32 in *; lia).
  assert ((if ticks =? 0 then 1 else ticks) = n) as En.
  { unfold n, is_u32 in *. destruct (Z.eqb_spec ticks 0); lia. }
  destruct (start_arm_ok n (with_active true (with_ticks (u32 (now + n)) t)) k) as (k' & Ea & Ha & Es);
    [done | unfold n; lia | done |].
  exists (one_shot n), k'. destruct (one_shot_spec n Hn) as (_ & _ & Hns & _).
  split_and!; try done. unfold pos_timer_start, start_prepare, pos_timer_inited.
  rewrite Ek, Hnow. simpl. rewrite En, Ea. done.
Qed.

(** C19. Under every interleaving of starts and stops with the expiries and the
    notification threads: a timer that reports itself active is armed, or a
    notification or call under way is about to change that; and the callback
    runs at most once per start. *)
Theorem timer_active_and_one_shot t0 c :
  tm_active t0 = false -> armed t0 = false -> reachable t0 c ->
  (pos_timer_is_active (object c) = true -> armed (object c) = true \/ about_to_clear c = true) /\
  (length (fired c) + length (notifications c) + Nat.b2n (armed (object c)) <= settings c)%nat.
Proof. intros Ha Hb Hr. by destruct (timer_reachable_inv t0 c Ha Hb Hr). Qed.

(** A stopped timer stays quiet: after a stop with no notification thread
    under way, no sequence of steps without a start runs the callback. *)
Theorem timer_stop_final c mvs c' e t :
  app c = Idle -> notifications c = [] -> tm_timer (object c) <> None ->
  pos_timer_stop (object c) = (e, t) ->
  (forall clock ticks, ~ In (Start clock ticks) mvs) ->
  exec_all mvs (mkConfig t Idle [] (fired c) (settings c)) = Some (Ret c') ->
  e = POS_OK /\ pos_timer_is_active t = false /\ fired c' = fired c.
Proof.
  intros Hap Hns Hk Hstop Hmvs Hrun. destruct (tm_timer (object c)) as [k|] eqn:Ek; [|done].
  destruct (stop_disarm_ok (object c) k Ek) as (k' & Es & Ha).
  unfold pos_timer_stop in Hstop. rewrite Es in Hstop. injection Hstop as <- <-.
  split_and!; [done | done |].
  set (c1 := mkConfig _ _ _ _ _) in Hrun. change (fired c) with (fired c1).
  assert (armed (object c1) = false /\ notifications c1 = [] /\ forall n, app c1 <> StartArm n)
    as (Q1 & Q2 & Q3) by (by split_and!).
  clearbody c1. revert c1 Q1 Q2 Q3 Hrun.
  induction mvs as [|mv mvs IH]; intros c1 Q1 Q2 Q3; simpl; [by intros [= ->]|].
  destruct (exec mv c1) as [[c2| | | |]|] eqn:E; try done.
  assert (forall clock ticks, mv <> Start clock ticks) as Hmv.
  { intros clock ticks ->. apply (Hmvs clock ticks). by left. }
  destruct (quiet_exec mv c1 c2 Q1 Q2 Q3 Hmv E) as (R1 & R2 & R3 & <-).
  apply IH; [|done..]. intros clock ticks Hin. apply (Hmvs clock ticks). by right.
Qed.

(** Two races with a notification thread that has started but not yet run
    its first statement. A stop that answers POS_OK does not hold it back: the
    callback still runs after the stop. And a start meanwhile is undone in part:
    the thread clears the flag of the new period, so that the timer is armed
    but reports itself inactive. *)
Theorem timer_notification_races c clock ticks now :
  app c = Idle -> notifications c = [CbClear] -> tm_timer (object c) <> None ->
  is_u32 ticks -> pos_time_get clock = Ret now ->
  (exists c', exec_all [Stop; Clear; Notify 0; Notify 0] c = Some (Ret c') /\
     fired c' = fired c ++ [(tm_cb (object c), tm_arg (object c))]) /\
  (exists c', exec_all [Start clock ticks; Arm; Notify 0] c = Some (Ret c') /\
     armed (object c') = true /\ pos_timer_is_active (object c') = false).
Proof.
  destruct c as [t ap ns fd st]. simpl. intros -> -> Hk Hu Hnow.
  destruct (tm_timer t) as [k|] eqn:Ek; [|done]. split.
  - destruct (stop_disarm_ok t k Ek) as (k' & -> & _). simpl. by eexists.
  - unfold start_prepare, pos_timer_inited. rewrite Ek, Hnow. simpl.
    set (n := if ticks =? 0 then 1 else ticks).
    destruct (start_arm_ok n (with_active true (with_ticks (u32 (now + n)) t)) k) as (k' & -> & Ha & _);
      [unfold n, is_u32 in *; destruct (Z.eqb_spec ticks 0); lia
      |unfold n, is_u32 in *; destruct (Z.eqb_spec ticks 0); lia | done |].
    simpl. eexists. split; [done|]. unfold armed. simpl. by rewrite Ha.
Qed.

(** [pos_timer_remaining_ticks] subtracts the caller's clock from the time
    that is left, which is already relative: what it answers is the whole
    seconds left minus the current time, or zero; in particular zero as soon as
    the clock exceeds the time left, however long the timer still has to run. *)
Theorem remaining_ticks_spec (t : timer) k now :
  tm_timer t = Some k -> 0 <= now ->
  let left := it_value (timer_gettime k) in
  0 <= tv_sec left -> tv_sec left * 1000 < 2 ^ 32 ->
  pos_timer_remaining_ticks t now = Ret (Z.max 0 (tv_sec left * 1000 - now)) /\
  (tv_sec left * 1000 <= now -> pos_timer_remaining_ticks t now = Ret 0).
Proof.
  intros Ek Hnow left Hs Hb. unfold pos_timer_remaining_ticks. rewrite Ek. simpl.
  fold left. rewrite u32_small by (unfold is_u32; lia).
  destruct (Z.ltb_spec now (tv_sec left * 1000)); split; intros; f_equal; lia.
Qed.
End PosixTimer.

(** * Witnesses *)

Section Witness.
#[local] Existing Instance linux_errno.

(** A kernel timer: the setting while it is armed. *)
Definition demo_kernel : Type := option timespec.

#[local] Instance demo_timers : PosixTimers demo_kernel := {
  timer_create := (0, None);
  timer_settime its k :=
    if nsec_valid (it_value its) then (0, if is_zero (it_value its) then None else Some (it_value its))
    else (-1, k);
  timer_gettime k := mkItimerspec zero_time (default zero_time k);
  timer_expire k := match k with Some _ => Some None | None => None end;
  is_armed k := match k with Some _ => true | None => false end
}.

#[local] Instance demo_timers_laws : PosixTimersLaws demo_kernel.
Proof.
  split; simpl.
  - by intros k [= <-].
  - intros its k -> _. eexists. split; [done|]. by destruct (is_zero _).
  - by intros its k ->.
  - intros [k|]; [|done]. by eexists.
  - by intros [k|].
Qed.

Definition demo_timer (k : demo_kernel) (active : bool) : pos_timer demo_kernel nat nat :=
  mkPosTimer 7%nat 0 (Some k) active (Some 9%nat).

Definition demo_clock : option timespec := Some (mkTimespec 100 0).

Lemma demo_now : pos_time_get demo_clock = Ret 100000.
Proof. vm_compute. reflexivity. Qed.

Example pos_timer_start_spec_witness :
  exists its k', timer_settime its (None : demo_kernel) = (0, k') /\ is_armed k' = true /\
    it_interval its = zero_time /\ to_ns (it_value its) = Z.max 1 0 * 1000000 /\
    pos_timer_start demo_clock 0 (demo_timer None false) =
      Ret (POS_OK, mkPosTimer 7%nat (u32 (100000 + Z.max 1 0)) (Some k') true (Some 9%nat)).
Proof.
  refine (pos_timer_start_spec demo_clock 0 (demo_timer None false) 100000 _ demo_now).
  unfold is_u32. lia.
Defined.

(** Started for 2.5 s, expired, and started again before the notification
    thread has run. *)
Definition demo_moves : list move := [Start demo_clock 2500; Arm; Expire; Start demo_clock 1; Arm].

Definition demo_end : config (K := demo_kernel) :=
  match exec_all demo_moves (mkConfig (demo_timer None false) Idle [] [] 0) with
  | Some (Ret c) => c
  | _ => mkConfig (demo_timer None false) Idle [] [] 0
  end.

Lemma timer_exec_all_reachable (t0 : pos_timer demo_kernel nat nat) mvs c c' :
  reachable t0 c -> Forall move_ok mvs -> exec_all mvs c = Some (Ret c') -> reachable t0 c'.
Proof.
  intros Hc Hok. revert c Hc. induction Hok as [|mv mvs Hmv _ IH]; simpl; intros c Hc.
  - by intros [= <-].
  - destruct (exec mv c) as [[c1| | | |]|] eqn:E; try done.
    apply IH. by apply (reach_step _ c mv c1).
Qed.

Example timer_active_and_one_shot_witness :
  (pos_timer_is_active (object demo_end) = true ->
   armed (object demo_end) = true \/ about_to_clear demo_end = true) /\
  (length (fired demo_end) + length (notifications demo_end) + Nat.b2n (armed (object demo_end))
   <= settings demo_end)%nat.
Proof.
  refine (timer_active_and_one_shot (demo_timer None false) demo_end eq_refl eq_refl _).
  apply (timer_exec_all_reachable _ demo_moves (mkConfig (demo_timer None false) Idle [] [] 0)).
  - constructor.
  - repeat constructor; vm_compute; congruence.
  - vm_compute. reflexivity.
Defined.

Example timer_stop_final_witness :
  let c := mkConfig (demo_timer (Some (mkTimespec 2 0)) true) Idle [] [] 1 in
  let t := demo_timer None false in
  pos_timer_stop (object c) = (POS_OK, t) /\
  exists c', exec_all [Stop; Clear; Stop] (mkConfig t Idle [] [] 1) = Some (Ret c') /\ fired c' = [].
Proof.
  intros c t. split; [vm_compute; reflexivity|].
  exists (mkConfig t StopClear [] [] 1). split; [vm_compute; reflexivity|].
  refine (proj2 (proj2 (timer_stop_final c [Stop; Clear; Stop] (mkConfig t StopClear [] [] 1) POS_OK t
    eq_refl eq_refl _ eq_refl _ eq_refl))).
  - vm_compute. congruence.
  - intros clock ticks. simpl. intuition congruence.
Defined.

Example timer_notification_races_witness :
  let c := mkConfig (demo_timer None true) Idle [CbClear] [] 1 in
  exists c', exec_all [Start demo_clock 5; Arm; Notify 0] c = Some (Ret c') /\
    armed (object c') = true /\ pos_timer_is_active (object c') = false.
Proof.
  intros c.
  refine (proj2 (timer_notification_races c demo_clock 5 100000 eq_refl eq_refl _ _ demo_now)).
  - vm_compute. congruence.
  - unfold is_u32. lia.
Defined.

(** Ten seconds to go, after 100 s of uptime. *)
Example remaining_ticks_spec_witness :
  pos_timer_remaining_ticks (demo_timer (Some (mkTimespec 10 0)) true) 100000 = Ret 0.
Proof.
  refine (proj2 (remaining_ticks_spec (demo_timer (Some (mkTimespec 10 0)) true)
    (Some (mkTimespec 10 0)) 100000 eq_refl _ _ _) _); simpl; lia.
Defined.
End Witness.
