(* ===== verification/OsTimer.v ===== *)
(** include/poski/OsTimer.h: the C++ timer. Verified against the timer interface
    of [OsalApi], so the results hold over every port that satisfies its laws: an
    object refines an abstract one-shot timer. *)

From S2P Require Import Prelude OsTypes Pthread PosixUtils OsalApi Binary64 PosixTime PosixTimer.

(** [class OsTimer] *)
Record OsTimer (S : Type) := mkOsTimer { timer_ : S }.
Arguments mkOsTimer {S} timer_.
Arguments timer_ {S} o.

Section OsTimer.
Context {S CB P : Type} `{OsalTimer S CB P, !OsalTimerControl S P}.

(** Whether [assert] is compiled out. *)
Variable ndebug : bool.

(** The constructor, on storage that holds [mem]. *)
Definition OsTimer_new (cb : CB) (arg : option P) (mem : S) : outcome (OsTimer S) :=
  do '(err, t) <- osal_timer_init cb arg mem;
  c_assert ndebug (bool_decide (err = POS_OK));;
  Ret (mkOsTimer t).

(** A member that forwards to a function with an error code. *)
Definition forward (r : outcome (pos_error * S)) : outcome (pos_error * OsTimer S) :=
  do '(err, t) <- r; Ret (err, mkOsTimer t).

Definition Start (ticks : Z) (o : OsTimer S) : outcome (pos_error * OsTimer S) :=
  forward (osal_timer_start ticks (timer_ o)).
Definition StartMs (ms : Z) (o : OsTimer S) : outcome (pos_error * OsTimer S) :=
  forward (osal_timer_start_ms ms (timer_ o)).
Definition Stop (o : OsTimer S) : outcome (pos_error * OsTimer S) :=
  forward (osal_timer_stop (timer_ o)).
Definition IsActive (o : OsTimer S) : outcome bool := osal_timer_is_active (timer_ o).
Definition GetTicks (o : OsTimer S) : outcome Z := osal_timer_get_ticks (timer_ o).
Definition RemainingTicks (time : Z) (o : OsTimer S) : outcome Z :=
  osal_timer_remaining_ticks time (timer_ o).
Definition ArgSet (arg : option P) (o : OsTimer S) : outcome (OsTimer S) :=
  do t <- osal_timer_arg_set arg (timer_ o); Ret (mkOsTimer t).
Definition ArgGet (o : OsTimer S) : outcome (option P) := osal_timer_arg_get (timer_ o).
Definition GetNative (o : OsTimer S) : S := timer_ o.

(** * Executions *)

(** Calls of the application, and [EExpire]: time passes until the timer, if it
    runs, has come due. *)
Inductive event :=
| EStart (ticks : Z)
| EStartMs (ms : Z)
| EStop
| EIsActive
| EGetTicks
| ERemainingTicks (time : Z)
| EArgSet (arg : option P)
| EArgGet
| EExpire.

Inductive result :=
| RErr (e : pos_error)
| RActive (b : bool)
| RTicks (n : option Z)
| RArgSet
| RArg (arg : option P)
| RFired (call : option (CB * option P)).

Definition timer_step (ev : event) (o : OsTimer S) : outcome (result * OsTimer S) :=
  match ev with
  | EStart ticks => do '(e, o) <- Start ticks o; Ret (RErr e, o)
  | EStartMs ms => do '(e, o) <- StartMs ms o; Ret (RErr e, o)
  | EStop => do '(e, o) <- Stop o; Ret (RErr e, o)
  | EIsActive => do b <- IsActive o; Ret (RActive b, o)
  | EGetTicks => do n <- GetTicks o; Ret (RTicks (Some n), o)
  | ERemainingTicks time => do n <- RemainingTicks time o; Ret (RTicks (Some n), o)
  | EArgSet arg => do o <- ArgSet arg o; Ret (RArgSet, o)
  | EArgGet => do arg <- ArgGet o; Ret (RArg arg, o)
  | EExpire =>
      Ret match osal_timer_expire (timer_ o) with
          | Some (cb, arg, t) => (RFired (Some (cb, arg)), mkOsTimer t)
          | None => (RFired None, o)
          end
  end.

Fixpoint timer_run (evs : list event) (o : OsTimer S) : outcome (list result * OsTimer S) :=
  match evs with
  | [] => Ret ([], o)
  | ev :: evs =>
      do '(r, o) <- timer_step ev o;
      do '(rs, o) <- timer_run evs o;
      Ret (r :: rs, o)
  end.

(** Durations are of type [pos_time_t], with 32 bits. *)
Definition event_ok (ev : event) : Prop :=
  match ev with EStart n | EStartMs n => is_u32 n | _ => True end.

(** A result without the numbers of ticks, which the API documents nothing of. *)
Definition hide_ticks (r : result) : result :=
  match r with RTicks _ => RTicks None | r => r end.

(** * The abstract one-shot timer *)

Record spec := mkSpec { s_running : bool; s_cb : CB; s_arg : option P }.

Definition spec_step (ev : event) (s : spec) : result * spec :=
  match ev with
  | EStart _ | EStartMs _ => (RErr POS_OK, mkSpec true (s_cb s) (s_arg s))
  | EStop => (RErr POS_OK, mkSpec false (s_cb s) (s_arg s))
  | EIsActive => (RActive (s_running s), s)
  | EGetTicks | ERemainingTicks _ => (RTicks None, s)
  | EArgSet arg => (RArgSet, mkSpec (s_running s) (s_cb s) arg)
  | EArgGet => (RArg (s_arg s), s)
  | EExpire =>
      if s_running s then (RFired (Some (s_cb s, s_arg s)), mkSpec false (s_cb s) (s_arg s))
      else (RFired None, s)
  end.

Fixpoint spec_run (evs : list event) (s : spec) : list result * spec :=
  match evs with
  | [] => ([], s)
  | ev :: evs =>
      let '(r, s) := spec_step ev s in
      let '(rs, s) := spec_run evs s in
      (r :: rs, s)
  end.

Definition starts (evs : list event) : nat :=
  length (List.filter (fun ev => match ev with EStart _ | EStartMs _ => true | _ => false end) evs).

Definition fires (rs : list result) : nat :=
  length (List.filter (fun r => match r with RFired (Some _) => true | _ => false end) rs).

(** The abstract timer fires at most once per start. *)
Lemma spec_run_fires evs s :
  (fires (spec_run evs s).1 <= starts evs + Nat.b2n (s_running s))%nat.
Proof.
  revert s. induction evs as [|ev evs IH]; intros s; [unfold fires; simpl; lia|].
  assert (forall r s', spec_step ev s = (r, s') ->
    (fires [r] + Nat.b2n (s_running s') <= starts [ev] + Nat.b2n (s_running s))%nat) as Hstep.
  { intros r s' E. destruct s as [b f a].
    destruct ev; simpl in E; simplify_eq/=; unfold fires, starts; simpl; try lia.
    destruct b; simplify_eq/=; lia. }
  cbn [spec_run]. destruct (spec_step ev s) as [r s'] eqn:E. specialize (IH s').
  specialize (Hstep r s' eq_refl). destruct (spec_run evs s') as [rs s2]. simpl in *.
  unfold fires, starts in *. cbn [List.filter] in *.
  destruct r as [| | | | |[|]], ev; simpl in *; lia.
Qed.

(** * Refinement *)

Context `{!OsalTimerLaws S CB P, !OsalTimerControlLaws S CB P}.

(** The object represents the abstract timer. *)
Definition refines (o : OsTimer S) (s : spec) : Prop :=
  timer_ok (timer_ o) /\ timer_running (timer_ o) = s_running s /\
  timer_action (timer_ o) = Some (s_cb s, s_arg s).

Lemma forward_set b o s r :
  refines o s -> timer_set b (timer_ o) r ->
  exists o', (do '(e, o) <- forward r; Ret (RErr e, o)) = Ret (RErr POS_OK, o') /\
    refines o' (mkSpec b (s_cb s) (s_arg s)).
Proof.
  intros (_ & _ & Ha) (t & -> & Hok & Hr & Ha'). exists (mkOsTimer t). split; [done|].
  split_and!; [done|done|]. simpl. by rewrite Ha', Ha.
Qed.

Lemma timer_step_refines ev o s :
  event_ok ev -> refines o s ->
  exists r o', timer_step ev o = Ret (r, o') /\ hide_ticks r = (spec_step ev s).1 /\
    refines o' (spec_step ev s).2.
Proof.
  intros Hev Href. pose proof Href as (Hok & Hr & Ha).
  destruct ev as [n|n| | | |time|arg| |]; simpl in *.
  - destruct (forward_set true o s _ Href (timer_start_ok n _ Hok Hev)) as (o' & E & ?).
    exists (RErr POS_OK), o'. by split_and!.
  - destruct (forward_set true o s _ Href (timer_start_ms_ok n _ Hok Hev)) as (o' & E & ?).
    exists (RErr POS_OK), o'. by split_and!.
  - destruct (forward_set false o s _ Href (timer_stop_ok _ Hok)) as (o' & E & ?).
    exists (RErr POS_OK), o'. by split_and!.
  - unfold IsActive. rewrite (timer_is_active_ok _ Hok), Hr. by eexists _, o.
  - unfold GetTicks. destruct (timer_get_ticks_ret _ Hok) as (n & ->). by eexists _, o.
  - unfold RemainingTicks. destruct (timer_remaining_ticks_ret time _ Hok) as (n & ->). by eexists _, o.
  - unfold ArgSet. destruct (timer_arg_set_ok _ _ _ arg Hok Ha) as (t & -> & ? & Hr' & ?).
    exists RArgSet, (mkOsTimer t). split; [done|]. split; [done|]. split_and!; try done. simpl. by rewrite Hr'.
  - unfold ArgGet. rewrite (timer_arg_get_ok _ _ _ Hok Ha). by eexists _, o.
  - destruct (s_running s).
    + destruct (timer_expire_ok _ _ _ Hok Hr Ha) as (t & -> & ? & ? & ?).
      eexists _, (mkOsTimer t). split; [done|]. split; [done|]. by split_and!.
    + rewrite (timer_expire_none _ Hok Hr). by eexists _, o.
Qed.

Lemma timer_run_refines evs o s :
  Forall event_ok evs -> refines o s ->
  exists rs o', timer_run evs o = Ret (rs, o') /\ map hide_ticks rs = (spec_run evs s).1 /\
    refines o' (spec_run evs s).2.
Proof.
  intros Hevs. revert o s. induction Hevs as [|ev evs Hev _ IH]; intros o s Href; [by exists [], o|].
  destruct (timer_step_refines ev o s Hev Href) as (r & o1 & E1 & Er & Href1).
  cbn [timer_run spec_run]. rewrite E1. destruct (spec_step ev s) as [r' s1]. simpl in *.
  destruct (IH o1 s1 Href1) as (rs & o2 & E2 & Ers & Href2). rewrite E2.
  destruct (spec_run evs s1) as [rs' s2]. simpl in *. subst. by exists (r :: rs), o2.
Qed.

Lemma fires_hide rs : fires (map hide_ticks rs) = fires rs.
Proof.
  unfold fires. induction rs as [|r rs IH]; [done|]. by destruct r as [| | | | |[]]; simpl; rewrite ?IH.
Qed.

(** * Properties *)

(** C18. The C++ timer over any port that provides the timer operations, from its
    constructor on: whatever is started (for any number of ticks or milliseconds
    of 32 bits), stopped, expires and is asked, each call returns and answers
    what an abstract one-shot timer answers, but for the numbers that GetTicks
    and RemainingTicks return, which the API documents nothing of; these two
    calls change nothing. So the callback is called with the last argument set,
    at most once per start, and IsActive is true exactly from a start to the next
    stop or expiry. *)
Theorem os_timer_refines cb arg mem o evs :
  ndebug = false -> OsTimer_new cb arg mem = Ret o -> Forall event_ok evs ->
  exists rs o', timer_run evs o = Ret (rs, o') /\
    map hide_ticks rs = (spec_run evs (mkSpec false cb arg)).1 /\
    refines o' (spec_run evs (mkSpec false cb arg)).2 /\ (fires rs <= starts evs)%nat.
Proof.
  intros Hnd Hnew Hevs.
  assert (refines o (mkSpec false cb arg)) as Href.
  { unfold OsTimer_new in Hnew. rewrite Hnd in Hnew. apply obind_ret_inv in Hnew as ([e t] & E & Hnew).
    apply obind_ret_inv in Hnew as (u & He%c_assert_enabled_inv & [= <-]).
    apply bool_decide_eq_true in He as ->.
    destruct (timer_init_ok _ _ _ _ E) as (? & ? & ?). by split_and!. }
  destruct (timer_run_refines evs o _ Hevs Href) as (rs & o' & E & Ers & Href').
  exists rs, o'. split_and!; [exact E|done|done|].
  pose proof (spec_run_fires evs (mkSpec false cb arg)) as Hf. simpl in Hf.
  rewrite <- fires_hide, Ers. lia.
Qed.
End OsTimer.

(** * A witness over the POSIX timers *)

Section Witness.
#[local] Existing Instances linux_errno demo_timers demo_timers_laws.

Abbreviation demo_object := (pos_timer demo_kernel nat nat).

#[local] Instance witness_timer : OsalTimer demo_object nat nat := posix_osal_timer demo_clock.
#[local] Existing Instance posix_osal_timer_control.
#[local] Instance witness_timer_laws : OsalTimerLaws demo_object nat nat :=
  posix_timer_laws demo_clock 100000 demo_now.
#[local] Instance witness_timer_control_laws : OsalTimerControlLaws demo_object nat nat :=
  posix_timer_control_laws demo_clock.

Example os_timer_refines_witness :
  let evs := [EStart 2500; EArgSet (Some 3%nat); EGetTicks; EExpire; EExpire; EIsActive;
              EStartMs 0; ERemainingTicks 5; EStop; EExpire] in
  exists rs (o' : OsTimer demo_object),
    timer_run evs (mkOsTimer (mkPosTimer 7%nat 0 (Some None) false (Some 9%nat))) = Ret (rs, o') /\
    map hide_ticks rs =
      [RErr POS_OK; RArgSet; RTicks None; RFired (Some (7%nat, Some 3%nat)); RFired None; RActive false;
       RErr POS_OK; RTicks None; RErr POS_OK; RFired None] /\
    refines o' (mkSpec false 7%nat (Some 3%nat)) /\ (fires rs <= starts evs)%nat.
Proof.
  intros evs.
  refine (os_timer_refines false 7%nat (Some 9%nat) (demo_timer None true)
            (mkOsTimer (mkPosTimer 7%nat 0 (Some None) false (Some 9%nat))) evs eq_refl eq_refl _).
  repeat constructor; vm_compute; congruence.
Defined.
End Witness.
