(* ===== verification/TimerLifetime.v ===== *)
(** The lifetime of an OsTimer (include/poski/OsTimer.h) over the POSIX timers.
    Its destructor does nothing, and the API has no call that deletes a timer:
    the kernel's timer, and the notification threads that have been started, go
    on with a pointer to the object. Over the interleavings of PosixTimer. *)

From S2P Require Import Prelude OsTypes Pthread PosixUtils OsalApi PosixTime PosixTimer.
#[local] Open Scope Z_scope.

Section TimerLifetime.
Context {K CB P : Type} `{Errno, PosixTimers K}.

Abbreviation cfg := (config (K := K) (CB := CB) (P := P)).

(** The timer, its threads, and whether the object still exists. *)
Record lconfig := mkLConfig { timers : cfg; in_lifetime : bool }.

Inductive lmove :=
| Live (mv : move)
| Destroy.                  (* ~OsTimer() = default, between two calls *)

(** [pos_timer_cb] on an object that is gone: it writes [tm_active], or reads
    [tm_cb] and [tm_arg], of memory that is no longer the object's. The kernel's
    timer is not part of the object. The owner makes no call after the
    destructor. *)
Definition after_life (mv : move) (c : cfg) : option (outcome cfg) :=
  match mv with
  | Expire => exec Expire c
  | Notify i => match notifications c !! i with Some _ => Some Undef | None => None end
  | Start _ _ | Arm | Stop | Clear => None
  end.

Definition lexec (mv : lmove) (c : lconfig) : option (outcome lconfig) :=
  match mv with
  | Live mv =>
      match (if in_lifetime c then exec mv (timers c) else after_life mv (timers c)) with
      | Some r => Some (do c' <- r; Ret (mkLConfig c' (in_lifetime c)))
      | None => None
      end
  | Destroy =>
      match app (timers c) with
      | Idle => if in_lifetime c then Some (Ret (mkLConfig (timers c) false)) else None
      | _ => None
      end
  end.

Fixpoint lexec_all (mvs : list lmove) (c : lconfig) : option (outcome lconfig) :=
  match mvs with
  | [] => Some (Ret c)
  | mv :: mvs =>
      match lexec mv c with
      | Some (Ret c') => lexec_all mvs c'
      | r => r
      end
  end.

(** What the owner of the object does, as against the kernel and its threads. *)
Definition by_owner (mv : move) : Prop :=
  match mv with Start _ _ | Arm | Stop | Clear => True | Expire | Notify _ => False end.

Context `{!PosixTimersLaws K}.

(** Nothing is left that would touch the object. *)
Definition at_rest (c : cfg) : Prop := armed (object c) = false /\ notifications c = [].

Lemma expire_idle (c : cfg) : armed (object c) = false -> exec Expire c = None.
Proof.
  unfold armed, exec. intros Ha.
  assert (tm_timer (object c) ≫= timer_expire = None) as ->; [|by destruct (app c)].
  revert Ha. destruct (tm_timer (object c)) as [k|]; [apply timer_expire_idle|done].
Qed.

Lemma expire_armed (c : cfg) :
  armed (object c) = true ->
  exists c', exec Expire c = Some (Ret c') /\ notifications c' = notifications c ++ [CbClear].
Proof.
  unfold armed. destruct (tm_timer (object c)) as [k|] eqn:Ek; [|done]. intros Ha.
  destruct (timer_expire_armed k Ha) as (k' & E & _).
  unfold exec. rewrite Ek. simpl. rewrite E. by destruct (app c); eexists.
Qed.

(** Once at rest, an object that is gone stays harmless. *)
Lemma at_rest_harmless mvs c : at_rest c -> lexec_all mvs (mkLConfig c false) <> Some Undef.
Proof.
  intros [Ha Hn]. destruct mvs as [|mv mvs]; [done|]. cbn [lexec_all].
  assert (lexec mv (mkLConfig c false) = None) as ->; [|done].
  destruct mv as [mv|]; cbn [lexec timers in_lifetime]; [|by destruct (app c)].
  destruct mv as [clock ticks| | | | |i]; cbn [after_life]; try done.
  - by rewrite expire_idle.
  - by rewrite Hn, lookup_nil.
Qed.

(** The owner's calls do not wait for the threads that were started. *)
Lemma exec_owner mv (c c' : cfg) :
  by_owner mv -> exec mv c = Some (Ret c') -> notifications c' = notifications c.
Proof.
  destruct c as [t ap ns fd st].
  destruct mv as [clock ticks| | | | |i]; simpl; try done; intros _; destruct ap; try done.
  - intros [= (r & _ & [= <-])%obind_ret_inv]. by destruct r as [e|[n t']].
  - by intros [= <-].
  - intros [= <-]. by destruct (stop_disarm t).
  - by intros [= <-].
Qed.

Lemma exec_all_owner mvs (c c' : cfg) :
  Forall by_owner mvs -> exec_all mvs c = Some (Ret c') -> notifications c' = notifications c.
Proof.
  intros Hmvs. revert c. induction Hmvs as [|mv mvs Hmv _ IH]; intros c; cbn [exec_all]; [by intros [= <-]|].
  destruct (exec mv c) as [[c1| | | |]|] eqn:E; try done. intros E'.
  rewrite (IH c1 E'). by apply (exec_owner mv).
Qed.

(** C17. Destroying an OsTimer between two calls: afterwards a notification thread
    can touch the destroyed object if and only if the timer is armed, or a
    notification thread has been started and is not done. A stop makes the first
    false; but no calls on the object make the second false, as none of them
    waits for the threads: there is no way to know when the object may go. *)
Theorem timer_destroy_exclusive (c : cfg) :
  app c = Idle ->
  exists d, lexec Destroy (mkLConfig c true) = Some (Ret d) /\
  ((exists mvs, lexec_all mvs d = Some Undef) <->
     armed (object c) = true \/ notifications c <> []) /\
  (tm_timer (object c) <> None -> exists c', exec_all [Stop; Clear] c = Some (Ret c') /\
     app c' = Idle /\ armed (object c') = false) /\
  (forall mvs c', Forall by_owner mvs -> exec_all mvs c = Some (Ret c') ->
     notifications c' = notifications c).
Proof.
  intros Hap. exists (mkLConfig c false). split; [simpl; by rewrite Hap|]. split_and!.
  - split.
    + intros [mvs E]. destruct (armed (object c)) eqn:Ha; [by left|right]. intros Hn.
      by apply (at_rest_harmless mvs c (conj Ha Hn)).
    + intros Hor. destruct (notifications c) as [|p ns] eqn:Hn.
      * destruct Hor as [Ha|]; [|done]. destruct (expire_armed c Ha) as (c' & E & Hc').
        exists [Live Expire; Live (Notify 0)]. cbn [lexec_all lexec timers in_lifetime after_life].
        rewrite E. simpl. by rewrite Hc', Hn.
      * exists [Live (Notify 0)]. simpl. by rewrite Hn.
  - intros Hk. destruct (tm_timer (object c)) as [k|] eqn:Ek; [|done].
    destruct (stop_disarm_ok (object c) k Ek) as (k' & Es & Ha).
    destruct c as [t ap ns fd st]. simpl in *. subst ap. rewrite Es.
    eexists. split; [reflexivity|]. split; [done|]. exact Ha.
  - intros mvs c'. apply exec_all_owner.
Qed.
End TimerLifetime.

(** * The theorem at work *)

Section Witness.
#[local] Existing Instances linux_errno demo_timers demo_timers_laws.

(** Started, expired and stopped, while the notification thread has not run:
    destroyed now, the object is written to later. *)
Example timer_destroy_exclusive_witness :
  let c0 := mkConfig (demo_timer None false) Idle [] [] 0 in
  exists c d, exec_all [Start demo_clock 2500; Arm; Expire; Stop; Clear] c0 = Some (Ret c) /\
    armed (object c) = false /\ pos_timer_is_active (object c) = false /\
    lexec Destroy (mkLConfig c true) = Some (Ret d) /\ exists mvs, lexec_all mvs d = Some Undef.
Proof.
  intros c0. destruct (exec_all [Start demo_clock 2500; Arm; Expire; Stop; Clear] c0) as [[c| | | |]|] eqn:E;
    try (vm_compute in E; discriminate E).
  assert (app c = Idle /\ notifications c = [CbClear] /\ armed (object c) = false /\
          pos_timer_is_active (object c) = false) as (Hap & Hn & Ha & Hact).
  { vm_compute in E. injection E as <-. by split_and!. }
  destruct (timer_destroy_exclusive c Hap) as (d & Hd & [_ Hundef] & _ & _).
  exists c, d. split_and!; [reflexivity | exact Ha | exact Hact | exact Hd |].
  apply Hundef. right. by rewrite Hn.
Defined.
End Witness.
