(* ===== verification/FreeRtos.v ===== *)
(** targets/freertos: mutexes, semaphores and queues over the FreeRTOS kernel
    (os_mutex.c, os_sem.c, os_queue.c and the inline functions of
    poski/osal/os_port.h). The kernel's calls are interfaces with their
    documented behaviour. Which laws of [OsalApi] the port satisfies, and what the
    C++ classes do over it, is in FreeRtosClients. *)

From S2P Require Import Prelude OsTypes Pthread OsalApi.

Definition pdFALSE : Z := 0.
Definition pdTRUE : Z := 1.
Definition pdPASS : Z := pdTRUE.
Definition pdFAIL : Z := pdFALSE.
Definition errQUEUE_EMPTY : Z := 0.
Definition errQUEUE_FULL : Z := 0.
(** With 32-bit ticks (configUSE_16_BIT_TICKS is 0). *)
Definition portMAX_DELAY : Z := 4294967295.

(** poski/osal/os_port.h; POS_TIME_FOREVER is portMAX_DELAY. *)
Definition POS_TIME_NO_WAIT : Z := 0.

(** * The kernel *)

(** A call is atomic: a wait that only another task can end blocks ([None]) when
    it is for [portMAX_DELAY] and runs out otherwise. The ISR variants take and
    give the [pxHigherPriorityTaskWoken] variable. *)
Class FrMutexes (M : Type) := {
  xSemaphoreCreateRecursiveMutex : option M;
  xSemaphoreTakeRecursive : tid -> Z -> M -> option (Z * M);
  xSemaphoreGiveRecursive : tid -> M -> Z * M;
  fr_holder : M -> option (tid * nat)
}.

Class FrMutexesLaws (M : Type) `{FrMutexes M} : Prop := {
  fr_create_free : forall m, xSemaphoreCreateRecursiveMutex = Some m -> fr_holder m = None;
  fr_holder_pos : forall m t n, fr_holder m = Some (t, n) -> (0 < n)%nat;
  fr_take_now : forall t ticks m, grantable t (fr_holder m) = true ->
    exists m', xSemaphoreTakeRecursive t ticks m = Some (pdPASS, m') /\
      fr_holder m' = Some (t, S (held_by t (fr_holder m)));
  fr_take_held : forall t ticks m, grantable t (fr_holder m) = false ->
    xSemaphoreTakeRecursive t ticks m =
      if ticks =? portMAX_DELAY then None else Some (pdFAIL, m);
  fr_give_own : forall t m n, fr_holder m = Some (t, S n) ->
    exists m', xSemaphoreGiveRecursive t m = (pdPASS, m') /\ fr_holder m' = release t n;
  fr_give_other : forall t m, held_by t (fr_holder m) = 0%nat ->
    xSemaphoreGiveRecursive t m = (pdFAIL, m)
}.

Class FrSemaphores (S : Type) := {
  xSemaphoreCreateCounting : Z -> Z -> option S;
  xSemaphoreTake : Z -> S -> option (Z * S);
  xSemaphoreTakeFromISR : Z -> S -> Z * Z * S;
  xSemaphoreGive : S -> Z * S;
  xSemaphoreGiveFromISR : Z -> S -> Z * Z * S;
  uxSemaphoreGetCount : S -> Z;
  fr_max_count : S -> Z
}.

Class FrSemaphoresLaws (S : Type) `{FrSemaphores S} : Prop := {
  fr_count_range : forall s, 0 <= uxSemaphoreGetCount s <= fr_max_count s;
  fr_create_count : forall max v s, xSemaphoreCreateCounting max v = Some s ->
    v <= max /\ uxSemaphoreGetCount s = v /\ fr_max_count s = max;
  fr_sem_take_ok : forall ticks s, 0 < uxSemaphoreGetCount s ->
    exists s', xSemaphoreTake ticks s = Some (pdPASS, s') /\
      uxSemaphoreGetCount s' = uxSemaphoreGetCount s - 1 /\ fr_max_count s' = fr_max_count s;
  fr_sem_take_zero : forall ticks s, uxSemaphoreGetCount s = 0 ->
    xSemaphoreTake ticks s = if ticks =? portMAX_DELAY then None else Some (pdFAIL, s);
  fr_sem_give_ok : forall s, uxSemaphoreGetCount s < fr_max_count s ->
    exists s', xSemaphoreGive s = (pdPASS, s') /\
      uxSemaphoreGetCount s' = uxSemaphoreGetCount s + 1 /\ fr_max_count s' = fr_max_count s;
  fr_sem_give_full : forall s, uxSemaphoreGetCount s = fr_max_count s ->
    xSemaphoreGive s = (pdFAIL, s);
  (* "will set *pxHigherPriorityTaskWoken to pdTRUE if" a task was unblocked *)
  fr_sem_give_isr : forall woken s,
    let '(r, woken', s') := xSemaphoreGiveFromISR woken s in
    (r, s') = xSemaphoreGive s /\ (woken' = pdTRUE \/ woken' = woken);
  fr_sem_take_isr : forall woken s,
    let '(r, woken', s') := xSemaphoreTakeFromISR woken s in
    Some (r, s') = xSemaphoreTake 0 s /\ (woken' = pdTRUE \/ woken' = woken)
}.

Class FrQueues (Q : Type) := {
  xQueueCreate : Z -> Z -> option Q;
  xQueueReceive : Z -> Q -> option (Z * option (list byte) * Q);
  xQueueReceiveFromISR : Z -> Q -> Z * Z * option (list byte) * Q;
  xQueueSendToBack : list byte -> Z -> Q -> option (Z * Q);
  xQueueSendToBackFromISR : list byte -> Z -> Q -> Z * Z * Q;
  fr_queue : Q -> Z * Z * list (list byte)   (* item size, length, items *)
}.

Class FrQueuesLaws (Q : Type) `{FrQueues Q} : Prop := {
  fr_queue_create : forall n size q, xQueueCreate n size = Some q -> fr_queue q = (size, n, []);
  fr_receive_some : forall ticks q size n x l, fr_queue q = (size, n, x :: l) ->
    exists q', xQueueReceive ticks q = Some (pdPASS, Some x, q') /\ fr_queue q' = (size, n, l);
  fr_receive_none : forall ticks q size n, fr_queue q = (size, n, []) ->
    xQueueReceive ticks q = if ticks =? portMAX_DELAY then None else Some (errQUEUE_EMPTY, None, q);
  fr_receive_isr : forall woken q,
    let '(r, woken', d, q') := xQueueReceiveFromISR woken q in
    Some (r, d, q') = xQueueReceive 0 q /\ (woken' = pdTRUE \/ woken' = woken);
  fr_send_room : forall item ticks q size n l, fr_queue q = (size, n, l) ->
    size <= Z.of_nat (length item) -> Z.of_nat (length l) < n ->
    exists q', xQueueSendToBack item ticks q = Some (pdPASS, q') /\
      fr_queue q' = (size, n, l ++ [take (Z.to_nat size) item]);
  fr_send_full : forall item ticks q size n l, fr_queue q = (size, n, l) -> n <= Z.of_nat (length l) ->
    xQueueSendToBack item ticks q = if ticks =? portMAX_DELAY then None else Some (errQUEUE_FULL, q);
  fr_send_isr : forall item woken q,
    let '(r, woken', q') := xQueueSendToBackFromISR item woken q in
    Some (r, q') = xQueueSendToBack item 0 q /\ (woken' = pdTRUE \/ woken' = woken)
}.

(** [struct pos_mutex], [struct pos_sem] and [struct pos_queue] (os_port.h): a
    handle, [None] when null. *)
Record handle_of (K : Type) := mkHandle { handle : option K }.
Arguments mkHandle {K} handle.
Arguments handle {K} h.

Definition null {K} (h : option K) : bool := match h with None => true | Some _ => false end.

Section FreeRtos.

(** Whether [assert] is compiled out, and whether the call is made in an
    interrupt handler ([pos_hw_in_isr] of os_hw.h). *)
Variables ndebug in_isr : bool.

(** What the uninitialised variable [woken] of the ISR paths holds. *)
Variable woken0 : Z.

(** A call and whether it ended with a request to switch tasks. *)
Definition portYIELD_FROM_ISR (woken : Z) : bool := negb (woken =? pdFALSE).

(** * os_mutex.c *)
Section Mutex.
Context {M : Type} `{FrMutexes M}.

Definition pos_mutex_init (mu : option (handle_of M)) : outcome (pos_error * option (handle_of M)) :=
  match mu with
  | None => Ret (POS_INVALID_PARAM, None)
  | Some _ =>
      let h := xSemaphoreCreateRecursiveMutex in
      c_assert ndebug (negb (null h));;
      Ret (if null h then POS_BAD_MUTEX else POS_OK, Some (mkHandle h))
  end.

Definition pos_mutex_lock (t : tid) (timeout : Z) (mu : option (handle_of M))
    : outcome (pos_error * option (handle_of M)) :=
  c_assert ndebug (negb in_isr);;
  match mu with
  | None => Ret (POS_INVALID_PARAM, None)
  | Some m =>
      c_assert ndebug (negb (null (handle m)));;
      do h <- deref (handle m);
      do '(ret, h) <- of_option Block (xSemaphoreTakeRecursive t timeout h);
      Ret (if ret =? pdPASS then POS_OK else POS_TIMEOUT, Some (mkHandle (Some h)))
  end.

Definition pos_mutex_unlock (t : tid) (mu : option (handle_of M))
    : outcome (pos_error * option (handle_of M)) :=
  c_assert ndebug (negb in_isr);;
  match mu with
  | None => Ret (POS_INVALID_PARAM, None)
  | Some m =>
      c_assert ndebug (negb (null (handle m)));;
      do h <- deref (handle m);
      let '(ret, h) := xSemaphoreGiveRecursive t h in
      Ret (if negb (ret =? pdPASS) then POS_BAD_MUTEX else POS_OK, Some (mkHandle (Some h)))
  end.
End Mutex.

(** * os_sem.c *)
Section Semaphore.
Context {S : Type} `{FrSemaphores S}.

Definition pos_sem_init (tokens : Z) (sem : option (handle_of S))
    : outcome (pos_error * option (handle_of S)) :=
  match sem with
  | None => Ret (POS_INVALID_PARAM, None)
  | Some _ =>
      let h := xSemaphoreCreateCounting 128 tokens in
      c_assert ndebug (negb (null h));;
      Ret (POS_OK, Some (mkHandle h))
  end.

(** The last component: whether a task switch was requested. *)
Definition pos_sem_take (timeout : Z) (sem : option (handle_of S))
    : outcome (pos_error * option (handle_of S) * bool) :=
  match sem with
  | None => Ret (POS_INVALID_PARAM, None, false)
  | Some s =>
      c_assert ndebug (negb (null (handle s)));;
      do '(ret, h, yield) <-
        if in_isr then
          c_assert ndebug (timeout =? 0);;
          do h <- deref (handle s);
          let '(ret, woken, h) := xSemaphoreTakeFromISR woken0 h in
          Ret (ret, h, portYIELD_FROM_ISR woken)
        else
          do h <- deref (handle s);
          do '(ret, h) <- of_option Block (xSemaphoreTake timeout h);
          Ret (ret, h, false);
      Ret (if ret =? pdPASS then POS_OK else POS_TIMEOUT, Some (mkHandle (Some h)), yield)
  end.

Definition pos_sem_give (sem : option (handle_of S))
    : outcome (pos_error * option (handle_of S) * bool) :=
  match sem with
  | None => Ret (POS_INVALID_PARAM, None, false)
  | Some s =>
      c_assert ndebug (negb (null (handle s)));;
      do h <- deref (handle s);
      let '(ret, h, yield) :=
        if in_isr then
          let '(ret, woken, h) := xSemaphoreGiveFromISR woken0 h in
          (ret, h, portYIELD_FROM_ISR woken)
        else
          let '(ret, h) := xSemaphoreGive h in (ret, h, false) in
      c_assert ndebug (ret =? pdPASS);;
      Ret (POS_OK, Some (mkHandle (Some h)), yield)
  end.

(** [uint16_t]; the handle is asserted and then followed. *)
Definition pos_sem_get_count (sem : option (handle_of S)) : outcome Z :=
  c_assert ndebug (negb (null sem));;
  do s <- deref sem;
  c_assert ndebug (negb (null (handle s)));;
  do h <- deref (handle s);
  Ret (u16 (uxSemaphoreGetCount h)).
End Semaphore.

(** * os_queue.c and the queue functions of os_port.h *)
Section Queue.
Context {Q : Type} `{FrQueues Q}.

(** The [size_t] arguments convert to [UBaseType_t], of 32 bits here. *)
Definition pos_queue_init (msg_size max_msgs : Z) (queue : handle_of Q) : pos_error * handle_of Q :=
  (POS_OK, mkHandle (xQueueCreate (u32 max_msgs) (u32 msg_size))).

Definition pos_queue_inited (queue : handle_of Q) : Z := if null (handle queue) then 0 else 1.

(** The error, what is written to [data], the queue, and whether a task switch
    was requested. *)
Definition pos_queue_get (tmo : Z) (queue : handle_of Q)
    : outcome (pos_error * option (list byte) * handle_of Q * bool) :=
  do '(ret, data, h, yield) <-
    if in_isr then
      c_assert ndebug (tmo =? 0);;
      do h <- deref (handle queue);
      let '(ret, woken, data, h) := xQueueReceiveFromISR woken0 h in
      Ret (ret, data, h, portYIELD_FROM_ISR woken)
    else
      do h <- deref (handle queue);
      do '(ret, data, h) <- of_option Block (xQueueReceive tmo h);
      Ret (ret, data, h, false);
  c_assert ndebug ((ret =? pdPASS) || (ret =? errQUEUE_EMPTY));;
  Ret (POS_OK, data, mkHandle (Some h), yield).

Definition pos_queue_put (data : list byte) (queue : handle_of Q)
    : outcome (pos_error * handle_of Q * bool) :=
  do h <- deref (handle queue);
  do '(ret, h, yield) <-
    if in_isr then
      let '(ret, woken, h) := xQueueSendToBackFromISR data woken0 h in
      Ret (ret, h, portYIELD_FROM_ISR woken)
    else
      do '(ret, h) <- of_option Block (xQueueSendToBack data portMAX_DELAY h);
      Ret (ret, h, false);
  c_assert ndebug (ret =? pdPASS);;
  Ret (POS_OK, mkHandle (Some h), yield).

(** [queue] is null or points to the queue, which is deleted. *)
Definition pos_queue_deinit (queue : option (handle_of Q)) : pos_error * option (handle_of Q) :=
  match queue with
  | Some q => (POS_OK, Some (if null (handle q) then q else mkHandle None))
  | None => (POS_OK, None)
  end.
End Queue.

(** * The mutex contract *)
Section MutexContract.
Context {M : Type} `{FrMutexes M}.

(** The functions on a mutex that has been created. *)
Definition on_object {K} (r : outcome (pos_error * option (handle_of K))) : outcome (pos_error * K) :=
  do '(e, h) <- r;
  do k <- deref (h ≫= handle);
  Ret (e, k).

#[local] Instance freertos_osal_mutex : OsalMutex M := {
  osal_mutex_init := fun m => on_object (pos_mutex_init (Some (mkHandle (Some m))));
  osal_mutex_lock := fun t timeout m =>
    on_object (pos_mutex_lock t timeout (Some (mkHandle (Some m))));
  osal_mutex_unlock := fun t m => on_object (pos_mutex_unlock t (Some (mkHandle (Some m))));
  mutex_holder := fr_holder;
  mutex_no_wait := POS_TIME_NO_WAIT;
  mutex_forever := portMAX_DELAY
}.

Context `{!FrMutexesLaws M}.

Lemma freertos_lock_spec t timeout m :
  in_isr = false ->
  osal_mutex_lock t timeout m =
    if grantable t (fr_holder m) then
      match xSemaphoreTakeRecursive t timeout m with
      | Some (_, m') => Ret (POS_OK, m')
      | None => Block
      end
    else if timeout =? portMAX_DELAY then Block else Ret (POS_TIMEOUT, m).
Proof.
  intros Hisr. simpl. unfold on_object, pos_mutex_lock. rewrite Hisr, !c_assert_true. simpl.
  destruct (grantable t (fr_holder m)) eqn:Hg.
  - destruct (fr_take_now t timeout m Hg) as (m' & -> & _). done.
  - rewrite fr_take_held by done. by destruct (timeout =? portMAX_DELAY).
Qed.

(** Any kernel mutex, from a task, provides the mutex interface of [OsalApi]. *)
Lemma freertos_mutex_laws : in_isr = false -> OsalMutexLaws M.
Proof.
  intros Hisr. split.
  - intros m m'. simpl. unfold on_object, pos_mutex_init.
    destruct xSemaphoreCreateRecursiveMutex as [m0|] eqn:E; simpl.
    + rewrite c_assert_true. simpl. intros [= <-]. by apply fr_create_free.
    + by destruct ndebug.
  - apply fr_holder_pos.
  - intros t timeout m m'. rewrite freertos_lock_spec by done.
    destruct (grantable t (fr_holder m)) eqn:Hg.
    + destruct (fr_take_now t timeout m Hg) as (m0 & -> & ?). by intros [= <-].
    + by destruct (timeout =? portMAX_DELAY).
  - intros t timeout m e m'. rewrite freertos_lock_spec by done.
    destruct (grantable t (fr_holder m)) eqn:Hg.
    + destruct (fr_take_now t timeout m Hg) as (m0 & -> & ?). by intros [= <- <-].
    + destruct (timeout =? portMAX_DELAY); [done|]. by intros [= <- <-].
  - intros t m Hh. rewrite freertos_lock_spec by done. simpl in Hh. rewrite Hh. simpl.
    destruct (fr_take_now t portMAX_DELAY m) as (m0 & -> & _); [by rewrite Hh | by eexists].
  - intros t m n Hh. simpl in *. unfold on_object, pos_mutex_unlock. rewrite Hisr, !c_assert_true.
    simpl. destruct (fr_give_own t m n Hh) as (m' & -> & ?). by eexists.
  - intros t m Hh. simpl in *. unfold on_object, pos_mutex_unlock. rewrite Hisr, !c_assert_true.
    simpl. rewrite fr_give_other by done. by do 2 eexists.
Qed.

(** Only a caller that does not wait is told something else than os_mutex.h
    documents: POS_TIMEOUT. *)
Lemma freertos_lock_documented t timeout m :
  in_isr = false ->
  lock_documented t timeout m <-> grantable t (fr_holder m) = true \/ timeout <> POS_TIME_NO_WAIT.
Proof.
  intros Hisr. unfold lock_documented. rewrite freertos_lock_spec by done.
  unfold documented_answer. simpl. destruct (grantable t (fr_holder m)) eqn:Hg.
  - destruct (fr_take_now t timeout m Hg) as (m' & -> & _). split; [by left|done].
  - destruct (Z.eqb_spec timeout POS_TIME_NO_WAIT) as [->|Hne]; [by split; [|intros [|]]|].
    destruct (timeout =? portMAX_DELAY); (split; [by right|done]).
Qed.
End MutexContract.

(** * Semaphores *)
Section SemaphoreContract.
Context {S : Type} `{FrSemaphores S, !FrSemaphoresLaws S}.

Definition object_of (s : S) : option (handle_of S) := Some (mkHandle (Some s)).

(** The FreeRTOS semaphore from a task. A take removes a token that is there
    and otherwise blocks or answers POS_TIMEOUT; a give adds a token below the
    maximum of 128; at the maximum it aborts the process with assertions, and
    without them it answers POS_OK although the token is lost. *)
Theorem freertos_sem_spec timeout (s : S) :
  in_isr = false ->
  (0 < uxSemaphoreGetCount s -> exists s',
     pos_sem_take timeout (object_of s) = Ret (POS_OK, object_of s', false) /\
     uxSemaphoreGetCount s' = uxSemaphoreGetCount s - 1) /\
  (uxSemaphoreGetCount s = 0 ->
     pos_sem_take timeout (object_of s) =
       if timeout =? portMAX_DELAY then Block else Ret (POS_TIMEOUT, object_of s, false)) /\
  (uxSemaphoreGetCount s < fr_max_count s -> exists s',
     pos_sem_give (object_of s) = Ret (POS_OK, object_of s', false) /\
     uxSemaphoreGetCount s' = uxSemaphoreGetCount s + 1) /\
  (uxSemaphoreGetCount s = fr_max_count s ->
     pos_sem_give (object_of s) = if ndebug then Ret (POS_OK, object_of s, false) else AssertFail).
Proof.
  intros Hisr. unfold pos_sem_take, pos_sem_give, object_of. rewrite Hisr. simpl.
  rewrite !c_assert_true. simpl. split_and!; intros Hc.
  - destruct (fr_sem_take_ok timeout s Hc) as (s' & -> & ? & _). by exists s'.
  - rewrite fr_sem_take_zero by done. by destruct (timeout =? portMAX_DELAY).
  - destruct (fr_sem_give_ok s Hc) as (s' & -> & ? & _). simpl. rewrite c_assert_true. by exists s'.
  - rewrite fr_sem_give_full by done. simpl. by destruct ndebug.
Qed.

(** [pos_sem_init] creates a semaphore with at most 128 tokens: a larger
    initial count, which the API allows up to 65535, is a failed assertion, or
    without assertions POS_OK and a null handle. *)
Theorem freertos_sem_init_spec tokens (mem : handle_of S) :
  match pos_sem_init tokens (Some mem) with
  | Ret (e, s) => e = POS_OK /\
      ((exists k, s = object_of k /\ uxSemaphoreGetCount k = tokens /\ fr_max_count k = 128 /\
          tokens <= 128) \/
       (s = Some (mkHandle None) /\ ndebug = true))
  | AssertFail => ndebug = false /\ (xSemaphoreCreateCounting (S := S) 128 tokens) = None
  | _ => False
  end.
Proof.
  unfold pos_sem_init. destruct (xSemaphoreCreateCounting 128 tokens) as [k|] eqn:E; simpl.
  - rewrite c_assert_true. simpl. split; [done|]. left. exists k.
    destruct (fr_create_count _ _ _ E) as (? & ? & ?). done.
  - unfold c_assert. destruct ndebug; simpl; auto.
Qed.
End SemaphoreContract.

(** * Queues *)
Section QueueContract.
Context {Q : Type} `{FrQueues Q, !FrQueuesLaws Q}.

(** The FreeRTOS queue from a task is first in first out: a put appends a
    copy and waits while the queue is full, a get takes the oldest message. But
    a get that finds the queue empty and does not wait for ever answers POS_OK
    as well, with nothing written to the caller's buffer, where the header
    documents POS_EBUSY or POS_TIMEOUT. *)
Theorem freertos_queue_spec item tmo (q : Q) size n l :
  in_isr = false -> fr_queue q = (size, n, l) -> size <= Z.of_nat (length item) ->
  (if Z.of_nat (length l) <? n
   then exists q', pos_queue_put item (mkHandle (Some q)) = Ret (POS_OK, mkHandle (Some q'), false) /\
          fr_queue q' = (size, n, l ++ [take (Z.to_nat size) item])
   else pos_queue_put item (mkHandle (Some q)) = Block) /\
  match l with
  | x :: l' => exists q', pos_queue_get tmo (mkHandle (Some q)) =
                 Ret (POS_OK, Some x, mkHandle (Some q'), false) /\ fr_queue q' = (size, n, l')
  | [] => pos_queue_get tmo (mkHandle (Some q)) =
            if tmo =? portMAX_DELAY then Block
            else Ret (POS_OK, None, mkHandle (Some q), false)
  end.
Proof.
  intros Hisr Hq Hi. unfold pos_queue_put, pos_queue_get. rewrite Hisr. simpl. split.
  - destruct (Z.ltb_spec (Z.of_nat (length l)) n) as [Hlt|Hge].
    + destruct (fr_send_room item portMAX_DELAY q _ _ _ Hq Hi Hlt) as (q' & -> & ?). simpl.
      rewrite c_assert_true. by exists q'.
    + by rewrite (fr_send_full item portMAX_DELAY q _ _ _ Hq Hge).
  - destruct l as [|x l].
    + rewrite (fr_receive_none tmo q _ _ Hq). destruct (tmo =? portMAX_DELAY); [done|]. simpl.
      by rewrite c_assert_true.
    + destruct (fr_receive_some tmo q _ _ _ _ Hq) as (q' & -> & ?). simpl.
      rewrite c_assert_true. by exists q'.
Qed.

(** In an interrupt handler a put never waits: on a full queue it fails the
    assertion. And the request for a task switch that ends it depends on a
    variable nobody initialised: when the kernel woke no task, the switch is
    requested exactly when the indeterminate value is not zero. *)
Theorem freertos_isr_put_spec item (q : Q) size n l :
  in_isr = true -> fr_queue q = (size, n, l) -> size <= Z.of_nat (length item) ->
  if Z.of_nat (length l) <? n
  then exists q' yield,
         pos_queue_put item (mkHandle (Some q)) = Ret (POS_OK, mkHandle (Some q'), yield) /\
         fr_queue q' = (size, n, l ++ [take (Z.to_nat size) item]) /\
         (yield = true \/ yield = negb (woken0 =? 0))
  else ndebug = false -> pos_queue_put item (mkHandle (Some q)) = AssertFail.
Proof.
  intros Hisr Hq Hi. unfold pos_queue_put. rewrite Hisr. simpl.
  pose proof (fr_send_isr item woken0 q) as Hs.
  destruct (xQueueSendToBackFromISR item woken0 q) as [[r w] q'] eqn:E. destruct Hs as [Hs Hw].
  destruct (Z.ltb_spec (Z.of_nat (length l)) n) as [Hlt|Hge]; simpl.
  - destruct (fr_send_room item 0 q _ _ _ Hq Hi Hlt) as (q0 & E0 & Hq0).
    rewrite E0 in Hs. injection Hs as -> ->. rewrite c_assert_true. simpl.
    exists q0, (portYIELD_FROM_ISR w). split_and!; [done|done|].
    destruct Hw as [-> | ->]; [by left|by right].
  - rewrite (fr_send_full item 0 q _ _ _ Hq Hge) in Hs. simpl in Hs. injection Hs as -> ->.
    by intros ->.
Qed.

(** [pos_queue_init] answers POS_OK whether or not there was memory. *)
Lemma freertos_queue_init_ok msg_size max_msgs (mem : handle_of Q) :
  (pos_queue_init msg_size max_msgs mem).1 = POS_OK.
Proof. done. Qed.
End QueueContract.
End FreeRtos.

(** * Witnesses over reference kernels *)

Section Witness.

Definition ref_take_recursive (t : tid) (ticks : Z) (m : ref_mutex) : option (Z * ref_mutex) :=
  match ref_lock t m with
  | Some (_, m') => Some (pdPASS, m')
  | None => if ticks =? portMAX_DELAY then None else Some (pdFAIL, m)
  end.

Definition ref_give_recursive (t : tid) (m : ref_mutex) : Z * ref_mutex :=
  match m with
  | Some (t', n) =>
      if decide (t' = t) then (pdPASS, match n with O => None | S n => Some (t, n) end)
      else (pdFAIL, m)
  | None => (pdFAIL, m)
  end.

#[local] Instance demo_fr_mutexes : FrMutexes ref_mutex := {
  xSemaphoreCreateRecursiveMutex := Some None;
  xSemaphoreTakeRecursive := ref_take_recursive;
  xSemaphoreGiveRecursive := ref_give_recursive;
  fr_holder := ref_holder
}.

#[local] Instance demo_fr_mutexes_laws : FrMutexesLaws ref_mutex.
Proof.
  split; simpl; unfold ref_take_recursive, ref_give_recursive, ref_lock, held_by, grantable.
  - by intros m [= <-].
  - intros [[t' k]|] t n; [|done]. intros [= <- <-]. lia.
  - intros t ticks [[t' k]|]; simpl; [|by eexists]. intros ->%bool_decide_eq_true.
    rewrite !decide_True by done. by eexists.
  - intros t ticks [[t' k]|]; simpl; [|done]. intros Hne%bool_decide_eq_false.
    by rewrite decide_False.
  - intros t [[t' k]|] n; [|done]. simpl. intros [= -> ->]. rewrite decide_True by done.
    eexists. split; [done|]. by destruct n.
  - intros t [[t' k]|]; simpl; [|done]. by case_decide.
Qed.

(** A semaphore: the tokens and the room for more. *)
Definition demo_sem : Type := nat * nat.

Definition demo_sem_take (s : demo_sem) : Z * demo_sem :=
  match s with (S n, m) => (pdPASS, (n, S m)) | _ => (pdFAIL, s) end.

Definition demo_sem_give (s : demo_sem) : Z * demo_sem :=
  match s with (n, S m) => (pdPASS, (S n, m)) | _ => (pdFAIL, s) end.

#[local] Instance demo_fr_semaphores : FrSemaphores demo_sem := {
  xSemaphoreCreateCounting max v :=
    if (0 <=? v) && (v <=? max) then Some (Z.to_nat v, Z.to_nat (max - v)) else None;
  xSemaphoreTake ticks s :=
    let '(r, s') := demo_sem_take s in
    if (r =? pdFAIL) && (ticks =? portMAX_DELAY) then None else Some (r, s');
  xSemaphoreTakeFromISR woken s := let '(r, s') := demo_sem_take s in (r, woken, s');
  xSemaphoreGive := demo_sem_give;
  xSemaphoreGiveFromISR woken s := let '(r, s') := demo_sem_give s in (r, woken, s');
  uxSemaphoreGetCount s := Z.of_nat s.1;
  fr_max_count s := Z.of_nat (s.1 + s.2)
}.

#[local] Instance demo_fr_semaphores_laws : FrSemaphoresLaws demo_sem.
Proof.
  split; simpl.
  - intros s. lia.
  - intros max v s. destruct (_ && _) eqn:E; [|done]. rewrite andb_true_iff, !Z.leb_le in E.
    intros [= <-]. simpl. lia.
  - intros ticks [[|n] m]; simpl; [lia|]. intros _. eexists. split; [done|]. simpl. lia.
  - intros ticks [[|n] m]; simpl; [done|lia].
  - intros [n [|m]]; simpl; [lia|]. intros _. eexists. split; [done|]. simpl. lia.
  - intros [n [|m]]; simpl; [done|lia].
  - intros woken [n [|m]]; simpl; auto.
  - intros woken [[|n] m]; simpl; auto.
Qed.

(** Without assertions, the 129th token is lost. *)
Example freertos_sem_spec_witness :
  pos_sem_give true false 0 (object_of (128%nat, 0%nat)) =
    Ret (POS_OK, object_of (128%nat, 0%nat), false).
Proof.
  exact (proj2 (proj2 (proj2 (freertos_sem_spec true false 0 0 ((128%nat, 0%nat) : demo_sem) eq_refl)))
           eq_refl).
Defined.

Example freertos_sem_init_spec_witness :
  match pos_sem_init (S := demo_sem) false 129 (Some (mkHandle None)) with
  | Ret (e, s) => e = POS_OK /\
      ((exists k, s = object_of k /\ uxSemaphoreGetCount k = 129 /\ fr_max_count k = 128 /\
          129 <= 128) \/
       (s = Some (mkHandle None) /\ false = true))
  | AssertFail => false = false /\ (xSemaphoreCreateCounting (S := demo_sem) 128 129) = None
  | _ => False
  end.
Proof. exact (freertos_sem_init_spec false 129 (mkHandle (None : option demo_sem))). Defined.

(** A queue: the item size, the length and the items. *)
Definition demo_fr_queue : Type := Z * Z * list (list byte).

Definition demo_receive (q : demo_fr_queue) : Z * option (list byte) * demo_fr_queue :=
  match q with
  | (size, n, x :: l) => (pdPASS, Some x, (size, n, l))
  | _ => (errQUEUE_EMPTY, None, q)
  end.

Definition demo_send (item : list byte) (q : demo_fr_queue) : Z * demo_fr_queue :=
  let '(size, n, l) := q in
  if Z.of_nat (length l) <? n then (pdPASS, (size, n, l ++ [take (Z.to_nat size) item]))
  else (errQUEUE_FULL, q).

#[local] Instance demo_fr_queues : FrQueues demo_fr_queue := {
  xQueueCreate n size := Some (size, n, []);
  xQueueReceive ticks q :=
    let '(r, d, q') := demo_receive q in
    if (r =? errQUEUE_EMPTY) && (ticks =? portMAX_DELAY) then None else Some (r, d, q');
  xQueueReceiveFromISR woken q := let '(r, d, q') := demo_receive q in (r, woken, d, q');
  xQueueSendToBack item ticks q :=
    let '(r, q') := demo_send item q in
    if (r =? errQUEUE_FULL) && (ticks =? portMAX_DELAY) then None else Some (r, q');
  xQueueSendToBackFromISR item woken q := let '(r, q') := demo_send item q in (r, woken, q');
  fr_queue q := q
}.

#[local] Instance demo_fr_queues_laws : FrQueuesLaws demo_fr_queue.
Proof.
  split; simpl; unfold demo_send.
  - by intros n size q [= <-].
  - intros ticks q size n x l ->. by eexists.
  - intros ticks q size n ->. done.
  - intros woken [[size n] [|x l]]; simpl; auto.
  - intros item ticks q size n l -> _ Hl. rewrite (proj2 (Z.ltb_lt _ _)) by done. by eexists.
  - intros item ticks q size n l -> Hl. rewrite (proj2 (Z.ltb_ge _ _)) by done. done.
  - intros item woken [[size n] l]; simpl. destruct (_ <? n); simpl; auto.
Qed.

Example freertos_queue_spec_witness :
  pos_queue_get false false 0 0 (mkHandle (Some ((2, 4, []) : demo_fr_queue))) =
    Ret (POS_OK, None, mkHandle (Some (2, 4, [])), false).
Proof.
  refine (proj2 (freertos_queue_spec false false 0 [x01; x02] 0 ((2, 4, []) : demo_fr_queue) 2 4 []
    eq_refl eq_refl _)). vm_compute. congruence.
Defined.

Example freertos_isr_put_spec_witness :
  exists q' yield,
    pos_queue_put false true 42 [x01; x02] (mkHandle (Some ((2, 4, []) : demo_fr_queue))) =
      Ret (POS_OK, mkHandle (Some q'), yield) /\
    fr_queue q' = (2, 4, [] ++ [[x01; x02]]) /\ (yield = true \/ yield = negb (42 =? 0)).
Proof.
  refine (freertos_isr_put_spec false true 42 [x01; x02] ((2, 4, []) : demo_fr_queue) 2 4 []
    eq_refl eq_refl _). vm_compute. congruence.
Defined.
End Witness.
