(* ===== verification/FreeRtosTimer.v ===== *)
(** targets/freertos: timers, time and tasks over the FreeRTOS kernel
    (os_timer.c, os_task.c and the inline functions of poski/osal/os_port.h).
    Ticks are 32 bits wide, and so is all their arithmetic. *)

From S2P Require Import Prelude OsTypes FreeRtos.

(** * Software timers of the kernel *)

(** One timer [K]. A command is sent to the timer task: [pdPASS] when the command
    queue takes it (it then takes effect), [pdFAIL] otherwise. [fr_now] is the
    tick count. *)
Class FrTimers (K : Type) := {
  xTimerCreate : Z -> option K;
  xTimerStop : Z -> K -> Z * K;
  xTimerChangePeriod : Z -> Z -> K -> Z * K;
  xTimerReset : Z -> K -> Z * K;
  xTimerStopFromISR : Z -> K -> Z * Z * K;
  xTimerChangePeriodFromISR : Z -> Z -> K -> Z * Z * K;
  xTimerResetFromISR : Z -> K -> Z * Z * K;
  xTimerGetExpiryTime : K -> Z;
  xTimerIsTimerActive : K -> Z;
  fr_period : K -> Z;
  fr_now : K -> Z
}.

(** A command: accepted with the effect [post], or refused with none. *)
Definition accepted {K} (r : Z * K) (k : K) (post : K -> Prop) : Prop :=
  (r.1 = pdPASS /\ post r.2) \/ (r.1 = pdFAIL /\ r.2 = k).

Class FrTimersLaws (K : Type) `{FrTimers K} : Prop := {
  fr_stop : forall wait k, accepted (xTimerStop wait k) k (fun k' =>
    xTimerIsTimerActive k' = pdFALSE /\ fr_period k' = fr_period k /\ fr_now k' = fr_now k);
  fr_change_period : forall p wait k, 0 < p -> accepted (xTimerChangePeriod p wait k) k (fun k' =>
    xTimerIsTimerActive k' = pdTRUE /\ fr_period k' = p /\ fr_now k' = fr_now k /\
    xTimerGetExpiryTime k' = u32 (fr_now k + p));
  fr_reset : forall wait k, accepted (xTimerReset wait k) k (fun k' =>
    xTimerIsTimerActive k' = pdTRUE /\ fr_period k' = fr_period k /\ fr_now k' = fr_now k /\
    xTimerGetExpiryTime k' = u32 (fr_now k + fr_period k));
  fr_stop_isr : forall w k, let '(r, w', k') := xTimerStopFromISR w k in
    (r, k') = xTimerStop 0 k /\ (w' = pdTRUE \/ w' = w);
  fr_change_period_isr : forall p w k, let '(r, w', k') := xTimerChangePeriodFromISR p w k in
    (r, k') = xTimerChangePeriod p 0 k /\ (w' = pdTRUE \/ w' = w);
  fr_reset_isr : forall w k, let '(r, w', k') := xTimerResetFromISR w k in
    (r, k') = xTimerReset 0 k /\ (w' = pdTRUE \/ w' = w)
}.

(** [struct pos_timer] (os_port.h) *)
Record pos_timer (K CB P : Type) := mkPosTimer {
  handle : option K;
  func : CB;
  arg : option P
}.
Arguments mkPosTimer {K CB P} handle func arg.
Arguments handle {K CB P} p.
Arguments func {K CB P} p.
Arguments arg {K CB P} p.

Section FreeRtosTimer.
Context {K CB P : Type} `{FrTimers K}.

(** As in FreeRtos: assertions, interrupt handlers, uninitialised variables. *)
Variables ndebug in_isr : bool.
Variables woken1 woken2 woken3 : Z.
(** [configTICK_RATE_HZ] *)
Variable configTICK_RATE_HZ : Z.

Abbreviation timer := (pos_timer K CB P).

Definition with_handle (k : K) (t : timer) : timer := mkPosTimer (Some k) (func t) (arg t).

(** The period is a dummy, one tick. *)
Definition pos_timer_init (tm_cb : CB) (tm_arg : option P) (mem : timer) : pos_error * timer :=
  (POS_OK, mkPosTimer (xTimerCreate 1) tm_cb tm_arg).

(** The comparison [ticks < 0] is between unsigned values. *)
Definition pos_timer_start (ticks : Z) (t : timer) : outcome (pos_error * timer * bool) :=
  if ticks <? 0 then Ret (POS_INVALID_PARAM, t, false)
  else
    let ticks := if ticks =? 0 then 1 else ticks in
    do k <- deref (handle t);
    if in_isr then
      let '(_, woken1, k) := xTimerStopFromISR woken1 k in
      let '(_, woken2, k) := xTimerChangePeriodFromISR ticks woken2 k in
      let '(_, woken3, k) := xTimerResetFromISR woken3 k in
      Ret (POS_OK, with_handle k t,
           portYIELD_FROM_ISR woken1 || portYIELD_FROM_ISR woken2 || portYIELD_FROM_ISR woken3)
    else
      let '(_, k) := xTimerStop portMAX_DELAY k in
      let '(_, k) := xTimerChangePeriod ticks portMAX_DELAY k in
      let '(_, k) := xTimerReset portMAX_DELAY k in
      Ret (POS_OK, with_handle k t, false).

(** [return xTimerStop(...)]: the [BaseType_t] converts to the enumeration. *)
Definition pos_timer_stop (tm : option timer) : outcome (pos_error * option timer) :=
  c_assert ndebug (match tm with Some _ => true | None => false end);;
  do t <- deref tm;
  c_assert ndebug (match handle t with Some _ => true | None => false end);;
  do k <- deref (handle t);
  let '(ret, k) := xTimerStop portMAX_DELAY k in
  do e <- of_option Undef (pos_error_of_code ret);
  Ret (e, Some (with_handle k t)).

Definition pos_timer_is_active (tm : option timer) : outcome bool :=
  c_assert ndebug (match tm with Some _ => true | None => false end);;
  do t <- deref tm;
  c_assert ndebug (match handle t with Some _ => true | None => false end);;
  do k <- deref (handle t);
  Ret (xTimerIsTimerActive k =? pdTRUE).

Definition pos_timer_remaining_ticks (t : timer) (now : Z) : outcome Z :=
  do k <- deref (handle t);
  let exp := xTimerGetExpiryTime k in
  Ret (if now <? exp then u32 (exp - now) else 0).

Definition pos_timer_get_ticks (tm : option timer) : outcome Z :=
  c_assert ndebug (match tm with Some _ => true | None => false end);;
  do t <- deref tm;
  c_assert ndebug (match handle t with Some _ => true | None => false end);;
  do k <- deref (handle t);
  Ret (xTimerGetExpiryTime k).

Definition pos_timer_arg_get (tm : option timer) : outcome (option P) :=
  c_assert ndebug (match tm with Some _ => true | None => false end);;
  do t <- deref tm;
  Ret (arg t).

Definition pos_timer_arg_set (tm_arg : option P) (tm : option timer) : outcome timer :=
  c_assert ndebug (match tm with Some _ => true | None => false end);;
  do t <- deref tm;
  Ret (mkPosTimer (handle t) (func t) tm_arg).

(** The timer's callback, on the timer whose address is the kernel timer's id:
    the timer after the stop, and the call that follows. *)
Definition pos_timer_cb (tm : option timer) : outcome (timer * (CB * option P)) :=
  c_assert ndebug (match tm with Some _ => true | None => false end);;
  do '(_, tm) <- pos_timer_stop tm;
  do t <- deref tm;
  Ret (t, (func t, arg t)).

(** * Time *)

Definition pos_time_ms_to_ticks (ms : Z) : Z := u32 (ms * configTICK_RATE_HZ) / 1000.

Definition pos_time_ticks_to_ms (ticks : Z) : Z := u32 (ticks * 1000) / configTICK_RATE_HZ.

(** [count] is the kernel's tick count. *)
Definition pos_time_get (count : Z) : Z := count.

Definition pos_time_get_ms (count : Z) : Z := pos_time_ticks_to_ms (pos_time_get count).

Definition pos_timer_start_ms (duration : Z) (t : timer) : outcome (pos_error * timer * bool) :=
  let ticks := pos_time_ms_to_ticks duration in
  pos_timer_start ticks t.

(** * Lemmas *)

Context `{!FrTimersLaws K}.

Lemma fr_ticks ticks : is_u32 ticks -> (if ticks =? 0 then 1 else ticks) = Z.max 1 ticks.
Proof. intros Ht. unfold is_u32 in Ht. destruct (Z.eqb_spec ticks 0); lia. Qed.

Lemma pos_timer_start_shape ticks k cb a :
  is_u32 ticks ->
  exists r1 k1 r2 k2 r3 k3 wait yield,
    xTimerStop wait k = (r1, k1) /\ xTimerChangePeriod (Z.max 1 ticks) wait k1 = (r2, k2) /\
    xTimerReset wait k2 = (r3, k3) /\
    pos_timer_start ticks (mkPosTimer (Some k) cb a) = Ret (POS_OK, mkPosTimer (Some k3) cb a, yield).
Proof.
  intros Hu. unfold pos_timer_start. rewrite (proj2 (Z.ltb_ge ticks 0)) by (unfold is_u32 in Hu; lia).
  rewrite fr_ticks by done. simpl. destruct in_isr.
  - pose proof (fr_stop_isr woken1 k) as L1.
    destruct (xTimerStopFromISR woken1 k) as [[r1 w1] k1].
    pose proof (fr_change_period_isr (Z.max 1 ticks) woken2 k1) as L2.
    destruct (xTimerChangePeriodFromISR (Z.max 1 ticks) woken2 k1) as [[r2 w2] k2].
    pose proof (fr_reset_isr woken3 k2) as L3.
    destruct (xTimerResetFromISR woken3 k2) as [[r3 w3] k3].
    exists r1, k1, r2, k2, r3, k3, 0. eexists. destruct L1, L2, L3. by split_and!.
  - destruct (xTimerStop portMAX_DELAY k) as [r1 k1] eqn:E1.
    destruct (xTimerChangePeriod (Z.max 1 ticks) portMAX_DELAY k1) as [r2 k2] eqn:E2.
    destruct (xTimerReset portMAX_DELAY k2) as [r3 k3] eqn:E3.
    exists r1, k1, r2, k2, r3, k3, portMAX_DELAY. eexists. by split_and!.
Qed.

(** * Properties *)

(** [pos_timer_start] sends a stop, a change of period and a reset, from a
    task and from an interrupt handler, and answers POS_OK whatever the kernel
    says: if it took the last two, the timer runs for exactly the ticks given
    (at least one); if it refused all three, the timer is as it was. *)
Theorem freertos_timer_start_spec ticks k cb a :
  is_u32 ticks ->
  exists r1 k1 r2 k2 r3 k3 wait yield,
    xTimerStop wait k = (r1, k1) /\ xTimerChangePeriod (Z.max 1 ticks) wait k1 = (r2, k2) /\
    xTimerReset wait k2 = (r3, k3) /\
    pos_timer_start ticks (mkPosTimer (Some k) cb a) = Ret (POS_OK, mkPosTimer (Some k3) cb a, yield) /\
    (r2 = pdPASS -> r3 = pdPASS ->
       xTimerIsTimerActive k3 = pdTRUE /\ fr_period k3 = Z.max 1 ticks /\
       xTimerGetExpiryTime k3 = u32 (fr_now k + Z.max 1 ticks)) /\
    (r1 = pdFAIL -> r2 = pdFAIL -> r3 = pdFAIL -> k3 = k).
Proof.
  intros Hu.
  destruct (pos_timer_start_shape ticks k cb a Hu)
    as (r1 & k1 & r2 & k2 & r3 & k3 & wait & yield & E1 & E2 & E3 & Estart).
  exists r1, k1, r2, k2, r3, k3, wait, yield.
  pose proof (fr_stop wait k) as L1. rewrite E1 in L1.
  pose proof (fr_change_period (Z.max 1 ticks) wait k1 ltac:(lia)) as L2. rewrite E2 in L2.
  pose proof (fr_reset wait k2) as L3. rewrite E3 in L3.
  unfold accepted in *. simpl in *. split_and!; try done.
  - intros -> ->. destruct L2 as [(_ & _ & Hp2 & Hn2 & _)|[Hr2 _]]; [|done].
    destruct L3 as [(_ & Ha3 & Hp3 & Hn3 & He3)|[Hr3 _]]; [|done].
    assert (fr_now k1 = fr_now k) as Hn1 by (destruct L1 as [(_ & _ & _ & ?)|[_ ->]]; done).
    by rewrite He3, Hp3, Hp2, Hn2, Hn1.
  - intros -> -> ->. destruct L1 as [[? _]|[_ ->]]; [done|]. destruct L2 as [[? _]|[_ ->]]; [done|].
    by destruct L3 as [[? _]|[_ ->]].
Qed.

(** What [pos_timer_stop] answers is the kernel's status taken for an error
    code: a stop that worked is reported as POS_ENOMEM, and one that the kernel
    refused, which leaves the timer running, as POS_OK. *)
Theorem freertos_timer_stop_inverted k cb a :
  exists k', pos_timer_stop (Some (mkPosTimer (Some k) cb a)) =
      Ret (if (xTimerStop portMAX_DELAY k).1 =? pdPASS then POS_ENOMEM else POS_OK,
           Some (mkPosTimer (Some k') cb a)) /\
    (if (xTimerStop portMAX_DELAY k).1 =? pdPASS then xTimerIsTimerActive k' = pdFALSE else k' = k).
Proof.
  unfold pos_timer_stop. rewrite c_assert_true. simpl. rewrite c_assert_true. simpl.
  pose proof (fr_stop portMAX_DELAY k) as L.
  destruct (xTimerStop portMAX_DELAY k) as [r k']. exists k'.
  unfold accepted in L. simpl in L. destruct L as [(-> & ? & _)|[-> ->]]; simpl; done.
Qed.

(** The conversion of milliseconds to ticks multiplies in 32 bits: it is the
    true conversion, rounded down, exactly as long as the product fits, and
    always less than 2^32 / 1000 ticks otherwise; and the same the other way
    round. *)
Theorem freertos_ms_to_ticks_spec ms :
  is_u32 ms -> 0 < configTICK_RATE_HZ -> is_u32 configTICK_RATE_HZ ->
  (ms * configTICK_RATE_HZ < 2 ^ 32 ->
     pos_time_ms_to_ticks ms = ms * configTICK_RATE_HZ / 1000) /\
  (2 ^ 32 <= ms * configTICK_RATE_HZ -> pos_time_ms_to_ticks ms <= 4294967 /\
     pos_time_ms_to_ticks ms < ms * configTICK_RATE_HZ / 1000) /\
  (ms * 1000 < 2 ^ 32 -> pos_time_ticks_to_ms ms = ms * 1000 / configTICK_RATE_HZ).
Proof.
  intros Hms Hpos Hr. unfold pos_time_ms_to_ticks, pos_time_ticks_to_ms, is_u32 in *. split_and!.
  - intros Hlt. rewrite u32_small; [done|]. unfold is_u32. nia.
  - intros Hge. set (x := ms * configTICK_RATE_HZ) in *. clearbody x.
    assert (0 <= u32 x < 2 ^ 32 /\ u32 x <= x - 2 ^ 32) as [Hu Hle] by zwrap. split.
    + apply Z.lt_succ_r, Z.div_lt_upper_bound; lia.
    + assert (u32 x / 1000 <= (x - 2 ^ 32) / 1000) as Hd by (apply Z.div_le_mono; lia).
      assert ((x - 2 ^ 32) / 1000 < x / 1000); [|lia].
      assert ((x - 2 ^ 32) / 1000 <= (x - 1000 * 1) / 1000) by (apply Z.div_le_mono; lia).
      assert ((x - 1000 * 1) / 1000 = x / 1000 - 1); [|lia].
      replace (x - 1000 * 1) with (x + (-1) * 1000) by lia. rewrite Z.div_add by lia. lia.
  - intros Hlt. rewrite u32_small; [done|]. unfold is_u32. lia.
Qed.

(** With [r] ticks to go, [pos_timer_remaining_ticks] answers [r] unless the
    32-bit tick count wraps before the timer is due, when it answers zero. *)
Theorem freertos_remaining_ticks_spec (t : timer) k r :
  handle t = Some k -> is_u32 (fr_now k) -> is_u32 r ->
  xTimerGetExpiryTime k = u32 (fr_now k + r) ->
  pos_timer_remaining_ticks t (fr_now k) = Ret (if fr_now k + r <? 2 ^ 32 then r else 0).
Proof.
  intros Ht Hn Hr He. unfold pos_timer_remaining_ticks. rewrite Ht. simpl. rewrite He.
  unfold is_u32 in *. set (n := fr_now k) in *. clearbody n. clear He.
  destruct (Z.ltb_spec (n + r) (2 ^ 32)) as [Hlt|Hge].
  - rewrite (u32_small (n + r)) by (unfold is_u32; lia).
    destruct (Z.ltb_spec n (n + r)).
    + f_equal. rewrite u32_small by (unfold is_u32; lia). lia.
    + f_equal. lia.
  - destruct (Z.ltb_spec n (u32 (n + r))) as [Hb|]; [|done]. exfalso. zwrap.
Qed.
End FreeRtosTimer.

(** * Tasks (os_task.c) *)

(** The kernel's tasks [W]: [xTaskCreate] starts a task at [pos_task_dispatch]
    with a pointer to the caller's structure; [fr_spawned] are the stack depth,
    in words, and priority of the tasks so far. *)
Class FrTasks (H W : Type) := {
  sizeof_StackType : Z;
  sizeof_BaseType : Z;
  xTaskCreate : list byte -> Z -> Z -> W -> Z * option H * W;
  fr_spawned : W -> list (Z * Z)
}.

Class FrTasksLaws (H W : Type) `{FrTasks H W} : Prop := {
  fr_task_create : forall nm depth prio w r h w', xTaskCreate nm depth prio w = (r, h, w') ->
    (r = pdPASS /\ is_Some h /\ fr_spawned w' = fr_spawned w ++ [(depth, prio)]) \/
    (r <> pdPASS /\ w' = w)
}.

Module Task.
(** [struct pos_task] (os_port.h) *)
Record pos_task (H F X : Type) := mkPosTask { handle : option H; func : option F; arg : X }.
Arguments mkPosTask {H F X} handle func arg.
Arguments handle {H F X} p.
Arguments func {H F X} p.
Arguments arg {H F X} p.

Section Task.
Context {H F X W : Type} `{FrTasks H W}.
Variable ndebug : bool.

(** The function and argument that the new task calls; [task->func] null and
    followed has no meaning. *)
Definition pos_task_dispatch (task : option (pos_task H F X)) : outcome (F * X) :=
  c_assert ndebug (match task with Some _ => true | None => false end);;
  do t <- deref task;
  c_assert ndebug (match func t with Some _ => true | None => false end);;
  do f <- deref (func t);
  Ret (f, arg t).

Definition pos_task_init (task : option (pos_task H F X)) (nm : list byte) (fn : option F) (a : X)
    (prio stack_size : Z) (w : W) : pos_error * option (pos_task H F X) * W :=
  match task, fn with
  | Some t, Some _ =>
      let '(err, h, w) := xTaskCreate nm (stack_size / sizeof_BaseType) prio w in
      (if err =? pdPASS then POS_OK else POS_ENOMEM, Some (mkPosTask h fn a), w)
  | _, _ => (POS_INVALID_PARAM, task, w)
  end.

Context `{!FrTasksLaws H W}.

(** [pos_task_init] answers POS_OK exactly when the kernel has started one
    task; that task calls the function given with the argument given, for as
    long as the caller's structure is left alone, and its stack has no more
    words of the kernel's base type than fit the bytes given. *)
Theorem freertos_task_init_spec task nm fn a prio stack_size w :
  0 <= stack_size -> 0 < sizeof_BaseType ->
  let '(e, task', w') := pos_task_init task nm fn a prio stack_size w in
  (e = POS_OK /\ exists f depth, fn = Some f /\ pos_task_dispatch task' = Ret (f, a) /\
     fr_spawned w' = fr_spawned w ++ [(depth, prio)] /\ depth * sizeof_BaseType <= stack_size) \/
  (e <> POS_OK /\ w' = w).
Proof.
  intros Hs Hb. unfold pos_task_init. destruct task as [t|], fn as [f|]; try by right.
  destruct (xTaskCreate nm (stack_size / sizeof_BaseType) prio w) as [[err h] w'] eqn:E.
  destruct (fr_task_create _ _ _ _ _ _ _ E) as [(-> & _ & Hsp)|[Hne ->]].
  - left. split; [done|]. exists f, (stack_size / sizeof_BaseType). split_and!; [done| |done|].
    + unfold pos_task_dispatch. simpl. by destruct ndebug.
    + rewrite Z.mul_comm. by apply Z.mul_div_le.
  - right. by rewrite (proj2 (Z.eqb_neq _ _)).
Qed.
End Task.

(** ** The inline functions that call the scheduler *)

Definition taskSCHEDULER_NOT_STARTED : Z := 1.

(** The running system [W], seen by the current task; [fr_elapsed] counts the
    ticks since its start (without wrapping). *)
Class FrScheduler (H W : Type) := {
  xTaskGetSchedulerState : W -> Z;
  taskYIELD : W -> W;
  vTaskDelay : Z -> W -> W;
  xTaskGetCurrentTaskHandle : W -> H;
  vTaskStartScheduler : W -> outcome W;
  fr_elapsed : W -> Z
}.

(** [vTaskDelay] returns when that many ticks have passed, or later. *)
Class FrSchedulerLaws (H W : Type) `{FrScheduler H W} : Prop := {
  fr_delay : forall n w, is_u32 n -> fr_elapsed w + n <= fr_elapsed (vTaskDelay n w)
}.

Section Scheduler.
Context {H W : Type} `{FrScheduler H W}.
Variable configTICK_RATE_HZ : Z.

Definition pos_os_started (w : W) : bool :=
  negb (xTaskGetSchedulerState w =? taskSCHEDULER_NOT_STARTED).
Definition pos_task_yield (w : W) : W := taskYIELD w.
Definition pos_task_sleep (ticks : Z) (w : W) : W := vTaskDelay ticks w.
Definition pos_task_sleep_ms (ms : Z) (w : W) : W :=
  pos_task_sleep (pos_time_ms_to_ticks configTICK_RATE_HZ ms) w.
Definition pos_get_current_task_id (w : W) : H := xTaskGetCurrentTaskHandle w.
Definition pos_sched_start (w : W) : outcome W := vTaskStartScheduler w.

Context `{!FrSchedulerLaws H W}.

(** While the product fits 32 bits, [pos_task_sleep_ms] sleeps at least the
    whole ticks of the time asked for, so that it may end early, by less than one
    tick; beyond, it asks for the sleep of a shorter time. *)
Theorem freertos_sleep_spec ms w :
  is_u32 ms -> 0 < configTICK_RATE_HZ ->
  (ms * configTICK_RATE_HZ < 2 ^ 32 ->
     ms * configTICK_RATE_HZ - 1000 <
       (fr_elapsed (pos_task_sleep_ms ms w) - fr_elapsed w) * 1000) /\
  pos_task_sleep_ms ms w = vTaskDelay (u32 (ms * configTICK_RATE_HZ) / 1000) w.
Proof.
  intros Hms Hr. split; [|done]. intros Hlt. unfold pos_task_sleep_ms, pos_task_sleep, pos_time_ms_to_ticks.
  unfold is_u32 in Hms. rewrite u32_small by (unfold is_u32; nia).
  set (x := ms * configTICK_RATE_HZ) in *. assert (0 <= x) as Hx by (unfold x; nia). clearbody x.
  assert (1000 * (x / 1000) <= x < 1000 * (x / 1000) + 1000) as Hd by (Z.to_euclidean_division_equations; lia).
  pose proof (fr_delay (x / 1000) w) as Hf. unfold is_u32 in Hf. lia.
Qed.
End Scheduler.
End Task.

(** * Witnesses over reference kernels *)

Section Witness.

(** A timer: its period, its expiry while it runs, and the tick count. *)
Record demo_timer := mkDemoTimer { demo_period : Z; demo_expiry : option Z; demo_now : Z }.

Definition demo_stop (k : demo_timer) : demo_timer := mkDemoTimer (demo_period k) None (demo_now k).
Definition demo_change (p : Z) (k : demo_timer) : demo_timer :=
  mkDemoTimer p (Some (u32 (demo_now k + p))) (demo_now k).

#[local] Instance demo_fr_timers : FrTimers demo_timer := {
  xTimerCreate p := Some (mkDemoTimer p None 0);
  xTimerStop _ k := (pdPASS, demo_stop k);
  xTimerChangePeriod p _ k := (pdPASS, demo_change p k);
  xTimerReset _ k := (pdPASS, demo_change (demo_period k) k);
  xTimerStopFromISR w k := (pdPASS, w, demo_stop k);
  xTimerChangePeriodFromISR p w k := (pdPASS, w, demo_change p k);
  xTimerResetFromISR w k := (pdPASS, w, demo_change (demo_period k) k);
  xTimerGetExpiryTime k := default 0 (demo_expiry k);
  xTimerIsTimerActive k := match demo_expiry k with Some _ => pdTRUE | None => pdFALSE end;
  fr_period := demo_period;
  fr_now := demo_now
}.

#[local] Instance demo_fr_timers_laws : FrTimersLaws demo_timer.
Proof. split; intros; simpl; try (left; by split_and!); split; auto. Qed.

Example freertos_timer_start_spec_witness :
  exists r1 k1 r2 k2 r3 k3 wait yield,
    xTimerStop wait (mkDemoTimer 1 None 4294967290) = (r1, k1) /\
    xTimerChangePeriod (Z.max 1 10) wait k1 = (r2, k2) /\ xTimerReset wait k2 = (r3, k3) /\
    pos_timer_start false 0 0 0 10 (mkPosTimer (Some (mkDemoTimer 1 None 4294967290)) tt (None : option unit)) =
      Ret (POS_OK, mkPosTimer (Some k3) tt None, yield) /\
    (r2 = pdPASS -> r3 = pdPASS ->
       xTimerIsTimerActive k3 = pdTRUE /\ fr_period k3 = Z.max 1 10 /\
       xTimerGetExpiryTime k3 = u32 (4294967290 + Z.max 1 10)) /\
    (r1 = pdFAIL -> r2 = pdFAIL -> r3 = pdFAIL -> k3 = mkDemoTimer 1 None 4294967290).
Proof.
  refine (freertos_timer_start_spec false 0 0 0 10 (mkDemoTimer 1 None 4294967290) tt (None : option unit) _).
  unfold is_u32. lia.
Defined.

Example freertos_timer_stop_inverted_witness :
  exists k', pos_timer_stop true (Some (mkPosTimer (Some (mkDemoTimer 5 (Some 9) 4)) tt (None : option unit))) =
      Ret (POS_ENOMEM, Some (mkPosTimer (Some k') tt None)) /\ xTimerIsTimerActive k' = pdFALSE.
Proof. exact (freertos_timer_stop_inverted true (mkDemoTimer 5 (Some 9) 4) tt (None : option unit)). Defined.

(** 71.6 minutes are no ticks at all. *)
Example freertos_ms_to_ticks_spec_witness :
  pos_time_ms_to_ticks 1000 4294968 = 0 /\ pos_time_ms_to_ticks 1000 4294968 < 4294968 * 1000 / 1000.
Proof.
  split; [vm_compute; reflexivity|].
  refine (proj2 (proj1 (proj2 (freertos_ms_to_ticks_spec 1000 4294968 _ _ _)) _));
    unfold is_u32; lia.
Defined.

Example freertos_remaining_ticks_spec_witness :
  pos_timer_remaining_ticks
    (mkPosTimer (Some (mkDemoTimer 10 (Some 4) 4294967290)) tt (None : option unit)) 4294967290 =
  Ret (if 4294967290 + 10 <? 2 ^ 32 then 10 else 0).
Proof.
  refine (freertos_remaining_ticks_spec
    (mkPosTimer (Some (mkDemoTimer 10 (Some 4) 4294967290)) tt (None : option unit))
    (mkDemoTimer 10 (Some 4) 4294967290) 10 eq_refl _ _ _);
    [unfold is_u32; simpl; lia | unfold is_u32; lia | reflexivity].
Defined.

#[local] Instance demo_fr_tasks : FrTasks nat (list (Z * Z)) := {
  sizeof_StackType := 4;
  sizeof_BaseType := 4;
  xTaskCreate nm depth prio w := (pdPASS, Some (length w), w ++ [(depth, prio)]);
  fr_spawned w := w
}.

#[local] Instance demo_fr_tasks_laws : FrTasksLaws nat (list (Z * Z)).
Proof. split. intros nm depth prio w r h w' [= <- <- <-]. left. split_and!; [done|by eexists|done]. Qed.

(** The system is its tick count; a delay is exact. *)
#[local] Instance demo_fr_scheduler : Task.FrScheduler unit Z := {
  xTaskGetSchedulerState w := 2;
  taskYIELD w := w;
  vTaskDelay n w := w + n;
  xTaskGetCurrentTaskHandle w := tt;
  vTaskStartScheduler w := Block;
  fr_elapsed w := w
}.

#[local] Instance demo_fr_scheduler_laws : Task.FrSchedulerLaws unit Z.
Proof. split. intros n w _. simpl. lia. Qed.

(** At 100 Hz, 19 ms are one tick. *)
Example freertos_sleep_spec_witness :
  Task.pos_task_sleep_ms 100 19 5 = 6 /\
  19 * 100 - 1000 < (Task.fr_elapsed (Task.pos_task_sleep_ms 100 19 5) - Task.fr_elapsed 5) * 1000.
Proof.
  split; [reflexivity|]. refine (proj1 (Task.freertos_sleep_spec 100 19 5 _ _) _);
    unfold is_u32; lia.
Defined.

Example freertos_task_init_spec_witness :
  let '(e, task', w') :=
    Task.pos_task_init (Some (Task.mkPosTask None None 0)) [x61] (Some 7%nat) 9 2 1026 ([] : list (Z * Z)) in
  (e = POS_OK /\ exists f depth, Some 7%nat = Some f /\
     Task.pos_task_dispatch false task' = Ret (f, 9) /\
     fr_spawned w' = fr_spawned ([] : list (Z * Z)) ++ [(depth, 2)] /\ depth * 4 <= 1026) \/
  (e <> POS_OK /\ w' = []).
Proof.
  refine (Task.freertos_task_init_spec false (Some (Task.mkPosTask None None 0)) [x61] (Some 7%nat) 9 2
    1026 ([] : list (Z * Z)) _ _); simpl; lia.
Defined.
End Witness.
