(* ===== verification/FreeRtosTimerDaemon.v ===== *)
(** targets/freertos/os_timer.c and the timer's daemon. FreeRTOS runs the
    callbacks of all timers in one task, the daemon, which also takes the
    commands of [xTimerStop], [xTimerChangePeriod] and [xTimerReset] out of a
    queue of bounded length. The callback of the port and the functions that it
    calls send commands to this queue from the daemon itself, and wait without a
    limit for room in it. The timers are those whose creation succeeded, so that
    the assertions hold; the functions one after the other are in FreeRtosTimer.
    Tasks and the daemon run in any order, whatever their priorities. *)

From S2P Require Import Prelude OsTypes Pthread FreeRtos FreeRtosTimer.
#[local] Open Scope nat_scope.

(** * The kernel's side *)

(** What a command asks for a timer. *)
Inductive command := CmdStop | CmdChangePeriod (ticks : Z) | CmdReset.
#[export] Instance command_eq : EqDecision command.
Proof. solve_decision. Defined.

Definition starts (cmd : command) : bool :=
  match cmd with CmdStop => false | CmdChangePeriod _ | CmdReset => true end.

(** The queue and the timers [D], which are known by number. [send_command] is
    the part of [xTimerStop] and the like that puts a command into the queue,
    [None] when it is full; [process] takes the first command out and carries it
    out; [expire] is the expiry of a one-shot timer that runs. *)
Class FrDaemon (D : Type) := {
  configTIMER_QUEUE_LENGTH : nat;
  send_command : nat -> command -> D -> option D;
  process : D -> option D;
  expire : nat -> D -> option D;
  pending : D -> list (nat * command);
  running : nat -> D -> bool
}.

Class FrDaemonLaws (D : Type) `{FrDaemon D} : Prop := {
  queue_length_pos : 0 < configTIMER_QUEUE_LENGTH;
  send_full : forall k cmd d, configTIMER_QUEUE_LENGTH <= length (pending d) ->
    send_command k cmd d = None;
  send_room : forall k cmd d, length (pending d) < configTIMER_QUEUE_LENGTH ->
    exists d', send_command k cmd d = Some d' /\ pending d' = pending d ++ [(k, cmd)] /\
      forall j, running j d' = running j d;
  process_none : forall d, pending d = [] -> process d = None;
  process_some : forall k cmd l d, pending d = (k, cmd) :: l ->
    exists d', process d = Some d' /\ pending d' = l /\
      forall j, running j d' = if decide (j = k) then starts cmd else running j d;
  expire_idle : forall k d, running k d = false -> expire k d = None;
  expire_running : forall k d, running k d = true ->
    exists d', expire k d = Some d' /\ pending d' = pending d /\
      forall j, running j d' = if decide (j = k) then false else running j d
}.

(** * The code *)

(** Inside [pos_timer_start] or [pos_timer_stop], called by a task for the timer
    [k], at the statement that it runs next. *)
Inductive sender :=
| StartStop (k : nat) (ticks : Z)       (* xTimerStop(timer->handle, portMAX_DELAY) *)
| StartChange (k : nat) (ticks : Z)     (* xTimerChangePeriod(timer->handle, ticks, portMAX_DELAY) *)
| StartReset (k : nat)                  (* xTimerReset(timer->handle, portMAX_DELAY) *)
| StopSend (k : nat).                   (* return xTimerStop(tm->handle, portMAX_DELAY) *)

Inductive request := RequestStart (k : nat) (ticks : Z) | RequestStop (k : nat).

(** [ticks] is unsigned, so it is never less than zero. *)
Definition enter (r : request) : sender :=
  match r with
  | RequestStart k ticks => StartStop k (if (ticks =? 0)%Z then 1%Z else ticks)
  | RequestStop k => StopSend k
  end.

(** The command a statement sends, and the statement after it. *)
Definition sends (p : sender) : nat * command :=
  match p with
  | StartStop k _ | StopSend k => (k, CmdStop)
  | StartChange k ticks => (k, CmdChangePeriod ticks)
  | StartReset k => (k, CmdReset)
  end.
Definition next_statement (p : sender) : option sender :=
  match p with
  | StartStop k ticks => Some (StartChange k ticks)
  | StartChange k _ => Some (StartReset k)
  | StartReset _ | StopSend _ => None
  end.

(** Where the daemon is: in the kernel's loop; in [pos_timer_cb] before the
    stop; in the function of the user that it calls; or inside a call of the
    API from this function. *)
Inductive daemon_position :=
| Loop
| CbStop (k : nat)                      (* pos_timer_stop(timer) *)
| CbFunc (k : nat)                      (* timer->func(timer->arg) *)
| CbCall (k : nat) (p : sender).

#[export] Instance sender_eq : EqDecision sender.
Proof. solve_decision. Defined.
#[export] Instance daemon_position_eq : EqDecision daemon_position.
Proof. solve_decision. Defined.

(** The kernel; the daemon; the tasks inside [pos_timer_start] and
    [pos_timer_stop]; and the timers whose functions have been called. *)
Record dconfig (D : Type) := mkDConfig {
  kernel : D;
  daemon : daemon_position;
  tasks : gmap tid sender;
  called : list nat
}.
Arguments mkDConfig {D} kernel daemon tasks called.
Arguments kernel {D} d.
Arguments daemon {D} d.
Arguments tasks {D} d.
Arguments called {D} d.

Inductive dmove :=
| Process                               (* the daemon takes a command *)
| Expires (k : nat)                     (* a timer expires, and the daemon calls pos_timer_cb *)
| DaemonRun                             (* the next statement of the callback *)
| DaemonCall (r : request)              (* the user's function calls the API *)
| TaskCall (t : tid) (r : request)
| TaskRun (t : tid)
| Interrupt (k : nat) (ticks : Z).      (* pos_timer_start in an interrupt handler *)

Section Daemon.
Context {D : Type} `{FrDaemon D}.

Abbreviation dcfg := (dconfig D).

(** A statement that sends a command goes on when there is room. *)
Definition run_sender (p : sender) (d : D) : option (option sender * D) :=
  let '(k, cmd) := sends p in
  d ← send_command k cmd d; Some (next_statement p, d).

Definition run_daemon (c : dcfg) : option dcfg :=
  match daemon c with
  | Loop => None
  | CbStop k =>
      '(_, d) ← run_sender (StopSend k) (kernel c);
      Some (mkDConfig d (CbFunc k) (tasks c) (called c ++ [k]))
  | CbFunc _ => Some (mkDConfig (kernel c) Loop (tasks c) (called c))
  | CbCall k p =>
      '(next, d) ← run_sender p (kernel c);
      Some (mkDConfig d (match next with Some p => CbCall k p | None => CbFunc k end) (tasks c) (called c))
  end.

(** The variants for interrupt handlers do not wait: a full queue drops the
    command. *)
Definition send_from_isr (k : nat) (cmd : command) (d : D) : D := default d (send_command k cmd d).

Definition start_from_isr (k : nat) (ticks : Z) (d : D) : D :=
  let ticks := if (ticks =? 0)%Z then 1%Z else ticks in
  send_from_isr k CmdReset (send_from_isr k (CmdChangePeriod ticks) (send_from_isr k CmdStop d)).

Definition with_kernel (d : D) (c : dcfg) : dcfg := mkDConfig d (daemon c) (tasks c) (called c).

Definition dexec (mv : dmove) (c : dcfg) : option dcfg :=
  match mv with
  | Process => match daemon c with Loop => d ← process (kernel c); Some (with_kernel d c) | _ => None end
  | Expires k =>
      match daemon c with
      | Loop => d ← expire k (kernel c); Some (mkDConfig d (CbStop k) (tasks c) (called c))
      | _ => None
      end
  | DaemonRun => run_daemon c
  | DaemonCall r =>
      match daemon c with
      | CbFunc k => Some (mkDConfig (kernel c) (CbCall k (enter r)) (tasks c) (called c))
      | _ => None
      end
  | TaskCall t r =>
      match tasks c !! t with
      | None => Some (mkDConfig (kernel c) (daemon c) (<[t := enter r]> (tasks c)) (called c))
      | Some _ => None
      end
  | TaskRun t =>
      p ← tasks c !! t;
      '(next, d) ← run_sender p (kernel c);
      Some (mkDConfig d (daemon c)
             (match next with Some p => <[t := p]> (tasks c) | None => delete t (tasks c) end) (called c))
  | Interrupt k ticks => Some (with_kernel (start_from_isr k ticks (kernel c)) c)
  end.

Fixpoint dexec_all (mvs : list dmove) (c : dcfg) : option dcfg :=
  match mvs with
  | [] => Some c
  | mv :: mvs => c ← dexec mv c; dexec_all mvs c
  end.

(** * What is left to send *)

Definition need (p : sender) : nat :=
  match p with StartStop _ _ => 3 | StartChange _ _ => 2 | StartReset _ | StopSend _ => 1 end.
Definition daemon_need (p : daemon_position) : nat :=
  match p with Loop | CbFunc _ => 0 | CbStop _ => 1 | CbCall _ p => need p end.

(** The free places of the queue. *)
Definition room (c : dcfg) : nat := configTIMER_QUEUE_LENGTH - length (pending (kernel c)).

(** No call is under way, and every command has been carried out. *)
Definition settled (c : dcfg) : Prop :=
  daemon c = Loop /\ tasks c = ∅ /\ pending (kernel c) = [].

(** What the threads that are inside a function of the port and the daemon do
    to finish, without new calls, expiries and interrupts. *)
Definition finishing (mv : dmove) : Prop :=
  match mv with Process | DaemonRun | TaskRun _ => True | _ => False end.

Definition left_to_do (c : dcfg) : nat :=
  2 * (daemon_need (daemon c) + msum need (tasks c)) + length (pending (kernel c)) +
  match daemon c with Loop => 0 | _ => 1 end.

Context `{!FrDaemonLaws D}.

Lemma dexec_all_app mvs1 mvs2 c c1 :
  dexec_all mvs1 c = Some c1 -> dexec_all (mvs1 ++ mvs2) c = dexec_all mvs2 c1.
Proof.
  revert c. induction mvs1 as [|mv mvs1 IH]; intros c; simpl; [by intros [= ->]|].
  destruct (dexec mv c) as [c2|]; simpl; [apply IH | done].
Qed.

Lemma run_sender_full p d :
  configTIMER_QUEUE_LENGTH <= length (pending d) -> run_sender p d = None.
Proof. intros Hf. unfold run_sender. destruct (sends p) as [k cmd]. by rewrite send_full. Qed.

Lemma run_sender_room p d :
  length (pending d) < configTIMER_QUEUE_LENGTH ->
  exists d', run_sender p d = Some (next_statement p, d') /\
    pending d' = pending d ++ [sends p] /\ forall j, running j d' = running j d.
Proof.
  intros Hr. unfold run_sender. destruct (sends p) as [k cmd].
  destruct (send_room k cmd d Hr) as (d' & -> & ?). by exists d'.
Qed.

(** A statement that was run sent its command. *)
Lemma run_sender_inv p d next d' :
  run_sender p d = Some (next, d') ->
  next = next_statement p /\ length (pending d) < configTIMER_QUEUE_LENGTH /\
  pending d' = pending d ++ [sends p] /\ (forall j, running j d' = running j d).
Proof.
  destruct (decide (configTIMER_QUEUE_LENGTH <= length (pending d))) as [Hf|Hr].
  - by rewrite run_sender_full.
  - destruct (run_sender_room p d) as (d1 & -> & ? & ?); [lia|]. intros [= <- <-]. by split_and!; [|lia| |].
Qed.

Lemma need_next p : need p = S (from_option need 0 (next_statement p)).
Proof. by destruct p. Qed.

Lemma send_from_isr_grows k cmd d :
  (exists l, pending (send_from_isr k cmd d) = pending d ++ l) /\
  forall j, running j (send_from_isr k cmd d) = running j d.
Proof.
  unfold send_from_isr.
  destruct (decide (configTIMER_QUEUE_LENGTH <= length (pending d))) as [Hf|Hr].
  - rewrite send_full by done. simpl. split; [|done]. exists []. by rewrite app_nil_r.
  - destruct (send_room k cmd d) as (d' & -> & Hp & ?); [lia|]. simpl. split; [by eexists|done].
Qed.

Lemma start_from_isr_grows k ticks d :
  (exists l, pending (start_from_isr k ticks d) = pending d ++ l) /\
  forall j, running j (start_from_isr k ticks d) = running j d.
Proof.
  unfold start_from_isr.
  destruct (send_from_isr_grows k CmdStop d) as [[l1 E1] R1].
  destruct (send_from_isr_grows k (CmdChangePeriod (if (ticks =? 0)%Z then 1%Z else ticks))
              (send_from_isr k CmdStop d)) as [[l2 E2] R2].
  destruct (send_from_isr_grows k CmdReset (send_from_isr k (CmdChangePeriod (if (ticks =? 0)%Z then 1%Z else ticks))
              (send_from_isr k CmdStop d))) as [[l3 E3] R3].
  split; [|intros j; by rewrite R3, R2, R1].
  exists (l1 ++ l2 ++ l3). by rewrite E3, E2, E1, <- !app_assoc.
Qed.

(** * The daemon that waits for itself *)

(** What every step keeps once the daemon has more to send than there is room:
    the queue only grows, nothing is carried out, and no function is called. *)
Definition stuck_with (c c' : dcfg) : Prop :=
  room c' < daemon_need (daemon c') /\ (exists l, pending (kernel c') = pending (kernel c) ++ l) /\
  (forall j, running j (kernel c') = running j (kernel c)) /\ called c' = called c.

Lemma stuck_with_trans c1 c2 c3 : stuck_with c1 c2 -> stuck_with c2 c3 -> stuck_with c1 c3.
Proof.
  intros (_ & [l1 E1] & R1 & C1) (Hr & [l2 E2] & R2 & C2). unfold stuck_with. split_and!.
  - done.
  - exists (l1 ++ l2). by rewrite E2, E1, app_assoc.
  - intros j. by rewrite R2.
  - by rewrite C2.
Qed.

(** The queue grew by [l]; the need of the daemon sank by no more than that. *)
Lemma stuck_with_intro c c' l :
  room c < daemon_need (daemon c) ->
  pending (kernel c') = pending (kernel c) ++ l ->
  (daemon c' = daemon c \/ daemon_need (daemon c) <= daemon_need (daemon c') + length l /\
     length (pending (kernel c)) + length l <= configTIMER_QUEUE_LENGTH) ->
  (forall j, running j (kernel c') = running j (kernel c)) -> called c' = called c ->
  stuck_with c c'.
Proof.
  intros Hn Hp Hd Hr Hc. unfold stuck_with. split_and!; [|by exists l|done|done].
  unfold room in *. rewrite Hp, length_app. destruct Hd as [->|[Hle Hlen]]; lia.
Qed.

Lemma stuck_step mv c c' :
  room c < daemon_need (daemon c) -> dexec mv c = Some c' -> stuck_with c c'.
Proof.
  intros Hn. pose proof queue_length_pos as Hpos.
  destruct mv as [|k| |r|t r|t|k ticks]; simpl.
  - destruct (daemon c); simpl in Hn; try done; lia.
  - destruct (daemon c); simpl in Hn; try done; lia.
  - unfold run_daemon. destruct (daemon c) as [|k|k|k p] eqn:Hd; simpl in Hn; try lia.
    + destruct (run_sender (StopSend k) (kernel c)) as [[next d]|] eqn:E; simpl; [|done].
      apply run_sender_inv in E as (_ & Hlt & _). unfold room in Hn. lia.
    + destruct (run_sender p (kernel c)) as [[next d]|] eqn:E; simpl; [|done].
      apply run_sender_inv in E as (-> & Hlt & Hp & Hr). intros [= <-].
      apply (stuck_with_intro _ _ [sends p]); simpl; try done; [by rewrite Hd|].
      right. rewrite Hd. simpl. rewrite need_next. destruct (next_statement p); simpl; lia.
  - destruct (daemon c); simpl in Hn; try done; lia.
  - destruct (tasks c !! t); [done|]. intros [= <-].
    apply (stuck_with_intro _ _ []); simpl; try done; [by rewrite app_nil_r | by left].
  - destruct (tasks c !! t) as [p|]; simpl; [|done].
    destruct (run_sender p (kernel c)) as [[next d]|] eqn:E; simpl; [|done].
    apply run_sender_inv in E as (_ & Hlt & Hp & Hr). intros [= <-].
    apply (stuck_with_intro _ _ [sends p]); simpl; try done. by left.
  - intros [= <-]. destruct (start_from_isr_grows k ticks (kernel c)) as [[l Hl] Hr].
    apply (stuck_with_intro _ _ l); simpl; try done. by left.
Qed.

Lemma stuck_for_ever mvs c c' :
  room c < daemon_need (daemon c) -> dexec_all mvs c = Some c' -> stuck_with c c'.
Proof.
  revert c. induction mvs as [|mv mvs IH]; intros c Hn; simpl.
  - intros [= <-]. apply (stuck_with_intro _ _ []); try done; [by rewrite app_nil_r | by left].
  - destruct (dexec mv c) as [c1|] eqn:E; simpl; [|done]. intros E'.
    pose proof (stuck_step mv c c1 Hn E) as Hs.
    apply (stuck_with_trans _ _ _ Hs), IH; [apply Hs | done].
Qed.

Lemma stuck_not_loop mvs c c' :
  room c < daemon_need (daemon c) -> dexec_all mvs c = Some c' -> daemon c' <> Loop /\ called c' = called c.
Proof.
  intros Hn E. destruct (stuck_for_ever mvs c c' Hn E) as (Hs & _ & _ & Hc). split; [|done].
  intros Hd. rewrite Hd in Hs. simpl in Hs. lia.
Qed.

(** * Otherwise everything can finish *)

(** The daemon runs a statement of its own. *)
Lemma daemon_progress c :
  daemon c <> Loop -> daemon_need (daemon c) <= room c ->
  exists c', dexec DaemonRun c = Some c' /\ daemon_need (daemon c') <= room c' /\ left_to_do c' < left_to_do c.
Proof.
  destruct c as [d p th l]. unfold room, left_to_do. simpl. intros Hp Hn.
  destruct p as [|k|k|k p]; simpl in *; [done| | |].
  - destruct (run_sender_room (StopSend k) d) as (d' & E & Hq & _); [lia|].
    unfold run_daemon. cbn [daemon kernel tasks called]. rewrite E. simpl. eexists.
    split; [reflexivity|]. simpl. rewrite Hq, length_app. simpl. lia.
  - unfold run_daemon. simpl. eexists. split; [reflexivity|]. simpl. lia.
  - rewrite need_next in *. destruct (run_sender_room p d) as (d' & E & Hq & _); [lia|].
    unfold run_daemon. cbn [daemon kernel tasks called]. rewrite E. simpl. eexists.
    split; [reflexivity|]. simpl. rewrite Hq, length_app.
    destruct (next_statement p); simpl in *; lia.
Qed.

Lemma task_progress c t p :
  daemon c = Loop -> pending (kernel c) = [] -> tasks c !! t = Some p ->
  exists c', dexec (TaskRun t) c = Some c' /\ daemon c' = Loop /\ left_to_do c' < left_to_do c.
Proof.
  intros Hd Hq Ht. pose proof queue_length_pos as Hpos.
  destruct (run_sender_room p (kernel c)) as (d' & E & Hq' & _); [by rewrite Hq|].
  simpl. rewrite Ht. simpl. rewrite E. simpl. eexists. split; [reflexivity|]. simpl.
  split; [done|]. unfold left_to_do. simpl. rewrite Hd, Hq', Hq. simpl.
  pose proof (need_next p) as Hp. destruct (next_statement p) as [p'|] eqn:En; simpl in Hp.
  - pose proof (msum_insert need t p' (tasks c)) as Hm. rewrite Ht in Hm. simpl in Hm. lia.
  - pose proof (msum_delete need t (tasks c)) as Hm. rewrite Ht in Hm. simpl in Hm. lia.
Qed.

Lemma finish_step c :
  daemon_need (daemon c) <= room c -> ~ settled c ->
  exists mv c', finishing mv /\ dexec mv c = Some c' /\
    daemon_need (daemon c') <= room c' /\ left_to_do c' < left_to_do c.
Proof.
  intros Hn Hs. destruct (decide (daemon c = Loop)) as [Hd|Hd].
  2:{ destruct (daemon_progress c Hd Hn) as (c' & ?). by exists DaemonRun, c'. }
  destruct (pending (kernel c)) as [|[k cmd] l] eqn:Hq.
  - destruct (map_choose (tasks c)) as (t & p & Ht); [by intros ?; apply Hs|].
    destruct (task_progress c t p Hd Hq Ht) as (c' & ? & Hd' & ?).
    exists (TaskRun t), c'. split_and!; try done. rewrite Hd'. simpl. lia.
  - destruct (process_some k cmd l _ Hq) as (d & E & Hp & _).
    exists Process, (with_kernel d c). simpl. rewrite Hd, E. split_and!; try done.
    + simpl. lia.
    + unfold left_to_do. simpl. rewrite Hd, Hp, Hq. simpl. lia.
Qed.

Lemma can_finish c :
  daemon_need (daemon c) <= room c ->
  exists mvs c', Forall finishing mvs /\ dexec_all mvs c = Some c' /\ settled c'.
Proof.
  remember (left_to_do c) as n eqn:Hn. revert c Hn.
  induction n as [n IH] using lt_wf_ind; intros c -> Hr.
  destruct (decide (daemon c = Loop)) as [Hd|Hd], (decide (tasks c = ∅)) as [Ht|Ht],
    (decide (pending (kernel c) = [])) as [Hp|Hp];
    [exists [], c; by split_and!; [apply Forall_nil|..]|..];
    (destruct (finish_step c Hr) as (mv & c1 & Hmv & E & Hr1 & Hlt); [by intros (? & ? & ?)|];
     destruct (IH _ Hlt c1 eq_refl Hr1) as (mvs & c' & Hmvs & E' & Hc');
     exists (mv :: mvs), c'; split_and!; [by apply Forall_cons | simpl; by rewrite E | done]).
Qed.

(** * A callback that calls the API *)

(** The statements of the daemon in the functions that a callback calls, one
    after the other, and in the whole callback. *)
Definition callback_calls (rs : list request) : list dmove :=
  concat (map (fun r => DaemonCall r :: replicate (need (enter r)) DaemonRun) rs).
Definition callback_run (rs : list request) : list dmove :=
  DaemonRun :: callback_calls rs ++ [DaemonRun].
Definition calls_need (rs : list request) : nat := sum_list_with (fun r => need (enter r)) rs.

(** One statement of the daemon that sends, where there is room. *)
Lemma call_step c k p :
  daemon c = CbCall k p -> 0 < room c ->
  exists c', dexec DaemonRun c = Some c' /\ S (room c') = room c /\ called c' = called c /\
    daemon c' = match next_statement p with Some p => CbCall k p | None => CbFunc k end.
Proof.
  destruct c as [d q th l]. unfold room. simpl. intros -> Hr.
  destruct (run_sender_room p d) as (d' & E & Hq & _); [lia|].
  unfold run_daemon. cbn [daemon kernel tasks called]. rewrite E. simpl. eexists.
  split; [reflexivity|]. simpl. rewrite Hq, length_app. simpl. split_and!; [lia|done..].
Qed.

Lemma call_run n c k p :
  daemon c = CbCall k p -> need p = n -> n <= room c ->
  exists c', dexec_all (replicate n DaemonRun) c = Some c' /\
    daemon c' = CbFunc k /\ room c' + n = room c /\ called c' = called c.
Proof.
  revert c p. induction n as [|n IH]; intros c p Hd Hn Hr; rewrite need_next in Hn; [done|].
  destruct (call_step c k p Hd) as (c1 & E & Hr1 & Hc1 & Hd1); [lia|].
  cbn [replicate dexec_all]. rewrite E. cbn [mbind option_bind].
  destruct (next_statement p) as [p'|]; simpl in Hn.
  - destruct (IH c1 p' Hd1) as (c' & E' & ? & ? & ?); [lia..|].
    exists c'. split_and!; [done|done|lia|congruence].
  - assert (n = 0) as -> by lia. exists c1. split_and!; [done|done|lia|done].
Qed.

Lemma calls_run rs c k :
  daemon c = CbFunc k ->
  (calls_need rs <= room c -> exists c', dexec_all (callback_calls rs) c = Some c' /\
     daemon c' = CbFunc k /\ room c' + calls_need rs = room c /\ called c' = called c) /\
  (room c < calls_need rs -> exists mvs c', mvs `prefix_of` callback_calls rs /\
     dexec_all mvs c = Some c' /\ room c' < daemon_need (daemon c')).
Proof.
  revert c. induction rs as [|r rs IH]; intros c Hd.
  - split; [|intros Hlt; simpl in Hlt; lia]. intros _. exists c. unfold calls_need. simpl. split_and!; [done|done|lia|done].
  - set (c0 := mkDConfig (kernel c) (CbCall k (enter r)) (tasks c) (called c)).
    assert (dexec (DaemonCall r) c = Some c0) as E0 by (simpl; by rewrite Hd).
    unfold callback_calls, calls_need in *. cbn [map concat sum_list_with].
    destruct (decide (need (enter r) <= room c)) as [Hle|Hlt].
    + destruct (call_run _ c0 k (enter r) eq_refl eq_refl Hle) as (c1 & E1 & Hd1 & Hr1 & Hc1).
      change (room c0) with (room c) in Hr1. change (called c0) with (called c) in Hc1.
      assert (dexec_all (DaemonCall r :: replicate (need (enter r)) DaemonRun) c = Some c1) as E
        by (cbn [dexec_all]; by rewrite E0).
      destruct (IH c1 Hd1) as [IHle IHlt]. split.
      * intros Hle'. destruct IHle as (c' & E' & ? & ? & ?); [lia|]. exists c'.
        rewrite (dexec_all_app _ _ _ _ E). split_and!; [done|done|lia|congruence].
      * intros Hlt'. destruct IHlt as (mvs & c' & Hpre & E' & ?); [lia|].
        exists ((DaemonCall r :: replicate (need (enter r)) DaemonRun) ++ mvs), c'.
        rewrite (dexec_all_app _ _ _ _ E). split_and!; [by apply prefix_app|done|done].
    + split; [lia|]. intros _. exists [DaemonCall r], c0. cbn [dexec_all]. rewrite E0. split_and!; [|done|].
      * by apply prefix_cons, prefix_nil.
      * change (room c < need (enter r)). lia.
Qed.

(** * Which command comes last *)

(** Whether a timer runs after the commands of a queue. *)
Fixpoint runs_after (k : nat) (l : list (nat * command)) (now : bool) : bool :=
  match l with
  | [] => now
  | (j, cmd) :: l => runs_after k l (if decide (k = j) then starts cmd else now)
  end.

Lemma runs_after_app k l1 l2 now : runs_after k (l1 ++ l2) now = runs_after k l2 (runs_after k l1 now).
Proof. revert now. by induction l1 as [|[j cmd] l1 IH]; intros now; simpl. Qed.

(** The daemon carries out the commands of the queue in their order. *)
Lemma process_all c n :
  daemon c = Loop -> length (pending (kernel c)) = n ->
  exists c', dexec_all (replicate n Process) c = Some c' /\
    daemon c' = Loop /\ pending (kernel c') = [] /\ tasks c' = tasks c /\ called c' = called c /\
    forall k, running k (kernel c') = runs_after k (pending (kernel c)) (running k (kernel c)).
Proof.
  revert c. induction n as [|n IH]; intros c Hd Hn.
  - apply nil_length_inv in Hn. exists c. rewrite Hn. by split_and!.
  - destruct (pending (kernel c)) as [|[j cmd] l] eqn:Hq; [done|]. simpl in Hn.
    destruct (process_some j cmd l _ Hq) as (d & E & Hp & Hr).
    destruct (IH (with_kernel d c)) as (c' & E' & ? & ? & ? & ? & Hk); [done|simpl; rewrite Hp; lia|].
    exists c'. cbn [replicate dexec_all dexec]. rewrite Hd, E. cbn [mbind option_bind]. split_and!; try done.
    intros k. rewrite Hk. simpl. by rewrite Hp, Hr.
Qed.

(** What a call still sends. *)
Definition all_sends (p : sender) : list (nat * command) :=
  match p with
  | StartStop k ticks => [(k, CmdStop); (k, CmdChangePeriod ticks); (k, CmdReset)]
  | StartChange k ticks => [(k, CmdChangePeriod ticks); (k, CmdReset)]
  | StartReset k => [(k, CmdReset)]
  | StopSend k => [(k, CmdStop)]
  end.

Lemma all_sends_next p : all_sends p = sends p :: from_option all_sends [] (next_statement p).
Proof. by destruct p. Qed.

(** A call of a task that finds room, with nothing in between. *)
Lemma task_run n c t p :
  tasks c !! t = Some p -> need p = n -> n <= room c ->
  exists c', dexec_all (replicate n (TaskRun t)) c = Some c' /\ daemon c' = daemon c /\
    tasks c' = delete t (tasks c) /\ called c' = called c /\
    pending (kernel c') = pending (kernel c) ++ all_sends p /\
    forall j, running j (kernel c') = running j (kernel c).
Proof.
  revert c p. induction n as [|n IH]; intros c p Ht Hn Hr; rewrite need_next in Hn; [done|].
  unfold room in Hr. destruct (run_sender_room p (kernel c)) as (d & E & Hp & Hrun); [lia|].
  rewrite all_sends_next. cbn [replicate dexec_all dexec]. rewrite Ht. cbn [mbind option_bind].
  rewrite E. cbn [mbind option_bind]. destruct (next_statement p) as [p'|]; simpl in Hn.
  - destruct (IH (mkDConfig d (daemon c) (<[t := p']> (tasks c)) (called c)) p') as (c' & E' & Hd' & Ht' & Hc' & Hp' & Hr').
    + by apply lookup_insert_eq.
    + lia.
    + unfold room. simpl. rewrite Hp, length_app. simpl. lia.
    + exists c'. simpl in Ht', Hp', Hr'. split_and!; [done|done| |done| |].
      * by rewrite Ht', delete_insert_eq.
      * by rewrite Hp', Hp, <- app_assoc.
      * intros j. by rewrite Hr', Hrun.
  - assert (n = 0) as -> by lia. eexists. split; [reflexivity|]. simpl. by split_and!.
Qed.

(** A start by a task, and the stop of a callback. *)
Lemma task_start_run c t k ticks :
  tasks c !! t = None -> 3 <= room c ->
  exists c', dexec_all (TaskCall t (RequestStart k ticks) :: replicate 3 (TaskRun t)) c = Some c' /\
    daemon c' = daemon c /\ tasks c' = tasks c /\
    pending (kernel c') = pending (kernel c) ++ all_sends (enter (RequestStart k ticks)) /\
    room c' + 3 = room c.
Proof.
  intros Ht Hr. cbn [dexec_all dexec]. rewrite Ht. cbn [mbind option_bind].
  destruct (task_run 3 (mkDConfig (kernel c) (daemon c) (<[t := enter (RequestStart k ticks)]> (tasks c)) (called c))
              t (enter (RequestStart k ticks))) as (c' & E & Hd & Ht' & _ & Hp & _);
    [apply lookup_insert_eq|done|done|].
  exists c'. rewrite E, Ht'. cbn [tasks]. rewrite delete_insert_eq, delete_id by done.
  split_and!; [done|done|done|done|]. unfold room in *. rewrite Hp, length_app. simpl. lia.
Qed.

Lemma callback_stop c k :
  daemon c = CbStop k -> 0 < room c ->
  exists c', dexec DaemonRun c = Some c' /\ daemon c' = CbFunc k /\ tasks c' = tasks c /\
    called c' = called c ++ [k] /\ pending (kernel c') = pending (kernel c) ++ [(k, CmdStop)] /\
    S (room c') = room c.
Proof.
  destruct c as [d q th l]. unfold room. simpl. intros -> Hr.
  destruct (run_sender_room (StopSend k) d) as (d' & E & Hq & _); [lia|].
  unfold run_daemon. cbn [daemon kernel tasks called]. rewrite E. simpl. eexists.
  split; [reflexivity|]. simpl. rewrite Hq, length_app. simpl. split_and!; [done..|lia].
Qed.

(** ** The functions of FreeRtosTimer *)

(** The calls that FreeRtosTimer makes on the kernel's timer [k], when there is
    room for a command that waits, are those that send to the queue. *)
Section Functions.
Context {CB P : Type} `{FrTimers D}.
Variables (ndebug : bool) (woken1 woken2 woken3 : Z) (k : nat).
Hypothesis stop_sends : forall d d', send_command k CmdStop d = Some d' -> xTimerStop portMAX_DELAY d = (pdPASS, d').
Hypothesis change_sends : forall p d d', send_command k (CmdChangePeriod p) d = Some d' ->
  xTimerChangePeriod p portMAX_DELAY d = (pdPASS, d').
Hypothesis reset_sends : forall d d', send_command k CmdReset d = Some d' -> xTimerReset portMAX_DELAY d = (pdPASS, d').
Hypothesis stop_isr_sends : forall w d, (xTimerStopFromISR w d).2 = send_from_isr k CmdStop d.
Hypothesis change_isr_sends : forall p w d, (xTimerChangePeriodFromISR p w d).2 = send_from_isr k (CmdChangePeriod p) d.
Hypothesis reset_isr_sends : forall w d, (xTimerResetFromISR w d).2 = send_from_isr k CmdReset d.

(** A start or a stop by a task that finds room, with nothing in between. *)
Lemma start_is_task_run c t ticks cb a :
  (0 <= ticks)%Z -> tasks c !! t = None -> 3 <= room c ->
  exists c', dexec_all (TaskCall t (RequestStart k ticks) :: replicate 3 (TaskRun t)) c = Some c' /\
    pos_timer_start (CB := CB) (P := P) false woken1 woken2 woken3 ticks (mkPosTimer (Some (kernel c)) cb a) =
      Ret (POS_OK, mkPosTimer (Some (kernel c')) cb a, false).
Proof.
  intros Hpos Ht Hr. unfold pos_timer_start. rewrite (proj2 (Z.ltb_ge ticks 0)) by done. cbn [deref of_option obind handle].
  cbn [dexec_all dexec replicate]. rewrite Ht. cbn [mbind option_bind enter tasks].
  set (n := if (ticks =? 0)%Z then 1%Z else ticks). unfold room in Hr.
  destruct (send_room k CmdStop (kernel c)) as (d1 & E1 & P1 & _); [lia|].
  destruct (send_room k (CmdChangePeriod n) d1) as (d2 & E2 & P2 & _); [rewrite P1, length_app; simpl; lia|].
  destruct (send_room k CmdReset d2) as (d3 & E3 & P3 & _); [rewrite P2, P1, !length_app; simpl; lia|].
  rewrite (stop_sends _ _ E1), (change_sends _ _ _ E2), (reset_sends _ _ E3).
  repeat (rewrite lookup_insert_eq; simpl; unfold run_sender; simpl; rewrite ?E1, ?E2, ?E3; simpl).
  eexists. split; reflexivity.
Qed.

(** A start in an interrupt handler, with room or without. *)
Lemma start_is_interrupt c ticks cb a :
  (0 <= ticks)%Z ->
  exists yield, dexec (Interrupt k ticks) c = Some (with_kernel (start_from_isr k ticks (kernel c)) c) /\
    pos_timer_start (CB := CB) (P := P) true woken1 woken2 woken3 ticks (mkPosTimer (Some (kernel c)) cb a) =
      Ret (POS_OK, mkPosTimer (Some (start_from_isr k ticks (kernel c))) cb a, yield).
Proof.
  intros Hpos. unfold pos_timer_start, start_from_isr. rewrite (proj2 (Z.ltb_ge ticks 0)) by done.
  cbn [deref of_option obind handle]. set (n := if (ticks =? 0)%Z then 1%Z else ticks).
  pose proof (stop_isr_sends woken1 (kernel c)) as E1.
  destruct (xTimerStopFromISR woken1 (kernel c)) as [[r1 w1] d1]. simpl in E1. subst d1.
  pose proof (change_isr_sends n woken2 (send_from_isr k CmdStop (kernel c))) as E2.
  destruct (xTimerChangePeriodFromISR n woken2 _) as [[r2 w2] d2]. simpl in E2. subst d2.
  pose proof (reset_isr_sends woken3 (send_from_isr k (CmdChangePeriod n) (send_from_isr k CmdStop (kernel c)))) as E3.
  destruct (xTimerResetFromISR woken3 _) as [[r3 w3] d3]. simpl in E3. subst d3.
  eexists. split; reflexivity.
Qed.

(** The callback of a timer, up to the function that it calls. *)
Lemma callback_is_daemon_run c cb a :
  daemon c = CbStop k -> 0 < room c ->
  exists c', dexec DaemonRun c = Some c' /\ daemon c' = CbFunc k /\
    pos_timer_cb (CB := CB) (P := P) ndebug (Some (mkPosTimer (Some (kernel c)) cb a)) =
      Ret (mkPosTimer (Some (kernel c')) cb a, (cb, a)).
Proof.
  intros Hd Hr. unfold room in Hr. destruct (send_room k CmdStop (kernel c)) as (d & E & _); [lia|].
  simpl. unfold run_daemon. rewrite Hd. unfold run_sender. cbn [sends]. rewrite E. cbn [mbind option_bind].
  eexists. split; [reflexivity|]. split; [done|]. unfold pos_timer_cb, pos_timer_stop.
  repeat (rewrite c_assert_true; simpl). by rewrite (stop_sends _ _ E).
Qed.
End Functions.

(** * Properties *)

(** C35. From any configuration of the daemon, its queue and the tasks: if the daemon
    is in a callback and has more commands to send, for the function of the port
    it is in, than the queue has places, then it never gets back to its loop,
    whatever tasks and interrupt handlers do; no command is carried out any
    more, and no timer's function is called. Otherwise the threads that are
    inside can finish: every call returns and every command is carried out. *)
Theorem timer_daemon_deadlock (c : dcfg) :
  (room c < daemon_need (daemon c) -> forall mvs c', dexec_all mvs c = Some c' ->
     daemon c' <> Loop /\ called c' = called c /\
     (forall j, running j (kernel c') = running j (kernel c)) /\
     pending (kernel c) `prefix_of` pending (kernel c')) /\
  (daemon_need (daemon c) <= room c -> exists mvs c',
     Forall finishing mvs /\ dexec_all mvs c = Some c' /\ settled c').
Proof.
  split; [|apply can_finish]. intros Hn mvs c' E.
  destruct (stuck_not_loop mvs c c' Hn E), (stuck_for_ever mvs c c' Hn E) as (_ & Hl & ? & _). by split_and!.
Qed.

(** C38. A callback of a timer whose function makes the calls [rs], run by the daemon
    without anyone else: with its own stop it sends one command for a stop and
    three for a start, and it comes to its end exactly when they all find room in
    the queue, which nobody empties meanwhile; otherwise it waits for itself from
    some statement on, and the timers stand still for ever. *)
Theorem timer_callback_calls (c : dcfg) k rs :
  daemon c = CbStop k ->
  (1 + calls_need rs <= room c -> exists c', dexec_all (callback_run rs) c = Some c' /\
     daemon c' = Loop /\ called c' = called c ++ [k] /\ room c' + 1 + calls_need rs = room c) /\
  (room c < 1 + calls_need rs -> exists mvs c1,
     mvs `prefix_of` callback_run rs /\ dexec_all mvs c = Some c1 /\
     forall mvs' c', dexec_all mvs' c1 = Some c' -> daemon c' <> Loop /\ called c' = called c1).
Proof.
  intros Hd. destruct (decide (0 < room c)) as [Hr|Hr].
  2:{ split; [lia|]. intros _. exists [], c. split_and!; [apply prefix_nil|done|].
      intros mvs' c'. apply stuck_not_loop. rewrite Hd. simpl. lia. }
  destruct (callback_stop c k Hd) as (c1 & E1 & Hd1 & _ & Hc1 & _ & Hr1); [lia|].
  destruct (calls_run rs c1 k Hd1) as [Hle Hlt]. unfold callback_run. split.
  - intros Hn. destruct Hle as (c2 & E2 & Hd2 & Hr2 & Hc2); [lia|].
    exists (mkDConfig (kernel c2) Loop (tasks c2) (called c2)). cbn [dexec_all]. rewrite E1. cbn [mbind option_bind].
    rewrite (dexec_all_app _ _ _ _ E2). cbn [dexec_all dexec]. unfold run_daemon. rewrite Hd2.
    split_and!; [done|done|simpl; congruence|unfold room in *; simpl; lia].
  - intros Hn. destruct Hlt as (mvs & c2 & Hpre & E2 & Hs2); [lia|].
    exists (DaemonRun :: mvs), c2. split_and!.
    + apply prefix_cons. by apply prefix_app_r.
    + cbn [dexec_all]. by rewrite E1.
    + intros mvs' c'. by apply stuck_not_loop.
Qed.

(** A task starts a timer whose callback the daemon has entered. If the three
    commands of the start come before the callback's stop, the start is lost:
    the call returns, the daemon carries out everything, and the timer does not
    run. If they come after it, the timer runs. *)
Theorem timer_restart_lost (c : dcfg) t k ticks :
  daemon c = CbStop k -> tasks c !! t = None -> 4 <= room c ->
  let start := TaskCall t (RequestStart k ticks) :: replicate 3 (TaskRun t) in
  let settle := replicate (length (pending (kernel c)) + 4) Process in
  (exists c', dexec_all (start ++ [DaemonRun; DaemonRun] ++ settle) c = Some c' /\
     tasks c' = tasks c /\ pending (kernel c') = [] /\ running k (kernel c') = false) /\
  (exists c', dexec_all ([DaemonRun] ++ start ++ [DaemonRun] ++ settle) c = Some c' /\
     tasks c' = tasks c /\ pending (kernel c') = [] /\ running k (kernel c') = true).
Proof.
  intros Hd Ht Hr start settle. split.
  - destruct (task_start_run c t k ticks Ht) as (c1 & E1 & Hd1 & Ht1 & Hp1 & Hr1); [lia|].
    destruct (callback_stop c1 k) as (c2 & E2 & Hd2 & Ht2 & _ & Hp2 & _); [congruence|lia|].
    set (c3 := mkDConfig (kernel c2) Loop (tasks c2) (called c2)).
    destruct (process_all c3 (length (pending (kernel c)) + 4) eq_refl) as (c4 & E4 & _ & Hp4 & Ht4 & _ & Hr4).
    { simpl. rewrite Hp2, Hp1, !length_app. simpl. lia. }
    exists c4. split_and!; [|rewrite Ht4; simpl; congruence|done|].
    + rewrite (dexec_all_app start _ _ _ E1). cbn [app dexec_all]. rewrite E2.
      cbn [mbind option_bind dexec]. unfold run_daemon. rewrite Hd2. exact E4.
    + rewrite Hr4. simpl. rewrite Hp2, Hp1, !runs_after_app. simpl. by rewrite decide_True.
  - destruct (callback_stop c k Hd) as (c1 & E1 & Hd1 & Ht1 & _ & Hp1 & Hr1); [lia|].
    destruct (task_start_run c1 t k ticks) as (c2 & E2 & Hd2 & Ht2 & Hp2 & _); [congruence|lia|].
    set (c3 := mkDConfig (kernel c2) Loop (tasks c2) (called c2)).
    destruct (process_all c3 (length (pending (kernel c)) + 4) eq_refl) as (c4 & E4 & _ & Hp4 & Ht4 & _ & Hr4).
    { simpl. rewrite Hp2, Hp1, !length_app. simpl. lia. }
    exists c4. split_and!; [|rewrite Ht4; simpl; congruence|done|].
    + rewrite (dexec_all_app [DaemonRun] _ c c1) by (cbn [dexec_all]; by rewrite E1).
      rewrite (dexec_all_app start _ _ _ E2). cbn [app dexec_all dexec]. unfold run_daemon.
      rewrite Hd2, Hd1. exact E4.
    + rewrite Hr4. simpl. rewrite Hp2, Hp1, !runs_after_app. simpl. by rewrite decide_True.
Qed.
End Daemon.

(** * The theorems at work *)

(** The daemon's queue and the timers that run, with the queue length of
    config/posix/FreeRTOSConfig.h. *)
Record demo_kernel := mkDemoKernel { demo_pending : list (nat * command); demo_running : list nat }.

Definition demo_without (k : nat) (r : list nat) : list nat := filter (fun j => j <> k) r.
Definition demo_carry_out (k : nat) (cmd : command) (r : list nat) : list nat :=
  if starts cmd then k :: demo_without k r else demo_without k r.

#[local] Instance demo_daemon : FrDaemon demo_kernel := {
  configTIMER_QUEUE_LENGTH := 10;
  send_command k cmd d :=
    if length (demo_pending d) <? 10
    then Some (mkDemoKernel (demo_pending d ++ [(k, cmd)]) (demo_running d)) else None;
  process d :=
    match demo_pending d with
    | (k, cmd) :: l => Some (mkDemoKernel l (demo_carry_out k cmd (demo_running d)))
    | [] => None
    end;
  expire k d :=
    if decide (k ∈ demo_running d)
    then Some (mkDemoKernel (demo_pending d) (demo_without k (demo_running d))) else None;
  pending := demo_pending;
  running k d := bool_decide (k ∈ demo_running d)
}.

Lemma demo_without_spec j k r :
  bool_decide (j ∈ demo_without k r) = if decide (j = k) then false else bool_decide (j ∈ r).
Proof.
  unfold demo_without. destruct (decide (j = k)) as [->|Hj].
  - apply bool_decide_eq_false_2. rewrite list_elem_of_filter. by intros [? _].
  - apply bool_decide_ext. rewrite list_elem_of_filter. by intuition.
Qed.

#[local] Instance demo_daemon_laws : FrDaemonLaws demo_kernel.
Proof.
  split.
  - simpl. lia.
  - intros k cmd d Hl. apply Nat.ltb_ge in Hl. unfold send_command, configTIMER_QUEUE_LENGTH, pending, demo_daemon in *.
    by rewrite Hl.
  - intros k cmd d Hl. apply Nat.ltb_lt in Hl. unfold send_command, configTIMER_QUEUE_LENGTH, pending, demo_daemon in *.
    rewrite Hl. by eexists.
  - intros d Hp. simpl in *. by rewrite Hp.
  - intros k cmd l d Hp. simpl in *. rewrite Hp. eexists. split; [reflexivity|]. split; [done|].
    intros j. simpl. unfold demo_carry_out. destruct (starts cmd); [|by apply demo_without_spec].
    destruct (decide (j = k)) as [->|Hj]; [by apply bool_decide_eq_true_2, list_elem_of_here|].
    rewrite (bool_decide_ext _ (j ∈ demo_without k (demo_running d))).
    + rewrite demo_without_spec. by rewrite decide_False.
    + rewrite elem_of_cons. by intuition.
  - intros k d Hr. simpl in *. apply bool_decide_eq_false_1 in Hr. by rewrite decide_False.
  - intros k d Hr. simpl in *. apply bool_decide_eq_true_1 in Hr. rewrite decide_True by done.
    eexists. split; [reflexivity|]. split; [done|]. intros j. apply demo_without_spec.
Qed.

Definition demo_idle : dconfig demo_kernel := mkDConfig (mkDemoKernel [] []) Loop ∅ [].

(** A task starts timer 1, the daemon takes the three commands, and the timer
    expires: the daemon is in its callback. *)
Definition demo_expired : list dmove :=
  [TaskCall 7 (RequestStart 1 100%Z); TaskRun 7; TaskRun 7; TaskRun 7; Process; Process; Process; Expires 1].
Definition demo_entered : dconfig demo_kernel := mkDConfig (mkDemoKernel [] []) (CbStop 1) ∅ [].

(** Now interrupt handlers start four timers, and leave no room for the stop. *)
Definition demo_full : dconfig demo_kernel :=
  mkDConfig (start_from_isr 5 5%Z (start_from_isr 4 5%Z (start_from_isr 3 5%Z (start_from_isr 2 5%Z
    (mkDemoKernel [] []))))) (CbStop 1) ∅ [].

Example timer_daemon_deadlock_witness :
  dexec_all (demo_expired ++ map (fun k => Interrupt k 5%Z) [2; 3; 4; 5]) demo_idle = Some demo_full /\
  forall mvs c', dexec_all mvs demo_full = Some c' -> daemon c' <> Loop /\ called c' = [].
Proof.
  split; [vm_compute; reflexivity|]. intros mvs c' E.
  destruct (timer_daemon_deadlock demo_full) as [Hd _].
  destruct (Hd ltac:(vm_compute; lia) mvs c' E) as (Hl & Hc & _). split; [exact Hl|exact Hc].
Defined.

(** A callback that starts three timers comes to its end; one that starts four
    does not, in a system where nothing else happens. *)
Definition demo_starts (ks : list nat) : list request := map (fun k => RequestStart k 5%Z) ks.

Example timer_callback_calls_witness :
  dexec_all demo_expired demo_idle = Some demo_entered /\
  (exists c', dexec_all (callback_run (demo_starts [2; 3; 4])) demo_entered = Some c' /\ daemon c' = Loop) /\
  (exists mvs c1, mvs `prefix_of` callback_run (demo_starts [2; 3; 4; 5]) /\
     dexec_all mvs demo_entered = Some c1 /\
     forall mvs' c', dexec_all mvs' c1 = Some c' -> daemon c' <> Loop).
Proof.
  split; [vm_compute; reflexivity|]. split.
  - destruct (timer_callback_calls demo_entered 1 (demo_starts [2; 3; 4]) eq_refl) as [Hok _].
    destruct (Hok ltac:(vm_compute; lia)) as (c' & E & Hd & _). exists c'. split; [exact E|exact Hd].
  - destruct (timer_callback_calls demo_entered 1 (demo_starts [2; 3; 4; 5]) eq_refl) as [_ Hno].
    destruct (Hno ltac:(vm_compute; lia)) as (mvs & c1 & Hpre & E & Hs).
    exists mvs, c1. split_and!; [exact Hpre|exact E|]. intros mvs' c' E'. apply (Hs mvs' c' E').
Defined.

Example timer_restart_lost_witness :
  exists c', dexec_all ((TaskCall 7 (RequestStart 1 100%Z) :: replicate 3 (TaskRun 7)) ++
      [DaemonRun; DaemonRun] ++ replicate 4 Process) demo_entered = Some c' /\
    tasks c' = ∅ /\ running 1 (kernel c') = false.
Proof.
  destruct (timer_restart_lost demo_entered 7 1 100%Z) as [(c' & E & Ht & _ & Hr) _];
    [reflexivity|reflexivity|vm_compute; lia|].
  exists c'. split_and!; [exact E|exact Ht|exact Hr].
Defined.
