(* ===== verification/FreeRtosTaskDispatch.v ===== *)
(** targets/freertos/os_task.c, statement by statement. A new task does not get
    its function and argument from the kernel: it starts in [pos_task_dispatch],
    which reads them from the caller's [struct pos_task]. Between the creation
    and this reading other tasks run, which may use the structure for another
    task, or end its lifetime: the destructor of OsTask does nothing. *)

From S2P Require Import Prelude OsTypes Pthread FreeRtos FreeRtosTimer.

(** The arguments of a [pos_task_init] that passed the test for null. *)
Record task_args (F X : Type) := mkArgs {
  args_name : list byte;
  args_func : F;
  args_arg : X;
  args_prio : Z;
  args_stack_size : Z
}.
Arguments mkArgs {F X} args_name args_func args_arg args_prio args_stack_size.
Arguments args_name {F X} t.
Arguments args_func {F X} t.
Arguments args_arg {F X} t.
Arguments args_prio {F X} t.
Arguments args_stack_size {F X} t.

(** Inside [pos_task_init], at the statement that comes next. *)
Inductive iposition := InitFunc         (* task->func = func *)
                     | InitArg          (* task->arg = arg *)
                     | InitCreate.      (* err = xTaskCreate(...) *)

(** Inside [pos_task_dispatch]: the task that was created, and what it called. *)
Inductive dispatch_position (F X : Type) :=
| DispatchCheck                         (* assert(task); assert(task->func) *)
| DispatchCall                          (* task->func(task->arg) *)
| Called (f : F) (a : X).
Arguments DispatchCheck {F X}.
Arguments DispatchCall {F X}.
Arguments Called {F X} f a.

(** A task of the kernel: the structure that it was given; where it is; and, for
    the statements below, the function and argument that it was created for. *)
Record new_task (F X : Type) := mkNewTask {
  structure : nat;
  place : dispatch_position F X;
  asked : F * X
}.
Arguments mkNewTask {F X} structure place asked.
Arguments structure {F X} n.
Arguments place {F X} n.
Arguments asked {F X} n.

(** The structures that exist; the tasks inside [pos_task_init], with the
    structure and the arguments; the tasks that were created; the kernel. *)
Record pconfig (H F X W : Type) := mkPConfig {
  structures : gmap nat (Task.pos_task H F X);
  creators : gmap tid (nat * task_args F X * iposition);
  created : list (new_task F X);
  fr_kernel : W
}.
Arguments mkPConfig {H F X W} structures creators created fr_kernel.
Arguments structures {H F X W} p.
Arguments creators {H F X W} p.
Arguments created {H F X W} p.
Arguments fr_kernel {H F X W} p.

Inductive pmove (F X : Type) :=
| CallInit (t : tid) (i : nat) (args : task_args F X)
| RunInit (t : tid)
| RunDispatch (n : nat)
| EndLife (i : nat).                    (* the structure ceases to exist *)
Arguments CallInit {F X} t i args.
Arguments RunInit {F X} t.
Arguments RunDispatch {F X} n.
Arguments EndLife {F X} i.

Section Dispatch.
Context {H F X W : Type} `{FrTasks H W}.
Variable ndebug : bool.

Abbreviation pcfg := (pconfig H F X W).

Definition with_structure (i : nat) (s : Task.pos_task H F X) (c : pcfg) : pcfg :=
  mkPConfig (<[i := s]> (structures c)) (creators c) (created c) (fr_kernel c).
Definition at_position (t : tid) (i : nat) (args : task_args F X) (p : iposition) (c : pcfg) : pcfg :=
  mkPConfig (structures c) (<[t := (i, args, p)]> (creators c)) (created c) (fr_kernel c).

(** The next statement of [pos_task_init] by [t], for the structure [i], which
    is [s]. *)
Definition run_init (t : tid) (i : nat) (s : Task.pos_task H F X) (args : task_args F X)
    (p : iposition) (c : pcfg) : pcfg :=
  match p with
  | InitFunc =>
      at_position t i args InitArg
        (with_structure i (Task.mkPosTask (Task.handle s) (Some (args_func args)) (Task.arg s)) c)
  | InitArg =>
      at_position t i args InitCreate
        (with_structure i (Task.mkPosTask (Task.handle s) (Task.func s) (args_arg args)) c)
  | InitCreate =>
      let '(err, h, w) :=
        xTaskCreate (args_name args) (args_stack_size args / sizeof_BaseType) (args_prio args) (fr_kernel c) in
      let s := Task.mkPosTask h (Task.func s) (Task.arg s) in
      mkPConfig (<[i := s]> (structures c)) (delete t (creators c))
        (if err =? pdPASS
         then created c ++ [mkNewTask i DispatchCheck (args_func args, args_arg args)] else created c) w
  end.

(** The next statement of [pos_task_dispatch] by the [n]-th task, [b]. *)
Definition run_dispatch (n : nat) (b : new_task F X) (c : pcfg) : option (outcome pcfg) :=
  let go p := mkPConfig (structures c) (creators c)
    (<[n := mkNewTask (structure b) p (asked b)]> (created c)) (fr_kernel c) in
  match place b with
  | DispatchCheck => Some
      (do s <- deref (structures c !! structure b);
       c_assert ndebug (match Task.func s with Some _ => true | None => false end);;
       Ret (go DispatchCall))
  | DispatchCall => Some
      (do s <- deref (structures c !! structure b);
       do f <- deref (Task.func s);
       Ret (go (Called f (Task.arg s))))
  | Called _ _ => None
  end.

Definition pexec (mv : pmove F X) (c : pcfg) : option (outcome pcfg) :=
  match mv with
  | CallInit t i args =>
      match creators c !! t, structures c !! i with
      | None, Some _ => Some (Ret (at_position t i args InitFunc c))
      | _, _ => None
      end
  | RunInit t =>
      match creators c !! t with
      | Some (i, args, p) =>
          match structures c !! i with
          | Some s => Some (Ret (run_init t i s args p c))
          | None => Some Undef
          end
      | None => None
      end
  | RunDispatch n =>
      match created c !! n with Some b => run_dispatch n b c | None => None end
  | EndLife i =>
      Some (Ret (mkPConfig (delete i (structures c)) (creators c) (created c) (fr_kernel c)))
  end.

Fixpoint pexec_all (mvs : list (pmove F X)) (c : pcfg) : option (outcome pcfg) :=
  match mvs with
  | [] => Some (Ret c)
  | mv :: mvs =>
      match pexec mv c with
      | Some (Ret c') => pexec_all mvs c'
      | r => r
      end
  end.

(** * One call alone *)

(** A creation and a dispatch with no other statement in between are the
    functions of FreeRtosTimer. *)
Lemma task_init_is_run c t i args s e s' w' :
  creators c !! t = None -> structures c !! i = Some s ->
  Task.pos_task_init (Some s) (args_name args) (Some (args_func args)) (args_arg args) (args_prio args)
    (args_stack_size args) (fr_kernel c) = (e, Some s', w') ->
  exists c', pexec_all (CallInit t i args :: replicate 3 (RunInit t)) c = Some (Ret c') /\
    structures c' = <[i := s']> (structures c) /\ creators c' = creators c /\ fr_kernel c' = w' /\
    created c' = created c ++
      if decide (e = POS_OK) then [mkNewTask i DispatchCheck (args_func args, args_arg args)] else [].
Proof.
  destruct c as [mem th l w]. simpl. intros Ht Hs.
  destruct (xTaskCreate (args_name args) (args_stack_size args / sizeof_BaseType) (args_prio args) w)
    as [[err h] w1] eqn:E. intros [= <- <- <-]. rewrite Ht, Hs. simpl.
  do 5 (rewrite ?lookup_insert_eq, ?Hs; simpl). rewrite E.
  eexists. split; [reflexivity|]. simpl.
  rewrite !insert_insert_eq, delete_insert_eq, delete_id by done. split_and!; try done.
  destruct (err =? pdPASS); simpl; [done|by rewrite app_nil_r].
Qed.

Lemma task_dispatch_is_run c n b f a :
  created c !! n = Some b -> place b = DispatchCheck ->
  Task.pos_task_dispatch ndebug (structures c !! structure b) = Ret (f, a) ->
  exists c', pexec_all [RunDispatch n; RunDispatch n] c = Some (Ret c') /\
    created c' = <[n := mkNewTask (structure b) (Called f a) (asked b)]> (created c).
Proof.
  destruct c as [mem th l w], b as [i p r]. simpl. intros Hn -> E. pose proof (lookup_lt_Some _ _ _ Hn) as Hlt.
  destruct (mem !! i) as [s|] eqn:Hs; [|unfold Task.pos_task_dispatch in E; by destruct ndebug].
  destruct (Task.func s) as [f'|] eqn:Hf.
  2:{ unfold Task.pos_task_dispatch in E. rewrite c_assert_true in E. simpl in E. rewrite Hf in E. by destruct ndebug. }
  unfold Task.pos_task_dispatch in E. rewrite c_assert_true in E. simpl in E. rewrite Hf, c_assert_true in E.
  simpl in E. injection E as <- <-. rewrite Hn. simpl. rewrite Hs. simpl. rewrite Hf, c_assert_true. simpl.
  rewrite list_lookup_insert_eq by done. simpl. rewrite Hs. simpl. rewrite Hf. simpl.
  eexists. split; [reflexivity|]. simpl. by rewrite list_insert_insert_eq.
Qed.

(** * When a structure may be used again *)

Definition has_called (b : new_task F X) : bool :=
  match place b with Called _ _ => true | _ => false end.

(** Nobody is creating a task with the structure, and the tasks created with it
    have read it. *)
Definition quiet (i : nat) (c : pcfg) : Prop :=
  (forall t args p, creators c !! t <> Some (i, args, p)) /\
  (forall b, b ∈ created c -> structure b = i -> has_called b = true).

Definition careful (mv : pmove F X) (c : pcfg) : Prop :=
  match mv with
  | CallInit _ i _ | EndLife i => quiet i c
  | RunInit _ | RunDispatch _ => True
  end.

Inductive preachable (c0 : pcfg) : pcfg -> Prop :=
| preach_init : preachable c0 c0
| preach_step c mv c' :
    preachable c0 c -> careful mv c -> pexec mv c = Some (Ret c') -> preachable c0 c'.

Definition pinit (mem : gmap nat (Task.pos_task H F X)) (w : W) : pcfg := mkPConfig mem ∅ [] w.

(** What [pos_task_init] has written before a statement. *)
Definition written (args : task_args F X) (p : iposition) (s : Task.pos_task H F X) : Prop :=
  match p with
  | InitFunc => True
  | InitArg => Task.func s = Some (args_func args)
  | InitCreate => Task.func s = Some (args_func args) /\ Task.arg s = args_arg args
  end.

Record pinv (w0 : W) (c : pcfg) : Prop := {
  pinv_creator : forall t i args p, creators c !! t = Some (i, args, p) ->
    exists s, structures c !! i = Some s /\ written args p s;
  pinv_alone : forall t1 t2 i a1 a2 p1 p2, creators c !! t1 = Some (i, a1, p1) ->
    creators c !! t2 = Some (i, a2, p2) -> t1 = t2;
  pinv_waiting : forall b, b ∈ created c -> has_called b = false ->
    (exists s, structures c !! structure b = Some s /\ Task.func s = Some (asked b).1 /\
       Task.arg s = (asked b).2) /\
    (forall t args p, creators c !! t <> Some (structure b, args, p));
  pinv_called : forall b f a, b ∈ created c -> place b = Called f a -> (f, a) = asked b;
  pinv_count : length (fr_spawned (fr_kernel c)) = (length (fr_spawned w0) + length (created c))%nat
}.

Context `{!FrTasksLaws H W}.

(** * Every step keeps the invariant *)

Lemma pinv_call_init w0 c t i args s :
  pinv w0 c -> creators c !! t = None -> structures c !! i = Some s -> quiet i c ->
  pinv w0 (at_position t i args InitFunc c).
Proof.
  intros Hi Ht Hs [Hnone Hread]. split; simpl; try apply Hi.
  - intros t' i' a' p' E. apply lookup_insert_Some in E as [[_ E]|[_ E]]; [|by apply (pinv_creator _ _ Hi t')].
    injection E as <- <- <-. by exists s.
  - intros t1 t2 i' a1 a2 p1 p2 E1 E2.
    apply lookup_insert_Some in E1 as [[<- E1]|[N1 E1]], E2 as [[<- E2]|[N2 E2]]; simplify_eq; try done.
    + by apply Hnone in E2.
    + by apply Hnone in E1.
    + by apply (pinv_alone _ _ Hi t1 t2 i' a1 a2 p1 p2).
  - intros b Hb Hw. destruct (pinv_waiting _ _ Hi b Hb Hw) as [Hsb Hcb]. split; [done|].
    intros t' a' p' E. apply lookup_insert_Some in E as [[_ E]|[_ E]]; [|by apply Hcb in E].
    injection E as E _ _. rewrite (Hread b Hb (eq_sym E)) in Hw. done.
Qed.

(** A write to the structure, whose new task, if any, has been created before. *)
Lemma pinv_write w0 c t i args p s p' s' :
  pinv w0 c -> creators c !! t = Some (i, args, p) -> structures c !! i = Some s -> written args p' s' ->
  pinv w0 (at_position t i args p' (with_structure i s' c)).
Proof.
  intros Hi Ht Hs Hw. split; simpl; try apply Hi.
  - intros t' i' a' q E. apply lookup_insert_Some in E as [[_ E]|[N E]].
    + injection E as <- <- <-. exists s'. by rewrite lookup_insert_eq.
    + rewrite lookup_insert_ne; [by apply (pinv_creator _ _ Hi t')|].
      intros ->. by apply N, (pinv_alone _ _ Hi t t' i' args a' p q).
  - intros t1 t2 i' a1 a2 p1 p2 E1 E2.
    apply lookup_insert_Some in E1 as [[<- E1]|[N1 E1]], E2 as [[<- E2]|[N2 E2]]; simplify_eq; try done.
    + by apply (pinv_alone _ _ Hi t t2 i' a1 a2 p p2).
    + by apply (pinv_alone _ _ Hi t1 t i' a1 a2 p1 p).
    + by apply (pinv_alone _ _ Hi t1 t2 i' a1 a2 p1 p2).
  - intros b Hb Hwb. destruct (pinv_waiting _ _ Hi b Hb Hwb) as [Hsb Hcb].
    assert (i <> structure b) as Hne by (intros ->; by apply Hcb in Ht).
    split; [by rewrite lookup_insert_ne|].
    intros t' a' q E. apply lookup_insert_Some in E as [[_ E]|[_ E]]; [by injection E as -> _ _|by apply Hcb in E].
Qed.

Lemma pinv_create w0 c t i args s :
  pinv w0 c -> creators c !! t = Some (i, args, InitCreate) -> structures c !! i = Some s ->
  pinv w0 (run_init t i s args InitCreate c).
Proof.
  intros Hi Ht Hs. destruct (pinv_creator _ _ Hi t i args _ Ht) as (s1 & E1 & Hf & Ha). simplify_eq.
  unfold run_init.
  destruct (xTaskCreate (args_name args) (args_stack_size args / sizeof_BaseType) (args_prio args) (fr_kernel c))
    as [[err h] w'] eqn:E.
  assert (forall b, b ∈ created c -> has_called b = false -> structure b <> i) as Hold.
  { intros b Hb Hw Eb. subst i. by apply (pinv_waiting _ _ Hi b Hb Hw) in Ht. }
  assert (forall b, b ∈ (if err =? pdPASS then created c ++ [mkNewTask i DispatchCheck (args_func args, args_arg args)]
                         else created c) ->
            b ∈ created c \/ b = mkNewTask i DispatchCheck (args_func args, args_arg args)) as Hborn.
  { intros b. destruct (err =? pdPASS); [rewrite elem_of_app, list_elem_of_singleton; tauto|tauto]. }
  split; simpl.
  - intros t' i' a' p' E'. apply lookup_delete_Some in E' as [N E'].
    rewrite lookup_insert_ne; [by apply (pinv_creator _ _ Hi t')|].
    intros ->. by apply N, (pinv_alone _ _ Hi t t' i' args a' InitCreate p').
  - intros t1 t2 i' a1 a2 p1 p2 E1' E2'. apply lookup_delete_Some in E1' as [_ E1'], E2' as [_ E2'].
    by apply (pinv_alone _ _ Hi t1 t2 i' a1 a2 p1 p2).
  - intros b Hb Hw. destruct (Hborn b Hb) as [Hb'| ->].
    + destruct (pinv_waiting _ _ Hi b Hb' Hw) as [Hsb Hcb]. split.
      * rewrite lookup_insert_ne; [done|]. intros Eb. by apply (Hold b Hb' Hw).
      * intros t' a' p' E'. apply lookup_delete_Some in E' as [_ E']. by apply Hcb in E'.
    + split; [simpl; rewrite lookup_insert_eq; by eexists|]. simpl.
      intros t' a' p' E'. apply lookup_delete_Some in E' as [N E'].
      by apply N, (pinv_alone _ _ Hi t t' i args a' InitCreate p').
  - intros b f a Hb. destruct (Hborn b Hb) as [Hb'| ->]; [by apply (pinv_called _ _ Hi)|done].
  - destruct (fr_task_create _ _ _ _ _ _ _ E) as [(-> & _ & Hsp)|[Hne ->]].
    + simpl. rewrite Hsp, !length_app. pose proof (pinv_count _ _ Hi). simpl. lia.
    + rewrite (proj2 (Z.eqb_neq _ _)) by done. apply Hi.
Qed.

Lemma has_called_false (b : new_task F X) : has_called b = false <-> forall f a, place b <> Called f a.
Proof. unfold has_called. destruct (place b) as [| |f a]; split; try done. intros Hn. by specialize (Hn f a). Qed.

(** The statements of a task that has not read the structure yet are defined,
    and read what the task was created for. *)
Lemma run_dispatch_inv w0 c n b :
  pinv w0 c -> created c !! n = Some b -> has_called b = false ->
  exists p, run_dispatch n b c = Some (Ret (mkPConfig (structures c) (creators c)
      (<[n := mkNewTask (structure b) p (asked b)]> (created c)) (fr_kernel c))) /\
    forall f a, p = Called f a -> (f, a) = asked b.
Proof.
  intros Hi Hn Hw. pose proof (list_elem_of_lookup_2 _ _ _ Hn) as Hb.
  destruct (pinv_waiting _ _ Hi b Hb Hw) as [(s & Hs & Hf & Ha) _].
  unfold run_dispatch. rewrite has_called_false in Hw. destruct (place b) as [| |f a]; [| |by destruct (Hw f a)].
  - rewrite Hs. simpl. rewrite Hf, c_assert_true. simpl. by exists DispatchCall.
  - rewrite Hs. simpl. rewrite Hf. simpl. eexists. split; [reflexivity|]. intros f a [= <- <-].
    rewrite Ha. by destruct (asked b).
Qed.

Lemma pinv_dispatch w0 c n b p :
  pinv w0 c -> created c !! n = Some b -> has_called b = false ->
  (forall f a, p = Called f a -> (f, a) = asked b) ->
  pinv w0 (mkPConfig (structures c) (creators c)
    (<[n := mkNewTask (structure b) p (asked b)]> (created c)) (fr_kernel c)).
Proof.
  intros Hi Hn Hw Hp. pose proof (list_elem_of_lookup_2 _ _ _ Hn) as Hb.
  assert (forall b', b' ∈ <[n := mkNewTask (structure b) p (asked b)]> (created c) ->
            b' ∈ created c \/ b' = mkNewTask (structure b) p (asked b)) as Hmem.
  { intros b' Hb'. apply list_elem_of_lookup in Hb' as [m Hm].
    destruct (decide (m = n)) as [->|Hne].
    - rewrite list_lookup_insert_eq in Hm by (by apply lookup_lt_Some in Hn). right. by injection Hm.
    - rewrite list_lookup_insert_ne in Hm by done. left. by apply (list_elem_of_lookup_2 _ m). }
  split; simpl; try apply Hi.
  - intros b' Hb' Hw'. destruct (Hmem b' Hb') as [?| ->]; [by apply Hi|]. simpl. by apply (pinv_waiting _ _ Hi b).
  - intros b' f a Hb' Hc. destruct (Hmem b' Hb') as [?| ->]; [by apply (pinv_called _ _ Hi)|]. by apply Hp.
  - rewrite length_insert. apply Hi.
Qed.

Lemma pinv_end_life w0 c i :
  pinv w0 c -> quiet i c ->
  pinv w0 (mkPConfig (delete i (structures c)) (creators c) (created c) (fr_kernel c)).
Proof.
  intros Hi [Hnone Hread]. split; simpl; try apply Hi.
  - intros t i' a p E. rewrite lookup_delete_ne; [by apply (pinv_creator _ _ Hi t)|].
    intros ->. by apply Hnone in E.
  - intros b Hb Hw. rewrite lookup_delete_ne; [by apply (pinv_waiting _ _ Hi b)|].
    intros Eb. rewrite (Hread b Hb (eq_sym Eb)) in Hw. done.
Qed.

Lemma pinv_step w0 mv c c' :
  pinv w0 c -> careful mv c -> pexec mv c = Some (Ret c') -> pinv w0 c'.
Proof.
  intros Hi Hmv. destruct mv as [t i args|t|n|i]; simpl.
  - destruct (creators c !! t) eqn:Ht; [done|]. destruct (structures c !! i) as [s|] eqn:Hs; [|done].
    intros [= <-]. by apply (pinv_call_init _ _ _ _ _ s).
  - destruct (creators c !! t) as [[[i args] p]|] eqn:Ht; [|done].
    destruct (structures c !! i) as [s|] eqn:Hs; [|done]. intros [= <-].
    destruct (pinv_creator _ _ Hi t i args p Ht) as (s1 & E1 & Hw). simplify_eq.
    destruct p; [|simpl in Hw|by apply pinv_create].
    + by apply (pinv_write w0 c t i args InitFunc s).
    + by apply (pinv_write w0 c t i args InitArg s).
  - destruct (created c !! n) as [b|] eqn:Hn; [|done]. destruct (has_called b) eqn:Hw.
    + unfold run_dispatch, has_called in *. by destruct (place b).
    + destruct (run_dispatch_inv w0 c n b Hi Hn Hw) as (p & -> & Hp). intros [= <-].
      by apply pinv_dispatch.
  - intros [= <-]. by apply pinv_end_life.
Qed.

Lemma preachable_pinv mem w c : preachable (pinit mem w) c -> pinv w c.
Proof.
  induction 1 as [|c mv c' _ IH Hmv E]; [|by apply (pinv_step w mv c)].
  split; simpl.
  - intros t i args p E. by rewrite lookup_empty in E.
  - intros t1 t2 i a1 a2 p1 p2 E. by rewrite lookup_empty in E.
  - intros b Hb. by apply elem_of_nil in Hb.
  - intros b f a Hb. by apply elem_of_nil in Hb.
  - lia.
Qed.

(** * Properties *)

(** C22. As long as a structure is not used again, and not destroyed, before the task
    created with it has read it, in every interleaving of the statements of
    creations and dispatches: there are as many tasks as the kernel has started,
    each task calls the function that it was created for with its argument, and
    no statement of a dispatch fails or is undefined. *)
Theorem task_dispatch_faithful mem w c :
  preachable (pinit mem w) c ->
  length (fr_spawned (fr_kernel c)) = (length (fr_spawned w) + length (created c))%nat /\
  (forall n b f a, created c !! n = Some b -> place b = Called f a -> (f, a) = asked b) /\
  (forall n b, created c !! n = Some b -> has_called b = false ->
     exists c', pexec (RunDispatch n) c = Some (Ret c')).
Proof.
  intros Hr. pose proof (preachable_pinv mem w c Hr) as Hi. split_and!; [apply Hi| |].
  - intros n b f a Hn. apply (pinv_called _ _ Hi), (list_elem_of_lookup_2 _ n). done.
  - intros n b Hn Hw. destruct (run_dispatch_inv w c n b Hi Hn Hw) as (p & E & _).
    eexists. simpl. by rewrite Hn, E.
Qed.

(** A structure used again too early: while a task that was created with it has
    not read it, a second call of [pos_task_init] makes the first task call the
    function of the second, with its argument; and when the structure is
    destroyed the task reads memory that is no longer there. *)
Theorem task_dispatch_reuse (c : pcfg) n b t s args :
  created c !! n = Some b -> place b = DispatchCheck ->
  structures c !! structure b = Some s -> creators c !! t = None ->
  (exists c', pexec_all [CallInit t (structure b) args; RunInit t; RunInit t; RunDispatch n; RunDispatch n] c =
     Some (Ret c') /\
     created c' !! n = Some (mkNewTask (structure b) (Called (args_func args) (args_arg args)) (asked b))) /\
  pexec_all [EndLife (structure b); RunDispatch n] c = Some Undef.
Proof.
  destruct c as [mem th l w], b as [i p0 r]. simpl. intros Hn -> Hs Ht. pose proof (lookup_lt_Some _ _ _ Hn) as Hlt.
  rewrite Ht, Hs. simpl. split.
  - do 9 (rewrite ?lookup_insert_eq, ?list_lookup_insert_eq, ?Hn, ?Hs, ?c_assert_true by done; simpl).
    eexists. split; [reflexivity|]. simpl. by rewrite list_insert_insert_eq, list_lookup_insert_eq.
  - rewrite Hn. simpl. by rewrite lookup_delete_eq.
Qed.
End Dispatch.

(** * The theorems at work *)

Section Witness.
#[local] Existing Instances demo_fr_tasks demo_fr_tasks_laws.

Abbreviation demo_pcfg := (pconfig nat nat nat (list (Z * Z))).

(** The discipline, decided. *)
Definition quietb (i : nat) (c : demo_pcfg) : bool :=
  forallb (fun '(_, (j, _, _)) => negb (Nat.eqb j i)) (map_to_list (creators c)) &&
  forallb (fun b => negb (Nat.eqb (structure b) i) || has_called b) (created c).

Lemma quietb_quiet i c : quietb i c = true -> quiet i c.
Proof.
  intros [Hc Hb]%andb_prop. rewrite forallb_forall in Hc, Hb. split.
  - intros t args p E. apply elem_of_map_to_list, list_elem_of_In, Hc in E. by rewrite Nat.eqb_refl in E.
  - intros b Hin Hs. apply list_elem_of_In, Hb in Hin. by rewrite Hs, Nat.eqb_refl in Hin.
Qed.

Fixpoint run_carefully (mvs : list (pmove nat nat)) (c : demo_pcfg) : option demo_pcfg :=
  match mvs with
  | [] => Some c
  | mv :: mvs =>
      if match mv with CallInit _ i _ | EndLife i => quietb i c | _ => true end
      then match pexec false mv c with Some (Ret c') => run_carefully mvs c' | _ => None end
      else None
  end.

Lemma run_carefully_reachable c0 mvs c c' :
  preachable false c0 c -> run_carefully mvs c = Some c' -> preachable false c0 c'.
Proof.
  revert c. induction mvs as [|mv mvs IH]; intros c Hr; [by intros [= <-]|]. cbn [run_carefully].
  destruct (match mv with CallInit _ i _ | EndLife i => quietb i c | _ => true end) eqn:Hq; [|done].
  destruct (pexec false mv c) as [[c1| | | |]|] eqn:E; try done. apply IH.
  apply (preach_step _ _ c mv); [done| |done]. destruct mv; simpl in *; try done; by apply quietb_quiet.
Qed.

Definition demo_blank : Task.pos_task nat nat nat := Task.mkPosTask None None 0%nat.
Definition demo_args (f a : nat) : task_args nat nat := mkArgs [] f a 3 4096.
Definition demo_pinit : demo_pcfg := pinit (<[0%nat := demo_blank]> {[1%nat := demo_blank]}) [].

(** Two tasks create tasks at once; the first structure is used a second time
    when its task has read it. *)
Definition demo_creations : list (pmove nat nat) :=
  [CallInit 5 0 (demo_args 10 1); CallInit 6 1 (demo_args 20 2); RunInit 5; RunInit 6; RunInit 6; RunInit 5;
   RunInit 5; RunDispatch 0; RunInit 6; RunDispatch 0; CallInit 5 0 (demo_args 30 3); RunDispatch 1; RunInit 5].

Example task_dispatch_faithful_witness :
  exists c, run_carefully demo_creations demo_pinit = Some c /\ length (created c) = 2%nat /\
    (forall n b f a, created c !! n = Some b -> place b = Called f a -> (f, a) = asked b) /\
    exists c', pexec false (RunDispatch 1) c = Some (Ret c').
Proof.
  destruct (run_carefully demo_creations demo_pinit) as [c|] eqn:E; [|vm_compute in E; discriminate E].
  exists c. split; [reflexivity|].
  destruct (task_dispatch_faithful false _ _ c
    (run_carefully_reachable demo_pinit demo_creations demo_pinit c (preach_init _ _) E)) as (_ & Hcall & Hgo).
  assert (length (created c) = 2%nat /\ exists b, created c !! 1%nat = Some b /\ has_called b = false)
    as (Hlen & b & Hb & Hw).
  { vm_compute in E. injection E as <-. split; [reflexivity|]. eexists. split; reflexivity. }
  split; [exact Hlen|]. split; [exact Hcall|]. exact (Hgo 1%nat b Hb Hw).
Defined.

(** The structure is used again at once: both tasks call the second function. *)
Example task_dispatch_reuse_witness :
  exists c c', pexec_all false [CallInit 5 0 (demo_args 10 1); RunInit 5; RunInit 5; RunInit 5] demo_pinit =
      Some (Ret c) /\
    pexec_all false [CallInit 5 0 (demo_args 20 2); RunInit 5; RunInit 5; RunDispatch 0; RunDispatch 0] c =
      Some (Ret c') /\
    created c' !! 0%nat = Some (mkNewTask 0 (Called 20 2)%nat (10, 1)%nat) /\
    pexec_all false [EndLife 0; RunDispatch 0] c = Some Undef.
Proof.
  destruct (pexec_all false [CallInit 5 0 (demo_args 10 1); RunInit 5; RunInit 5; RunInit 5] demo_pinit)
    as [[c| | | |]|] eqn:E; try (vm_compute in E; discriminate E).
  assert (created c = [mkNewTask 0 DispatchCheck (10, 1)%nat] /\ creators c !! 5%nat = None /\
          exists s, structures c !! 0%nat = Some s) as (Hb & Hc & s & Hs).
  { vm_compute in E. injection E as <-. split; [reflexivity|]. split; [reflexivity|]. by eexists. }
  assert (created c !! 0%nat = Some (mkNewTask 0 DispatchCheck (10, 1)%nat)) as Hn by (by rewrite Hb).
  destruct (task_dispatch_reuse false c 0 _ 5 s (demo_args 20 2) Hn eq_refl Hs Hc) as [(c' & E' & Hc') Hu].
  exists c, c'. split_and!; [reflexivity|exact E'|exact Hc'|exact Hu].
Defined.
End Witness.
