(* ===== verification/FreeRtosClients.v ===== *)
(** The API headers and the C++ classes over the FreeRTOS port. With assertions
    the calls on its semaphores that return change the count as os_sem.h says, so
    OsSemaphore conserves tokens over them, but a give at the maximum aborts;
    without assertions it loses a token. Its queues do not meet the laws of
    [OsalApi], as a get that finds nothing answers POS_OK: what is left of the FIFO delivery of OsQueue over them, and what a
    client sees instead. *)

From S2P Require Import Prelude OsTypes Pthread OsalApi OsSemaphore OsQueue FreeRtos.

(** * Semaphores that [pos_sem_init] makes *)

Section SemaphoreContract.
Context {S : Type} `{FrSemaphores S}.

(** As in FreeRtos. *)
Variables ndebug in_isr : bool.
Variable woken0 : Z.

(** [pos_sem_init] creates every semaphore with a maximum of 128. *)
Definition fr_semaphore : Type := { s : S | fr_max_count s = 128 }.

Definition seal (s : S) : option fr_semaphore :=
  match decide (fr_max_count s = 128) with
  | left E => Some (exist _ s E)
  | right _ => None
  end.

(** A function of the port on a semaphore that has been created. *)
Definition on_semaphore (r : outcome (pos_error * option (handle_of S) * bool))
    : outcome (pos_error * fr_semaphore) :=
  do '(e, h, _) <- r;
  do k <- deref (h ≫= handle);
  do k <- deref (seal k);
  Ret (e, k).

#[local] Instance freertos_osal_sem : OsalSem fr_semaphore := {
  osal_sem_init := fun tokens _ =>
    on_semaphore (do '(e, h) <- pos_sem_init ndebug tokens (Some (mkHandle None)); Ret (e, h, false));
  osal_sem_take := fun timeout s => on_semaphore (pos_sem_take ndebug in_isr woken0 timeout (object_of (`s)));
  osal_sem_give := fun s => on_semaphore (pos_sem_give ndebug in_isr woken0 (object_of (`s)));
  sem_value := fun s => uxSemaphoreGetCount (`s);
  sem_max := 128;
  sem_no_wait := POS_TIME_NO_WAIT;
  sem_forever := portMAX_DELAY
}.

Context `{!FrSemaphoresLaws S}.

Lemma seal_ok s : fr_max_count s = 128 -> exists k : fr_semaphore, seal s = Some k /\ `k = s.
Proof. intros E. unfold seal. destruct (decide _) as [E'|]; [|done]. by eexists. Qed.

Lemma fr_take_shape timeout (s : fr_semaphore) :
  in_isr = false ->
  if uxSemaphoreGetCount (`s) =? 0
  then osal_sem_take timeout s =
         (if timeout =? portMAX_DELAY then Block
          else do k <- deref (seal (`s)); Ret (POS_TIMEOUT, k))
  else exists k : fr_semaphore, osal_sem_take timeout s = Ret (POS_OK, k) /\
         sem_value k = sem_value s - 1.
Proof.
  intros Hisr. destruct s as [s Hmax]. simpl. unfold pos_sem_take, object_of, on_semaphore.
  rewrite Hisr. simpl. rewrite !c_assert_true. simpl. pose proof (fr_count_range s) as Hr.
  destruct (Z.eqb_spec (uxSemaphoreGetCount s) 0) as [Hz|Hz].
  - rewrite fr_sem_take_zero by done. by destruct (timeout =? portMAX_DELAY).
  - destruct (fr_sem_take_ok timeout s) as (s' & -> & Hc & Hm); [lia|].
    destruct (seal_ok s') as (k & Hk & Es); [congruence|]. simpl. rewrite Hk. exists k.
    split; [done|]. by rewrite Es.
Qed.

Lemma fr_give_shape (s : fr_semaphore) :
  in_isr = false ->
  if uxSemaphoreGetCount (`s) =? 128
  then osal_sem_give s =
         (if ndebug then do k <- deref (seal (`s)); Ret (POS_OK, k) else AssertFail)
  else exists k : fr_semaphore, osal_sem_give s = Ret (POS_OK, k) /\
         sem_value k = sem_value s + 1.
Proof.
  intros Hisr. destruct s as [s Hmax]. simpl. unfold pos_sem_give, object_of, on_semaphore.
  rewrite Hisr. simpl. rewrite !c_assert_true. simpl. pose proof (fr_count_range s) as Hr.
  destruct (Z.eqb_spec (uxSemaphoreGetCount s) 128) as [Hz|Hz].
  - rewrite fr_sem_give_full by congruence. simpl. by destruct ndebug.
  - destruct (fr_sem_give_ok s) as (s' & -> & Hc & Hm); [lia|]. simpl. rewrite c_assert_true. simpl.
    destruct (seal_ok s') as (k & Hk & Es); [congruence|]. rewrite Hk. exists k.
    split; [done|]. by rewrite Es.
Qed.

Lemma seal_value (s : fr_semaphore) k : deref (seal (`s)) = Ret k -> sem_value k = sem_value s.
Proof.
  destruct (seal_ok (`s)) as (k' & -> & E); [apply (proj2_sig s)|]. simpl.
  intros [= <-]. by rewrite E.
Qed.

Lemma freertos_sem_laws : ndebug = false -> in_isr = false -> OsalSemLaws fr_semaphore.
Proof.
  intros Hnd Hisr. split.
  - intros [s Hm]. simpl. pose proof (fr_count_range s). lia.
  - intros tokens s s' Ht. simpl. unfold on_semaphore, pos_sem_init.
    destruct (xSemaphoreCreateCounting 128 tokens) as [k|] eqn:E; simpl; [|by rewrite Hnd].
    rewrite c_assert_true. simpl. destruct (fr_create_count _ _ _ E) as (_ & Hv & Hm).
    destruct (seal_ok k Hm) as (k' & -> & Ek). simpl. intros [= <-]. by rewrite Ek.
  - intros timeout s s' E. pose proof (fr_take_shape timeout s Hisr) as Hs.
    destruct (Z.eqb_spec (uxSemaphoreGetCount (`s)) 0) as [Hz|Hz].
    + rewrite E in Hs. destruct (timeout =? portMAX_DELAY); [done|].
      by destruct (deref (seal (`s))).
    + destruct Hs as (k & E' & Hv). rewrite E in E'. injection E' as ->.
      pose proof (fr_count_range (`s)). simpl in *. split; [lia|done].
  - intros timeout s e s' E He. pose proof (fr_take_shape timeout s Hisr) as Hs.
    destruct (Z.eqb_spec (uxSemaphoreGetCount (`s)) 0) as [Hz|Hz].
    + rewrite E in Hs. destruct (timeout =? portMAX_DELAY); [done|].
      destruct (deref (seal (`s))) as [k| | | |] eqn:Hk; try done. simpl in Hs.
      injection Hs as _ ->. by apply seal_value.
    + destruct Hs as (k & E' & _). rewrite E in E'. by injection E' as -> _.
  - intros s Hpos. pose proof (fr_take_shape portMAX_DELAY s Hisr) as Hs. simpl in Hpos.
    rewrite (proj2 (Z.eqb_neq _ _)) in Hs by lia. destruct Hs as (k & E & _). by exists k.
  - intros s Hlt. pose proof (fr_give_shape s Hisr) as Hs. simpl in Hlt.
    rewrite (proj2 (Z.eqb_neq _ _)) in Hs by lia. exact Hs.
  - intros s e s' Hmax E. pose proof (fr_give_shape s Hisr) as Hs. simpl in Hmax.
    rewrite (proj2 (Z.eqb_eq _ _)), E, Hnd in Hs by done. done.
Qed.

(** * The documented answers *)

Lemma fr_take_documented timeout (s : fr_semaphore) :
  in_isr = false -> take_documented timeout s <-> 0 < sem_value s \/ timeout <> POS_TIME_NO_WAIT.
Proof.
  intros Hisr. pose proof (fr_take_shape timeout s Hisr) as Hs. unfold take_documented, documented_answer.
  pose proof (fr_count_range (`s)). cbn [sem_value sem_no_wait sem_forever freertos_osal_sem] in *.
  destruct (Z.eqb_spec (uxSemaphoreGetCount (`s)) 0) as [Hz|Hz].
  - rewrite Hs, Hz. simpl. destruct (seal_ok (`s) (proj2_sig s)) as (k & -> & _). simpl.
    destruct (Z.eqb_spec timeout POS_TIME_NO_WAIT) as [->|Hne].
    + split; [done|]. intros [|]; [lia|done].
    + by destruct (timeout =? portMAX_DELAY); split; auto.
  - destruct Hs as (k & -> & _). rewrite (proj2 (Z.ltb_lt _ _)) by lia. split; [|done]. left. lia.
Qed.

Lemma fr_give_documented (s : fr_semaphore) :
  in_isr = false -> give_documented s <-> sem_value s < 128 \/ ndebug = true.
Proof.
  intros Hisr. pose proof (fr_give_shape s Hisr) as Hs. unfold give_documented.
  assert (sem_value s <= 128) as Hm.
  { destruct s as [s E]. simpl. pose proof (fr_count_range s). lia. }
  change (uxSemaphoreGetCount (`s)) with (sem_value s) in Hs. change sem_max with 128.
  destruct (Z.eqb_spec (sem_value s) 128) as [Hz|Hz].
  - rewrite Hs. destruct ndebug; cycle 1.
    { split; [by intros (? & ? & ? & _)|]. intros [|]; [lia|done]. }
    split; [by right|]. intros _. destruct (seal_ok (`s) (proj2_sig s)) as (k & Hk & Ek).
    rewrite Hk. do 2 eexists. split; [done|]. change (sem_value k) with (uxSemaphoreGetCount (`k)).
    rewrite Ek. change (uxSemaphoreGetCount (`s)) with (sem_value s). lia.
  - destruct Hs as (k & -> & Hk). split; [left; lia|]. intros _. exists POS_OK, k. split; [done|]. lia.
Qed.

(** Without assertions a give at the maximum loses a token. *)
Lemma fr_give_lost (s : fr_semaphore) d tokens :
  in_isr = false -> ndebug = true -> sem_value s = 128 -> - 2 ^ 31 < d < 2 ^ 31 ->
  conserved tokens (mkOsSemaphore s d) ->
  exists s', Give (mkOsSemaphore s d) = Ret (POS_OK, mkOsSemaphore s' (d - 1)) /\
    sem_value s' = 128 /\ ~ conserved tokens (mkOsSemaphore s' (d - 1)).
Proof.
  intros Hisr Hnd Hmax Hd Hc. pose proof (fr_give_shape s Hisr) as Hs.
  rewrite (proj2 (Z.eqb_eq _ _)) in Hs by exact Hmax.
  destruct (seal_ok (`s) (proj2_sig s)) as (k & Hk & Ek). rewrite Hk in Hs. cbn [deref obind] in Hs.
  assert (osal_sem_give s = Ret (POS_OK, k)) as Hg by (rewrite Hs; by destruct ndebug).
  exists k. unfold Give. cbn [sem_]. rewrite Hg. cbn [obind take_depth_]. unfold OsSemaphore.is_ok.
  assert (sem_value k = 128) as Hk128 by (simpl in *; congruence).
  rewrite bool_decide_eq_true_2, i32_small by (done || lia). split_and!; [done | done |].
  unfold conserved in *. cbn [sem_ take_depth_] in *. lia.
Qed.

(** * Properties of the semaphores *)

(** C36. The FreeRTOS mutexes and semaphores and the headers, called from a task.
    What os_mutex.h says of owner and count holds, and a lock is answered as it
    says unless the mutex is taken and the caller does not wait (POS_TIMEOUT, not
    POS_EBUSY); the same for a take and os_sem.h. With assertions every call that
    returns changes the count as documented, up to the maximum of 128, but a give
    at the maximum, which os_sem.h says is skipped, does not return: it aborts.
    Without assertions it returns and skips; it answers POS_OK, though, so that
    [Give] of OsSemaphore counts as given back a token that the semaphore has not
    got. *)
Theorem freertos_contracts {M} `{FrMutexes M, !FrMutexesLaws M} :
  in_isr = false ->
  (@OsalMutexLaws M (freertos_osal_mutex ndebug in_isr) /\
   forall t timeout (m : M), @lock_documented M (freertos_osal_mutex ndebug in_isr) t timeout m <->
     grantable t (fr_holder m) = true \/ timeout <> POS_TIME_NO_WAIT) /\
  (ndebug = false -> OsalSemLaws fr_semaphore) /\
  (forall timeout (s : fr_semaphore), take_documented timeout s <->
     0 < sem_value s \/ timeout <> POS_TIME_NO_WAIT) /\
  (forall s : fr_semaphore, give_documented s <-> sem_value s < 128 \/ ndebug = true) /\
  (ndebug = false -> forall s : fr_semaphore, sem_value s = 128 -> osal_sem_give s = AssertFail) /\
  (ndebug = true -> forall (s : fr_semaphore) d tokens,
     sem_value s = 128 -> - 2 ^ 31 < d < 2 ^ 31 -> conserved tokens (mkOsSemaphore s d) ->
     exists s', Give (mkOsSemaphore s d) = Ret (POS_OK, mkOsSemaphore s' (d - 1)) /\
       sem_value s' = 128 /\ ~ conserved tokens (mkOsSemaphore s' (d - 1))).
Proof.
  intros Hisr. split; [split; [by apply freertos_mutex_laws | intros; by apply freertos_lock_documented]|].
  split_and!; [intros; by apply freertos_sem_laws | intros; by apply fr_take_documented |
    intros; by apply fr_give_documented | |].
  - intros Hnd s Hmax. pose proof (fr_give_shape s Hisr) as Hs.
    rewrite (proj2 (Z.eqb_eq _ _)) in Hs by exact Hmax. by rewrite Hnd in Hs.
  - intros. by apply fr_give_lost.
Qed.
End SemaphoreContract.

(** * Queues *)

(** What a client does with the class: this port has neither
    [pos_queue_is_empty] nor a signal callback. *)
Inductive fr_event (T : Type) := FrPush (t : tid) (item : T) | FrPop (t : tid) (timeout : Z).
Arguments FrPush {T} t item.
Arguments FrPop {T} t timeout.

Section QueueClients.
Context {Q T : Type} `{FrQueues Q}.

(** As in FreeRtos, and as in OsQueue. *)
Variables ndebug in_isr : bool.
Variable woken0 : Z.
Variable sizeof_T : Z.
Variable bytes_of : T -> list byte.
Variable of_bytes : list byte -> T.
Variable QueueSize : Z.

#[local] Instance freertos_osal_queue : OsalQueue (handle_of Q) := {
  osal_queue_init := fun size n h => Ret (FreeRtos.pos_queue_init size n h);
  osal_queue_put := fun _ item h =>
    do '(e, h, _) <- FreeRtos.pos_queue_put ndebug in_isr woken0 item h; Ret (e, h);
  osal_queue_get := fun _ tmo h =>
    do '(e, d, h, _) <- FreeRtos.pos_queue_get ndebug in_isr woken0 tmo h; Ret (e, d, h);
  osal_queue_inited := FreeRtos.pos_queue_inited;
  osal_queue_deinit := fun h => let '(e, h') := FreeRtos.pos_queue_deinit (Some h) in Ret (e, default h h');
  queue_view := fun h => fr_queue <$> handle h;
  queue_ok := fun h =>
    match handle h with
    | Some k => let '(_, n, l) := fr_queue k in Z.of_nat (length l) <= n
    | None => True
    end;
  queue_no_wait := POS_TIME_NO_WAIT;
  queue_forever := portMAX_DELAY
}.

Definition fr_step (ev : fr_event T) (o : OsQueue (handle_of Q))
    : outcome (result * OsQueue (handle_of Q)) :=
  or_waits o
    match ev with
    | FrPush t item => do '(e, o) <- Push bytes_of t item o; Ret (RPush item e, o)
    | FrPop t timeout => do '(e, item, o) <- Pop of_bytes t timeout o; Ret (RPop e item, o)
    end.

Fixpoint fr_run (evs : list (fr_event T)) (o : OsQueue (handle_of Q))
    : outcome (list result * OsQueue (handle_of Q)) :=
  match evs with
  | [] => Ret ([], o)
  | ev :: evs =>
      do '(r, o) <- fr_step ev o;
      do '(rs, o) <- fr_run evs o;
      Ret (r :: rs, o)
  end.

(** The object has a kernel queue, which holds the values [l]. *)
Definition fr_holds (l : list T) (o : OsQueue (handle_of Q)) : Prop :=
  initialized_ o = true /\ Z.of_nat (length l) <= QueueSize /\
  exists k, handle (queue_ o) = Some k /\ fr_queue k = (sizeof_T, QueueSize, bytes_of <$> l).

(** A pop that answers POS_OK, with a value or without. *)
Definition pop_ok (r : @result T) : Prop :=
  match r with RPop e _ => e = POS_OK | _ => True end.

Context `{!FrQueuesLaws Q}.
Hypothesis in_task : in_isr = false.
Hypothesis bytes_length : forall x, Z.of_nat (length (bytes_of x)) = sizeof_T.
Hypothesis of_bytes_of : forall x, of_bytes (bytes_of x) = x.

Lemma fr_holds_intro l k st :
  fr_queue k = (sizeof_T, QueueSize, bytes_of <$> l) -> Z.of_nat (length l) <= QueueSize ->
  fr_holds l (mkOsQueue (mkHandle (Some k)) true st).
Proof. intros. split_and!; [done | done |]. by exists k. Qed.

Lemma fr_push_step t x l o :
  fr_holds l o ->
  if Z.of_nat (length l) <? QueueSize
  then exists o', fr_step (FrPush t x) o = Ret (RPush x POS_OK, o') /\ fr_holds (l ++ [x]) o'
  else fr_step (FrPush t x) o = Ret (RWaits, o).
Proof.
  destruct o as [[h] init st]. intros (Hi & Hb & k & Hk & Hq). simpl in Hi, Hk. subst init h.
  assert (sizeof_T <= Z.of_nat (length (bytes_of x))) as Hlen by (rewrite bytes_length; lia).
  unfold fr_step, Push. simpl. destruct (freertos_queue_spec ndebug in_isr woken0 (bytes_of x) 0 k
    _ _ _ in_task Hq Hlen) as [Hput _]. rewrite length_fmap in Hput.
  destruct (Z.ltb_spec (Z.of_nat (length l)) QueueSize) as [Hlt|Hge].
  - destruct Hput as (k' & -> & Hk'). eexists. split; [reflexivity|]. apply fr_holds_intro.
    + rewrite Hk', fmap_app, take_ge; [done|]. rewrite <- (bytes_length x). lia.
    + rewrite length_app. simpl. lia.
  - rewrite Hput. done.
Qed.

Lemma fr_pop_step t timeout l o :
  fr_holds l o ->
  match l with
  | x :: l' => exists o', fr_step (FrPop t timeout) o = Ret (RPop POS_OK (Some x), o') /\ fr_holds l' o'
  | [] => fr_step (FrPop t timeout) o =
            Ret (if timeout =? portMAX_DELAY then RWaits else RPop POS_OK None, o)
  end.
Proof.
  destruct o as [[h] init st]. intros (Hi & Hb & k & Hk & Hq). simpl in Hi, Hk. subst init h.
  unfold fr_step, Pop. simpl.
  destruct (freertos_queue_spec ndebug in_isr woken0 (replicate (Z.to_nat sizeof_T) x00) timeout k
    _ _ _ in_task Hq) as [_ Hget]; [rewrite length_replicate; lia|]. destruct l as [|x l].
  - simpl in Hget. rewrite Hget. by destruct (timeout =? portMAX_DELAY).
  - simpl in Hget. destruct Hget as (k' & -> & Hk'). simpl. rewrite of_bytes_of. eexists.
    split; [reflexivity|]. apply fr_holds_intro; [done|]. simpl in Hb. lia.
Qed.

Lemma fr_step_holds ev l o r o' :
  fr_holds l o -> fr_step ev o = Ret (r, o') ->
  exists l', fr_holds l' o' /\ l ++ pushes [r] = pops [r] ++ l' /\ pop_ok r.
Proof.
  intros Hl. destruct ev as [t x|t timeout].
  - pose proof (fr_push_step t x l o Hl) as Hs. destruct (_ <? _).
    + destruct Hs as (o1 & -> & Ho1). intros [= <- <-]. by exists (l ++ [x]).
    + rewrite Hs. intros [= <- <-]. exists l. by rewrite app_nil_r.
  - pose proof (fr_pop_step t timeout l o Hl) as Hs. destruct l as [|x l].
    + rewrite Hs. intros [= <- <-]. exists []. by destruct (timeout =? portMAX_DELAY).
    + destruct Hs as (o1 & -> & Ho1). intros [= <- <-]. exists l. by rewrite app_nil_r.
Qed.

Lemma fr_run_holds evs l o rs o' :
  fr_holds l o -> fr_run evs o = Ret (rs, o') ->
  exists l', fr_holds l' o' /\ l ++ pushes rs = pops rs ++ l' /\ Forall pop_ok rs.
Proof.
  revert l o rs. induction evs as [|ev evs IH]; simpl; intros l o rs Hl.
  - intros [= <- <-]. exists l. by rewrite app_nil_r.
  - intros ([r o1] & E & ([rs' o2] & E' & [= <- <-])%obind_ret_inv)%obind_ret_inv.
    destruct (fr_step_holds _ _ _ _ _ Hl E) as (l1 & Hl1 & Hr & Hok).
    destruct (IH _ _ _ Hl1 E') as (l2 & Hl2 & Hrs & Hoks).
    exists l2. split; [done|]. split; [|by constructor].
    change (r :: rs') with ([r] ++ rs'). unfold pushes, pops in *.
    by rewrite !omap_app, app_assoc, Hr, <- !app_assoc, Hrs.
Qed.

(** * Properties of the queues *)

(** C37. The typed queue over the FreeRTOS port, from tasks. The constructor always
    succeeds, but when the kernel had no memory the object has no queue: it says
    that it is not initialised, and a push on it is undefined. With a queue, the
    values that pops deliver are, in order, the first of the values pushed, and
    the rest is in the queue, although every pop that returns answers POS_OK,
    whether it delivered a value or not. *)
Theorem freertos_os_queue_delivery mem o evs rs o' :
  is_u32 sizeof_T -> is_u32 QueueSize ->
  OsQueue_new ndebug sizeof_T QueueSize mem = Ret o ->
  match handle (queue_ o) with
  | None => Inited o = false /\ forall t x, Push bytes_of t x o = Undef
  | Some _ =>
      Inited o = true /\
      (fr_run evs o = Ret (rs, o') ->
       (exists l, fr_holds l o' /\ pushes rs = pops rs ++ l) /\ Forall pop_ok rs)
  end.
Proof.
  intros Hs Hn. unfold OsQueue_new. simpl. unfold OsQueue.is_ok.
  rewrite bool_decide_eq_true_2, c_assert_true by done. simpl. intros [= <-]. simpl.
  rewrite !u32_small by done. unfold Inited, FreeRtos.pos_queue_inited. simpl.
  destruct (xQueueCreate QueueSize sizeof_T) as [k|] eqn:E; simpl.
  - split; [done|]. intros Hrun. apply fr_queue_create in E.
    destruct (fr_run_holds evs [] _ rs o' (fr_holds_intro [] k POS_OK E ltac:(simpl; unfold is_u32 in *; lia)) Hrun)
      as (l & Hl & Hp & Hok).
    split; [by exists l | done].
  - by split.
Qed.

(** Over an empty queue every pop that does not wait for ever answers POS_OK
    and delivers nothing, as often as it is tried: a client that takes values
    until a pop fails does not stop, and uses a value nobody pushed. So the port
    does not do what the API header says of its queues. *)
Theorem freertos_os_queue_phantom t timeout n o :
  fr_holds [] o -> timeout <> portMAX_DELAY ->
  fr_run (replicate n (FrPop t timeout)) o = Ret (replicate n (RPop POS_OK None), o) /\
  ~ @OsalQueueLaws (handle_of Q) freertos_osal_queue.
Proof.
  intros Ho Hne. apply Z.eqb_neq in Hne. split.
  - induction n as [|n IH]; [done|]. simpl. rewrite (fr_pop_step t timeout [] o Ho), Hne.
    simpl. by rewrite IH.
  - intros Hlaws. destruct Ho as (_ & Hb & k & Hk & Hq). destruct o as [[h] init st].
    simpl in Hk. subst h.
    assert (queue_view (mkHandle (Some k)) = Some (sizeof_T, QueueSize, [])) as Hv.
    { simpl. by rewrite Hq. }
    destruct (freertos_queue_spec ndebug in_isr woken0 (replicate (Z.to_nat sizeof_T) x00) timeout k
      _ _ _ in_task Hq) as [_ Hget]; [rewrite length_replicate; lia|]. simpl in Hget. rewrite Hne in Hget.
    destruct (queue_get_none t timeout (mkHandle (Some k)) sizeof_T QueueSize POS_OK None
      (mkHandle (Some k))) as [He _]; [|done| |by apply He].
    + simpl. by rewrite Hq.
    + simpl. by rewrite Hget.
Qed.
End QueueClients.

(** * Witnesses over the reference kernel *)

Section Witness.
#[local] Existing Instance demo_fr_semaphores.
#[local] Existing Instance demo_fr_semaphores_laws.
#[local] Existing Instance demo_fr_queues.
#[local] Existing Instance demo_fr_queues_laws.
#[local] Existing Instance demo_fr_mutexes.
#[local] Existing Instance demo_fr_mutexes_laws.

(** A full semaphore of which 3 tokens were ever taken through the class. *)
Definition demo_full : fr_semaphore (S := demo_sem) := exist _ (128%nat, 0%nat) eq_refl.

Example freertos_contracts_witness :
  @OsalMutexLaws ref_mutex (freertos_osal_mutex false false) /\
  @OsalSemLaws (fr_semaphore (S := demo_sem)) (freertos_osal_sem false false 0) /\
  @osal_sem_give _ (freertos_osal_sem false false 0) demo_full = AssertFail /\
  exists s', @Give _ (freertos_osal_sem true false 0) (mkOsSemaphore demo_full 0) =
      Ret (POS_OK, mkOsSemaphore s' (0 - 1)) /\
    ~ @conserved _ (freertos_osal_sem true false 0) 128 (mkOsSemaphore s' (0 - 1)).
Proof.
  destruct (freertos_contracts (M := ref_mutex) (S := demo_sem) false false 0 eq_refl)
    as ((Hm & _) & Hs & _ & _ & Hg & _).
  destruct (freertos_contracts (M := ref_mutex) (S := demo_sem) true false 0 eq_refl) as (_ & _ & _ & _ & _ & Hf).
  split; [exact Hm|]. split; [exact (Hs eq_refl)|]. split; [exact (Hg eq_refl demo_full eq_refl)|].
  destruct (Hf eq_refl demo_full 0 128) as (s' & E & _ & Hn); [reflexivity | lia | reflexivity |].
  exists s'. split; [exact E | exact Hn].
Defined.

Definition demo_fr_object (l : list (list byte)) : OsQueue (handle_of demo_fr_queue) :=
  mkOsQueue (mkHandle (Some (2, 4, l))) true POS_OK.

(** A pop of nothing, a push, two pops. *)
Example freertos_os_queue_delivery_witness :
  let evs := [FrPop 1 0; FrPush 2 (x01, x02); FrPop 1 0; FrPop 1 0] in
  let rs := [RPop POS_OK None; RPush (x01, x02) POS_OK; RPop POS_OK (Some (x01, x02)); RPop POS_OK None] in
  (exists l, fr_holds 2 pair_bytes 4 l (demo_fr_object []) /\ pushes rs = pops rs ++ l) /\
  Forall pop_ok rs.
Proof.
  intros evs rs. assert (forall n, 0 <= n < 5 -> is_u32 n) as Hu by (intros; unfold is_u32; lia).
  apply (freertos_os_queue_delivery false false 0 2 pair_bytes bytes_pair 4 eq_refl (fun x => eq_refl)
    (fun '(a, b) => eq_refl) (mkHandle None) (demo_fr_object []) evs rs (demo_fr_object []));
    [apply Hu; lia | apply Hu; lia | reflexivity | reflexivity].
Defined.

Example freertos_os_queue_phantom_witness :
  fr_run false false 0 pair_bytes bytes_pair (replicate 3 (FrPop 1 7)) (demo_fr_object []) =
    Ret (replicate 3 (RPop POS_OK None), demo_fr_object []).
Proof.
  refine (proj1 (freertos_os_queue_phantom false false 0 2 pair_bytes bytes_pair 4 eq_refl
    (fun '(a, b) => eq_refl) 1%nat 7 3 (demo_fr_object []) _ _)); [|done].
  split; [reflexivity|]. split; [vm_compute; congruence|]. by exists (2, 4, []).
Defined.
End Witness.
