(* ===== verification/Platform.v ===== *)
(** What the ports fix apart from their objects: os_panic.c of every port;
    os_hw.h of FreeRTOS and RT-Thread, under the functions that ask whether they
    run in an interrupt handler; the task priorities of the port headers against
    the platforms' own; and targets/freertos/config/posix/FreeRTOSConfig.h with
    what the port's arithmetic makes of it. *)

From Stdlib Require Import String.
From S2P Require Import Prelude OsTypes Pthread FreeRtos FreeRtosTimer.

(** * os_panic.c *)

Definition panic_prefix : list byte := list_byte_of_string "POSKI PANIC: ".

(** POSIX: what is written to [stderr], and how the call ends: by [abort]. *)
Definition pos_panic_posix (msg : option (list byte)) : list byte * outcome unit :=
  let stderr :=
    match msg with
    | Some msg =>
        let stderr := panic_prefix in
        let stderr := stderr ++ msg in
        stderr ++ [x0a]
    | None => []
    end in
  (stderr, AssertFail).

(** [while (1)] *)
Fixpoint halt (fuel : nat) : outcome unit :=
  match fuel with O => Block | S fuel => halt fuel end.

(** [printf("POSKI PANIC: %s\n", msg)]: the prefix, the argument, the newline. *)
Definition printf_panic (msg : list byte) : list byte := panic_prefix ++ msg ++ [x0a].

(** FreeRTOS, Zephyr and RT-Thread: what is written to [stdout]; the assertion;
    and, if it is compiled out, the loop. *)
Definition freertos_pos_panic (ndebug : bool) (fuel : nat) (msg : option (list byte))
    : list byte * outcome unit :=
  let stdout := match msg with Some msg => printf_panic msg | None => [] end in
  (stdout, c_assert ndebug false;; halt fuel).

Definition zephyr_pos_panic (ndebug : bool) (fuel : nat) (msg : option (list byte))
    : list byte * outcome unit :=
  let stdout := match msg with Some msg => printf_panic msg | None => [] end in
  (stdout, c_assert ndebug false;; halt fuel).

Definition rtthread_pos_panic (ndebug : bool) (fuel : nat) (msg : option (list byte))
    : list byte * outcome unit :=
  let stdout := match msg with Some msg => printf_panic msg | None => [] end in
  (stdout, c_assert ndebug false;; halt fuel).

Lemma halt_never fuel : halt fuel = Block.
Proof. by induction fuel. Qed.

(** * os_hw.h *)

(** FreeRTOS: [nrf5] is CHIP_DEVICE_LAYER_TARGET_NRF5; only then the
    interrupt control register [icsr] of the processor is looked at, under the
    mask that its vendor's header defines. *)
Definition freertos_pos_hw_in_isr (SCB_ICSR_VECTACTIVE_Msk : Z) (nrf5 : bool) (icsr : Z) : bool :=
  if nrf5 then negb (Z.land icsr SCB_ICSR_VECTACTIVE_Msk =? 0) else false.

(** RT-Thread: [nest] is [rt_interrupt_get_nest()]. *)
Definition rtthread_pos_hw_in_isr (nest : Z) : bool :=
  if negb (nest =? 0) then true else false.

(** * Priorities *)

(** What a port header defines. *)
Record priorities := mkPriorities {
  POS_PRIORITY_MIN : Z;
  POS_PRIORITY_MAX : Z;
  POS_PRIORITY_APP : Z
}.

(** [lo] and [hi] are [sched_get_priority_min(SCHED_RR)] and its maximum. *)
Definition posix_priorities (lo hi : Z) : priorities := mkPriorities lo hi (lo + 1).
Definition freertos_priorities (configMAX_PRIORITIES : Z) : priorities :=
  mkPriorities 1 configMAX_PRIORITIES (1 + 1).
Definition zephyr_priorities (CONFIG_NUM_PREEMPT_PRIORITIES : Z) : priorities :=
  mkPriorities (CONFIG_NUM_PREEMPT_PRIORITIES - 1) 0 (CONFIG_NUM_PREEMPT_PRIORITIES - 1 - 1).
Definition rtthread_priorities (RT_THREAD_PRIORITY_MAX : Z) : priorities :=
  mkPriorities 1 RT_THREAD_PRIORITY_MAX (RT_THREAD_PRIORITY_MAX - 10).

(** How the platform takes the [uint8_t] that [pos_task_init] passes on: which
    values it accepts, and when a task of the one goes before a task of the other. *)
Record scheduler := mkScheduler { accepts : Z -> bool; before : Z -> Z -> bool }.

(** What the platforms document: the values from [lo] to [hi], of which the
    high ones go first (POSIX round-robin, FreeRTOS: "low priority numbers denote
    low priority tasks") or the low ones (Zephyr, RT-Thread: 0 is "the highest
    priority"). *)
Record high_first (lo hi : Z) (sch : scheduler) : Prop := {
  high_accepts : forall p, accepts sch p = true <-> lo <= p <= hi;
  high_before : forall p q, before sch p q = true <-> q < p
}.
Record low_first (lo hi : Z) (sch : scheduler) : Prop := {
  low_accepts : forall p, accepts sch p = true <-> lo <= p <= hi;
  low_before : forall p q, before sch p q = true <-> p < q
}.

(** "The highest and lowest task priorities": both are accepted, nothing that is
    accepted goes before the one or after the other, and the one for
    applications is accepted and between them. *)
Record coherent (sch : scheduler) (pr : priorities) : Prop := {
  min_accepted : accepts sch (u8 (POS_PRIORITY_MIN pr)) = true;
  max_accepted : accepts sch (u8 (POS_PRIORITY_MAX pr)) = true;
  app_accepted : accepts sch (u8 (POS_PRIORITY_APP pr)) = true;
  max_first : forall p, accepts sch p = true -> before sch p (u8 (POS_PRIORITY_MAX pr)) = false;
  min_last : forall p, accepts sch p = true -> before sch (u8 (POS_PRIORITY_MIN pr)) p = false;
  app_between : before sch (u8 (POS_PRIORITY_APP pr)) (u8 (POS_PRIORITY_MIN pr)) = true
}.

Lemma u8_small z : 0 <= z < 256 -> u8 z = z.
Proof. intros. by apply Z.mod_small. Qed.

(** Turns the questions to a documented scheduler into inequalities. *)
Ltac ask_scheduler :=
  match goal with
  | Hs : high_first _ _ ?sch |- context [accepts ?sch _] => rewrite (high_accepts _ _ _ Hs)
  | Hs : low_first _ _ ?sch |- context [accepts ?sch _] => rewrite (low_accepts _ _ _ Hs)
  | Hs : high_first _ _ ?sch |- context [before ?sch _ _] => rewrite (high_before _ _ _ Hs)
  | Hs : low_first _ _ ?sch |- context [before ?sch _ _] => rewrite (low_before _ _ _ Hs)
  end.

(** With priorities that fit the [uint8_t] of the API, the POSIX and Zephyr
    headers name the highest and the lowest priority of their platforms.
    FreeRTOS and RT-Thread do not accept what is called the highest one. And
    RT-Thread counts the other way: its lowest one goes before all but one of
    the priorities, before that for applications too; which is out of range
    altogether when there are fewer than ten. *)
Theorem priorities_spec posix zephyr freertos rtthread lo hi nz nf nr :
  high_first lo hi posix -> 0 <= lo < hi -> hi < 256 ->
  low_first 0 (nz - 1) zephyr -> 2 <= nz < 256 ->
  high_first 0 (nf - 1) freertos -> 3 <= nf < 256 ->
  low_first 0 (nr - 1) rtthread -> 2 <= nr < 256 ->
  coherent posix (posix_priorities lo hi) /\
  coherent zephyr (zephyr_priorities nz) /\
  (let pr := freertos_priorities nf in
   accepts freertos (u8 (POS_PRIORITY_MAX pr)) <> true /\
   accepts freertos (u8 (POS_PRIORITY_APP pr)) = true /\
   before freertos (u8 (POS_PRIORITY_APP pr)) (u8 (POS_PRIORITY_MIN pr)) = true) /\
  (let pr := rtthread_priorities nr in
   accepts rtthread (u8 (POS_PRIORITY_MAX pr)) <> true /\
   (forall p, accepts rtthread p = true -> before rtthread p (u8 (POS_PRIORITY_MIN pr)) = true -> p = 0) /\
   (11 < nr -> before rtthread (u8 (POS_PRIORITY_MIN pr)) (u8 (POS_PRIORITY_APP pr)) = true) /\
   (nr < 10 -> accepts rtthread (u8 (POS_PRIORITY_APP pr)) <> true)).
Proof.
  intros Hp Hlo Hhi Hz Hnz Hf Hnf Hr Hnr.
  assert (nr < 10 -> u8 (nr - 10) = nr + 246) as Happ by zwrap.
  cbv zeta; split_and!; try split; simpl; try rewrite !u8_small by lia;
    repeat match goal with
    | |- forall _, _ => intros ?
    | |- _ = false => apply not_true_iff_false
    | |- ~ _ => intros Hno; revert Hno
    | Hacc : accepts _ _ = true |- _ => revert Hacc; ask_scheduler; intros ?
    | Hbef : before _ _ _ = true |- _ => revert Hbef; ask_scheduler; intros ?
    | _ => ask_scheduler
    end; try (rewrite Happ by lia); try (rewrite u8_small by lia); try lia.
Qed.

(** * FreeRTOSConfig.h *)

(** The macros of the file, in its order; casts left out. *)
Definition FreeRTOSConfig : list (string * Z) := [
  ("configUSE_PREEMPTION", 1);
  ("configUSE_PORT_OPTIMISED_TASK_SELECTION", 0);
  ("configUSE_TICKLESS_IDLE", 0);
  ("configCPU_CLOCK_HZ", 20000000);
  ("configTICK_RATE_HZ", 1000);
  ("configMAX_PRIORITIES", 5);
  ("configMINIMAL_STACK_SIZE", 128);
  ("configMAX_TASK_NAME_LEN", 16);
  ("configUSE_16_BIT_TICKS", 0);
  ("configIDLE_SHOULD_YIELD", 1);
  ("configUSE_TASK_NOTIFICATIONS", 1);
  ("configUSE_MUTEXES", 1);
  ("configUSE_RECURSIVE_MUTEXES", 1);
  ("configUSE_COUNTING_SEMAPHORES", 1);
  ("configQUEUE_REGISTRY_SIZE", 10);
  ("configUSE_QUEUE_SETS", 0);
  ("configUSE_TIME_SLICING", 1);
  ("configUSE_NEWLIB_REENTRANT", 0);
  ("configENABLE_BACKWARD_COMPATIBILITY", 0);
  ("configNUM_THREAD_LOCAL_STORAGE_POINTERS", 5);
  ("configUSE_IDLE_HOOK", 0);
  ("configUSE_TICK_HOOK", 0);
  ("configUSE_CO_ROUTINES", 0);
  ("configMAX_CO_ROUTINE_PRIORITIES", 2);
  ("configUSE_TIMERS", 1);
  ("configTIMER_TASK_PRIORITY", 5 - 1);
  ("configTIMER_QUEUE_LENGTH", 10);
  ("configTIMER_TASK_STACK_DEPTH", 128 * 2);
  ("INCLUDE_vTaskPrioritySet", 1);
  ("INCLUDE_uxTaskPriorityGet", 1);
  ("INCLUDE_vTaskDelete", 1);
  ("INCLUDE_vTaskCleanUpResources", 0);
  ("INCLUDE_vTaskSuspend", 1);
  ("INCLUDE_vTaskDelayUntil", 1);
  ("INCLUDE_vTaskDelay", 1);
  ("INCLUDE_uxTaskGetStackHighWaterMark", 1);
  ("INCLUDE_xTaskGetSchedulerState", 1);
  ("INCLUDE_xTimerPendingFunctionCall", 1);
  ("INCLUDE_xQueueGetMutexHolder", 1)
]%string.

(** An undefined macro is 0 in an [#if]. *)
Definition config (name : string) : Z :=
  match find (fun nv => String.eqb name nv.1) FreeRTOSConfig with Some (_, v) => v | None => 0 end.

(** The options that the kernel's documentation asks for behind the functions
    the port calls, and for a [portMAX_DELAY] that waits for ever. *)
Definition needed_options : list string := [
  "configUSE_MUTEXES"; "configUSE_RECURSIVE_MUTEXES"; "configUSE_COUNTING_SEMAPHORES";
  "configUSE_TIMERS"; "INCLUDE_vTaskDelete"; "INCLUDE_vTaskDelay"; "INCLUDE_vTaskSuspend";
  "INCLUDE_xTaskGetSchedulerState"
]%string.

(** * Properties *)

(** [pos_panic] never returns, with or without a message and however long one
    waits: the process is aborted, but on the ports to kernels only if
    assertions are compiled in. Every port prints the same line first, and
    nothing when there is no message. *)
Theorem pos_panic_spec ndebug fuel msg :
  let outs := [pos_panic_posix msg; freertos_pos_panic ndebug fuel msg;
               zephyr_pos_panic ndebug fuel msg; rtthread_pos_panic ndebug fuel msg] in
  map snd outs = AssertFail :: replicate 3 (if ndebug then Block else AssertFail) /\
  forall o, In o outs -> o.1 = match msg with Some m => panic_prefix ++ m ++ [x0a] | None => [] end.
Proof.
  cbv zeta. split.
  - simpl. by destruct ndebug; simpl; rewrite ?halt_never.
  - intros o Ho. destruct msg as [m|];
      repeat (destruct Ho as [<-|Ho]; [simpl; by rewrite ?app_nil_r, <- ?app_assoc|]); done.
Qed.

(** Every option the FreeRTOS port needs is on in the repository's
    configuration; with its tick rate, milliseconds are ticks in both
    directions up to 4294967 of them, and wrap to few after that, so that a
    wait of 4294968 ms is none at all; and the kernel's timer task has a
    priority that the kernel accepts, which the port's [POS_PRIORITY_MAX] is
    not. *)
Theorem freertos_config_spec sch :
  high_first 0 (config "configMAX_PRIORITIES" - 1) sch ->
  (forall name, In name needed_options -> config name = 1) /\
  (forall n, 0 <= n <= 4294967 ->
     pos_time_ms_to_ticks (config "configTICK_RATE_HZ") n = n /\
     pos_time_ticks_to_ms (config "configTICK_RATE_HZ") n = n) /\
  (forall n, 0 <= n < 1000 -> pos_time_ms_to_ticks (config "configTICK_RATE_HZ") (4294968 + n) = n) /\
  accepts sch (config "configTIMER_TASK_PRIORITY") = true /\
  accepts sch (POS_PRIORITY_MAX (freertos_priorities (config "configMAX_PRIORITIES"))) <> true.
Proof.
  change (config "configTICK_RATE_HZ") with 1000. change (config "configMAX_PRIORITIES") with 5.
  change (config "configTIMER_TASK_PRIORITY") with 4. intros Hs.
  unfold pos_time_ms_to_ticks, pos_time_ticks_to_ms. split_and!.
  - intros name Hin. repeat (destruct Hin as [<-|Hin]; [reflexivity|]). done.
  - intros n Hn. rewrite u32_small by (unfold is_u32; lia). rewrite Z.div_mul by lia. done.
  - intros n Hn. zwrap.
  - ask_scheduler. lia.
  - ask_scheduler. simpl. lia.
Qed.

Section Isr.
Context {Q : Type} `{FrQueues Q, !FrQueuesLaws Q} {M : Type} `{FrMutexes M, !FrMutexesLaws M}.
Variable msk : Z.

(** Interrupt handlers are recognised on one processor only. Elsewhere a put on
    a full queue from a handler, which the kernel does not let wait, waits for
    ever, and the assertions that keep handlers out of the mutex functions
    hold; on that processor a put in a handler fails an assertion at once, and
    so does a lock. *)
Theorem freertos_isr_detection woken0 icsr item (q : Q) size n l t timeout (m : M) :
  fr_queue q = (size, n, l) -> n <= Z.of_nat (length l) -> fr_holder m = None ->
  Z.land icsr msk <> 0 ->
  (FreeRtos.pos_queue_put false (freertos_pos_hw_in_isr msk false icsr) woken0 item
     (FreeRtos.mkHandle (Some q)) = Block /\
   exists m', FreeRtos.pos_mutex_lock false (freertos_pos_hw_in_isr msk false icsr) t timeout
     (Some (FreeRtos.mkHandle (Some m))) = Ret (POS_OK, Some (FreeRtos.mkHandle (Some m')))) /\
  (FreeRtos.pos_queue_put false (freertos_pos_hw_in_isr msk true icsr) woken0 item
     (FreeRtos.mkHandle (Some q)) = AssertFail /\
   FreeRtos.pos_mutex_lock false (freertos_pos_hw_in_isr msk true icsr) t timeout
     (Some (FreeRtos.mkHandle (Some m))) = AssertFail).
Proof.
  intros Hq Hl Hm Hicsr. assert (freertos_pos_hw_in_isr msk true icsr = true) as ->.
  { unfold freertos_pos_hw_in_isr. by rewrite (proj2 (Z.eqb_neq _ _) Hicsr). }
  split_and!.
  - simpl. unfold FreeRtos.pos_queue_put. simpl.
    by rewrite (fr_send_full item portMAX_DELAY q _ _ _ Hq Hl).
  - destruct (fr_take_now t timeout m) as (m' & E & _); [by rewrite Hm|].
    exists m'. unfold FreeRtos.pos_mutex_lock. simpl. by rewrite E.
  - unfold FreeRtos.pos_queue_put. simpl. pose proof (fr_send_isr item woken0 q) as Hs.
    destruct (xQueueSendToBackFromISR item woken0 q) as [[r w] q']. destruct Hs as [Hs _].
    rewrite (fr_send_full item 0 q _ _ _ Hq Hl) in Hs. by injection Hs as -> ->.
  - done.
Qed.
End Isr.

(** On RT-Thread the nesting depth decides, also a negative one. *)
Lemma rtthread_pos_hw_in_isr_spec nest : rtthread_pos_hw_in_isr nest = true <-> nest <> 0.
Proof. unfold rtthread_pos_hw_in_isr. by destruct (Z.eqb_spec nest 0). Qed.

(** * The theorems at work *)

Section Witness.
#[local] Existing Instance demo_fr_queues.
#[local] Existing Instance demo_fr_queues_laws.
#[local] Existing Instance demo_fr_mutexes.
#[local] Existing Instance demo_fr_mutexes_laws.

Definition demo_high (lo hi : Z) : scheduler :=
  mkScheduler (fun p => (lo <=? p) && (p <=? hi)) (fun p q => q <? p).
Definition demo_low (lo hi : Z) : scheduler :=
  mkScheduler (fun p => (lo <=? p) && (p <=? hi)) (fun p q => p <? q).

Lemma demo_high_first lo hi : high_first lo hi (demo_high lo hi).
Proof. split; simpl; intros; rewrite ?andb_true_iff, ?Z.leb_le, ?Z.ltb_lt; done. Qed.

Lemma demo_low_first lo hi : low_first lo hi (demo_low lo hi).
Proof. split; simpl; intros; rewrite ?andb_true_iff, ?Z.leb_le, ?Z.ltb_lt; done. Qed.

(** Linux has 1 to 99, Zephyr 15 by default; RT-Thread built with eight. *)
Example priorities_spec_witness :
  coherent (demo_high 1 99) (posix_priorities 1 99) /\
  coherent (demo_low 0 14) (zephyr_priorities 15) /\
  accepts (demo_low 0 7) (u8 (POS_PRIORITY_APP (rtthread_priorities 8))) <> true.
Proof.
  destruct (priorities_spec (demo_high 1 99) (demo_low 0 (15 - 1)) (demo_high 0 (5 - 1))
    (demo_low 0 (8 - 1)) 1 99 15 5 8) as (Hp & Hz & _ & _ & _ & _ & Hr); try lia;
    try apply demo_high_first; try apply demo_low_first.
  split; [exact Hp|]. split; [exact Hz|]. apply Hr. lia.
Defined.

Example freertos_config_spec_witness :
  pos_time_ms_to_ticks (config "configTICK_RATE_HZ") (4294968 + 0) = 0.
Proof.
  refine (proj1 (proj2 (proj2 (freertos_config_spec (demo_high 0 4) (demo_high_first 0 4)))) 0 _). lia.
Defined.

Example freertos_isr_detection_witness :
  FreeRtos.pos_queue_put false (freertos_pos_hw_in_isr 511 false 16) 0 [x01]
    (FreeRtos.mkHandle (Some ((1, 1, [[x02]]) : demo_fr_queue))) = Block.
Proof.
  refine (proj1 (proj1 (freertos_isr_detection 511 0 16 [x01] ((1, 1, [[x02]]) : demo_fr_queue) 1 1
    [[x02]] 1%nat 0 (None : ref_mutex) eq_refl _ eq_refl _))); vm_compute; congruence.
Defined.
End Witness.
