(* ===== verification/Zephyr.v ===== *)
(** targets/zephyr: mutexes, semaphores and queues over the Zephyr kernel
    (os_mutex.c, os_sem.c, os_queue.c) and the error mapping of os_utils.c. The
    kernel's calls are interfaces with their documented behaviour. The mutexes
    and the queues satisfy the laws of [OsalApi]; which of their answers are the
    documented ones is proved after them. *)

From S2P Require Import Prelude OsTypes Pthread OsalApi.

(** poski/osal/os_time.h *)
Definition POS_TIME_FOREVER : Z := 4294967295.
Definition POS_TIME_NO_WAIT : Z := 0.

(** * The kernel *)

Inductive k_timeout := K_FOREVER | K_NO_WAIT | K_MSEC (ms : Z) | K_TICKS (ticks : Z).

(** What a call that cannot be granted at once answers: it waits ([None]), or
    [-EAGAIN] when the waiting period ends, or [without] when it does not wait. *)
Definition k_denied `{Errno} {A} (tmo : k_timeout) (without : Z) (a : A) : option (Z * A) :=
  match tmo with
  | K_FOREVER => None
  | K_NO_WAIT => Some (- without, a)
  | K_MSEC _ | K_TICKS _ => Some (- EAGAIN, a)
  end.

Class ZMutexes (M : Type) := {
  k_mutex_init : M;
  k_mutex_lock : tid -> k_timeout -> M -> option (Z * M);
  k_mutex_unlock : tid -> M -> Z * M;
  z_holder : M -> option (tid * nat)
}.

Class ZMutexesLaws (M : Type) `{Errno, ZMutexes M} : Prop := {
  z_init_free : z_holder k_mutex_init = None;
  z_holder_pos : forall m t n, z_holder m = Some (t, n) -> (0 < n)%nat;
  z_lock_now : forall t tmo m, grantable t (z_holder m) = true ->
    exists m', k_mutex_lock t tmo m = Some (0, m') /\
      z_holder m' = Some (t, S (held_by t (z_holder m)));
  z_lock_held : forall t tmo m, grantable t (z_holder m) = false ->
    k_mutex_lock t tmo m = k_denied tmo EBUSY m;
  z_unlock_own : forall t m n, z_holder m = Some (t, S n) ->
    exists m', k_mutex_unlock t m = (0, m') /\ z_holder m' = release t n;
  z_unlock_other : forall t m, held_by t (z_holder m) = 0%nat ->
    exists e, k_mutex_unlock t m = (- e, m) /\ (e = EPERM \/ e = EINVAL)
}.

Class ZSemaphores (S : Type) := {
  K_SEM_MAX_LIMIT : Z;
  k_sem_init : Z -> Z -> S;
  k_sem_take : k_timeout -> S -> option (Z * S);
  k_sem_give : S -> S;
  k_sem_count : S -> Z;
  k_sem_limit : S -> Z
}.

Class ZSemaphoresLaws (S : Type) `{Errno, ZSemaphores S} : Prop := {
  z_sem_limit : 65535 <= K_SEM_MAX_LIMIT;
  z_sem_init : forall v max, 0 <= v <= max ->
    k_sem_count (k_sem_init v max) = v /\ k_sem_limit (k_sem_init v max) = max;
  z_sem_take_ok : forall tmo s, 0 < k_sem_count s -> exists s', k_sem_take tmo s = Some (0, s') /\
    k_sem_count s' = k_sem_count s - 1 /\ k_sem_limit s' = k_sem_limit s;
  z_sem_take_zero : forall tmo s, k_sem_count s = 0 -> k_sem_take tmo s = k_denied tmo EBUSY s;
  z_sem_give : forall s, k_sem_count (k_sem_give s) = Z.min (k_sem_limit s) (k_sem_count s + 1) /\
    k_sem_limit (k_sem_give s) = k_sem_limit s
}.

Class ZQueues (Q : Type) := {
  k_msgq_init : Z -> Z -> Q;
  k_msgq_get : k_timeout -> Q -> option (Z * option (list byte) * Q);
  k_msgq_put : list byte -> k_timeout -> Q -> option (Z * Q);
  k_msgq_num_used_get : Q -> Z;
  z_queue : Q -> Z * Z * list (list byte)   (* item size, capacity, items *)
}.

Class ZQueuesLaws (Q : Type) `{Errno, ZQueues Q} : Prop := {
  z_queue_init : forall size n, z_queue (k_msgq_init size n) = (size, n, []);
  z_queue_bound : forall q size n l, z_queue q = (size, n, l) -> 0 <= n ->
    Z.of_nat (length l) <= n;
  z_get_some : forall tmo q size n x l, z_queue q = (size, n, x :: l) ->
    exists q', k_msgq_get tmo q = Some (0, Some x, q') /\ z_queue q' = (size, n, l);
  z_get_none : forall tmo q size n, z_queue q = (size, n, []) ->
    k_msgq_get tmo q = (fun '(r, q) => (r, None, q)) <$> k_denied tmo ENOMSG q;
  z_put_room : forall item tmo q size n l, z_queue q = (size, n, l) ->
    size <= Z.of_nat (length item) -> Z.of_nat (length l) < n ->
    exists q', k_msgq_put item tmo q = Some (0, q') /\
      z_queue q' = (size, n, l ++ [take (Z.to_nat size) item]);
  z_put_full : forall item tmo q size n l, z_queue q = (size, n, l) -> Z.of_nat (length l) = n ->
    k_msgq_put item tmo q = k_denied tmo ENOMSG q;
  z_num_used : forall q size n l, z_queue q = (size, n, l) ->
    k_msgq_num_used_get q = Z.of_nat (length l)
}.

Section Zephyr.
Context `{Errno}.

(** * os_utils.c *)

Definition map_zephyr_to_osal_error (ret : Z) : pos_error :=
  if ret =? 0 then POS_OK
  else if ret =? - ENOMEM then POS_ENOMEM
  else if ret =? - EAGAIN then POS_TIMEOUT
  else if ret =? - EBUSY then POS_EBUSY
  else if ret =? - EINVAL then POS_EINVAL
  else POS_ERROR.

(** The conversion of timeouts, and of results, that the three files share. *)
Definition to_k_timeout (timeout : Z) : k_timeout :=
  if timeout =? POS_TIME_FOREVER then K_FOREVER
  else if timeout =? POS_TIME_NO_WAIT then K_NO_WAIT
  else K_MSEC timeout.

Definition of_k_error (err : Z) : pos_error :=
  if err =? 0 then POS_OK else if err =? - EAGAIN then POS_TIMEOUT else POS_ERROR.

(** * os_mutex.c *)
Section Mutex.
Context {M : Type} `{ZMutexes M}.

Definition pos_mutex_init (mutex : M) : pos_error * M := (POS_OK, k_mutex_init).

Definition pos_mutex_lock (t : tid) (timeout : Z) (mutex : M) : outcome (pos_error * M) :=
  let tmo := to_k_timeout timeout in
  do '(err, m) <- of_option Block (k_mutex_lock t tmo mutex);
  Ret (of_k_error err, m).

Definition pos_mutex_unlock (t : tid) (mutex : M) : pos_error * M :=
  let '(err, m) := k_mutex_unlock t mutex in
  (if err =? 0 then POS_OK else POS_ERROR, m).
End Mutex.

(** * os_sem.c *)
Section Semaphore.
Context {S : Type} `{ZSemaphores S}.

Definition pos_sem_init (tokens : Z) (sem : S) : pos_error * S :=
  (POS_OK, k_sem_init tokens K_SEM_MAX_LIMIT).

Definition pos_sem_take (timeout : Z) (sem : S) : outcome (pos_error * S) :=
  let tmo := to_k_timeout timeout in
  do '(err, s) <- of_option Block (k_sem_take tmo sem);
  Ret (of_k_error err, s).

Definition pos_sem_give (sem : S) : pos_error * S := (POS_OK, k_sem_give sem).
End Semaphore.

(** * os_queue.c *)
Section Queue.
Context {Q CB P : Type} `{ZQueues Q}.

(** [struct pos_queue]: the kernel's queue lives in the structure; [buffer] is
    null or the size of the block that [malloc] gave. *)
Record pos_queue := mkPosQueue {
  msgq : Q;
  buffer : option Z;
  sig_cb : option CB;
  sig_arg : option P
}.

(** The width of [size_t]; whether [malloc] finds room; and what a callback does
    to the queue. *)
Variable SIZE_WIDTH : Z.
Variable malloc : Z -> bool.
Variable invoke : CB -> option P -> pos_queue -> outcome pos_queue.

(** The product wraps in [size_t]: the block may then be smaller than the queue
    that is put in it. *)
Definition pos_queue_init (msg_size max_msgs : Z) (q : pos_queue) : pos_error * pos_queue :=
  let n := (msg_size * max_msgs) mod 2 ^ SIZE_WIDTH in
  if negb (malloc n) then (POS_ENOMEM, mkPosQueue (msgq q) None (sig_cb q) (sig_arg q))
  else (POS_OK, mkPosQueue (k_msgq_init msg_size max_msgs) (Some n) None None).

Definition with_msgq (m : Q) (q : pos_queue) : pos_queue :=
  mkPosQueue m (buffer q) (sig_cb q) (sig_arg q).

(** The error, what is written to [data], and the queue. *)
Definition pos_queue_get (timeout : Z) (q : pos_queue)
    : outcome (pos_error * option (list byte) * pos_queue) :=
  let tmo := to_k_timeout timeout in
  do '(err, data, m) <- of_option Block (k_msgq_get tmo (msgq q));
  Ret (of_k_error err, data, with_msgq m q).

Definition pos_queue_put (data : list byte) (q : pos_queue) : outcome (pos_error * pos_queue) :=
  do '(err, m) <- of_option Block (k_msgq_put data K_NO_WAIT (msgq q));
  let q := with_msgq m q in
  if err =? 0 then
    do q <- match sig_cb q with Some cb => invoke cb (sig_arg q) q | None => Ret q end;
    Ret (POS_OK, q)
  else Ret (if err =? - EAGAIN then POS_EBUSY else POS_ERROR, q).

Definition pos_queue_inited (q : pos_queue) : Z :=
  match buffer q with Some _ => 1 | None => 0 end.

Definition pos_queue_is_empty (q : pos_queue) : bool := k_msgq_num_used_get (msgq q) =? 0.

Definition pos_queue_set_signal_cb (signal_cb : option CB) (data : option P) (q : pos_queue) : pos_queue :=
  mkPosQueue (msgq q) (buffer q) signal_cb data.

Definition pos_queue_deinit (q : option pos_queue) : pos_error * option pos_queue :=
  match q with
  | Some q => (POS_OK, Some match buffer q with
                            | Some _ => mkPosQueue (msgq q) None (sig_cb q) (sig_arg q)
                            | None => q
                            end)
  | None => (POS_OK, None)
  end.
End Queue.

(** * Errors *)

Lemma opp_eqb a b : (- a =? - b) = (a =? b).
Proof. destruct (Z.eqb_spec a b), (Z.eqb_spec (- a) (- b)); lia. Qed.

Lemma opp_eqb_0 a : (- a =? 0) = (a =? 0).
Proof. exact (opp_eqb a 0). Qed.

Lemma of_k_error_opp e :
  of_k_error (- e) = if e =? 0 then POS_OK else if e =? EAGAIN then POS_TIMEOUT else POS_ERROR.
Proof. unfold of_k_error. by rewrite opp_eqb_0, opp_eqb. Qed.

Lemma of_k_EAGAIN : of_k_error (- EAGAIN) = POS_TIMEOUT.
Proof. rewrite of_k_error_opp. errno_cases. Qed.

Lemma of_k_EBUSY : of_k_error (- EBUSY) = POS_ERROR.
Proof. rewrite of_k_error_opp. errno_cases. Qed.

Lemma of_k_ENOMSG : of_k_error (- ENOMSG) = POS_ERROR.
Proof. rewrite of_k_error_opp. errno_cases. Qed.

Lemma opp_errno_nonzero e : e = EPERM \/ e = EINVAL -> (- e =? 0) = false.
Proof.
  rewrite opp_eqb_0. errno_distinct_facts. intros [-> | ->]; by errno_decide.
Qed.

Lemma map_zephyr_EBUSY : map_zephyr_to_osal_error (- EBUSY) = POS_EBUSY.
Proof.
  unfold map_zephyr_to_osal_error. rewrite opp_eqb_0, !opp_eqb.
  errno_distinct_facts. by errno_decide.
Qed.

(** What a denied call answers, for the API's timeouts. *)
Definition denied {A} (timeout : Z) (a : A) : outcome (pos_error * A) :=
  if timeout =? POS_TIME_FOREVER then Block
  else Ret (if timeout =? POS_TIME_NO_WAIT then POS_ERROR else POS_TIMEOUT, a).

Lemma denied_spec {A} timeout without (a : A) :
  without = EBUSY \/ without = ENOMSG ->
  (do '(err, a) <- of_option Block (k_denied (to_k_timeout timeout) without a);
   Ret (of_k_error err, a)) = denied timeout a.
Proof.
  intros Hw. unfold denied, to_k_timeout. destruct (timeout =? POS_TIME_FOREVER); [done|].
  destruct (timeout =? POS_TIME_NO_WAIT); simpl.
  - destruct Hw as [-> | ->]; by rewrite ?of_k_EBUSY, ?of_k_ENOMSG.
  - by rewrite of_k_EAGAIN.
Qed.

(** That is as the headers document unless the caller does not wait. *)
Lemma denied_documented {A} timeout (a : A) :
  answer_of (denied timeout a) = documented_answer POS_TIME_NO_WAIT POS_TIME_FOREVER timeout false <->
  timeout <> POS_TIME_NO_WAIT.
Proof.
  unfold denied, documented_answer. destruct (Z.eqb_spec timeout POS_TIME_NO_WAIT) as [->|Hne]; [done|].
  by destruct (timeout =? POS_TIME_FOREVER).
Qed.

(** * The mutex contract *)
Section MutexContract.
Context {M : Type} `{ZMutexes M}.

#[local] Instance zephyr_osal_mutex : OsalMutex M := {
  osal_mutex_init := fun m => Ret (pos_mutex_init m);
  osal_mutex_lock := pos_mutex_lock;
  osal_mutex_unlock := fun t m => Ret (pos_mutex_unlock t m);
  mutex_holder := z_holder;
  mutex_no_wait := POS_TIME_NO_WAIT;
  mutex_forever := POS_TIME_FOREVER
}.

Context `{!ZMutexesLaws M}.

Lemma zephyr_lock_spec t timeout m :
  if grantable t (z_holder m)
  then exists m', pos_mutex_lock t timeout m = Ret (POS_OK, m') /\
         z_holder m' = Some (t, S (held_by t (z_holder m)))
  else pos_mutex_lock t timeout m = denied timeout m.
Proof.
  destruct (grantable t (z_holder m)) eqn:Hg; unfold pos_mutex_lock.
  - destruct (z_lock_now t (to_k_timeout timeout) m Hg) as (m' & -> & ?). by exists m'.
  - rewrite z_lock_held by done. apply denied_spec. by left.
Qed.

Lemma denied_inv {A} timeout (a : A) e a' :
  denied timeout a = Ret (e, a') -> e <> POS_OK /\ a' = a.
Proof.
  unfold denied. destruct (timeout =? _); [done|]. intros [= <- <-]. by destruct (timeout =? _).
Qed.

Lemma zephyr_mutex_laws : OsalMutexLaws M.
Proof.
  split; simpl.
  - intros m m' [= <-]. apply z_init_free.
  - apply z_holder_pos.
  - intros t timeout m m' E. pose proof (zephyr_lock_spec t timeout m) as L.
    destruct (grantable t (z_holder m)).
    + destruct L as (m0 & E0 & ?). rewrite E in E0. injection E0 as <-. done.
    + rewrite E in L. symmetry in L. apply denied_inv in L as [? _]. done.
  - intros t timeout m e m' E He. pose proof (zephyr_lock_spec t timeout m) as L.
    destruct (grantable t (z_holder m)).
    + destruct L as (m0 & E0 & ?). rewrite E in E0. injection E0 as -> ->. done.
    + rewrite E in L. symmetry in L. by apply denied_inv in L as [_ ->].
  - intros t m Hh. pose proof (zephyr_lock_spec t POS_TIME_FOREVER m) as L. rewrite Hh in L.
    destruct L as (m' & ? & _). by exists m'.
  - intros t m n Hh. unfold pos_mutex_unlock. destruct (z_unlock_own t m n Hh) as (m' & -> & ?).
    by exists m'.
  - intros t m Hh. unfold pos_mutex_unlock. destruct (z_unlock_other t m Hh) as (e & -> & He).
    rewrite opp_errno_nonzero by done. by exists POS_ERROR, m.
Qed.

Lemma zephyr_lock_documented t timeout m :
  lock_documented t timeout m <-> grantable t (z_holder m) = true \/ timeout <> POS_TIME_NO_WAIT.
Proof.
  pose proof (zephyr_lock_spec t timeout m) as L. unfold lock_documented. simpl.
  destruct (grantable t (z_holder m)).
  - destruct L as (m' & -> & _). split; [by left|done].
  - rewrite L, denied_documented. split; [by right|]. by intros [|].
Qed.
End MutexContract.

(** * The semaphores *)
Section SemaphoreContract.
Context {S : Type} `{ZSemaphores S, !ZSemaphoresLaws S}.

Lemma zephyr_take_shape timeout (s : S) :
  0 <= k_sem_count s ->
  if 0 <? k_sem_count s
  then exists s', pos_sem_take timeout s = Ret (POS_OK, s') /\ k_sem_count s' = k_sem_count s - 1
  else pos_sem_take timeout s = denied timeout s.
Proof.
  intros Hc. unfold pos_sem_take. destruct (Z.ltb_spec 0 (k_sem_count s)) as [Hp|Hz].
  - destruct (z_sem_take_ok (to_k_timeout timeout) s Hp) as (s' & -> & Hs & _). by exists s'.
  - rewrite z_sem_take_zero by lia. apply denied_spec. by left.
Qed.

Lemma zephyr_take_documented timeout (s : S) :
  0 <= k_sem_count s ->
  answer_of (pos_sem_take timeout s) =
    documented_answer POS_TIME_NO_WAIT POS_TIME_FOREVER timeout (0 <? k_sem_count s) <->
  0 < k_sem_count s \/ timeout <> POS_TIME_NO_WAIT.
Proof.
  intros Hc. pose proof (zephyr_take_shape timeout s Hc) as Hs.
  destruct (Z.ltb_spec 0 (k_sem_count s)) as [Hp|Hz].
  - destruct Hs as (s' & -> & _). split; [by left|done].
  - rewrite Hs, denied_documented. split; [by right|]. intros [|]; [lia|done].
Qed.

(** A give is skipped at the limit, as os_sem.h says. *)
Lemma zephyr_give_effect (s : S) :
  (pos_sem_give s).1 = POS_OK /\
  k_sem_count (pos_sem_give s).2 = Z.min (k_sem_count s + 1) (k_sem_limit s).
Proof. simpl. destruct (z_sem_give s) as [-> _]. split; [done|]. lia. Qed.
End SemaphoreContract.

(** * The queue contract *)
Section QueueContract.
Context {Q CB P : Type} `{ZQueues Q}.
Variable SIZE_WIDTH : Z.
Variable malloc : Z -> bool.
Variable invoke : CB -> option P -> @pos_queue Q CB P -> outcome (@pos_queue Q CB P).

#[local] Instance zephyr_osal_queue : OsalQueue (@pos_queue Q CB P) := {
  osal_queue_init := fun size n q => Ret (pos_queue_init SIZE_WIDTH malloc size n q);
  osal_queue_put := fun _ => pos_queue_put invoke;
  osal_queue_get := fun _ => pos_queue_get;
  osal_queue_inited := pos_queue_inited;
  osal_queue_deinit := fun q => let '(e, q') := pos_queue_deinit (Some q) in Ret (e, default q q');
  queue_view := fun q => match buffer q with Some _ => Some (z_queue (msgq q)) | None => None end;
  queue_ok := fun q => 0 <= (z_queue (msgq q)).1.2 \/ buffer q = None;
  queue_no_wait := POS_TIME_NO_WAIT;
  queue_forever := POS_TIME_FOREVER
}.

#[local] Instance zephyr_osal_queue_probe : OsalQueueProbe (@pos_queue Q CB P) := {
  osal_queue_is_empty := fun _ q => Ret (pos_queue_is_empty q, q)
}.

#[local] Instance zephyr_osal_queue_signal : OsalQueueSignal (@pos_queue Q CB P) CB P := {
  osal_queue_set_signal_cb := pos_queue_set_signal_cb
}.

Context `{!ZQueuesLaws Q}.

Lemma zephyr_get_none timeout (q : @pos_queue Q CB P) size n :
  z_queue (msgq q) = (size, n, []) ->
  pos_queue_get timeout q =
    if timeout =? POS_TIME_FOREVER then Block
    else Ret (if timeout =? POS_TIME_NO_WAIT then POS_ERROR else POS_TIMEOUT, None, q).
Proof.
  intros Hq. unfold pos_queue_get. rewrite (z_get_none _ _ _ _ Hq). unfold to_k_timeout.
  destruct q as [m b cb a]. simpl.
  destruct (timeout =? POS_TIME_FOREVER); [done|].
  destruct (timeout =? POS_TIME_NO_WAIT); simpl; by rewrite ?of_k_ENOMSG, ?of_k_EAGAIN.
Qed.

Lemma zephyr_put_full item (q : @pos_queue Q CB P) size n l :
  z_queue (msgq q) = (size, n, l) -> Z.of_nat (length l) = n ->
  pos_queue_put invoke item q = Ret (POS_ERROR, q).
Proof.
  intros Hq Hl. unfold pos_queue_put. rewrite (z_put_full _ _ _ _ _ _ Hq Hl). simpl.
  rewrite opp_eqb_0, opp_eqb. errno_distinct_facts. errno_decide. by destruct q.
Qed.

Ltac open_queue q Hv :=
  destruct (buffer q) as [b|] eqn:Hb; [|done]; injection Hv as Hv.

Lemma zephyr_queue_laws : (forall cb a q, invoke cb a q = Ret q) -> OsalQueueLaws (@pos_queue Q CB P).
Proof.
  intros Hinv. split; simpl.
  - intros size n q q' Hs Hn. unfold pos_queue_init. destruct (malloc _); [|done]. simpl.
    intros [= <-]. simpl. rewrite z_queue_init. simpl. destruct Hn. auto.
  - intros _ item q size n l Hok Hv Hi Hl. open_queue q Hv. unfold pos_queue_put.
    destruct (z_put_room item K_NO_WAIT _ _ _ _ Hv Hi Hl) as (m & -> & Hm). simpl.
    exists (with_msgq m q). split.
    + destruct (sig_cb q); simpl; by rewrite ?Hinv.
    + simpl. rewrite Hm, Hb. simpl. split; [|done]. left. lia.
  - intros _ item q size n l e q' Hok Hv Hi Hl. open_queue q Hv.
    rewrite (zephyr_put_full item q size n l Hv Hl). intros [= <- <-]. rewrite Hb, Hv in *. by split_and!.
  - intros q size n l Hok Hv. open_queue q Hv. apply (z_queue_bound (msgq q) size n l Hv).
    destruct Hok as [Hok|]; [|done]. by rewrite Hv in Hok.
  - intros _ timeout q size n x l Hok Hv. open_queue q Hv. unfold pos_queue_get.
    destruct (z_get_some (to_k_timeout timeout) _ _ _ _ _ Hv) as (m & -> & Hm). simpl.
    eexists. split; [done|]. simpl. rewrite Hm, Hb. split; [|done]. left.
    destruct Hok as [Hok|]; [|done]. by rewrite Hv in Hok.
  - intros _ timeout q size n e d q' Hok Hv. open_queue q Hv.
    rewrite (zephyr_get_none timeout q size n Hv). destruct (timeout =? _); [done|].
    intros [= <- <- <-]. rewrite Hb, Hv in *. split_and!; try done. by destruct (timeout =? _).
  - intros q _. destruct (buffer q) eqn:Hb; eexists; (split; [done|]); simpl; rewrite ?Hb; auto.
Qed.

Lemma zephyr_queue_probe_laws : OsalQueueProbeLaws (@pos_queue Q CB P).
Proof.
  split. simpl. intros _ q size n l Hok Hv. open_queue q Hv. unfold pos_queue_is_empty.
  rewrite (z_num_used _ _ _ _ Hv). exists q. split; [|by rewrite Hb].
  do 2 f_equal. case_bool_decide; by destruct l.
Qed.

Lemma zephyr_queue_signal_laws : OsalQueueSignalLaws (@pos_queue Q CB P) CB P.
Proof. by split. Qed.

Lemma zephyr_get_documented t timeout (q : @pos_queue Q CB P) size n l :
  queue_view q = Some (size, n, l) ->
  get_documented t timeout q <-> l <> [] \/ timeout <> POS_TIME_NO_WAIT.
Proof.
  simpl. intros Hv. unfold get_documented. cbn -[pos_queue_get]. rewrite Hv. open_queue q Hv.
  destruct l as [|x l].
  - rewrite (zephyr_get_none timeout q size n Hv).
    assert (answer_of (do '(e, _, s) <- (if timeout =? POS_TIME_FOREVER then Block
      else Ret (if timeout =? POS_TIME_NO_WAIT then POS_ERROR else POS_TIMEOUT, None (A := list byte), q));
      Ret (e, s)) = answer_of (denied timeout q)) as ->
      by (unfold denied; by destruct (timeout =? POS_TIME_FOREVER)).
    rewrite <- (denied_documented timeout q). split.
    + intros Hd. right. exact (Hd size n [] eq_refl).
    + intros [|Hd]; [done|]. by intros ? ? ? [= <- <- <-].
  - split; [by left|]. intros _ ? ? ? [= <- <- <-]. unfold pos_queue_get.
    by destruct (z_get_some (to_k_timeout timeout) _ _ _ _ _ Hv) as (m & -> & _).
Qed.

Lemma zephyr_put_documented t item (q : @pos_queue Q CB P) size n l :
  (forall cb a q, invoke cb a q = Ret q) -> queue_ok q -> queue_view q = Some (size, n, l) ->
  size <= Z.of_nat (length item) ->
  put_documented t item q <-> Z.of_nat (length l) < n.
Proof.
  intros Hinv Hok Hv Hi. pose proof (zephyr_queue_laws Hinv).
  split; [|by apply (put_documented_room t item q size n l)].
  intros Hd. specialize (Hd size n l Hv Hi). pose proof (queue_view_bound _ _ _ _ Hok Hv).
  destruct (Z.ltb_spec (Z.of_nat (length l)) n) as [|Hge]; [done|]. exfalso.
  simpl in Hv. open_queue q Hv. destruct Hd as (e & q' & E & He & _). cbn -[pos_queue_put] in E.
  rewrite (zephyr_put_full item q size n l Hv) in E by lia. injection E as <- _. by destruct He.
Qed.

Lemma zephyr_inited_boolean (q : @pos_queue Q CB P) : inited_boolean q.
Proof. unfold inited_boolean. simpl. unfold pos_queue_inited. by destruct (buffer q). Qed.

(** What the calls answer when they do not wait. The header documents
    POS_EBUSY, and the port has a mapping that gives it, but never uses it: a
    mutex held by another task, an empty semaphore, an empty queue and a full
    queue are all reported as POS_ERROR. *)
Theorem zephyr_no_wait {M S : Type} `{ZMutexes M, !ZMutexesLaws M, ZSemaphores S, !ZSemaphoresLaws S}
    t (mu : M) (sem : S) item (qe qf : @pos_queue Q CB P) size n l :
  grantable t (z_holder mu) = false -> k_sem_count sem = 0 ->
  z_queue (msgq qe) = (size, n, []) ->
  z_queue (msgq qf) = (size, n, l) -> Z.of_nat (length l) = n ->
  pos_mutex_lock t POS_TIME_NO_WAIT mu = Ret (POS_ERROR, mu) /\
  pos_sem_take POS_TIME_NO_WAIT sem = Ret (POS_ERROR, sem) /\
  pos_queue_get POS_TIME_NO_WAIT qe = Ret (POS_ERROR, None, qe) /\
  pos_queue_put invoke item qf = Ret (POS_ERROR, qf) /\
  map_zephyr_to_osal_error (- EBUSY) = POS_EBUSY.
Proof.
  intros Hmu Hsem Hqe Hqf Hl. split_and!.
  - pose proof (zephyr_lock_spec t POS_TIME_NO_WAIT mu) as L. by rewrite Hmu in L.
  - unfold pos_sem_take. rewrite z_sem_take_zero by done. rewrite denied_spec by (by left). done.
  - by rewrite (zephyr_get_none _ _ _ _ Hqe).
  - by apply (zephyr_put_full _ _ size n l).
  - apply map_zephyr_EBUSY.
Qed.
End QueueContract.

(** A give at the limit is reported as one that worked. *)
Lemma zephyr_sem_give_full {S : Type} `{ZSemaphores S, !ZSemaphoresLaws S} (sem : S) :
  k_sem_count sem = k_sem_limit sem ->
  (pos_sem_give sem).1 = POS_OK /\ k_sem_count (pos_sem_give sem).2 = k_sem_count sem.
Proof.
  intros Hf. simpl. destruct (z_sem_give sem) as [Hg _]. split; [done|]. lia.
Qed.
End Zephyr.

(** * Witnesses over reference kernels *)

Section Witness.
#[local] Existing Instance linux_errno.

#[local] Instance demo_z_mutexes : ZMutexes ref_mutex := {
  k_mutex_init := None;
  k_mutex_lock t tmo m :=
    match ref_lock t m with Some r => Some r | None => k_denied tmo EBUSY m end;
  k_mutex_unlock t m := let '(r, m) := ref_unlock t m in (- r, m);
  z_holder := ref_holder
}.

#[local] Instance demo_z_mutexes_laws : ZMutexesLaws ref_mutex.
Proof.
  split; simpl; unfold ref_lock, ref_unlock, held_by, grantable.
  - done.
  - intros [[t' k]|] t n; [|done]. intros [= <- <-]. lia.
  - intros t tmo [[t' k]|]; simpl; [|by eexists]. intros ->%bool_decide_eq_true.
    rewrite !decide_True by done. by eexists.
  - intros t tmo [[t' k]|]; simpl; [|done]. intros Hne%bool_decide_eq_false.
    by rewrite decide_False.
  - intros t [[t' k]|] n; [|done]. simpl. intros [= -> ->]. rewrite decide_True by done.
    eexists. split; [done|]. by destruct n.
  - intros t [[t' k]|]; simpl; [|by exists EPERM; auto]. case_decide; [done|]. exists EPERM. auto.
Qed.

(** A semaphore: the tokens and the room for more. *)
Definition demo_z_sem : Type := nat * nat.

#[local] Instance demo_z_semaphores : ZSemaphores demo_z_sem := {
  K_SEM_MAX_LIMIT := 4294967295;
  k_sem_init v max := (Z.to_nat v, Z.to_nat (max - v));
  k_sem_take tmo s := match s with (S n, m) => Some (0, (n, S m)) | _ => k_denied tmo EBUSY s end;
  k_sem_give s := match s with (n, S m) => (S n, m) | _ => s end;
  k_sem_count s := Z.of_nat s.1;
  k_sem_limit s := Z.of_nat s.1 + Z.of_nat s.2
}.

#[local] Instance demo_z_semaphores_laws : ZSemaphoresLaws demo_z_sem.
Proof.
  split; simpl.
  - lia.
  - intros v max Hv. lia.
  - intros tmo [[|n] m]; simpl; [lia|]. intros _. eexists. split; [done|]. simpl. lia.
  - intros tmo [[|n] m]; simpl; [done|lia].
  - intros [n [|m]]; simpl; lia.
Qed.

(** A queue: the item size, the capacity and the items (as many as fit). *)
Definition demo_z_queue : Type := Z * Z * list (list byte).

Definition demo_items (q : demo_z_queue) : list (list byte) := take (Z.to_nat q.1.2) q.2.

#[local] Instance demo_z_queues : ZQueues demo_z_queue := {
  k_msgq_init size n := (size, n, []);
  k_msgq_get tmo q :=
    match demo_items q with
    | x :: l => Some (0, Some x, (q.1, l))
    | [] => (fun '(r, q) => (r, None, q)) <$> k_denied tmo ENOMSG q
    end;
  k_msgq_put item tmo q :=
    if Z.of_nat (length (demo_items q)) <? q.1.2
    then Some (0, (q.1, demo_items q ++ [take (Z.to_nat q.1.1) item]))
    else k_denied tmo ENOMSG q;
  k_msgq_num_used_get q := Z.of_nat (length (demo_items q));
  z_queue q := (q.1, demo_items q)
}.

#[local] Instance demo_z_queues_laws : ZQueuesLaws demo_z_queue.
Proof.
  split; simpl; unfold demo_items; simpl.
  - intros size n. by rewrite take_nil.
  - intros [[s m] k] size n l [= <- <- <-] Hn. simpl. rewrite length_take. lia.
  - intros tmo [[s m] k] size n x l [= -> -> E]. simpl in *. rewrite E. eexists. split; [done|].
    simpl. rewrite take_ge; [done|]. assert (length (x :: l) <= Z.to_nat n)%nat as Hle.
    { rewrite <- E, length_take. lia. } simpl in Hle. lia.
  - intros tmo [[s m] k] size n [= -> -> E]. simpl in *. by rewrite E.
  - intros item tmo [[s m] k] size n l [= -> -> E] _ Hl. simpl in *. rewrite E.
    rewrite (proj2 (Z.ltb_lt _ _)) by done. eexists. split; [done|].
    simpl. rewrite take_ge; [done|]. rewrite length_app. simpl. lia.
  - intros item tmo [[s m] k] size n l [= -> -> E] Hl. simpl in *. rewrite E.
    by rewrite (proj2 (Z.ltb_ge _ _)) by lia.
  - by intros [[s m] k] size n l [= -> -> <-].
Qed.

Definition demo_z_invoke (cb : unit) (arg : option unit) (q : @pos_queue demo_z_queue unit unit)
    : outcome (@pos_queue demo_z_queue unit unit) := Ret q.

Example zephyr_no_wait_witness :
  let mu : ref_mutex := Some (1%nat, 0%nat) in
  let sem : demo_z_sem := (0%nat, 5%nat) in
  let qe := mkPosQueue ((1, 1, []) : demo_z_queue) (Some 1) (None : option unit) (None : option unit) in
  let qf := mkPosQueue ((1, 1, [[x01]]) : demo_z_queue) (Some 1) (None : option unit) (None : option unit) in
  pos_mutex_lock 2 POS_TIME_NO_WAIT mu = Ret (POS_ERROR, mu) /\
  pos_sem_take POS_TIME_NO_WAIT sem = Ret (POS_ERROR, sem) /\
  pos_queue_get POS_TIME_NO_WAIT qe = Ret (POS_ERROR, None, qe) /\
  pos_queue_put demo_z_invoke [x02] qf = Ret (POS_ERROR, qf) /\
  map_zephyr_to_osal_error (- EBUSY) = POS_EBUSY.
Proof.
  intros mu sem qe qf.
  exact (zephyr_no_wait demo_z_invoke 2%nat mu sem [x02] qe qf 1 1 [[x01]]
           eq_refl eq_refl eq_refl eq_refl eq_refl).
Defined.
End Witness.
