(* ===== verification/ZephyrQueueThreads.v ===== *)
(** targets/zephyr/os_queue.c, statement by statement, shared by threads. The
    kernel's message queue is atomic, but its buffer is memory that
    [pos_queue_deinit] frees, and the signal callback is read twice after the
    message has been put, and written in two statements. *)

From S2P Require Import Prelude OsTypes Pthread OsalApi Zephyr.

(** Inside a function of os_queue.c, at the statement that comes next. *)
Inductive zqposition (CB P : Type) :=
| PutKernel (data : list byte)                    (* err = k_msgq_put(&msgq->msgq, data, K_NO_WAIT) *)
| PutTest                                         (* if (msgq->sig_cb) *)
| PutInvoke                                       (* msgq->sig_cb(msgq->sig_arg) *)
| GetKernel (timeout : Z)                         (* err = k_msgq_get(&msgq->msgq, data, tmo) *)
| SetCb (cb : option CB) (data : option P)        (* msgq->sig_cb = signal_cb *)
| SetArg (data : option P)                        (* msgq->sig_arg = data *)
| DeinitTest                                      (* if (msgq && msgq->buffer) *)
| DeinitFree                                      (* free(msgq->buffer) *)
| DeinitClear.                                    (* msgq->buffer = NULL *)
Arguments PutKernel {CB P} data.
Arguments PutTest {CB P}.
Arguments PutInvoke {CB P}.
Arguments GetKernel {CB P} timeout.
Arguments SetCb {CB P} cb data.
Arguments SetArg {CB P} data.
Arguments DeinitTest {CB P}.
Arguments DeinitFree {CB P}.
Arguments DeinitClear {CB P}.

(** The structure, whose kernel queue is set up on the buffer; whether the
    buffer has been freed; the threads inside; and, for the statements below,
    the messages the kernel took, the answers of the puts, the answers of the
    gets with what they delivered, and the calls of the callback. *)
Record zqconfig (Q CB P : Type) := mkZQConfig {
  zq : @pos_queue Q CB P;
  freed : bool;
  zqthreads : gmap tid (zqposition CB P);
  taken : list (list byte);
  put_answers : list pos_error;
  got : list (pos_error * option (list byte));
  zsignals : list (CB * option P);
  zunsignalled : nat
}.
Arguments mkZQConfig {Q CB P} zq freed zqthreads taken put_answers got zsignals zunsignalled.
Arguments zq {Q CB P} z.
Arguments freed {Q CB P} z.
Arguments zqthreads {Q CB P} z.
Arguments taken {Q CB P} z.
Arguments put_answers {Q CB P} z.
Arguments got {Q CB P} z.
Arguments zsignals {Q CB P} z.
Arguments zunsignalled {Q CB P} z.

(** A thread calls a function, which begins at a statement, or goes on. *)
Inductive zqmove (CB P : Type) :=
| ZPutCall (t : tid) (data : list byte)
| ZGetCall (t : tid) (timeout : Z)
| ZSetCall (t : tid) (cb : option CB) (data : option P)
| ZDeinitCall (t : tid)
| ZStep (t : tid).
Arguments ZPutCall {CB P} t data.
Arguments ZGetCall {CB P} t timeout.
Arguments ZSetCall {CB P} t cb data.
Arguments ZDeinitCall {CB P} t.
Arguments ZStep {CB P} t.

Section ZephyrQueueThreads.
Context {Q CB P : Type} `{Errno, ZQueues Q}.

Abbreviation zqcfg := (zqconfig Q CB P).

Definition with_zq (q : @pos_queue Q CB P) (c : zqcfg) : zqcfg :=
  mkZQConfig q (freed c) (zqthreads c) (taken c) (put_answers c) (got c) (zsignals c) (zunsignalled c).
Definition with_zqthreads (th : gmap tid (zqposition CB P)) (c : zqcfg) : zqcfg :=
  mkZQConfig (zq c) (freed c) th (taken c) (put_answers c) (got c) (zsignals c) (zunsignalled c).
Definition with_taken (l : list (list byte)) (c : zqcfg) : zqcfg :=
  mkZQConfig (zq c) (freed c) (zqthreads c) l (put_answers c) (got c) (zsignals c) (zunsignalled c).
Definition with_zsignals (l : list (CB * option P)) (n : nat) (c : zqcfg) : zqcfg :=
  mkZQConfig (zq c) (freed c) (zqthreads c) (taken c) (put_answers c) (got c) l n.

Definition zq_at (t : tid) (p : zqposition CB P) (c : zqcfg) : zqcfg :=
  with_zqthreads (<[t := p]> (zqthreads c)) c.
Definition zq_leave (t : tid) (c : zqcfg) : zqcfg := with_zqthreads (delete t (zqthreads c)) c.
(** [return err] of a put, and of a get *)
Definition zq_put_return (t : tid) (err : pos_error) (c : zqcfg) : zqcfg :=
  mkZQConfig (zq c) (freed c) (delete t (zqthreads c)) (taken c) (put_answers c ++ [err]) (got c)
    (zsignals c) (zunsignalled c).
Definition zq_get_return (t : tid) (err : pos_error) (data : option (list byte)) (c : zqcfg) : zqcfg :=
  mkZQConfig (zq c) (freed c) (delete t (zqthreads c)) (taken c) (put_answers c) (got c ++ [(err, data)])
    (zsignals c) (zunsignalled c).

(** The next statement of thread [t]; [None] while it waits. Using the kernel's
    queue on a freed buffer, freeing it again and calling a null pointer have no
    defined behaviour. *)
Definition zq_run (t : tid) (p : zqposition CB P) (c : zqcfg) : option (outcome zqcfg) :=
  match p with
  | PutKernel data =>
      if freed c then Some Undef else
      match k_msgq_put data K_NO_WAIT (msgq (zq c)) with
      | Some (err, m) =>
          let c := with_zq (with_msgq m (zq c)) c in
          Some (Ret (if err =? 0
                     then zq_at t PutTest
                            (with_taken (taken c ++ [take (Z.to_nat (z_queue m).1.1) data]) c)
                     else zq_put_return t (if err =? - EAGAIN then POS_EBUSY else POS_ERROR) c))
      | None => None
      end
  | PutTest => Some (Ret
      match sig_cb (zq c) with
      | Some _ => zq_at t PutInvoke c
      | None => zq_put_return t POS_OK (with_zsignals (zsignals c) (S (zunsignalled c)) c)
      end)
  | PutInvoke => Some
      (do cb <- deref (sig_cb (zq c));
       Ret (zq_put_return t POS_OK (with_zsignals (zsignals c ++ [(cb, sig_arg (zq c))]) (zunsignalled c) c)))
  | GetKernel timeout =>
      if freed c then Some Undef else
      match k_msgq_get (to_k_timeout timeout) (msgq (zq c)) with
      | Some (err, data, m) =>
          let c := with_zq (with_msgq m (zq c)) c in
          Some (Ret (zq_get_return t (of_k_error err) data c))
      | None => None
      end
  | SetCb cb data => Some (Ret (zq_at t (SetArg data)
      (with_zq (mkPosQueue (msgq (zq c)) (buffer (zq c)) cb (sig_arg (zq c))) c)))
  | SetArg data => Some (Ret (zq_leave t
      (with_zq (mkPosQueue (msgq (zq c)) (buffer (zq c)) (sig_cb (zq c)) data) c)))
  | DeinitTest => Some (Ret match buffer (zq c) with Some _ => zq_at t DeinitFree c | None => zq_leave t c end)
  | DeinitFree =>
      if freed c then Some Undef else Some (Ret (zq_at t DeinitClear
        (mkZQConfig (zq c) true (zqthreads c) (taken c) (put_answers c) (got c) (zsignals c) (zunsignalled c))))
  | DeinitClear => Some (Ret (zq_leave t
      (with_zq (mkPosQueue (msgq (zq c)) None (sig_cb (zq c)) (sig_arg (zq c))) c)))
  end.

Definition zq_enter (t : tid) (p : zqposition CB P) (c : zqcfg) : option (outcome zqcfg) :=
  match zqthreads c !! t with None => Some (Ret (zq_at t p c)) | Some _ => None end.

Definition zq_exec (mv : zqmove CB P) (c : zqcfg) : option (outcome zqcfg) :=
  match mv with
  | ZPutCall t data => zq_enter t (PutKernel data) c
  | ZGetCall t timeout => zq_enter t (GetKernel timeout) c
  | ZSetCall t cb data => zq_enter t (SetCb cb data) c
  | ZDeinitCall t => zq_enter t DeinitTest c
  | ZStep t => match zqthreads c !! t with Some p => zq_run t p c | None => None end
  end.

Fixpoint zq_exec_all (mvs : list (zqmove CB P)) (c : zqcfg) : option (outcome zqcfg) :=
  match mvs with
  | [] => Some (Ret c)
  | mv :: mvs =>
      match zq_exec mv c with
      | Some (Ret c') => zq_exec_all mvs c'
      | r => r
      end
  end.

(** A queue for items of [size] bytes, with no thread inside. *)
Definition zq_init (q : @pos_queue Q CB P) : zqcfg := mkZQConfig q false ∅ [] [] [] [] 0%nat.

(** Every message is as long as the items of the queue. *)
Definition sized (size : Z) (mv : zqmove CB P) : Prop :=
  match mv with ZPutCall _ data => Z.of_nat (length data) = size | _ => True end.

(** The threads that put a message and have not come to the callback yet. *)
Definition announcing (p : zqposition CB P) : nat :=
  match p with PutTest | PutInvoke => 1 | _ => 0 end.

Definition count_ok (l : list pos_error) : nat := length (filter (fun e => e = POS_OK) l).

Inductive zq_reachable (ok : zqmove CB P -> zqcfg -> Prop) (c0 : zqcfg) : zqcfg -> Prop :=
| zq_reach_init : zq_reachable ok c0 c0
| zq_reach_step c mv c' :
    zq_reachable ok c0 c -> ok mv c -> zq_exec mv c = Some (Ret c') -> zq_reachable ok c0 c'.

Context `{!ZQueuesLaws Q}.

(** * One call alone *)

Lemma zq_exec_all_app mvs1 mvs2 c c1 :
  zq_exec_all mvs1 c = Some (Ret c1) -> zq_exec_all (mvs1 ++ mvs2) c = zq_exec_all mvs2 c1.
Proof.
  revert c. induction mvs1 as [|mv mvs1 IH]; intros c; simpl; [by intros [= ->]|].
  destruct (zq_exec mv c) as [[c2| | | |]|]; try done. apply IH.
Qed.

(** A put or a get with no other statement in between, whose callback leaves the
    queue alone, is the function of Zephyr. *)
Lemma zq_put_is_run t data c err q' :
  zqthreads c !! t = None -> freed c = false ->
  pos_queue_put (fun _ _ q => Ret q) data (zq c) = Ret (err, q') ->
  exists n c', zq_exec_all (ZPutCall t data :: replicate n (ZStep t)) c = Some (Ret c') /\
    zq c' = q' /\ zqthreads c' = zqthreads c /\ put_answers c' = put_answers c ++ [err].
Proof.
  destruct c as [q fr th l1 l2 l3 l4 n]. simpl. intros Ht -> E.
  apply obind_ret_inv in E as ([e m] & Em & E). unfold of_option in Em.
  destruct (k_msgq_put data K_NO_WAIT (msgq q)) as [[e' m']|] eqn:Ek; [injection Em as -> ->|done].
  destruct (e =? 0) eqn:He.
  - simpl in E. exists (match sig_cb q with Some _ => 3 | None => 2 end)%nat.
    destruct (sig_cb q) as [cb|] eqn:Hcb; simpl in E; injection E as <- <-;
      do 7 (simpl; unfold zq_enter; simpl; rewrite ?Ht, ?lookup_insert_eq, ?Ek, ?He, ?Hcb; simpl);
      (eexists; split; [reflexivity|]; simpl; by rewrite ?insert_insert_eq, ?delete_insert_eq, ?delete_id).
  - injection E as <- <-. exists 1%nat. simpl. unfold zq_enter. simpl. rewrite Ht. simpl. rewrite lookup_insert_eq. simpl. rewrite Ek, He.
    eexists. split; [reflexivity|]. simpl. by rewrite delete_insert_eq, delete_id.
Qed.

Lemma zq_get_is_run t timeout c err data q' :
  zqthreads c !! t = None -> freed c = false ->
  pos_queue_get timeout (zq c) = Ret (err, data, q') ->
  exists c', zq_exec_all [ZGetCall t timeout; ZStep t] c = Some (Ret c') /\
    zq c' = q' /\ zqthreads c' = zqthreads c /\ got c' = got c ++ [(err, data)].
Proof.
  destruct c as [q fr th l1 l2 l3 l4 n]. simpl. intros Ht -> E. unfold zq_enter. simpl. rewrite Ht. simpl. rewrite lookup_insert_eq. simpl.
  apply obind_ret_inv in E as ([[e d] m] & Em & [= <- <- <-]). unfold of_option in Em.
  destruct (k_msgq_get (to_k_timeout timeout) (msgq q)) as [[[e' d'] m']|]; [injection Em as -> -> ->|done].
  eexists. split; [reflexivity|]. simpl. by rewrite delete_insert_eq, delete_id.
Qed.

(** * The invariant *)

Record zq_inv (size n : Z) (c : zqcfg) : Prop := {
  zqi_fifo : exists l, z_queue (msgq (zq c)) = (size, n, l) /\ taken c = omap snd (got c) ++ l;
  zqi_got : forall e d, (e, d) ∈ got c -> e = POS_OK <-> is_Some d;
  zqi_taken : length (taken c) = (count_ok (put_answers c) + msum announcing (zqthreads c))%nat;
  zqi_signals : count_ok (put_answers c) = (length (zsignals c) + zunsignalled c)%nat;
  zqi_sized : forall t data, zqthreads c !! t = Some (PutKernel data) -> Z.of_nat (length data) = size
}.

(** What the kernel answers to a put. *)
Lemma z_put_cases data q size n l :
  z_queue q = (size, n, l) -> 0 <= n -> Z.of_nat (length data) = size ->
  exists err m, k_msgq_put data K_NO_WAIT q = Some (err, m) /\
    ((err = 0 /\ z_queue m = (size, n, l ++ [data])) \/
     ((err =? 0) = false /\ (err =? - EAGAIN) = false /\ z_queue m = (size, n, l))).
Proof.
  intros Hq Hn Hd. pose proof (z_queue_bound _ _ _ _ Hq Hn) as Hle.
  destruct (decide (Z.of_nat (length l) < n)) as [Hlt|Hge].
  - destruct (z_put_room data K_NO_WAIT q size n l Hq) as (m & E & Hm); [lia|done|].
    exists 0, m. split; [done|]. left. split; [done|]. rewrite Hm, take_ge; [done|lia].
  - exists (- ENOMSG), q. rewrite (z_put_full data K_NO_WAIT q size n l Hq) by lia. split; [done|]. right.
    rewrite opp_eqb_0, opp_eqb. errno_distinct_facts. errno_decide. done.
Qed.

(** And to a get. *)
Lemma z_get_cases timeout q size n l :
  z_queue q = (size, n, l) ->
  match k_msgq_get (to_k_timeout timeout) q with
  | Some (err, data, m) =>
      (of_k_error err = POS_OK <-> is_Some data) /\
      exists l', z_queue m = (size, n, l') /\ l = match data with Some x => [x] | None => [] end ++ l'
  | None => timeout = POS_TIME_FOREVER /\ l = []
  end.
Proof.
  intros Hq. destruct l as [|x l].
  - rewrite (z_get_none _ _ _ _ Hq). unfold to_k_timeout.
    destruct (Z.eqb_spec timeout POS_TIME_FOREVER) as [->|]; [done|].
    destruct (timeout =? POS_TIME_NO_WAIT); simpl; rewrite ?of_k_ENOMSG, ?of_k_EAGAIN;
      (split; [split; [done|by intros [? ?]] | by exists []]).
  - destruct (z_get_some (to_k_timeout timeout) q size n x l Hq) as (m & -> & Hm).
    split; [split; [by eexists|done]|]. by exists l.
Qed.

Lemma count_ok_app l e : count_ok (l ++ [e]) = (count_ok l + if decide (e = POS_OK) then 1 else 0)%nat.
Proof.
  unfold count_ok. rewrite filter_app, length_app, filter_cons, filter_nil.
  by destruct (decide (e = POS_OK)).
Qed.

(** The positions of the other threads, when [t] goes on or returns. *)
Lemma announcing_step t p (th : gmap tid (zqposition CB P)) :
  th !! t = Some p ->
  (msum announcing th = announcing p + msum announcing (delete t th))%nat /\
  forall q, (msum announcing (<[t := q]> th) = announcing q + msum announcing (delete t th))%nat.
Proof.
  intros Ht. pose proof (msum_delete announcing t th) as Hd. rewrite Ht in Hd. simpl in Hd.
  split; [done|]. intros q. pose proof (msum_insert announcing t q th) as Hi. rewrite Ht in Hi. simpl in Hi. lia.
Qed.

(** What a statement of thread [t] has to respect: it goes on at [next], or
    leaves. *)
Lemma zq_inv_intro size n c c' t p next :
  zq_inv size n c -> zqthreads c !! t = Some p ->
  zqthreads c' = match next with Some q => <[t := q]> (zqthreads c) | None => delete t (zqthreads c) end ->
  (forall data, next <> Some (PutKernel data)) ->
  (exists l, z_queue (msgq (zq c')) = (size, n, l) /\ taken c' = omap snd (got c') ++ l) ->
  (forall e d, (e, d) ∈ got c' -> e = POS_OK <-> is_Some d) ->
  (length (taken c') + count_ok (put_answers c) + announcing p =
   length (taken c) + count_ok (put_answers c') + from_option announcing 0 next)%nat ->
  count_ok (put_answers c') = (length (zsignals c') + zunsignalled c')%nat ->
  zq_inv size n c'.
Proof.
  intros Hi Ht Hth Hnext Hf Hg Hl Hs. split; [done|done| |done|].
  - pose proof (zqi_taken _ _ _ Hi) as Ht0. destruct (announcing_step t p (zqthreads c) Ht) as [Hd Hq].
    rewrite Hth. destruct next as [q|]; simpl in Hl; [rewrite Hq|]; lia.
  - intros t' data E. rewrite Hth in E. destruct next as [q|].
    + apply lookup_insert_Some in E as [[_ ->]|[_ E]]; [by destruct (Hnext data)|by apply (zqi_sized _ _ _ Hi t')].
    + apply lookup_delete_Some in E as [_ E]. by apply (zqi_sized _ _ _ Hi t').
Qed.

Lemma zq_inv_enter size n c t p :
  zq_inv size n c -> zqthreads c !! t = None -> announcing p = 0%nat ->
  (forall data, p = PutKernel data -> Z.of_nat (length data) = size) ->
  zq_inv size n (zq_at t p c).
Proof.
  intros Hi Ht Hp Hd. split; try apply Hi; simpl.
  - rewrite msum_insert_None, Hp by done. apply Hi.
  - intros t' data E. apply lookup_insert_Some in E as [[_ E]|[_ E]]; [by apply Hd|by apply (zqi_sized _ _ _ Hi t')].
Qed.

Lemma zq_inv_put size n c t data r :
  0 <= n -> zq_inv size n c -> zqthreads c !! t = Some (PutKernel data) -> freed c = false ->
  zq_run t (PutKernel data) c = Some r -> exists c', r = Ret c' /\ zq_inv size n c'.
Proof.
  intros Hn Hi Ht Hfr. pose proof (zqi_sized _ _ _ Hi t data Ht) as Hd.
  destruct (zqi_fifo _ _ _ Hi) as (l & Hq & Hl). cbn [zq_run]. rewrite Hfr.
  destruct (z_put_cases data _ _ _ _ Hq Hn Hd) as (err & m & -> & [[-> Hm]|(-> & -> & Hm)]); intros [= <-];
    (eexists; split; [reflexivity|]).
  - cbn [Z.eqb]. apply (zq_inv_intro _ _ c _ t (PutKernel data) (Some PutTest)); simpl; try done; try apply Hi.
    + exists (l ++ [data]). rewrite Hm. split; [done|]. simpl. rewrite Hl, <- app_assoc, take_ge; [done|lia].
    + rewrite length_app. simpl. lia.
  - apply (zq_inv_intro _ _ c _ t (PutKernel data) None); simpl; try done; try apply Hi.
    + by exists l.
    + rewrite count_ok_app. simpl. lia.
    + rewrite count_ok_app. simpl. rewrite (zqi_signals _ _ _ Hi). lia.
Qed.

Lemma zq_inv_get size n c t timeout r :
  zq_inv size n c -> zqthreads c !! t = Some (GetKernel timeout) -> freed c = false ->
  zq_run t (GetKernel timeout) c = Some r -> exists c', r = Ret c' /\ zq_inv size n c'.
Proof.
  intros Hi Ht Hfr. destruct (zqi_fifo _ _ _ Hi) as (l & Hq & Hl). cbn [zq_run]. rewrite Hfr.
  pose proof (z_get_cases timeout _ _ _ _ Hq) as Hget.
  destruct (k_msgq_get (to_k_timeout timeout) (msgq (zq c))) as [[[err data] m]|]; [|done].
  destruct Hget as (Hok & l' & Hm & ->). intros [= <-]. eexists. split; [reflexivity|].
  apply (zq_inv_intro _ _ c _ t (GetKernel timeout) None); simpl; try done; try apply Hi.
  - exists l'. split; [done|]. rewrite Hl, omap_app. simpl. rewrite <- app_assoc. by destruct data.
  - intros e d. rewrite elem_of_app, list_elem_of_singleton. intros [Hin|[= -> ->]]; [by apply (zqi_got _ _ _ Hi)|done].
Qed.

Lemma zq_inv_run size n c t p c' :
  0 <= n -> zq_inv size n c -> zqthreads c !! t = Some p -> zq_run t p c = Some (Ret c') -> zq_inv size n c'.
Proof.
  intros Hn Hi Ht Er. pose proof (zqi_signals _ _ _ Hi) as Hs.
  destruct p as [data| | |timeout|cb data|data| | |]; cbn [zq_run] in Er.
  - destruct (freed c) eqn:Hfr; [done|]. destruct (zq_inv_put size n c t data (Ret c') Hn Hi Ht Hfr) as (c1 & [= ->] & ?);
      [|done]. cbn [zq_run]. by rewrite Hfr.
  - injection Er as <-. destruct (sig_cb (zq c)).
    + by apply (zq_inv_intro _ _ c _ t PutTest (Some PutInvoke)); simpl; try done; apply Hi.
    + apply (zq_inv_intro _ _ c _ t PutTest None); simpl; try done; try apply Hi; rewrite count_ok_app; simpl; lia.
  - destruct (sig_cb (zq c)) as [cb|]; simpl in Er; [injection Er as <-|done].
    apply (zq_inv_intro _ _ c _ t PutInvoke None); simpl; try done; try apply Hi;
      rewrite count_ok_app, ?length_app; simpl; lia.
  - destruct (freed c) eqn:Hfr; [done|]. destruct (zq_inv_get size n c t timeout (Ret c') Hi Ht Hfr) as (c1 & [= ->] & ?);
      [|done]. cbn [zq_run]. by rewrite Hfr.
  - injection Er as <-. by apply (zq_inv_intro _ _ c _ t (SetCb cb data) (Some (SetArg data))); simpl; try done; apply Hi.
  - injection Er as <-. by apply (zq_inv_intro _ _ c _ t (SetArg data) None); simpl; try done; apply Hi.
  - injection Er as <-. destruct (buffer (zq c)).
    + by apply (zq_inv_intro _ _ c _ t DeinitTest (Some DeinitFree)); simpl; try done; apply Hi.
    + by apply (zq_inv_intro _ _ c _ t DeinitTest None); simpl; try done; apply Hi.
  - destruct (freed c); [done|]. injection Er as <-.
    by apply (zq_inv_intro _ _ c _ t DeinitFree (Some DeinitClear)); simpl; try done; apply Hi.
  - injection Er as <-. by apply (zq_inv_intro _ _ c _ t DeinitClear None); simpl; try done; apply Hi.
Qed.

Lemma zq_inv_exec size n mv c c' :
  0 <= n -> zq_inv size n c -> sized size mv -> zq_exec mv c = Some (Ret c') -> zq_inv size n c'.
Proof.
  intros Hn Hi Hmv. assert (forall t p, zq_enter t p c = Some (Ret c') -> announcing p = 0%nat ->
    (forall data, p = PutKernel data -> Z.of_nat (length data) = size) -> zq_inv size n c') as Henter.
  { intros t p. unfold zq_enter. destruct (zqthreads c !! t) eqn:Ht; [done|]. intros [= <-]. by apply zq_inv_enter. }
  destruct mv as [t data|t timeout|t cb data|t|t]; simpl; intros E.
  - apply (Henter t _ E); [done|]. by intros data' [= <-].
  - by apply (Henter t _ E).
  - by apply (Henter t _ E).
  - by apply (Henter t _ E).
  - destruct (zqthreads c !! t) as [p|] eqn:Ht; [|done]. by apply (zq_inv_run size n c t p).
Qed.

Lemma zq_inv_reachable size n q c :
  0 <= n -> z_queue (msgq q) = (size, n, []) ->
  zq_reachable (fun mv _ => sized size mv) (zq_init q) c -> zq_inv size n c.
Proof.
  intros Hn Hq. induction 1 as [|c mv c' _ IH Hmv E]; [|by apply (zq_inv_exec size n mv c)].
  split; simpl.
  - by exists [].
  - intros e d Hin. by apply elem_of_nil in Hin.
  - by rewrite msum_empty.
  - done.
  - intros t data E. by rewrite lookup_empty in E.
Qed.

(** A thread waits only in a get without a timeout on an empty queue. *)
Lemma zq_waits size n c t p :
  0 <= n -> zq_inv size n c -> zqthreads c !! t = Some p ->
  zq_exec (ZStep t) c = None <->
  p = GetKernel POS_TIME_FOREVER /\ freed c = false /\ z_queue (msgq (zq c)) = (size, n, []).
Proof.
  intros Hn Hi Ht. destruct (zqi_fifo _ _ _ Hi) as (l & Hq & _). simpl. rewrite Ht.
  destruct p as [data| | |timeout|cb data|data| | |]; cbn [zq_run];
    try (by split; [|intros (? & _)]).
  - destruct (freed c); [by split; [|intros (? & _)]|].
    destruct (z_put_cases data _ _ _ _ Hq Hn (zqi_sized _ _ _ Hi t data Ht)) as (err & m & -> & _).
    by split; [|intros (? & _)].
  - destruct (freed c); [by split; [|intros (_ & ? & _)]|]. pose proof (z_get_cases timeout _ _ _ _ Hq) as Hget.
    destruct (k_msgq_get (to_k_timeout timeout) (msgq (zq c))) as [[[err data] m]|] eqn:E.
    + split; [done|]. intros ([= ->] & _ & Hq'). rewrite (z_get_none _ _ _ _ Hq') in E. done.
    + destruct Hget as [-> ->]. by split.
  - destruct (freed c); by split; [|intros (? & _)].
Qed.

(** No deinit, and the callback is only replaced by another. *)
Definition in_service (mv : zqmove CB P) : Prop :=
  match mv with ZDeinitCall _ | ZSetCall _ None _ => False | _ => True end.

Record in_service_inv (c : zqcfg) : Prop := {
  serv_alive : freed c = false;
  serv_cb : is_Some (sig_cb (zq c));
  serv_unsignalled : zunsignalled c = 0%nat;
  serv_positions : forall t p, zqthreads c !! t = Some p ->
    match p with SetCb None _ | DeinitTest | DeinitFree | DeinitClear => False | _ => True end
}.

(** The statements of such threads are defined, and keep it so. *)
Lemma in_service_run c t p r :
  in_service_inv c -> zqthreads c !! t = Some p -> zq_run t p c = Some r ->
  exists c', r = Ret c' /\ in_service_inv c'.
Proof.
  intros [Hfr [cb Hcb] Hun Hpos] Ht Er. pose proof (Hpos t p Ht) as Hp.
  assert (forall t' p', delete t (zqthreads c) !! t' = Some p' ->
    match p' with SetCb None _ | DeinitTest | DeinitFree | DeinitClear => False | _ => True end) as Hdel.
  { intros t' p' E. apply lookup_delete_Some in E as [_ E]. by apply (Hpos t'). }
  assert (forall q, match q with SetCb None _ | DeinitTest | DeinitFree | DeinitClear => False | _ => True end ->
    forall t' p', <[t := q]> (zqthreads c) !! t' = Some p' ->
    match p' with SetCb None _ | DeinitTest | DeinitFree | DeinitClear => False | _ => True end) as Hins.
  { intros q Hq t' p' E. apply lookup_insert_Some in E as [[_ <-]|[_ E]]; [done|by apply (Hpos t')]. }
  destruct p as [data| | |timeout|[cb'|] data|data| | |]; cbn [zq_run] in Er; try done.
  - rewrite Hfr in Er. destruct (k_msgq_put data K_NO_WAIT (msgq (zq c))) as [[err m]|]; [|done].
    injection Er as <-. eexists. split; [reflexivity|].
    destruct (err =? 0); split; simpl; try done; by apply Hins.
  - injection Er as <-. eexists. split; [reflexivity|]. rewrite Hcb. split; simpl; [done|by eexists|done|by apply Hins].
  - rewrite Hcb in Er. simpl in Er. injection Er as <-. eexists. split; [reflexivity|].
    split; simpl; [done|by eexists|done|done].
  - rewrite Hfr in Er. destruct (k_msgq_get (to_k_timeout timeout) (msgq (zq c))) as [[[err data] m]|]; [|done].
    injection Er as <-. eexists. split; [reflexivity|]. split; simpl; [done|by eexists|done|done].
  - injection Er as <-. eexists. split; [reflexivity|]. split; simpl; [done|by eexists|done|by apply Hins].
  - injection Er as <-. eexists. split; [reflexivity|]. split; simpl; [done|by eexists|done|done].
Qed.

Lemma in_service_exec c mv r :
  in_service_inv c -> in_service mv -> zq_exec mv c = Some r -> exists c', r = Ret c' /\ in_service_inv c'.
Proof.
  intros Hi Hmv. assert (forall t p, zq_enter t p c = Some r ->
    match p with SetCb None _ | DeinitTest | DeinitFree | DeinitClear => False | _ => True end ->
    exists c', r = Ret c' /\ in_service_inv c') as Henter.
  { intros t p. unfold zq_enter. destruct (zqthreads c !! t); [done|]. intros [= <-] Hp.
    eexists. split; [reflexivity|]. destruct Hi as [? ? ? Hpos]. split; simpl; try done.
    intros t' p' E. apply lookup_insert_Some in E as [[_ <-]|[_ E]]; [done|by apply (Hpos t')]. }
  destruct mv as [t data|t timeout|t [cb|] data|t|t]; simpl in *; try done; intros E.
  - by apply (Henter t _ E).
  - by apply (Henter t _ E).
  - by apply (Henter t _ E).
  - destruct (zqthreads c !! t) as [p|] eqn:Ht; [|done]. by apply (in_service_run c t p).
Qed.

Lemma in_service_reachable size q c :
  is_Some (sig_cb q) -> zq_reachable (fun mv _ => sized size mv /\ in_service mv) (zq_init q) c ->
  in_service_inv c.
Proof.
  intros Hcb. induction 1 as [|c mv c' _ IH [_ Hmv] E].
  - split; simpl; try done.
  - by destruct (in_service_exec c mv (Ret c') IH Hmv E) as (c1 & [= ->] & ?).
Qed.

Lemma zq_reachable_weaken (ok ok' : zqmove CB P -> zqcfg -> Prop) c0 c :
  (forall mv c, ok mv c -> ok' mv c) -> zq_reachable ok c0 c -> zq_reachable ok' c0 c.
Proof. intros Hw. induction 1 as [|c mv c' _ IH Hmv E]; [constructor|]. apply (zq_reach_step _ _ c mv); auto. Qed.

(** * Properties *)

(** C26. Threads that use a Zephyr queue at once, in every interleaving of their
    statements, with the callback replaced and the queue deinitialised: the
    messages that were delivered are, in order, the first of those that the
    kernel took, the rest, at most the capacity, is in the queue; a get answers
    POS_OK exactly when it delivers; the puts that answered POS_OK, and those
    under way past the kernel, are the messages taken, each announced to the
    callback or found without one; and a thread waits only in a get without a
    timeout on an empty queue. *)
Theorem zephyr_queue_threads_fifo size n q c :
  0 <= n -> z_queue (msgq q) = (size, n, []) ->
  zq_reachable (fun mv _ => sized size mv) (zq_init q) c ->
  exists l, z_queue (msgq (zq c)) = (size, n, l) /\ taken c = omap snd (got c) ++ l /\
    Z.of_nat (length l) <= n /\
    (forall e d, (e, d) ∈ got c -> e = POS_OK <-> is_Some d) /\
    length (taken c) = (count_ok (put_answers c) + msum announcing (zqthreads c))%nat /\
    count_ok (put_answers c) = (length (zsignals c) + zunsignalled c)%nat /\
    (forall t p, zqthreads c !! t = Some p ->
       zq_exec (ZStep t) c = None <-> p = GetKernel POS_TIME_FOREVER /\ freed c = false /\ l = []).
Proof.
  intros Hn Hq Hr. pose proof (zq_inv_reachable size n q c Hn Hq Hr) as Hi.
  destruct (zqi_fifo _ _ _ Hi) as (l & Hv & Hl). exists l.
  split_and!; [done|done|by apply (z_queue_bound _ _ _ _ Hv)|apply Hi|apply Hi|apply Hi|].
  intros t p Ht. rewrite (zq_waits size n c t p Hn Hi Ht), Hv. split; intros (? & ? & E); split_and!; try done.
  - by injection E.
  - by rewrite E.
Qed.

(** While the queue is not deinitialised and its callback, set before, is only
    replaced by others, no statement is undefined, and every message taken is
    announced exactly once, or is about to be. *)
Theorem zephyr_queue_in_service size n q c :
  0 <= n -> z_queue (msgq q) = (size, n, []) -> is_Some (sig_cb q) ->
  zq_reachable (fun mv _ => sized size mv /\ in_service mv) (zq_init q) c ->
  length (taken c) = (length (zsignals c) + msum announcing (zqthreads c))%nat /\
  forall mv r, in_service mv -> zq_exec mv c = Some r -> exists c', r = Ret c'.
Proof.
  intros Hn Hq Hcb Hr. pose proof (in_service_reachable size q c Hcb Hr) as Hs. split.
  - assert (zq_inv size n c) as Hi.
    { apply (zq_inv_reachable size n q); [done|done|]. revert Hr. apply zq_reachable_weaken. by intros mv c' [? _]. }
    rewrite (zqi_taken _ _ _ Hi), (zqi_signals _ _ _ Hi), (serv_unsignalled c Hs). lia.
  - intros mv r Hmv E. destruct (in_service_exec c mv r Hs Hmv E) as (c' & -> & _). by exists c'.
Qed.

(** Outside of that: a thread about to call the callback calls a null pointer
    when another removes it first; and after [pos_queue_deinit] the next
    statement of a thread about to put or get is undefined, as the buffer is
    gone, and so is that of a second deinit that had passed the test. *)
Theorem zephyr_queue_races (c : zqcfg) t1 t2 p :
  t1 <> t2 -> zqthreads c !! t1 = Some p -> zqthreads c !! t2 = None ->
  (p = PutInvoke -> zq_exec_all [ZSetCall t2 None None; ZStep t2; ZStep t1] c = Some Undef) /\
  (freed c = false -> is_Some (buffer (zq c)) ->
   (exists data, p = PutKernel data) \/ (exists timeout, p = GetKernel timeout) \/ p = DeinitFree ->
   zq_exec_all [ZDeinitCall t2; ZStep t2; ZStep t2; ZStep t2; ZStep t1] c = Some Undef).
Proof.
  destruct c as [q fr th l1 l2 l3 l4 n]. simpl. intros Hne H1 H2. split.
  - intros ->. unfold zq_enter. simpl. rewrite H2. simpl. rewrite lookup_insert_eq. simpl.
    rewrite lookup_insert_ne, lookup_insert_ne, H1 by done. done.
  - intros -> [b Hb] Hp. unfold zq_enter. simpl. rewrite H2. simpl. rewrite lookup_insert_eq. simpl. rewrite Hb. simpl.
    rewrite lookup_insert_eq. simpl. rewrite lookup_insert_eq. simpl.
    rewrite lookup_delete_ne, !lookup_insert_ne, H1 by done.
    by destruct Hp as [[data ->]|[[timeout ->]| ->]].
Qed.
End ZephyrQueueThreads.

(** * The theorems at work *)

Section Witness.
#[local] Existing Instances linux_errno demo_z_queues demo_z_queues_laws.

Definition demo_zq : @pos_queue demo_z_queue nat nat := mkPosQueue (1, 2, []) (Some 2) (Some 8%nat) (Some 9%nat).

Lemma demo_zq_fresh : z_queue (msgq demo_zq) = (1, 2, []).
Proof. reflexivity. Qed.

Lemma zq_run_reachable (ok : zqmove nat nat -> Prop) (okb : zqmove nat nat -> bool) c0 mvs c c' :
  (forall mv, okb mv = true -> ok mv) -> forallb okb mvs = true ->
  zq_reachable (fun mv _ => ok mv) c0 c -> zq_exec_all mvs c = Some (Ret c') ->
  zq_reachable (fun mv _ => ok mv) c0 c'.
Proof.
  intros Hok. revert c. induction mvs as [|mv mvs IH]; intros c; [by intros _ ? [= <-]|]. cbn [forallb zq_exec_all].
  intros [Hmv Hmvs]%andb_prop Hr. destruct (zq_exec mv c) as [[c1| | | |]|] eqn:E; try done.
  apply (IH c1 Hmvs). by apply (zq_reach_step _ _ c mv); [|apply Hok|].
Qed.

Definition demo_sizedb (mv : zqmove nat nat) : bool :=
  match mv with ZPutCall _ data => Nat.eqb (length data) 1 | ZDeinitCall _ | ZSetCall _ None _ => false | _ => true end.

Lemma demo_sizedb_ok mv : demo_sizedb mv = true -> sized 1 mv /\ in_service mv.
Proof.
  destruct mv as [t data|t timeout|t [cb|] data|t|t]; simpl; try done.
  intros E. apply Nat.eqb_eq in E. split; [lia|done].
Qed.

(** Two puts and a get at once; one put is not announced yet, and a second get
    waits for its message. *)
Definition demo_zq_moves : list (zqmove nat nat) :=
  [ZPutCall 1 [x01]; ZGetCall 3 POS_TIME_FOREVER; ZPutCall 2 [x02]; ZStep 2; ZStep 2; ZStep 3; ZStep 2;
   ZGetCall 3 POS_TIME_FOREVER; ZStep 1; ZStep 1; ZStep 3; ZGetCall 3 POS_TIME_FOREVER].

Example zephyr_queue_threads_fifo_witness :
  exists c, zq_exec_all demo_zq_moves (zq_init demo_zq) = Some (Ret c) /\
    taken c = [[x02]; [x01]] /\ msum announcing (zqthreads c) = 1%nat /\ zq_exec (ZStep 3) c = None.
Proof.
  destruct (zq_exec_all demo_zq_moves (zq_init demo_zq)) as [[c| | | |]|] eqn:E; try (vm_compute in E; discriminate E).
  exists c. split; [reflexivity|].
  assert (zq_reachable (fun mv _ => sized 1 mv) (zq_init demo_zq) c) as Hr.
  { apply (zq_run_reachable (sized 1) demo_sizedb (zq_init demo_zq) demo_zq_moves (zq_init demo_zq) c);
      [intros mv Hb; apply (demo_sizedb_ok mv Hb)|reflexivity|constructor|exact E]. }
  assert (taken c = [[x02]; [x01]] /\ count_ok (put_answers c) = 1%nat /\ freed c = false /\
          z_queue (msgq (zq c)) = (1, 2, []) /\ zqthreads c !! 3%nat = Some (GetKernel POS_TIME_FOREVER))
    as (Ht & Ho & Hf & Hv & H3).
  { vm_compute in E. injection E as <-. split_and!; reflexivity. }
  destruct (zephyr_queue_threads_fifo 1 2 demo_zq c ltac:(lia) demo_zq_fresh Hr) as (l & Hv' & _ & _ & _ & Hlen & _ & Hw).
  rewrite Ht, Ho in Hlen. simpl in Hlen. split; [exact Ht|]. split; [lia|].
  apply (Hw 3%nat _ H3). rewrite Hv in Hv'. injection Hv' as <-. by split_and!.
Defined.

Example zephyr_queue_in_service_witness :
  exists c, zq_exec_all demo_zq_moves (zq_init demo_zq) = Some (Ret c) /\
    length (taken c) = (length (zsignals c) + msum announcing (zqthreads c))%nat /\
    forall mv r, in_service mv -> zq_exec mv c = Some r -> exists c', r = Ret c'.
Proof.
  destruct (zq_exec_all demo_zq_moves (zq_init demo_zq)) as [[c| | | |]|] eqn:E; try (vm_compute in E; discriminate E).
  exists c. split; [reflexivity|].
  apply (zephyr_queue_in_service 1 2 demo_zq c); [lia|reflexivity|by eexists|].
  apply (zq_run_reachable _ demo_sizedb (zq_init demo_zq) demo_zq_moves (zq_init demo_zq) c);
    [exact demo_sizedb_ok|reflexivity|constructor|exact E].
Defined.

Example zephyr_queue_races_witness :
  exists c1 c2, zq_exec_all [ZPutCall 1 [x01]; ZStep 1; ZStep 1] (zq_init demo_zq) = Some (Ret c1) /\
    zq_exec_all [ZSetCall 2 None None; ZStep 2; ZStep 1] c1 = Some Undef /\
    zq_exec_all [ZGetCall 1 100] (zq_init demo_zq) = Some (Ret c2) /\
    zq_exec_all [ZDeinitCall 2; ZStep 2; ZStep 2; ZStep 2; ZStep 1] c2 = Some Undef.
Proof.
  destruct (zq_exec_all [ZPutCall 1 [x01]; ZStep 1; ZStep 1] (zq_init demo_zq)) as [[c1| | | |]|] eqn:E1;
    try (vm_compute in E1; discriminate E1).
  destruct (zq_exec_all [ZGetCall 1 100] (zq_init demo_zq)) as [[c2| | | |]|] eqn:E2;
    try (vm_compute in E2; discriminate E2).
  exists c1, c2.
  assert (zqthreads c1 !! 1%nat = Some PutInvoke /\ zqthreads c1 !! 2%nat = None) as [H1 H2]
    by (vm_compute in E1; injection E1 as <-; split; reflexivity).
  assert (zqthreads c2 !! 1%nat = Some (GetKernel 100) /\ zqthreads c2 !! 2%nat = None /\ freed c2 = false /\
          is_Some (buffer (zq c2))) as (H3 & H4 & H5 & H6)
    by (vm_compute in E2; injection E2 as <-; split_and!; try reflexivity; by eexists).
  destruct (zephyr_queue_races c1 1%nat 2%nat PutInvoke ltac:(done) H1 H2) as [R1 _].
  destruct (zephyr_queue_races c2 1%nat 2%nat (GetKernel 100) ltac:(done) H3 H4) as [_ R2].
  split_and!; [reflexivity|exact (R1 eq_refl)|reflexivity|].
  apply (R2 H5 H6). right. left. by eexists.
Defined.
End Witness.
