(* ===== verification/ZephyrTimer.v ===== *)
(** targets/zephyr: timers (os_timer.c), time (os_time.c) and the calls of
    os_task.c that sleep or yield, over the Zephyr kernel. The functions of
    os_timer.c include another project's header and have its names
    ([chip_os_timer_*]): this port does not implement the timer functions of the
    API, and nothing here says that it does. They are modelled under their own
    names, as the file defines them, with what they do to a kernel timer. *)

From S2P Require Import Prelude OsTypes OsalApi Zephyr.

(** * Timers of the kernel *)

(** One timer [K], whose expiry function is the wrapper below. [z_timer_expire]
    is the kernel's step when the timer comes due; [z_period] is the period that
    it then starts again with. *)
Class ZTimers (K : Type) := {
  k_timer_init : K;
  k_timer_start : k_timeout -> k_timeout -> K -> K;
  k_timer_stop : K -> K;
  k_timer_remaining_ticks : K -> Z;
  z_timer_expire : K -> option K;
  z_period : K -> k_timeout
}.

(** A duration that is not over at once. *)
Definition lasts (d : k_timeout) : Prop :=
  match d with K_MSEC n | K_TICKS n => 0 < n < 2 ^ 32 | K_NO_WAIT | K_FOREVER => False end.

(** "Compute the ticks remaining until a running timer next expires [...] If the
    timer is not running, it returns zero." *)
Class ZTimersLaws (K : Type) `{ZTimers K} : Prop := {
  z_remaining_range : forall k, 0 <= k_timer_remaining_ticks k < 2 ^ 63;
  z_timer_inited : k_timer_remaining_ticks k_timer_init = 0;
  z_timer_started : forall d p k, lasts d ->
    0 < k_timer_remaining_ticks (k_timer_start d p k) /\ z_period (k_timer_start d p k) = p;
  z_timer_stopped : forall k, k_timer_remaining_ticks (k_timer_stop k) = 0;
  z_timer_due : forall k, 0 < k_timer_remaining_ticks k -> exists k', z_timer_expire k = Some k' /\
    (z_period k = K_NO_WAIT -> k_timer_remaining_ticks k' = 0);
  z_timer_not_due : forall k, k_timer_remaining_ticks k = 0 -> z_timer_expire k = None
}.

(** [struct pos_timer] (poski/osal/os_time.h): the kernel's timer lives in the
    structure; the callback is a pointer, possibly null. *)
Record pos_timer (K CB P : Type) := mkPosTimer { timer : K; cb : option CB; arg : option P }.
Arguments mkPosTimer {K CB P} timer cb arg.
Arguments timer {K CB P} p.
Arguments cb {K CB P} p.
Arguments arg {K CB P} p.

Section ZephyrTimer.
Context {K CB P : Type} `{ZTimers K}.

Abbreviation object := (pos_timer K CB P).

Definition with_timer (k : K) (t : object) : object := mkPosTimer k (cb t) (arg t).

(** * os_timer.c *)

(** The expiry function: the call it makes, if any. *)
Definition zephyr_timer_wrapper (t : object) : option (CB * option P) :=
  match cb t with Some f => Some (f, arg t) | None => None end.

Definition chip_os_timer_init (f : option CB) (a : option P) (mem : object) : pos_error * object :=
  (POS_OK, mkPosTimer k_timer_init f a).

Definition chip_os_timer_start_ms (duration : Z) (t : object) : pos_error * object :=
  (POS_OK, with_timer (k_timer_start (K_MSEC duration) K_NO_WAIT (timer t)) t).

Definition chip_os_timer_start (ticks : Z) (t : object) : pos_error * object :=
  (POS_OK, with_timer (k_timer_start (K_TICKS ticks) K_NO_WAIT (timer t)) t).

Definition chip_os_timer_stop (t : object) : pos_error * object :=
  (POS_OK, with_timer (k_timer_stop (timer t)) t).

Definition chip_os_timer_inited (t : object) : pos_error := POS_OK.

Definition chip_os_timer_is_active (t : object) : bool := 0 <? k_timer_remaining_ticks (timer t).

Definition chip_os_timer_get_ticks (t : object) : Z := 0.

(** The ticks, of 64 bits, convert to 32. *)
Definition chip_os_timer_remaining_ticks (time : Z) (t : object) : Z :=
  u32 (k_timer_remaining_ticks (timer t)).

Definition chip_os_timer_arg_set (a : option P) (t : object) : object := mkPosTimer (timer t) (cb t) a.

Definition chip_os_timer_arg_get (t : object) : option P := arg t.

(** When the timer comes due the kernel runs the wrapper. *)
Definition zephyr_expire (t : object) : option (CB * option P * object) :=
  match z_timer_expire (timer t), zephyr_timer_wrapper t with
  | Some k, Some (f, a) => Some (f, a, with_timer k t)
  | _, _ => None
  end.

Context `{!ZTimersLaws K}.

(** A timer started for a while runs, until it is stopped or comes due, which
    calls the function it was initialised with on the argument set last, and
    then it no longer runs: it is started without a period. *)
Theorem chip_os_timer_one_shot f a ticks (t : object) :
  cb t = Some f -> 0 < ticks < 2 ^ 32 ->
  exists t', chip_os_timer_start ticks t = (POS_OK, t') /\ chip_os_timer_is_active t' = true /\
    chip_os_timer_is_active (chip_os_timer_stop t').2 = false /\
    exists t'', zephyr_expire (chip_os_timer_arg_set a t') = Some (f, a, t'') /\
      chip_os_timer_is_active t'' = false.
Proof.
  intros Hf Ht. destruct (z_timer_started (K_TICKS ticks) K_NO_WAIT (timer t) Ht) as [Hr Hp].
  eexists. split; [done|]. unfold chip_os_timer_is_active, zephyr_expire, zephyr_timer_wrapper. simpl.
  rewrite z_timer_stopped, Hf. split; [by apply Z.ltb_lt|]. split; [done|].
  destruct (z_timer_due _ Hr) as (k & -> & Hk). eexists. split; [done|]. simpl. by rewrite Hk.
Qed.
End ZephyrTimer.

(** * os_time.c *)

(** The kernel's conversions and clocks: [ceil32] and [floor32] are documented to
    round up and down and to truncate to 32 bits. *)
Class ZTime := {
  CONFIG_SYS_CLOCK_TICKS_PER_SEC : Z;
  k_ms_to_ticks_ceil32 : Z -> Z;
  k_ticks_to_ms_floor32 : Z -> Z
}.

Class ZTimeLaws `{ZTime} : Prop := {
  z_rate_pos : 0 < CONFIG_SYS_CLOCK_TICKS_PER_SEC;
  z_ms_to_ticks : forall ms, k_ms_to_ticks_ceil32 ms =
    u32 ((ms * CONFIG_SYS_CLOCK_TICKS_PER_SEC + 999) / 1000);
  z_ticks_to_ms : forall ticks, k_ticks_to_ms_floor32 ticks =
    u32 (ticks * 1000 / CONFIG_SYS_CLOCK_TICKS_PER_SEC)
}.

Section ZephyrTime.
Context `{ZTime}.

(** [uptime_ticks] (64 bits) and [uptime_32] are the kernel's readings. *)
Definition pos_time_get (uptime_ticks : Z) : Z := u32 uptime_ticks.
Definition pos_time_get_ms (uptime_32 : Z) : Z := uptime_32.
Definition pos_time_ms_to_ticks (ms : Z) : Z := k_ms_to_ticks_ceil32 ms.
Definition pos_time_ticks_to_ms (ticks : Z) : Z := k_ticks_to_ms_floor32 ticks.

Context `{!ZTimeLaws}.

(** The conversions lose nothing on the way to ticks: milliseconds converted
    to ticks and back come out as they were if a tick is not longer than a
    millisecond, and in any case not smaller, as long as both results fit 32
    bits. *)
Lemma zephyr_back ms :
  0 <= ms -> ms * CONFIG_SYS_CLOCK_TICKS_PER_SEC + 999 < 1000 * 2 ^ 32 ->
  ms + 999 < 2 ^ 32 ->
  ms <= pos_time_ticks_to_ms (pos_time_ms_to_ticks ms) <= ms + 999 /\
  (1000 <= CONFIG_SYS_CLOCK_TICKS_PER_SEC ->
     pos_time_ticks_to_ms (pos_time_ms_to_ticks ms) = ms).
Proof.
  intros H0ms Hfit Hfit2. unfold pos_time_ticks_to_ms, pos_time_ms_to_ticks.
  rewrite z_ticks_to_ms, z_ms_to_ticks. pose proof z_rate_pos as Hr.
  set (r := CONFIG_SYS_CLOCK_TICKS_PER_SEC) in *. clearbody r.
  set (x := ms * r) in *.
  assert (0 <= x) by (unfold x; nia).
  pose proof (Z.div_mod (x + 999) 1000 ltac:(lia)) as Hd.
  pose proof (Z.mod_pos_bound (x + 999) 1000 ltac:(lia)) as Hm.
  set (t := (x + 999) / 1000) in *. clearbody t.
  rewrite (u32_small t) by (unfold is_u32; lia).
  assert (x <= t * 1000 <= x + 999) as Ht by lia.
  pose proof (Z.div_mod (t * 1000) r ltac:(lia)) as Hd2.
  pose proof (Z.mod_pos_bound (t * 1000) r ltac:(lia)) as Hm2.
  set (q := t * 1000 / r) in *. clearbody q. unfold x in *. clear x.
  assert (ms <= q) as Hlo by nia.
  assert (q <= ms + 999) as Hhi by nia.
  rewrite u32_small by (unfold is_u32; lia). split; [lia|]. intros Hbig. nia.
Qed.
End ZephyrTime.

(** * The calls of os_task.c to the scheduler *)

(** The running system [W]; [z_elapsed_ns] is the time since its start, and
    [z_tick_ns] the length of a tick. *)
Class ZScheduler (H W : Type) := {
  k_yield : W -> W;
  k_sleep : k_timeout -> W -> W;
  k_current_get : W -> H;
  z_elapsed_ns : W -> Z;
  z_tick_ns : Z
}.

(** What a timeout lasts. *)
Definition z_duration_ns (tick_ns : Z) (d : k_timeout) : Z :=
  match d with
  | K_MSEC n => n * 1000000
  | K_TICKS n => n * tick_ns
  | K_NO_WAIT | K_FOREVER => 0
  end.

(** "This routine puts the current thread to sleep for duration": at least, when
    nothing calls [k_wakeup]. *)
Class ZSchedulerLaws (H W : Type) `{ZScheduler H W} : Prop := {
  z_yield : forall w, z_elapsed_ns w <= z_elapsed_ns (k_yield w);
  z_sleep : forall d w, z_elapsed_ns w + z_duration_ns z_tick_ns d <= z_elapsed_ns (k_sleep d w)
}.

Section ZephyrSleep.
Context {H W : Type} `{ZScheduler H W}.

Definition pos_task_yield (w : W) : W := k_yield w.
Definition pos_task_sleep (ticks : Z) (w : W) : W := k_sleep (K_TICKS ticks) w.
Definition pos_task_sleep_ms (ms : Z) (w : W) : W := k_sleep (K_MSEC ms) w.
Definition pos_get_current_task_id (w : W) : H := k_current_get w.

Context `{!ZSchedulerLaws H W}.

#[local] Instance zephyr_osal_sleep : OsalSleep H W := {
  osal_task_yield := pos_task_yield;
  osal_task_sleep n w := Ret (pos_task_sleep n w);
  osal_task_sleep_ms n w := Ret (pos_task_sleep_ms n w);
  osal_get_current_task_id := pos_get_current_task_id;
  elapsed_ns := z_elapsed_ns;
  tick_ns := z_tick_ns
}.

Lemma zephyr_sleep_laws : OsalSleepLaws H W.
Proof.
  split; simpl; [apply z_yield| |]; intros n w _; (eexists; split; [done|]).
  - apply (z_sleep (K_TICKS n)).
  - apply (z_sleep (K_MSEC n)).
Qed.
End ZephyrSleep.

(** * Witnesses over reference kernels *)

Section Witness.

(** The ticks left and the period. *)
Definition demo_ticks (d : k_timeout) : Z :=
  match d with K_MSEC n | K_TICKS n => Z.max 0 (Z.min n (2 ^ 32)) | _ => 0 end.

Definition demo_left (k : Z * k_timeout) : Z := Z.max 0 (Z.min k.1 (2 ^ 32)).

#[local] Instance demo_z_timers : ZTimers (Z * k_timeout) := {
  k_timer_init := (0, K_NO_WAIT);
  k_timer_start d p k := (demo_ticks d, p);
  k_timer_stop k := (0, k.2);
  k_timer_remaining_ticks := demo_left;
  z_timer_expire k := if 0 <? demo_left k then Some (demo_ticks k.2, k.2) else None;
  z_period k := k.2
}.

#[local] Instance demo_z_timers_laws : ZTimersLaws (Z * k_timeout).
Proof.
  split; simpl.
  - intros k. unfold demo_left. lia.
  - done.
  - intros [| |n|n] p k; simpl; try done; intros Hn; (split; [|done]); unfold demo_left; simpl; lia.
  - done.
  - intros k Hk. rewrite (proj2 (Z.ltb_lt _ _) Hk). eexists. split; [done|]. simpl. by intros ->.
  - by intros k ->.
Qed.

#[local] Instance demo_z_time : ZTime := {
  CONFIG_SYS_CLOCK_TICKS_PER_SEC := 100;
  k_ms_to_ticks_ceil32 ms := u32 ((ms * 100 + 999) / 1000);
  k_ticks_to_ms_floor32 ticks := u32 (ticks * 1000 / 100)
}.

#[local] Instance demo_z_time_laws : ZTimeLaws.
Proof. by split. Qed.

Example chip_os_timer_one_shot_witness :
  let t := mkPosTimer (0, K_NO_WAIT) (Some 7%nat) (None : option nat) in
  exists t', chip_os_timer_start 5 t = (POS_OK, t') /\ chip_os_timer_is_active t' = true /\
    chip_os_timer_is_active (chip_os_timer_stop t').2 = false /\
    exists t'', zephyr_expire (chip_os_timer_arg_set (Some 9%nat) t') = Some (7%nat, Some 9%nat, t'') /\
      chip_os_timer_is_active t'' = false.
Proof.
  intros t. refine (chip_os_timer_one_shot 7%nat (Some 9%nat) 5 t eq_refl _). lia.
Defined.

End Witness.
