(* ===== verification/ZephyrTask.v ===== *)
(** targets/zephyr/os_task.c: tasks on a fixed pool of ten stacks of 2048 bytes.
    The pool hands out and takes back its stacks correctly as long as every
    task is removed once, and not otherwise; the C++ class OsTask sees to that,
    and leaks the stack of a task that runs when its object is started again. *)

From S2P Require Import Prelude OsTypes Pthread OsalApi OsTask.

Definition MAX_TASKS : nat := 10.
Definition STACK_SIZE : Z := 2048.

(** The kernel's threads [W] with identifiers [T]: [k_thread_create] starts one
    that makes the given call on the stack with the given index, or gives a null
    identifier. *)
Class ZThreads (T F X W : Type) := {
  k_thread_create : nat -> F * X -> Z -> W -> option T * W;
  k_thread_abort : option T -> W -> W;
  z_started : W -> nat;
  z_aborted : W -> nat
}.

(** The threads started and aborted so far. *)
Class ZThreadsLaws (T F X W : Type) `{ZThreads T F X W} : Prop := {
  z_create_counts : forall i call prio w,
    let '(id, w') := k_thread_create i call prio w in
    z_started w' = (z_started w + match id with Some _ => 1 | None => 0 end)%nat /\
    z_aborted w' = z_aborted w;
  z_abort_counts : forall id w,
    z_started (k_thread_abort id w) = z_started w /\ z_aborted (k_thread_abort id w) = S (z_aborted w)
}.

(** [struct pos_task] (poski/osal/os_types.h): [stack] points to the stack of
    that index. *)
Record pos_task (T : Type) := mkPosTask { thread : option T; stack : option nat }.
Arguments mkPosTask {T} thread stack.
Arguments thread {T} p.
Arguments stack {T} p.

(** [s_stack_used] and the kernel. *)
Record pool (W : Type) := mkPool { s_stack_used : list bool; kernel : W }.
Arguments mkPool {W} s_stack_used kernel.
Arguments s_stack_used {W} p.
Arguments kernel {W} p.

(** The loop that looks for an unused stack, from index [i]. *)
Fixpoint find_unused (used : list bool) (i : nat) : option nat :=
  match used with
  | [] => None
  | b :: used => if negb b then Some i else find_unused used (S i)
  end.

(** The loop that frees the stack of a task, from index [i]. *)
Fixpoint free_stack (st : option nat) (used : list bool) (i : nat) : list bool :=
  match used with
  | [] => []
  | b :: used => if bool_decide (st = Some i) then false :: used else b :: free_stack st used (S i)
  end.

Section ZephyrTask.
Context {T F X W : Type} `{ZThreads T F X W}.

(** The call that the thread makes; the third parameter is not used. *)
Definition pos_task_wrapper (p1 : F) (p2 : X) : F * X :=
  let func := p1 in
  let arg := p2 in
  (func, arg).

Definition pos_task_init (t : pos_task T) (func : F) (arg : X) (prio stack_size : Z) (st : pool W)
    : pos_error * pos_task T * pool W :=
  if STACK_SIZE <? stack_size then (POS_EINVAL, t, st)
  else
    match find_unused (s_stack_used st) 0 with
    | None => (POS_ENOMEM, t, st)
    | Some stack_idx =>
        let used := <[stack_idx := true]> (s_stack_used st) in
        let '(id, w) := k_thread_create stack_idx (pos_task_wrapper func arg) prio (kernel st) in
        let t := mkPosTask id (Some stack_idx) in
        match id with
        | Some _ => (POS_OK, t, mkPool used w)
        | None => (POS_ERROR, t, mkPool (<[stack_idx := false]> used) w)
        end
    end.

Definition pos_task_remove (t : pos_task T) (st : pool W) : pos_error * pool W :=
  let w := k_thread_abort (thread t) (kernel st) in
  (POS_OK, mkPool (free_stack (stack t) (s_stack_used st) 0) w).

#[local] Instance zephyr_osal_task : OsalTask (pos_task T) F X (pool W) := {
  osal_task_init := fun _ func arg prio stack_size t st =>
    Ret (pos_task_init t func arg prio stack_size st);
  osal_task_remove := fun t st => Ret (pos_task_remove t st);
  tasks_started := fun st => z_started (kernel st);
  tasks_removed := fun st => z_aborted (kernel st)
}.

(** * The loops *)

Lemma find_unused_spec used i :
  match find_unused used i with
  | Some j => exists k, j = (i + k)%nat /\ used !! k = Some false /\
                forall k', (k' < k)%nat -> used !! k' = Some true
  | None => forall k b, used !! k = Some b -> b = true
  end.
Proof.
  revert i. induction used as [|b used IH]; intros i; simpl; [done|].
  destruct b; simpl.
  - specialize (IH (S i)). destruct (find_unused used (S i)) as [j|].
    + destruct IH as (k & -> & Hk & Hlt). exists (S k). split_and!; [lia|done|].
      intros [|k'] ?; [done|]. apply Hlt. lia.
    + intros [|k] b; simpl; [by intros [= <-]|]. apply IH.
  - exists 0%nat. split_and!; [lia|done|lia].
Qed.

Lemma free_stack_spec used i k : free_stack (Some (i + k)%nat) used i = <[k := false]> used.
Proof.
  revert i k. induction used as [|b used IH]; intros i [|k]; simpl; try done.
  - by rewrite bool_decide_eq_true_2 by (f_equal; lia).
  - rewrite bool_decide_eq_false_2 by (intros [= ?]; lia). f_equal.
    rewrite <- (IH (S i) k). do 2 f_equal. lia.
Qed.

Lemma free_stack_0 used k : free_stack (Some k) used 0 = <[k := false]> used.
Proof. exact (free_stack_spec used 0 k). Qed.

(** * Tasks in use *)

(** The pool when the tasks [live] run on the given stacks. *)
Definition pool_ok (live : gmap nat nat) (st : pool W) : Prop :=
  length (s_stack_used st) = MAX_TASKS /\
  (forall a b i, live !! a = Some i -> live !! b = Some i -> a = b) /\
  (forall i, s_stack_used st !! i = Some true <-> exists a, live !! a = Some i) .

Lemma pool_ok_bound live st a i : pool_ok live st -> live !! a = Some i -> (i < MAX_TASKS)%nat.
Proof.
  intros (Hl & _ & Hu) Ha. rewrite <- Hl. apply (lookup_lt_Some _ _ true). apply Hu. by exists a.
Qed.

Lemma pool_ok_init live st a i :
  pool_ok live st -> s_stack_used st !! i = Some false -> live !! a = None ->
  forall w, pool_ok (<[a := i]> live) (mkPool (<[i := true]> (s_stack_used st)) w).
Proof.
  intros (Hl & Hinj & Hu) Hi Ha w.
  assert (forall b, live !! b <> Some i) as Hno.
  { intros b Hb. assert (s_stack_used st !! i = Some true) as E by (apply Hu; by exists b). congruence. }
  split_and!; simpl; [by rewrite length_insert| |].
  - intros b c j. rewrite !lookup_insert. repeat case_decide; subst; try done.
    + intros [= <-] Hc. by apply Hno in Hc.
    + intros Hb [= <-]. by apply Hno in Hb.
    + apply Hinj.
  - intros j. destruct (decide (i = j)) as [<-|Hne].
    + rewrite list_lookup_insert_eq by (by apply lookup_lt_Some in Hi).
      split; [|done]. intros _. exists a. by rewrite lookup_insert_eq.
    + rewrite list_lookup_insert_ne, Hu by done. split; intros [b Hb].
      * exists b. rewrite lookup_insert_ne; [done|]. congruence.
      * rewrite lookup_insert in Hb. case_decide; [congruence|]. by exists b.
Qed.

Lemma pool_ok_remove live st a i :
  pool_ok live st -> live !! a = Some i ->
  forall w, pool_ok (delete a live) (mkPool (<[i := false]> (s_stack_used st)) w).
Proof.
  intros Hok Ha w. pose proof (pool_ok_bound _ _ _ _ Hok Ha) as Hi.
  destruct Hok as (Hl & Hinj & Hu). split_and!; simpl; [by rewrite length_insert| |].
  - intros b c j. rewrite !lookup_delete. repeat case_decide; try done. apply Hinj.
  - intros j. destruct (decide (i = j)) as [<-|Hne].
    + rewrite list_lookup_insert_eq by lia. split; [done|]. intros [b Hb].
      rewrite lookup_delete in Hb. case_decide; [done|]. by destruct (Hinj a b i Ha Hb).
    + rewrite list_lookup_insert_ne, Hu by done. split; intros [b Hb].
      * exists b. rewrite lookup_delete_ne; [done|]. congruence.
      * rewrite lookup_delete in Hb. case_decide; [done|]. by exists b.
Qed.

(** Every way a creation can end. *)
Lemma pos_task_init_pool live st a t func arg prio stack_size :
  pool_ok live st -> live !! a = None ->
  let '(e, t', st') := pos_task_init t func arg prio stack_size st in
  match e with
  | POS_OK => exists i, stack t' = Some i /\ (i < MAX_TASKS)%nat /\
                (forall b, live !! b <> Some i) /\ pool_ok (<[a := i]> live) st'
  | POS_EINVAL => STACK_SIZE < stack_size /\ st' = st
  | POS_ENOMEM => (forall i, (i < MAX_TASKS)%nat -> exists b, live !! b = Some i) /\ st' = st
  | POS_ERROR => pool_ok live st'
  | _ => False
  end.
Proof.
  intros Hok Ha. unfold pos_task_init. destruct (Z.ltb_spec STACK_SIZE stack_size); [done|].
  pose proof (find_unused_spec (s_stack_used st) 0) as Hf.
  destruct (find_unused (s_stack_used st) 0) as [i|].
  - destruct Hf as (k & -> & Hk & _). simpl.
    pose proof (pool_ok_init live st a k Hok Hk Ha) as Hok'.
    destruct (k_thread_create k (pos_task_wrapper func arg) prio (kernel st)) as [[id|] w].
    + exists k. split_and!; [done | | | done].
      * apply (pool_ok_bound _ _ a k (Hok' w)). apply lookup_insert_eq.
      * intros b Hb. destruct Hok as (_ & _ & Hu).
        assert (s_stack_used st !! k = Some true) as E by (apply Hu; by exists b). congruence.
    + rewrite list_insert_insert_eq, list_insert_id by done.
      destruct Hok as (? & ? & ?). by split_and!.
  - split; [|done]. destruct Hok as (Hl & _ & Hu). intros i Hi.
    destruct (lookup_lt_is_Some_2 (s_stack_used st) i) as [b Hb]; [by rewrite Hl|].
    apply Hu. by rewrite Hb, (Hf i b Hb).
Qed.

(** Removing a live task takes its stack back, and only its stack. *)
Lemma pos_task_remove_pool live st a i (t : pos_task T) :
  pool_ok live st -> live !! a = Some i -> stack t = Some i ->
  let '(e, st') := pos_task_remove t st in e = POS_OK /\ pool_ok (delete a live) st'.
Proof.
  intros Hok Ha Ht. unfold pos_task_remove. rewrite Ht, free_stack_0. split; [done|].
  by apply pool_ok_remove.
Qed.

(** * Properties *)

(** The stack pool: a creation gives the new task a stack of its own, which
    no live task has, or answers POS_EINVAL for more than 2048 bytes,
    POS_ENOMEM exactly when all ten stacks are in use, or POS_ERROR when the
    kernel refuses, and then leaves the pool as it was. *)
Theorem zephyr_pool_init live st a t func arg prio stack_size :
  pool_ok live st -> live !! a = None ->
  let '(e, t', st') := pos_task_init t func arg prio stack_size st in
  match e with
  | POS_OK => exists i, stack t' = Some i /\ (i < MAX_TASKS)%nat /\
                (forall b, live !! b <> Some i) /\ pool_ok (<[a := i]> live) st'
  | POS_EINVAL => STACK_SIZE < stack_size /\ st' = st
  | POS_ENOMEM => (forall i, (i < MAX_TASKS)%nat -> exists b, live !! b = Some i) /\ st' = st
  | POS_ERROR => pool_ok live st'
  | _ => False
  end.
Proof. apply pos_task_init_pool. Qed.

(** A task removed twice: [pos_task_remove] does not forget the stack, so
    that a second removal takes it away from the task that has it by then, and
    the next creation puts two live tasks on one stack. *)
Theorem zephyr_double_remove (tA tB tC : pos_task T) func arg prio size st :
  size <= STACK_SIZE -> find_unused (s_stack_used st) 0 <> None ->
  (forall i w, (k_thread_create i (pos_task_wrapper func arg) prio w).1 <> None) ->
  let '(eA, tA, st) := pos_task_init tA func arg prio size st in
  let '(_, st) := pos_task_remove tA st in
  let '(eB, tB, st) := pos_task_init tB func arg prio size st in
  let '(e, st) := pos_task_remove tA st in
  let '(eC, tC, st) := pos_task_init tC func arg prio size st in
  eA = POS_OK /\ eB = POS_OK /\ e = POS_OK /\ eC = POS_OK /\
  stack tB = stack tC /\ is_Some (stack tC).
Proof.
  intros Hsize Hf Hk. destruct st as [used w]. simpl in Hf.
  pose proof (find_unused_spec used 0) as Hs.
  destruct (find_unused used 0) as [i|] eqn:Ei; [|done].
  destruct Hs as (k & -> & Hused & _). change (0 + k)%nat with k in *.
  assert (forall t w, exists id w', pos_task_init t func arg prio size (mkPool used w) =
    (POS_OK, mkPosTask (Some id) (Some k), mkPool (<[k := true]> used) w')) as Hinit.
  { intros t w'. unfold pos_task_init. simpl. rewrite (proj2 (Z.ltb_ge _ _)), Ei by done.
    specialize (Hk k w'). destruct (k_thread_create k (pos_task_wrapper func arg) prio w') as [[id|] w2]; [|done].
    by exists id, w2. }
  assert (forall id w, pos_task_remove (mkPosTask id (Some k)) (mkPool (<[k := true]> used) w) =
    (POS_OK, mkPool used (k_thread_abort id w))) as Hrem.
  { intros id w'. unfold pos_task_remove. simpl.
    rewrite free_stack_0, list_insert_insert_eq, list_insert_id by done. done. }
  destruct (Hinit tA w) as (idA & w1 & ->).
  cbv beta iota zeta. rewrite Hrem. cbv beta iota zeta.
  destruct (Hinit tB (k_thread_abort (Some idA) w1)) as (idB & w2 & ->).
  cbv beta iota zeta. rewrite Hrem. cbv beta iota zeta.
  destruct (Hinit tC (k_thread_abort (Some idA) w2)) as (idC & w3 & ->).
  by split_and!.
Qed.

(** * The task contract *)

Lemma zephyr_task_laws `{!ZThreadsLaws T F X W} : OsalTaskLaws (pos_task T) F X (pool W).
Proof.
  split; simpl.
  - intros _ f x prio size t st e t' st' [= E]. unfold pos_task_init in E.
    destruct (STACK_SIZE <? size); [by simplify_eq/=; rewrite Nat.add_0_r|].
    destruct (find_unused _ 0) as [k|]; [|by simplify_eq/=; rewrite Nat.add_0_r].
    pose proof (z_create_counts k (pos_task_wrapper f x) prio (kernel st)) as Hc.
    destruct (k_thread_create k (pos_task_wrapper f x) prio (kernel st)) as [[id|] w]; by simplify_eq/=.
  - intros t st e st' [= <- <-]. simpl.
    destruct (z_abort_counts (thread t) (kernel st)) as [-> ->]. by rewrite Nat.add_1_r.
Qed.

(** * Wrapper objects over the pool *)

(** Some objects of the class OsTask and the pool they share; and, of the
    history, the stacks of the tasks that were running on an object when it was
    started again ([lost]: the object no longer knows them, so nothing removes
    them), and whether the kernel has refused the second task of such a start
    ([refused]). *)
Record ocfg := mkOcfg {
  objs : list (OsTask (pos_task T));
  opool : pool W;
  lost : list nat;
  refused : bool
}.

Definition lost_by (o : OsTask (pos_task T)) (e : pos_error) : list nat :=
  if inited_ o && bool_decide (e = POS_OK) then option_list (stack (task_ o)) else [].

(** A call of Start or Remove on any of the objects. *)
Inductive objects_step : ocfg -> ocfg -> Prop :=
| objects_start c i o nm func arg prio size e o' st' :
    objs c !! i = Some o ->
    Start nm func arg prio size o (opool c) = Ret (e, o', st') ->
    objects_step c (mkOcfg (<[i := o']> (objs c)) st' (lost_by o e ++ lost c)
                      (refused c || inited_ o && bool_decide (e = POS_ERROR)))
| objects_remove c i o e o' st' :
    objs c !! i = Some o -> Remove o (opool c) = Ret (e, o', st') ->
    objects_step c (mkOcfg (<[i := o']> (objs c)) st' (lost c) (refused c)).

(** The stack of object [i], if it runs a task. *)
Definition running (objs : list (OsTask (pos_task T))) (i k : nat) : Prop :=
  exists o, objs !! i = Some o /\ inited_ o = true /\ stack (task_ o) = Some k.

(** Every live task has a stack of its own: those the objects run, and those
    that were lost. *)
Record objects_inv (c : ocfg) : Prop := {
  objects_stack : forall i o, objs c !! i = Some o -> inited_ o = true -> is_Some (stack (task_ o));
  objects_own : forall i j k, running (objs c) i k -> running (objs c) j k -> i = j;
  objects_lost : forall i k, running (objs c) i k -> k ∉ lost c;
  objects_lost_own : NoDup (lost c);
  objects_used : forall k, s_stack_used (opool c) !! k = Some true <->
    (exists i, running (objs c) i k) \/ k ∈ lost c
}.

(** What a creation does to the pool. *)
Lemma pos_task_init_used t func arg prio size st :
  let '(e, t', st') := pos_task_init t func arg prio size st in
  match e with
  | POS_OK => exists k, stack t' = Some k /\ s_stack_used st !! k = Some false /\
                s_stack_used st' = <[k := true]> (s_stack_used st)
  | POS_ERROR => s_stack_used st' = s_stack_used st
  | POS_EINVAL | POS_ENOMEM => t' = t /\ st' = st
  | _ => False
  end.
Proof.
  unfold pos_task_init. destruct (STACK_SIZE <? size); [done|].
  pose proof (find_unused_spec (s_stack_used st) 0) as Hf.
  destruct (find_unused (s_stack_used st) 0) as [i|]; [|done].
  destruct Hf as (k & -> & Hk & _). simpl.
  destruct (k_thread_create k (pos_task_wrapper func arg) prio (kernel st)) as [[id|] w].
  - by exists k.
  - simpl. by rewrite list_insert_insert_eq, list_insert_id.
Qed.

Lemma running_insert objs i o o' :
  objs !! i = Some o -> forall j k, running (<[i := o']> objs) j k <->
  (j = i /\ inited_ o' = true /\ stack (task_ o') = Some k) \/ (j <> i /\ running objs j k).
Proof.
  intros Hi j k. unfold running. destruct (decide (j = i)) as [->|Hne].
  - rewrite list_lookup_insert_eq by (by apply lookup_lt_Some in Hi). split.
    + intros (o1 & [= <-] & ? & ?). by left.
    + intros [(_ & ? & ?)|[[] _]]; [by exists o'|done].
  - rewrite list_lookup_insert_ne by done. split; [by right|]. by intros [[? _]|[_ ?]].
Qed.

Lemma running_same objs i o o' :
  objs !! i = Some o -> inited_ o' = inited_ o -> (inited_ o = true -> task_ o' = task_ o) ->
  forall j k, running (<[i := o']> objs) j k <-> running objs j k.
Proof.
  intros Hi He Ht j k. rewrite (running_insert objs i o o' Hi), He. unfold running.
  destruct (decide (j = i)) as [->|Hne]; [|by split; [intros [[? _]|[_ ?]]|right]]. rewrite Hi. split.
  - intros [(_ & Hin & Hk)|[]]; [|done]. exists o. rewrite Ht in Hk by done. done.
  - intros (o1 & [= <-] & Hin & Hk). left. by rewrite Ht.
Qed.

(** A step that leaves what the objects run. *)
Lemma objects_inv_same c objs' st' rf :
  objects_inv c -> s_stack_used st' = s_stack_used (opool c) ->
  (forall i k, running objs' i k <-> running (objs c) i k) ->
  (forall i o, objs' !! i = Some o -> inited_ o = true -> is_Some (stack (task_ o))) ->
  objects_inv (mkOcfg objs' st' (lost c) rf).
Proof.
  intros [Hs Ho Hl Hn Hu] Hused Hr Hs'. split; simpl; [done| | |done|].
  - intros i j k. rewrite !Hr. apply Ho.
  - intros i k. rewrite Hr. apply Hl.
  - intros k. rewrite Hused, Hu. by setoid_rewrite Hr.
Qed.

Lemma stacks_insert (objs : list (OsTask (pos_task T))) i o' :
  (forall i o, objs !! i = Some o -> inited_ o = true -> is_Some (stack (task_ o))) ->
  (inited_ o' = true -> is_Some (stack (task_ o'))) ->
  forall j o, <[i := o']> objs !! j = Some o -> inited_ o = true -> is_Some (stack (task_ o)).
Proof.
  intros Hs Ho' j o. rewrite list_lookup_insert. case_decide as Hd; [|by apply Hs]. by intros [= <-].
Qed.

Lemma objects_inv_created c i o t k st' rf :
  objects_inv c -> objs c !! i = Some o -> stack t = Some k ->
  s_stack_used (opool c) !! k = Some false -> s_stack_used st' = <[k := true]> (s_stack_used (opool c)) ->
  objects_inv (mkOcfg (<[i := mkOsTask t true]> (objs c)) st' (lost_by o POS_OK ++ lost c) rf).
Proof.
  intros [Hs Ho Hl Hn Hu] Hi Hk Hfree Hused.
  pose proof (running_insert (objs c) i o (mkOsTask t true) Hi) as Hr. simpl in Hr.
  assert (forall j, ~ running (objs c) j k) as Hnk.
  { intros j Hj. assert (s_stack_used (opool c) !! k = Some true) as E by (apply Hu; eauto). congruence. }
  assert (k ∉ lost c) as Hnl.
  { intros Hk'. assert (s_stack_used (opool c) !! k = Some true) as E by (apply Hu; eauto). congruence. }
  assert (forall k', k' ∈ lost_by o POS_OK <-> running (objs c) i k') as Hlb.
  { intros k'. unfold lost_by, running. rewrite Hi, bool_decide_eq_true_2, andb_true_r by done.
    destruct (inited_ o) eqn:Eo; cycle 1.
    { split; [by intros ?%elem_of_nil|]. intros (o1 & [= <-] & E & _). congruence. }
    destruct (Hs i o Hi Eo) as [k0 Hk0]. rewrite Hk0. simpl. rewrite list_elem_of_singleton. split.
    - intros ->. by exists o.
    - intros (o1 & [= <-] & _ & E). congruence. }
  split; simpl.
  - by apply stacks_insert.
  - intros j1 j2 k'. rewrite !Hr. intros [(-> & _ & E1)|[N1 R1]] [(-> & _ & E2)|[N2 R2]]; try done.
    + rewrite Hk in E1. injection E1 as <-. by apply Hnk in R2.
    + rewrite Hk in E2. injection E2 as <-. by apply Hnk in R1.
    + by apply (Ho j1 j2 k').
  - intros j k' Hj%Hr. rewrite elem_of_app, Hlb. destruct Hj as [(-> & _ & E)|[Hne R]].
    + rewrite Hk in E. injection E as <-. intros [R|R]; [by apply Hnk in R | done].
    + intros [R'|R']; [by apply Hne, (Ho j i k') | by apply (Hl j k') in R].
  - apply NoDup_app. split_and!; [|by intros k' Hk'%Hlb; apply (Hl i k')|done].
    unfold lost_by. case_match; [|apply NoDup_nil_2]. destruct (stack (task_ o)); simpl;
      [apply NoDup_singleton | apply NoDup_nil_2].
  - intros k'. rewrite Hused. destruct (decide (k = k')) as [<-|Hne].
    + rewrite list_lookup_insert_eq by (by apply lookup_lt_Some in Hfree).
      split; [|done]. intros _. left. exists i. rewrite Hr. by left.
    + rewrite list_lookup_insert_ne, Hu, elem_of_app, Hlb by done. setoid_rewrite Hr. split.
      * intros [[j R]|R]; [|by auto]. destruct (decide (j = i)) as [->|]; eauto.
      * intros [[j [(-> & _ & E)|[_ R]]]|[R|R]]; eauto. rewrite Hk in E. by injection E as <-.
Qed.

Lemma objects_inv_removed c i o k st' rf :
  objects_inv c -> objs c !! i = Some o -> inited_ o = true -> stack (task_ o) = Some k ->
  s_stack_used st' = <[k := false]> (s_stack_used (opool c)) ->
  objects_inv (mkOcfg (<[i := mkOsTask (task_ o) false]> (objs c)) st' (lost c) rf).
Proof.
  intros [Hs Ho Hl Hn Hu] Hi Hin Hk Hused.
  pose proof (running_insert (objs c) i o (mkOsTask (task_ o) false) Hi) as Hr. simpl in Hr.
  assert (running (objs c) i k) as Hrun by (by exists o).
  split; simpl; [by apply stacks_insert| | |done|].
  - intros j1 j2 k'. rewrite !Hr. intros [(_ & ? & _)|[_ R1]] [(_ & ? & _)|[_ R2]]; try done.
    by apply (Ho j1 j2 k').
  - intros j k' [(_ & ? & _)|[_ R]]%Hr; [done|]. by apply (Hl j k').
  - intros k'. rewrite Hused. setoid_rewrite Hr. destruct (decide (k = k')) as [<-|Hne].
    + assert (s_stack_used (opool c) !! k = Some true) as E by (apply Hu; eauto).
      rewrite list_lookup_insert_eq by (by apply lookup_lt_Some in E). split; [done|].
      intros [[j [(_ & ? & _)|[Hj R]]]|R]; [done|by destruct Hj; apply (Ho j i k)|by apply Hl in Hrun].
    + rewrite list_lookup_insert_ne, Hu by done. split.
      * intros [[j R]|R]; [|by right]. left. exists j. right. split; [|done]. intros ->.
        destruct R as (o1 & E1 & _ & Ek). congruence.
      * intros [[j [(_ & ? & _)|[_ R]]]|R]; [done|left; eauto|by right].
Qed.

Lemma objects_inv_step c c' :
  objects_inv c -> objects_step c c' -> refused c' = false -> objects_inv c'.
Proof.
  intros Hinv Hstep. inversion Hstep as
    [? i o nm func arg prio size e o' st' Hi E|? i o e o' st' Hi E]; subst; clear Hstep; simpl.
  - intros [_ Hrf]%orb_false_iff. unfold Start in E. simpl in E.
    pose proof (pos_task_init_used (task_ o) func arg prio size (opool c)) as Hinit.
    destruct (pos_task_init (task_ o) func arg prio size (opool c)) as [[err t] st1].
    injection E as <- <- <-. pose proof (objects_stack c Hinv) as Hst.
    assert (forall o1, err <> POS_OK -> task_ o1 = t -> inited_ o1 = inited_ o ->
      s_stack_used st1 = s_stack_used (opool c) -> (inited_ o = true -> t = task_ o) ->
      objects_inv (mkOcfg (<[i := o1]> (objs c)) st1 (lost_by o err ++ lost c)
        (refused c || inited_ o && bool_decide (err = POS_ERROR)))) as Hsame.
    { intros o1 He Ht1 Hi1 Hus Ht. unfold lost_by. rewrite (bool_decide_eq_false_2 (err = POS_OK)) by done.
      rewrite andb_false_r. apply objects_inv_same; [done|done| |].
      - apply (running_same (objs c) i o); [done|done|]. intros Ho. by rewrite Ht1, Ht.
      - apply stacks_insert; [done|]. rewrite Hi1, Ht1. intros Ho. rewrite (Ht Ho). by apply (Hst i). }
    destruct err; try done; simpl.
    + destruct Hinit as (k & Hk & Hfree & Hused). by apply (objects_inv_created c i o t k).
    + destruct Hinit as [-> ->]. by apply Hsame.
    + destruct Hinit as [-> ->]. by apply Hsame.
    + apply Hsame; try done. intros Ho. rewrite Ho in Hrf. discriminate Hrf.
  - intros _. unfold Remove in E. destruct (inited_ o) eqn:Ho; cycle 1.
    { injection E as <- <- <-. rewrite list_insert_id by done. by destruct c. }
    destruct (objects_stack c Hinv i o Hi Ho) as [k Hk].
    change (osal_task_remove (task_ o) (opool c)) with (Ret (pos_task_remove (task_ o) (opool c))) in E.
    cbn [obind] in E. unfold pos_task_remove in E. rewrite Hk, free_stack_0 in E. injection E as <- <- <-.
    by apply (objects_inv_removed c i o k).
Qed.

Lemma refused_step c c' : objects_step c c' -> refused c' = false -> refused c = false.
Proof. intros Hs. inversion Hs; subst; simpl; [by intros [? _]%orb_false_iff | done]. Qed.

Lemma objects_inv_init n w :
  objects_inv (mkOcfg (replicate n (OsTask_new (mkPosTask None None)))
                 (mkPool (replicate MAX_TASKS false) w) [] false).
Proof.
  assert (forall i o, replicate n (OsTask_new (mkPosTask (T := T) None None)) !! i = Some o ->
    inited_ o = false) as Hno by (by intros i o [-> _]%lookup_replicate).
  split; cbn [objs opool lost s_stack_used].
  - intros i o Hi. by rewrite (Hno i o Hi).
  - intros i j k (o & Hi & Hin & _). by rewrite (Hno i o Hi) in Hin.
  - intros i k _. apply not_elem_of_nil.
  - apply NoDup_nil_2.
  - intros k. split; [by intros [? _]%lookup_replicate|].
    intros [(i & o & Hi & Hin & _)|Hk]; [by rewrite (Hno i o Hi) in Hin | by apply elem_of_nil in Hk].
Qed.


(** If the kernel refuses, the object keeps [inited_] with a stack it was not
    given: the next task created gets that stack, and is run by another object,
    and a removal through the first takes it away. *)
Theorem zephyr_restart_refused nm func arg prio size o1 o2 st o1' st1 o2' st2 e st3 o1'' :
  inited_ o1 = true ->
  Start nm func arg prio size o1 st = Ret (POS_ERROR, o1', st1) ->
  Start nm func arg prio size o2 st1 = Ret (POS_OK, o2', st2) ->
  Remove o1' st2 = Ret (e, o1'', st3) ->
  exists k, stack (task_ o2') = Some k /\ inited_ o2' = true /\
    stack (task_ o1') = Some k /\ inited_ o1' = true /\ s_stack_used st3 !! k = Some false.
Proof.
  intros Ho E1 E2 E3. unfold Start in E1, E2. simpl in E1, E2. unfold pos_task_init in E1, E2.
  destruct (STACK_SIZE <? size); [done|].
  destruct (find_unused (s_stack_used st) 0) as [k|] eqn:Ef; [|done].
  pose proof (find_unused_spec (s_stack_used st) 0) as Hf. rewrite Ef in Hf.
  destruct Hf as (k' & -> & Hk & _). simpl in *.
  destruct (k_thread_create k' (pos_task_wrapper func arg) prio (kernel st)) as [[id|] w]; [done|].
  injection E1 as <- <-. cbn [s_stack_used kernel] in E2.
  rewrite list_insert_insert_eq, list_insert_id, Ef in E2 by done. simpl in E2.
  destruct (k_thread_create k' (pos_task_wrapper func arg) prio w) as [[id|] w2]; [|done].
  injection E2 as <- <-. exists k'. split_and!; [done|done|done|done|].
  unfold Remove in E3. simpl in E3. rewrite Ho in E3. injection E3 as _ _ <-. simpl.
  rewrite free_stack_0, list_insert_insert_eq, list_lookup_insert_eq; [done|].
  by apply lookup_lt_Some in Hk.
Qed.
End ZephyrTask.

(** * Witnesses *)

Section Witness.

(** Threads that are the stacks they run on. *)
#[local] Instance demo_z_threads : ZThreads nat nat nat (list nat) := {
  k_thread_create i call prio w := (Some i, i :: w);
  k_thread_abort id w := match id with Some i => List.remove Nat.eq_dec i w | None => w end;
  z_started := length;
  z_aborted _ := 0%nat
}.

Definition demo_pool : pool (list nat) := mkPool (true :: replicate 9 false) [0%nat].

Lemma demo_pool_ok : pool_ok {[ 5%nat := 0%nat ]} demo_pool.
Proof.
  split_and!; [done| |].
  - intros a b i Ha Hb. apply lookup_singleton_Some in Ha as [<- _].
    by apply lookup_singleton_Some in Hb as [<- _].
  - intros [|i].
    + split; [|done]. intros _. exists 5%nat. by rewrite lookup_singleton_eq.
    + split.
      * intros E. exfalso. change (replicate 9 false !! i = Some true) in E.
        apply lookup_replicate in E as [? _]. done.
      * intros [a Ha]. by apply lookup_singleton_Some in Ha as [_ ?].
Qed.

Example zephyr_pool_init_witness :
  let '(e, t', st') := pos_task_init (mkPosTask None None) 7%nat 9%nat 3 2048 demo_pool in
  e = POS_OK /\ exists i, stack t' = Some i /\ pool_ok (<[6%nat := i]> {[ 5%nat := 0%nat ]}) st'.
Proof.
  pose proof (zephyr_pool_init {[ 5%nat := 0%nat ]} demo_pool 6%nat (mkPosTask None None) 7%nat 9%nat 3 2048
    demo_pool_ok eq_refl) as Hi.
  destruct (pos_task_init (mkPosTask None None) 7%nat 9%nat 3 2048 demo_pool) as [[e t'] st'] eqn:E.
  vm_compute in E. injection E as <- <- <-. destruct Hi as (i & ? & _ & _ & ?).
  split; [reflexivity|]. by exists i.
Defined.

Example zephyr_double_remove_witness :
  let t := mkPosTask None None in
  let '(eA, tA, st) := pos_task_init t 7%nat 9%nat 3 100 demo_pool in
  let '(_, st) := pos_task_remove tA st in
  let '(eB, tB, st) := pos_task_init t 7%nat 9%nat 3 100 st in
  let '(e, st) := pos_task_remove tA st in
  let '(eC, tC, st) := pos_task_init t 7%nat 9%nat 3 100 st in
  eA = POS_OK /\ eB = POS_OK /\ e = POS_OK /\ eC = POS_OK /\ stack tB = stack tC /\ is_Some (stack tC).
Proof.
  refine (zephyr_double_remove (mkPosTask None None) (mkPosTask None None) (mkPosTask None None)
    7%nat 9%nat 3 100 demo_pool _ _ _); vm_compute; congruence.
Defined.

End Witness.
