(* ===== verification/ZephyrTaskThreads.v ===== *)
(** targets/zephyr/os_task.c, statement by statement: [pos_task_init] looks for
    an unused stack and marks it in two statements, and [pos_task_remove] frees
    one, while other threads do the same. The pool is sound as long as one
    thread at a time creates tasks, whatever is removed meanwhile; two creations
    at once can put two tasks on one stack. *)

From S2P Require Import Prelude OsTypes Pthread ZephyrTask.

(** Where a thread is inside a function, named after the statement it runs
    next; [obj] is the task object, [i] the index of a stack. *)
Inductive zposition :=
| InitScan (obj i : nat)          (* if (!s_stack_used[i]) *)
| InitMark (obj i : nat)          (* s_stack_used[stack_idx] = true *)
| InitStack (obj i : nat)         (* t->stack = s_task_stacks[stack_idx] *)
| InitCreate (obj i : nat)        (* t->tid = k_thread_create(&t->thread, t->stack, ...) *)
| InitUnmark (i : nat)            (* s_stack_used[stack_idx] = false *)
| FreeScan (obj i : nat)          (* if (t->stack == s_task_stacks[i]) *)
| FreeClear (i : nat).            (* s_stack_used[i] = false *)

(** The pool; the field [stack] of each task object that was assigned; the stack
    on which the task of each object runs; the threads. *)
Record zconfig := mkZConfig {
  used : list bool;
  stack_field : gmap nat nat;
  live : gmap nat nat;
  zthreads : gmap tid zposition
}.

(** A call, or a statement of a thread; [granted] is whether the kernel starts
    the thread it is asked for. The removal of a task that runs begins with
    [k_thread_abort(t->tid)]. *)
Inductive zmove :=
| BeginInit (t : tid) (obj : nat) (stack_size : Z)
| BeginRemove (t : tid) (obj : nat)
| ZRun (t : tid) (granted : bool).

Definition zgo (t : tid) (p : zposition) (c : zconfig) : zconfig :=
  mkZConfig (used c) (stack_field c) (live c) (<[t := p]> (zthreads c)).
Definition zleave (t : tid) (c : zconfig) : zconfig :=
  mkZConfig (used c) (stack_field c) (live c) (delete t (zthreads c)).
Definition mark (i : nat) (b : bool) (c : zconfig) : zconfig :=
  mkZConfig (<[i := b]> (used c)) (stack_field c) (live c) (zthreads c).
Definition set_stack (obj i : nat) (c : zconfig) : zconfig :=
  mkZConfig (used c) (<[obj := i]> (stack_field c)) (live c) (zthreads c).
Definition with_live (l : gmap nat nat) (c : zconfig) : zconfig :=
  mkZConfig (used c) (stack_field c) l (zthreads c).

(** The next statement of thread [t] at [p]. A loop that runs past its end
    leaves the function (with POS_ENOMEM, or nothing to free). *)
Definition zrun (t : tid) (granted : bool) (p : zposition) (c : zconfig) : zconfig :=
  match p with
  | InitScan obj i =>
      match used c !! i with
      | Some false => zgo t (InitMark obj i) c
      | Some true => zgo t (InitScan obj (S i)) c
      | None => zleave t c
      end
  | InitMark obj i => zgo t (InitStack obj i) (mark i true c)
  | InitStack obj i => zgo t (InitCreate obj i) (set_stack obj i c)
  | InitCreate obj i =>
      if granted
      then zleave t (with_live (match stack_field c !! obj with
                                | Some st => <[obj := st]> (live c)
                                | None => live c
                                end) c)
      else zgo t (InitUnmark i) c
  | InitUnmark i => zleave t (mark i false c)
  | FreeScan obj i =>
      if (i <? MAX_TASKS)%nat
      then zgo t (if bool_decide (stack_field c !! obj = Some i) then FreeClear i else FreeScan obj (S i)) c
      else zleave t c
  | FreeClear i => zleave t (mark i false c)
  end.

Definition zexec (mv : zmove) (c : zconfig) : option zconfig :=
  match mv with
  | BeginInit t obj stack_size =>
      match zthreads c !! t with
      | None => Some (if STACK_SIZE <? stack_size then c else zgo t (InitScan obj 0) c)
      | Some _ => None
      end
  | BeginRemove t obj =>
      match zthreads c !! t, live c !! obj with
      | None, Some _ => Some (zgo t (FreeScan obj 0) (with_live (delete obj (live c)) c))
      | _, _ => None
      end
  | ZRun t granted =>
      match zthreads c !! t with Some p => Some (zrun t granted p c) | None => None end
  end.

Fixpoint zexec_all (mvs : list zmove) (c : zconfig) : option zconfig :=
  match mvs with
  | [] => Some c
  | mv :: mvs => match zexec mv c with Some c' => zexec_all mvs c' | None => None end
  end.

(** An empty pool. *)
Definition zinit : zconfig := mkZConfig (replicate MAX_TASKS false) ∅ ∅ ∅.

Definition creating (p : zposition) : bool :=
  match p with
  | InitScan _ _ | InitMark _ _ | InitStack _ _ | InitCreate _ _ | InitUnmark _ => true
  | _ => false
  end.

(** The thread looks for the stack of [obj] to free it. *)
Definition freeing (obj : nat) (p : zposition) : bool :=
  match p with FreeScan obj' _ => (obj' =? obj)%nat | _ => false end.

(** One creation at a time, on an object that has no task and is not being
    removed. *)
Definition one_creator (mv : zmove) (c : zconfig) : Prop :=
  match mv with
  | BeginInit t obj _ =>
      live c !! obj = None /\
      forall t' p, zthreads c !! t' = Some p -> creating p = false /\ freeing obj p = false
  | _ => True
  end.

(** What is reached by moves that keep a discipline. *)
Inductive zreachable (ok : zmove -> zconfig -> Prop) : zconfig -> Prop :=
| zreach_init : zreachable ok zinit
| zreach_step c mv c' : zreachable ok c -> ok mv c -> zexec mv c = Some c' -> zreachable ok c'.

(** * Who has a stack *)

(** The stack a thread holds inside a function: past the mark of a creation,
    and until the end of a removal. *)
Definition held (sf : gmap nat nat) (p : zposition) : option nat :=
  match p with
  | InitStack _ i | InitCreate _ i | InitUnmark i | FreeClear i => Some i
  | FreeScan obj _ => sf !! obj
  | _ => None
  end.

(** A task object or a thread has the stack [i]. *)
Definition has (c : zconfig) (who : nat + tid) (i : nat) : Prop :=
  match who with
  | inl obj => live c !! obj = Some i
  | inr t => exists p, zthreads c !! t = Some p /\ held (stack_field c) p = Some i
  end.

(** Every stack in use has one owner, and the others have none. *)
Definition owned (R : nat + tid -> nat -> Prop) (u : list bool) : Prop :=
  length u = MAX_TASKS /\ (forall w1 w2 i, R w1 i -> R w2 i -> w1 = w2) /\
  (forall i, u !! i = Some true <-> exists w, R w i).

Lemma owned_same R R' u : owned R u -> (forall w i, R' w i <-> R w i) -> owned R' u.
Proof.
  intros (Hl & Hu & Hi) Hr. split_and!; [done| |].
  - intros w1 w2 i. rewrite !Hr. apply Hu.
  - intros i. rewrite Hi. split; intros [w Hw]; exists w; by apply Hr.
Qed.

Lemma owned_acquire R R' u w0 i0 :
  owned R u -> u !! i0 = Some false ->
  (forall w i, R' w i <-> R w i \/ (w = w0 /\ i = i0)) -> owned R' (<[i0 := true]> u).
Proof.
  intros (Hl & Hu & Hi) Hf Hr.
  assert (forall w, ~ R w i0) as Hno.
  { intros w Hw. assert (u !! i0 = Some true) by (apply Hi; by exists w). congruence. }
  split_and!; [by rewrite length_insert| |].
  - intros w1 w2 i. rewrite !Hr. intros [H1|[-> ->]] [H2|[-> E]]; try done.
    + by apply (Hu w1 w2 i). + subst. by apply Hno in H1. + by apply Hno in H2.
  - intros i. destruct (decide (i = i0)) as [->|Hne].
    + rewrite list_lookup_insert_eq by (by apply lookup_lt_Some in Hf). split; [|done].
      intros _. exists w0. apply Hr. by right.
    + rewrite list_lookup_insert_ne, Hi by done. split; intros [w Hw]; exists w.
      * apply Hr. by left.
      * apply Hr in Hw as [|[_ ?]]; done.
Qed.

Lemma owned_release R R' u w0 i0 :
  owned R u -> R w0 i0 -> (forall w i, R' w i <-> R w i /\ w <> w0) ->
  (forall i, R w0 i -> i = i0) -> owned R' (<[i0 := false]> u).
Proof.
  intros (Hl & Hu & Hi) Hw0 Hr Hfun. split_and!; [by rewrite length_insert| |].
  - intros w1 w2 i. rewrite !Hr. intros [H1 _] [H2 _]. by apply (Hu w1 w2 i).
  - intros i. assert (u !! i0 = Some true) as Ht by (apply Hi; by exists w0).
    destruct (decide (i = i0)) as [->|Hne].
    + rewrite list_lookup_insert_eq by (by apply lookup_lt_Some in Ht). split; [done|].
      intros [w Hw]. apply Hr in Hw as [Hw Hne]. by destruct Hne; apply (Hu w w0 i0).
    + rewrite list_lookup_insert_ne, Hi by done. split; intros [w Hw]; exists w.
      * apply Hr. split; [done|]. intros ->. by apply Hne, Hfun.
      * by apply Hr in Hw as [].
Qed.

Lemma owned_transfer R R' u w0 w1 i0 :
  owned R u -> R w0 i0 -> (forall i, R w0 i -> i = i0) -> (forall i, ~ R w1 i) ->
  (forall w i, R' w i <-> (R w i /\ w <> w0) \/ (w = w1 /\ i = i0)) -> owned R' u.
Proof.
  intros (Hl & Hu & Hi) Hw0 Hfun Hno Hr. split_and!; [done| |].
  - intros a b i. rewrite !Hr. intros [[Ha Hna]|[-> ->]] [[Hb Hnb]|[-> E]]; try done.
    + by apply (Hu a b i). + subst i. by destruct Hna; apply (Hu a w0 i0).
    + by destruct Hnb; apply (Hu b w0 i0).
  - intros i. rewrite Hi. split; intros [w Hw].
    + destruct (decide (w = w0)) as [->|Hne].
      * exists w1. apply Hr. right. split; [done|by apply Hfun].
      * exists w. apply Hr. by left.
    + apply Hr in Hw as [[Hw _]|[_ ->]]; [by exists w | by exists w0].
Qed.

(** A creation that is about to mark a stack has found it unused, and it still
    is; its object has no task and, once assigned, has that stack; and the loop
    of a removal has not passed the stack of its object. *)
Definition zposition_ok (c : zconfig) (p : zposition) : Prop :=
  match p with
  | InitScan obj _ | InitStack obj _ => live c !! obj = None
  | InitMark obj i => used c !! i = Some false /\ live c !! obj = None
  | InitCreate obj i => live c !! obj = None /\ stack_field c !! obj = Some i
  | FreeScan obj i => exists st, stack_field c !! obj = Some st /\ (i <= st)%nat
  | _ => True
  end.

(** The object a creation will write. *)
Definition object_of (p : zposition) : option nat :=
  match p with
  | InitScan obj _ | InitMark obj _ | InitStack obj _ => Some obj
  | _ => None
  end.

Record zinv (c : zconfig) : Prop := {
  zinv_owned : owned (has c) (used c);
  zinv_live : forall obj i, live c !! obj = Some i -> stack_field c !! obj = Some i;
  zinv_threads : forall t p, zthreads c !! t = Some p -> zposition_ok c p;
  zinv_creators : forall t1 t2 p1 p2, zthreads c !! t1 = Some p1 -> zthreads c !! t2 = Some p2 ->
    creating p1 = true -> creating p2 = true -> t1 = t2;
  zinv_objects : forall t1 t2 p1 p2 obj, zthreads c !! t1 = Some p1 -> zthreads c !! t2 = Some p2 ->
    object_of p1 = Some obj -> freeing obj p2 = false
}.

(** ** What the steps do to it *)

Lemma has_fun c w i j : has c w i -> has c w j -> i = j.
Proof.
  destruct w as [obj|t]; simpl; [congruence|]. intros (p & Hp & Hh) (q & Hq & Hg). congruence.
Qed.

Lemma has_at t p c i : zthreads c !! t = Some p -> has c (inr t) i <-> held (stack_field c) p = Some i.
Proof. intros Ht. simpl. rewrite Ht. split; [by intros (? & [= <-] & ?)|by exists p]. Qed.

Lemma has_outside t c i : zthreads c !! t = None -> ~ has c (inr t) i.
Proof. intros Ht (p & Hp & _). congruence. Qed.

Lemma has_zgo t q c w i :
  has (zgo t q c) w i <-> (has c w i /\ w <> inr t) \/ (w = inr t /\ held (stack_field c) q = Some i).
Proof.
  destruct w as [obj|t']; simpl.
  - split; [by left|]. by intros [[? _]|[? _]].
  - destruct (decide (t' = t)) as [->|Hne].
    + rewrite lookup_insert_eq. split; [intros (p & [= <-] & ?); by right|].
      intros [[_ Hn]|[_ Hh]]; [done|by exists q].
    + rewrite lookup_insert_ne by done. split; [intros Hp; left; split; [done|congruence]|].
      by intros [[? _]|[[= ->] _]].
Qed.

Lemma has_zleave t c w i : has (zleave t c) w i <-> has c w i /\ w <> inr t.
Proof.
  destruct w as [obj|t']; simpl; [by split; [|intros []]|].
  destruct (decide (t' = t)) as [->|Hne].
  - rewrite lookup_delete_eq. split; [by intros (? & ? & _)|by intros [_ ?]].
  - rewrite lookup_delete_ne by done. split; [intros Hp; split; [done|congruence]|by intros []].
Qed.

Lemma has_live_insert obj k c w i :
  live c !! obj = None ->
  has (with_live (<[obj := k]> (live c)) c) w i <-> has c w i \/ (w = inl obj /\ i = k).
Proof.
  intros Hn. destruct w as [obj'|t]; simpl; [|split; [by left|by intros [|[? _]]]].
  rewrite lookup_insert. case_decide as Hd.
  - subst. split; [intros [= ->]; by right|]. intros [Hl|[_ ->]]; [congruence|done].
  - split; [by left|]. intros [|[[= ->] _]]; done.
Qed.

Lemma has_live_delete obj c w i :
  has (with_live (delete obj (live c)) c) w i <-> has c w i /\ w <> inl obj.
Proof.
  destruct w as [obj'|t]; simpl; [|split; [done|by intros []]].
  rewrite lookup_delete. case_decide as Hd.
  - subst. split; [done|by intros [_ ?]].
  - split; [intros ?; split; [done|congruence]|by intros []].
Qed.

(** The other threads: those that free a stack depend on the field of their
    object alone, and a creation only on what stays. *)
Lemma zposition_ok_other c c0 p :
  creating p = false -> (forall obj, freeing obj p = true -> stack_field c0 !! obj = stack_field c !! obj) ->
  zposition_ok c p -> zposition_ok c0 p.
Proof.
  destruct p as [obj i|obj i|obj i|obj i|i|obj i|i]; try done. simpl. intros _ Hsf.
  by rewrite Hsf by apply Nat.eqb_refl.
Qed.

Lemma zposition_ok_mono c c0 p :
  stack_field c0 = stack_field c ->
  (forall i, used c !! i = Some false -> used c0 !! i = Some false) ->
  (forall obj, live c !! obj = None -> live c0 !! obj = None) ->
  zposition_ok c p -> zposition_ok c0 p.
Proof.
  intros Hs Hu Hl. destruct p as [obj i|obj i|obj i|obj i|i|obj i|i]; simpl; try done; rewrite ?Hs;
    [apply Hl | intros []; split; auto | apply Hl | intros []; split; auto | done].
Qed.

Lemma unmark_false i j (u : list bool) : u !! j = Some false -> <[i := false]> u !! j = Some false.
Proof.
  intros Hj. destruct (decide (i = j)) as [->|]; [|by rewrite list_lookup_insert_ne].
  rewrite list_lookup_insert_eq; [done|by apply lookup_lt_Some in Hj].
Qed.

(** A thread that moves on or leaves, the rest changing from [c] to [c0] with it. *)
Lemma zinv_go t p q c c0 :
  zinv c -> zthreads c !! t = Some p -> zthreads c0 = zthreads c ->
  (creating q = true -> creating p = true) ->
  (forall obj, object_of q = Some obj -> object_of p = Some obj) ->
  (forall obj, freeing obj q = true -> freeing obj p = true) ->
  (forall obj i, live c0 !! obj = Some i -> stack_field c0 !! obj = Some i) ->
  owned (has (zgo t q c0)) (used c0) -> zposition_ok c0 q ->
  (forall t' p', t' <> t -> zthreads c !! t' = Some p' -> zposition_ok c0 p') -> zinv (zgo t q c0).
Proof.
  intros Hi Ht Hth Hq Hobj Hfree Hlive Ho Hok Hoth. split; [done|done| | |]; simpl; rewrite Hth.
  - intros t' p'. intros [[<- <-]|[Hne Hp']]%lookup_insert_Some; [done|]. by apply (Hoth t' p').
  - intros t1 t2 p1 p2.
    intros [[<- <-]|[Hn1 E1]]%lookup_insert_Some [[<- <-]|[Hn2 E2]]%lookup_insert_Some C1 C2; [done | | |].
    + apply (zinv_creators _ Hi t t2 p p2); auto.
    + apply (zinv_creators _ Hi t1 t p1 p); auto.
    + by apply (zinv_creators _ Hi t1 t2 p1 p2).
  - intros t1 t2 p1 p2 obj E1 E2 Ob.
    assert (exists p1', zthreads c !! t1 = Some p1' /\ object_of p1' = Some obj) as (p1' & E1' & Ob').
    { apply lookup_insert_Some in E1 as [[<- <-]|[_ E1]]; eauto. }
    destruct (freeing obj p2) eqn:F; [|done].
    assert (exists p2', zthreads c !! t2 = Some p2' /\ freeing obj p2' = true) as (p2' & E2' & F').
    { apply lookup_insert_Some in E2 as [[<- <-]|[_ E2]]; eauto. }
    by rewrite (zinv_objects _ Hi t1 t2 p1' p2' obj) in F'.
Qed.

Lemma zinv_leave t c c0 :
  zinv c -> zthreads c0 = zthreads c ->
  (forall obj i, live c0 !! obj = Some i -> stack_field c0 !! obj = Some i) ->
  owned (has (zleave t c0)) (used c0) ->
  (forall t' p', t' <> t -> zthreads c !! t' = Some p' -> zposition_ok c0 p') -> zinv (zleave t c0).
Proof.
  intros Hi Hth Hlive Ho Hoth. split; [done|done| | |]; simpl; rewrite Hth.
  - intros t' p' [Hne Hp']%lookup_delete_Some. apply (Hoth t' p'); [congruence|done].
  - intros t1 t2 p1 p2 [_ E1]%lookup_delete_Some [_ E2]%lookup_delete_Some. by apply (zinv_creators _ Hi).
  - intros t1 t2 p1 p2 obj [_ E1]%lookup_delete_Some [_ E2]%lookup_delete_Some.
    by apply (zinv_objects _ Hi t1 t2).
Qed.

(** While [t] creates a task the others do not, and none frees its object. *)
Lemma others_stable t p t' p' c c0 :
  zinv c -> zthreads c !! t = Some p -> creating p = true -> t' <> t -> zthreads c !! t' = Some p' ->
  (forall obj, freeing obj p' = true -> stack_field c0 !! obj = stack_field c !! obj) -> zposition_ok c0 p'.
Proof.
  intros Hi Ht Hp Hne Ht' Hsf. apply (zposition_ok_other c); [|done|by apply (zinv_threads _ Hi t')].
  destruct (creating p') eqn:Hp'; [|done]. by destruct Hne; apply (zinv_creators _ Hi t' t p' p).
Qed.

(** ** Who has what after a statement *)

(** A thread that holds the same stack, or none, before and after. *)
Lemma owned_hold t p q c :
  zinv c -> zthreads c !! t = Some p -> held (stack_field c) q = held (stack_field c) p ->
  owned (has (zgo t q c)) (used c).
Proof.
  intros Hi Ht Hh. apply (owned_same (has c)); [apply Hi|]. intros w i. rewrite has_zgo, Hh.
  split; [intros [[? _]|[-> E]]; [done|by eapply has_at]|].
  intros Hw. destruct (decide (w = inr t)) as [->|]; [right|by left].
  split; [done|]. by eapply has_at in Hw.
Qed.

Lemma owned_out t p c :
  zinv c -> zthreads c !! t = Some p -> held (stack_field c) p = None -> owned (has (zleave t c)) (used c).
Proof.
  intros Hi Ht Hh. apply (owned_same (has c)); [apply Hi|]. intros w i. rewrite has_zleave.
  split; [by intros []|]. intros Hw. split; [done|]. intros ->. eapply has_at in Hw; [|done]. congruence.
Qed.

Lemma owned_give_back t p i c :
  zinv c -> zthreads c !! t = Some p -> held (stack_field c) p = Some i ->
  owned (has (zleave t (mark i false c))) (<[i := false]> (used c)).
Proof.
  intros Hi Ht Hh. apply (owned_release (has c) _ _ (inr t) i); [apply Hi|by eapply has_at| |].
  - intros w j. exact (has_zleave t (mark i false c) w j).
  - intros j Hj. eapply has_at in Hj; [|done]. congruence.
Qed.

Lemma owned_mark t p obj i c :
  zinv c -> zthreads c !! t = Some p -> held (stack_field c) p = None -> used c !! i = Some false ->
  owned (has (zgo t (InitStack obj i) (mark i true c))) (<[i := true]> (used c)).
Proof.
  intros Hi Ht Hh Hu. apply (owned_acquire (has c) _ _ (inr t) i); [apply Hi | done |].
  intros w j. rewrite has_zgo. simpl. split.
  - intros [[Hw _]|[-> [= ->]]]; [by left|by right].
  - intros [Hw|[-> ->]]; [left|by right]. split; [exact Hw|]. intros ->.
    eapply has_at in Hw; [|exact Ht]. congruence.
Qed.

Lemma owned_set_stack t obj i c :
  zinv c -> zthreads c !! t = Some (InitStack obj i) ->
  owned (has (zgo t (InitCreate obj i) (set_stack obj i c))) (used c).
Proof.
  intros Hi Ht. apply (owned_same (has c)); [apply Hi|]. intros [obj'|t'] j; [done|].
  rewrite has_zgo. destruct (decide (t' = t)) as [->|Hne].
  { rewrite (has_at t _ c j Ht). split; [by intros [[_ ?]|[_ ?]]|by right]. }
  assert (forall p, zthreads c !! t' = Some p -> held (stack_field (set_stack obj i c)) p = held (stack_field c) p)
    as Hsame.
  { intros p Hp. pose proof (zinv_objects _ Hi t t' _ p obj Ht Hp eq_refl) as Hf.
    destruct p as [| | | | |o k|]; try done. simpl in *. apply Nat.eqb_neq in Hf.
    by rewrite lookup_insert_ne. }
  split.
  - intros [[(p & Hp & Hh) _]|[[= ?] _]]; [|done]. exists p. split; [done|]. by rewrite <- Hsame.
  - intros (p & Hp & Hh). left. split; [|congruence]. exists p. split; [done|]. by rewrite Hsame.
Qed.

Lemma owned_create t p obj i c :
  zinv c -> zthreads c !! t = Some p -> held (stack_field c) p = Some i -> live c !! obj = None ->
  owned (has (zleave t (with_live (<[obj := i]> (live c)) c))) (used c).
Proof.
  intros Hi Ht Hh Hl. apply (owned_transfer (has c) _ _ (inr t) (inl obj) i).
  - apply Hi.
  - by eapply has_at.
  - intros j Hj. eapply has_at in Hj; [|exact Ht]. congruence.
  - intros j. simpl. by rewrite Hl.
  - intros w j. rewrite has_zleave, has_live_insert by done.
    split; [intros [[Hw|[-> ->]] Hne]; [by left|by right]|].
    intros [[Hw Hne]|[-> ->]]; (split; [|done]); [by left|by right].
Qed.

(** The loop of a removal finds the stack of its object. *)
Lemma free_scan_bound t obj i c :
  zinv c -> zthreads c !! t = Some (FreeScan obj i) -> (i < MAX_TASKS)%nat.
Proof.
  intros Hi Ht. destruct (zinv_threads _ Hi t _ Ht) as (st & Hst & Hle).
  destruct (zinv_owned _ Hi) as (Hlen & _ & Hus).
  assert (used c !! st = Some true) as E by (apply Hus; exists (inr t); by eapply has_at).
  apply lookup_lt_Some in E. lia.
Qed.

(** ** The steps *)

Lemma zinv_init_statement t granted p c :
  zinv c -> zthreads c !! t = Some p -> creating p = true -> zinv (zrun t granted p c).
Proof.
  intros Hi Ht Hp. pose proof (zinv_threads _ Hi t p Ht) as Hok. pose proof (zinv_live _ Hi) as Hlive.
  assert (forall t' p', t' <> t -> zthreads c !! t' = Some p' -> zposition_ok c p') as Hsame
    by (intros t' p' _; apply Hi).
  assert (forall c0 t' p', stack_field c0 = stack_field c -> t' <> t -> zthreads c !! t' = Some p' ->
          zposition_ok c0 p') as Hoth.
  { intros c0 t' p' Hs Hne Hp'. apply (others_stable t p t' p' c); try done. intros. by rewrite Hs. }
  destruct p as [obj i|obj i|obj i|obj i|i| |]; try done; simpl in *.
  - destruct (used c !! i) as [[]|] eqn:Hu.
    + by apply (zinv_go t _ _ c c Hi Ht); [..|eapply owned_hold|exact Hok|].
    + by apply (zinv_go t _ _ c c Hi Ht); [..|eapply owned_hold|split|].
    + by apply (zinv_leave t c c Hi); [..|eapply owned_out|].
  - destruct Hok as [Hu Hl]. apply (zinv_go t _ (InitStack obj i) c (mark i true c) Hi Ht); try done.
    + exact (owned_mark t (InitMark obj i) obj i c Hi Ht eq_refl Hu).
    + intros t' p'. by apply Hoth.
  - apply (zinv_go t _ (InitCreate obj i) c (set_stack obj i c) Hi Ht); try done.
    + intros o j Ho. simpl in *. rewrite lookup_insert_ne by congruence. by apply Hlive.
    + exact (owned_set_stack t obj i c Hi Ht).
    + simpl. by rewrite lookup_insert_eq.
    + intros t' p' Hne Hp'. apply (others_stable t (InitStack obj i) t' p' c); try done.
      intros o Ho. simpl. rewrite lookup_insert_ne; [done|]. intros <-.
      by rewrite (zinv_objects _ Hi t t' _ p' obj Ht Hp' eq_refl) in Ho.
  - destruct Hok as [Hl Hs]. destruct granted.
    + rewrite Hs. apply (zinv_leave t c _ Hi); try done.
      * intros o j. simpl. intros [[<- <-]|[_ Ho]]%lookup_insert_Some; [done|by apply Hlive].
      * exact (owned_create t (InitCreate obj i) obj i c Hi Ht eq_refl Hl).
      * intros t' p'. by apply Hoth.
    + by apply (zinv_go t _ _ c c Hi Ht); [..|eapply owned_hold| |].
  - apply (zinv_leave t c _ Hi); try done; [exact (owned_give_back t _ i c Hi Ht eq_refl)|].
    intros t' p'. by apply Hoth.
Qed.

Lemma zinv_run t granted p c :
  zinv c -> zthreads c !! t = Some p -> zinv (zrun t granted p c).
Proof.
  intros Hi Ht. destruct (creating p) eqn:Hp; [by apply zinv_init_statement|].
  pose proof (zinv_threads _ Hi t p Ht) as Hok. pose proof (zinv_live _ Hi) as Hlive.
  assert (forall t' p', t' <> t -> zthreads c !! t' = Some p' -> zposition_ok c p') as Hsame
    by (intros t' p' _; apply Hi).
  destruct p as [| | | | |obj i|i]; try done; simpl in *.
  - pose proof (free_scan_bound _ _ _ _ Hi Ht) as Hb. rewrite (proj2 (Nat.ltb_lt _ _) Hb).
    destruct Hok as (st & Hst & Hle). case_bool_decide as Hd.
    + apply (zinv_go t _ _ c c Hi Ht); try done. by eapply owned_hold.
    + apply (zinv_go t _ _ c c Hi Ht); try done; [by eapply owned_hold|].
      exists st. split; [done|]. assert (i <> st) by congruence. lia.
  - apply (zinv_leave t c _ Hi); try done; [exact (owned_give_back t _ i c Hi Ht eq_refl)|].
    intros t' p' Hne Hp'. apply (zposition_ok_mono c); [done| |done|by apply (Hsame t')].
    intros j. apply unmark_false.
Qed.

(** A thread that begins to create. *)
Lemma zinv_begin_init t obj c :
  zinv c -> zthreads c !! t = None -> one_creator (BeginInit t obj 0) c -> zinv (zgo t (InitScan obj 0) c).
Proof.
  intros Hi Ht [Hl Hno]. split; [|apply Hi| | |]; simpl.
  - apply (owned_same (has c)); [apply Hi|]. intros w i. rewrite has_zgo. split.
    + by intros [[? _]|[_ ?]].
    + intros Hw. left. split; [done|]. intros ->. by apply has_outside in Hw.
  - intros t' p' [[<- <-]|[_ Hp']]%lookup_insert_Some; [exact Hl|by apply (zinv_threads _ Hi t')].
  - intros t1 t2 p1 p2.
    intros [[<- <-]|[_ E1]]%lookup_insert_Some [[<- <-]|[_ E2]]%lookup_insert_Some C1 C2; [done | | |].
    + apply Hno in E2 as [? _]. congruence.
    + apply Hno in E1 as [? _]. congruence.
    + by apply (zinv_creators _ Hi t1 t2 p1 p2).
  - intros t1 t2 p1 p2 o [[<- <-]|[_ E1]]%lookup_insert_Some [[<- <-]|[_ E2]]%lookup_insert_Some Ho; try done.
    + injection Ho as <-. by apply Hno in E2 as [_ ?].
    + by apply (zinv_objects _ Hi t1 t2 p1).
Qed.

(** A thread that begins to remove takes the stack over from the task. *)
Lemma zinv_begin_remove t obj st c :
  zinv c -> zthreads c !! t = None -> live c !! obj = Some st ->
  zinv (zgo t (FreeScan obj 0) (with_live (delete obj (live c)) c)).
Proof.
  intros Hi Ht Hl. pose proof (zinv_live _ Hi obj st Hl) as Hsf. split; simpl.
  - apply (owned_transfer (has c) _ _ (inl obj) (inr t) st); [apply Hi | done | | |].
    + intros i. simpl. congruence.
    + intros i. by apply has_outside.
    + intros w i. rewrite has_zgo, has_live_delete. simpl. rewrite Hsf. split.
      * intros [[[Hw Hn] _]|[-> [= ->]]]; [by left|by right].
      * intros [[Hw Hn]|[-> ->]]; [left|by right]. split; [done|].
        intros ->. by apply has_outside in Hw.
  - intros o i [_ Ho]%lookup_delete_Some. by apply (zinv_live _ Hi).
  - intros t' p' [[<- <-]|[_ Hp']]%lookup_insert_Some; [exists st; split; [done|lia]|].
    apply (zposition_ok_mono c); [done|done| |by apply (zinv_threads _ Hi t')].
    intros o Ho. simpl. by rewrite lookup_delete, Ho; case_decide.
  - intros t1 t2 p1 p2.
    intros [[<- <-]|[_ E1]]%lookup_insert_Some [[<- <-]|[_ E2]]%lookup_insert_Some C1 C2; [done..|].
    by apply (zinv_creators _ Hi t1 t2 p1 p2).
  - intros t1 t2 p1 p2 o [[<- <-]|[_ E1]]%lookup_insert_Some [[<- <-]|[_ E2]]%lookup_insert_Some Ho; try done.
    + simpl. apply Nat.eqb_neq. intros <-.
      pose proof (zinv_threads _ Hi t1 p1 E1) as Hok. destruct p1; simpl in *; try done; simplify_eq/=;
        destruct_and?; congruence.
    + by apply (zinv_objects _ Hi t1 t2 p1).
Qed.

Lemma zinv_init : zinv zinit.
Proof.
  split; [split_and!| | | |]; try done.
  - intros w1 w2 i. by destruct w1 as [?|?]; [|intros (? & ? & _)].
  - intros i. change (used zinit) with (replicate MAX_TASKS false). split.
    + by intros [? _]%lookup_replicate.
    + intros [[obj|t] Hw]; [done|]. by destruct Hw as (p & Hp & _).
Qed.

Lemma zinv_exec mv c c' : zinv c -> one_creator mv c -> zexec mv c = Some c' -> zinv c'.
Proof.
  intros Hi Hok. destruct mv as [t obj sz|t obj|t g]; simpl.
  - destruct (zthreads c !! t) eqn:Ht; [done|]. intros [= <-].
    destruct (STACK_SIZE <? sz); [done|]. by apply zinv_begin_init.
  - destruct (zthreads c !! t) eqn:Ht; [done|]. destruct (live c !! obj) as [st|] eqn:Hl; [|done].
    intros [= <-]. by eapply zinv_begin_remove.
  - destruct (zthreads c !! t) eqn:Ht; [|done]. intros [= <-]. by apply zinv_run.
Qed.

Lemma zreachable_zinv c : zreachable one_creator c -> zinv c.
Proof. induction 1; [apply zinv_init | by eapply zinv_exec]. Qed.

Lemma zexec_all_app mvs mvs' c :
  zexec_all (mvs ++ mvs') c =
    match zexec_all mvs c with Some c' => zexec_all mvs' c' | None => None end.
Proof. revert c. induction mvs; simpl; intros c; [done|]. by destruct (zexec _ c). Qed.

Lemma zexec_all_reachable c mvs c' :
  zreachable (fun _ _ => True) c -> zexec_all mvs c = Some c' -> zreachable (fun _ _ => True) c'.
Proof.
  revert c. induction mvs as [|mv mvs IH]; simpl; intros c Hc; [by intros [= <-]|].
  destruct (zexec mv c) as [c1|] eqn:E; [|done]. apply IH. by eapply zreach_step.
Qed.

(** * The pool *)

(** C21. As long as one thread at a time creates tasks, on objects that have none and
    are not being removed, whatever else is removed meanwhile and however the
    statements interleave, no two live tasks run on
    the same stack, and none on a stack the pool does not have; and whenever no
    thread is inside the functions, the stacks marked used are exactly those of
    the live tasks: none is lost. *)
Theorem zephyr_one_creator_safe c :
  zreachable one_creator c ->
  (forall o1 o2 i, live c !! o1 = Some i -> live c !! o2 = Some i -> o1 = o2) /\
  (forall o i, live c !! o = Some i -> (i < MAX_TASKS)%nat /\ used c !! i = Some true) /\
  (zthreads c = ∅ -> forall i, used c !! i = Some true <-> exists o, live c !! o = Some i).
Proof.
  intros Hr. apply zreachable_zinv in Hr as [(Hlen & Huniq & Hused) _ _ _ _].
  assert (forall o i, live c !! o = Some i -> used c !! i = Some true) as Hu.
  { intros o i Ho. apply Hused. by exists (inl o). }
  split_and!.
  - intros o1 o2 i H1 H2. assert (@inl nat tid o1 = inl o2) as E by by apply (Huniq _ _ i). congruence.
  - intros o i Ho. split; [|by eapply Hu]. apply Hu, lookup_lt_Some in Ho. lia.
  - intros He i. rewrite Hused. split; [|by intros [o Ho]; exists (inl o)].
    intros [[o|t] Hw]; [by exists o|]. destruct Hw as (p & Hp & _). by rewrite He in Hp.
Qed.

(** Computes what a statement does to each part of the state. *)
#[local] Ltac unfold_moves :=
  cbn [zexec_all zexec zrun zgo zleave mark set_stack with_live used stack_field live zthreads].

(** The moves of two threads that are both about to look at a stack. *)
Definition race_moves (t1 t2 : tid) : list zmove :=
  concat (replicate 4 [ZRun t1 true; ZRun t2 true]).

(** Two creations at once: from any state in which two threads are both about to
    look at an unused stack [i], there is an interleaving in which both find it,
    both mark it and both tasks are created on it, both calls succeeding. *)
Theorem zephyr_creation_race c t1 t2 o1 o2 i :
  t1 <> t2 -> o1 <> o2 -> used c !! i = Some false ->
  zthreads c !! t1 = Some (InitScan o1 i) -> zthreads c !! t2 = Some (InitScan o2 i) ->
  exists c', zexec_all (race_moves t1 t2) c = Some c' /\
    live c' !! o1 = Some i /\ live c' !! o2 = Some i /\
    zthreads c' !! t1 = None /\ zthreads c' !! t2 = None.
Proof.
  intros Ht Ho Hu H1 H2. destruct c as [u sf l th]. simpl in Hu, H1, H2.
  assert (i < length u)%nat as Hi by by apply lookup_lt_Some in Hu.
  unfold race_moves. cbn [concat replicate app].
  do 8 (unfold_moves; rewrite ?lookup_insert_ne, ?lookup_delete_ne, ?lookup_insert_eq, ?H1, ?H2 by done;
        unfold_moves; rewrite ?Hu).
  eexists. split; [reflexivity|]. simpl. rewrite lookup_insert_eq. split_and!.
  - by rewrite lookup_insert_ne, lookup_insert_eq.
  - by rewrite lookup_insert_eq.
  - by rewrite lookup_delete_ne, lookup_delete_eq.
  - by rewrite lookup_delete_eq.
Qed.

(** * Witnesses *)

(** Moves that keep the discipline, decided. *)
Definition one_creatorb (mv : zmove) (c : zconfig) : bool :=
  match mv with
  | BeginInit t obj _ =>
      bool_decide (live c !! obj = None) &&
      bool_decide (map_Forall (fun _ p => creating p = false /\ freeing obj p = false) (zthreads c))
  | _ => true
  end.

Fixpoint disciplined (mvs : list zmove) (c : zconfig) : bool :=
  match mvs with
  | [] => true
  | mv :: mvs =>
      one_creatorb mv c && match zexec mv c with Some c' => disciplined mvs c' | None => true end
  end.

Lemma disciplined_reachable mvs c c' :
  zreachable one_creator c -> disciplined mvs c = true -> zexec_all mvs c = Some c' ->
  zreachable one_creator c'.
Proof.
  revert c. induction mvs as [|mv mvs IH]; simpl; intros c Hc; [by intros _ [= <-]|].
  intros [Hok Hd]%andb_true_iff. destruct (zexec mv c) as [c1|] eqn:E; [|done].
  apply IH; [|done]. eapply zreach_step; [done| |done].
  destruct mv as [t obj sz|t obj|t g]; simpl in *; [|done..].
  apply andb_true_iff in Hok as [H1%bool_decide_eq_true H2%bool_decide_eq_true]. by split.
Qed.

(** Two calls in sequence, and a removal during the second. *)
Definition demo_turns : list zmove :=
  [BeginInit 1 100 1024] ++ replicate 4 (ZRun 1 true) ++ [BeginInit 2 200 1024; BeginRemove 1 100] ++
  [ZRun 2 true; ZRun 1 true; ZRun 2 true; ZRun 2 true; ZRun 1 true; ZRun 2 true; ZRun 2 true].

Example zephyr_one_creator_safe_witness :
  exists c, zexec_all demo_turns zinit = Some c /\ zreachable one_creator c /\
    live c !! 200%nat = Some 1%nat /\ live c !! 100%nat = None /\
    (used c !! 1%nat = Some true <-> exists o, live c !! o = Some 1%nat) /\
    (used c !! 0%nat = Some true <-> exists o, live c !! o = Some 0%nat).
Proof.
  destruct (zexec_all demo_turns zinit) as [c|] eqn:E; [|by vm_compute in E].
  exists c. split; [done|].
  assert (zreachable one_creator c) as Hr.
  { apply (disciplined_reachable demo_turns zinit); [apply zreach_init|by vm_compute|done]. }
  split; [done|]. destruct (zephyr_one_creator_safe c Hr) as (_ & _ & Hidle).
  assert (zthreads c = ∅) as He by (vm_compute in E; injection E as <-; reflexivity).
  split_and!; [by vm_compute in E; injection E as <- | by vm_compute in E; injection E as <- |
    by apply Hidle | by apply Hidle].
Defined.

(** Two threads that have both called, from an empty pool. *)
Example zephyr_creation_race_witness :
  exists c', zexec_all ([BeginInit 1 100 1024; BeginInit 2 200 1024] ++ race_moves 1 2) zinit = Some c' /\
    zreachable (fun _ _ => True) c' /\
    live c' !! 100%nat = Some 0%nat /\ live c' !! 200%nat = Some 0%nat.
Proof.
  destruct (zexec_all [BeginInit 1 100 1024; BeginInit 2 200 1024] zinit) as [c|] eqn:E; [|by vm_compute in E].
  destruct (zephyr_creation_race c 1 2 100 200 0) as (c' & Hc & H1 & H2 & _ & _).
  - done. - done. - by vm_compute in E; injection E as <-.
  - by vm_compute in E; injection E as <-. - by vm_compute in E; injection E as <-.
  - assert (zexec_all ([BeginInit 1 100 1024; BeginInit 2 200 1024] ++ race_moves 1 2) zinit = Some c') as Hall.
    { rewrite zexec_all_app, E. exact Hc. }
    exists c'. split; [exact Hall|]. split; [|by split].
    by apply (zexec_all_reachable zinit _ c' (zreach_init _)) in Hall.
Defined.
