(* ===== verification/PortContracts.v ===== *)
(** The POSIX and the Zephyr port and the API headers as a whole, collected from
    the files of the ports: that their objects behave as the headers say (the
    laws of OsalApi, over which the C++ classes are verified), and for which
    calls the answers are those that the headers list. *)

From S2P Require Import Prelude OsTypes Pthread PosixUtils OsalApi.
From S2P Require Import PosixMutex PosixSem Binary64 PosixTime PosixTask PosixTimer.
From S2P Require Zephyr ZephyrTask.
#[local] Open Scope Z_scope.

(** * POSIX *)

Section Posix.
Context {M S A H F X W K CB P : Type} `{Errno}.
Context `{PthreadMutex M, !PthreadMutexLaws M}.
Context `{Pthread.PosixSem S, !PosixSemLaws S}.
Context `{PthreadThreads A H F X W, !PthreadThreadsLaws A H F X W}.
Context `{PosixTimers K, !PosixTimersLaws K}.

(** The deadline of a timed wait from [now] on: the caller waits at all, and the
    nanoseconds do not carry into the seconds. *)
Definition deadline_fits (now : timespec) (timeout : Z) : Prop :=
  timeout <> POS_TIME_NO_WAIT /\ tv_nsec now + (timeout mod 1000) * 1000000 < NSEC_PER_SEC.

#[local] Existing Instances posix_osal_mutex posix_osal_sem.

End Posix.

(** * Zephyr *)

Section Zephyr.
Context {M S Q CB P T F X W : Type} `{Errno}.
Context `{Zephyr.ZMutexes M, !Zephyr.ZMutexesLaws M}.
Context `{Zephyr.ZSemaphores S, !Zephyr.ZSemaphoresLaws S}.
Context `{Zephyr.ZQueues Q, !Zephyr.ZQueuesLaws Q}.
Context `{ZephyrTask.ZThreads T F X W, !ZephyrTask.ZThreadsLaws T F X W}.

Abbreviation z_queue_object := (@Zephyr.pos_queue Q CB P).

End Zephyr.

(** * Witnesses over the reference platforms *)

Section Witness.
#[local] Existing Instances linux_errno demo_threads demo_threads_laws demo_timers demo_timers_laws.
#[local] Existing Instances Zephyr.demo_z_mutexes Zephyr.demo_z_mutexes_laws.
#[local] Existing Instances Zephyr.demo_z_queues Zephyr.demo_z_queues_laws.
#[local] Existing Instances Zephyr.demo_z_semaphores Zephyr.demo_z_semaphores_laws.


(** A kernel that counts the threads it starts, two at most, and aborts. *)
#[local] Instance counting_threads : ZephyrTask.ZThreads nat nat nat (nat * nat) := {
  k_thread_create i call prio w := if (w.1 <? 2)%nat then (Some i, (S w.1, w.2)) else (None, w);
  k_thread_abort id w := (w.1, S w.2);
  z_started := fst;
  z_aborted := snd
}.

#[local] Instance counting_threads_laws : ZephyrTask.ZThreadsLaws nat nat nat (nat * nat).
Proof.
  split; simpl; [|done]. intros i call prio [n k]. simpl.
  destruct (n <? 2)%nat; simpl; lia.
Qed.

End Witness.
