(* ===== verification/RtThread.v ===== *)
(** targets/rt-thread: mutexes, semaphores and queues over the RT-Thread kernel
    (os_mutex.c, os_sem.c, os_queue.c and the structures of
    poski/osal/os_port.h). The kernel's calls are interfaces with their
    documented behaviour. All three have the operations of [OsalApi]; what they
    do of what the headers say, and what they answer instead, is proved here. *)

From S2P Require Import Prelude OsTypes Pthread OsalApi.

(** Results of the kernel ([rt_err_t]); failures are negative. *)
Definition RT_EOK : Z := 0.
Definition RT_ERROR : Z := 1.
Definition RT_WAITING_FOREVER : Z := -1.
Definition RT_WAITING_NO : Z := 0.
Definition RT_SEM_VALUE_MAX : Z := 65535.

(** A [pos_time_t] is unsigned, of 32 bits; the kernel takes a timeout as a
    signed value of the same width. *)
Definition POS_TIME_FOREVER : Z := u32 RT_WAITING_FOREVER.
Definition POS_TIME_NO_WAIT : Z := u32 RT_WAITING_NO.

(** * The kernel *)

(** What a call with a timeout answers while it cannot be granted: it waits for
    ever ([None]), or fails and leaves the object. The documentation says
    nothing of negative timeouts other than RT_WAITING_FOREVER. *)
Definition rt_denied {A} (tmo : Z) (r : option (Z * A)) (a : A) : Prop :=
  (tmo = RT_WAITING_FOREVER -> r = None) /\
  (0 <= tmo -> r <> None) /\
  (forall e a', r = Some (e, a') -> e <> RT_EOK /\ a' = a).

Class RtMutexes (M : Type) := {
  rt_mutex_create : option M;
  rt_mutex_take : tid -> Z -> M -> option (Z * M);
  rt_mutex_release : tid -> M -> Z * M;
  rt_holder : M -> option (tid * nat)
}.

(** A thread that holds the mutex may take it again, up to a limit. *)
Class RtMutexesLaws (M : Type) `{RtMutexes M} : Prop := {
  rt_create_free : forall m, rt_mutex_create = Some m -> rt_holder m = None;
  rt_holder_pos : forall m t n, rt_holder m = Some (t, n) -> (0 < n)%nat;
  rt_take_free : forall t tmo m, rt_holder m = None ->
    exists m', rt_mutex_take t tmo m = Some (RT_EOK, m') /\ rt_holder m' = Some (t, 1%nat);
  rt_take_own : forall t tmo m n, rt_holder m = Some (t, n) ->
    exists r m', rt_mutex_take t tmo m = Some (r, m') /\
      ((r = RT_EOK /\ rt_holder m' = Some (t, S n)) \/ (r <> RT_EOK /\ m' = m));
  rt_take_held : forall t tmo m, grantable t (rt_holder m) = false ->
    rt_denied tmo (rt_mutex_take t tmo m) m;
  rt_release_own : forall t m n, rt_holder m = Some (t, S n) ->
    exists m', rt_mutex_release t m = (RT_EOK, m') /\ rt_holder m' = release t n;
  rt_release_other : forall t m, held_by t (rt_holder m) = 0%nat ->
    exists r, rt_mutex_release t m = (r, m) /\ r <> RT_EOK
}.

Class RtSemaphores (S : Type) := {
  rt_sem_create : Z -> option S;
  rt_sem_take : Z -> S -> option (Z * S);
  rt_sem_release : S -> Z * S;
  rt_sem_value : S -> Z
}.

Class RtSemaphoresLaws (S : Type) `{RtSemaphores S} : Prop := {
  rt_sem_range : forall s, 0 <= rt_sem_value s <= RT_SEM_VALUE_MAX;
  rt_sem_create_value : forall v s, rt_sem_create v = Some s -> rt_sem_value s = v;
  rt_sem_take_ok : forall tmo s, 0 < rt_sem_value s ->
    exists s', rt_sem_take tmo s = Some (RT_EOK, s') /\ rt_sem_value s' = rt_sem_value s - 1;
  rt_sem_take_zero : forall tmo s, rt_sem_value s = 0 -> rt_denied tmo (rt_sem_take tmo s) s;
  rt_sem_release_ok : forall s, rt_sem_value s < RT_SEM_VALUE_MAX ->
    exists s', rt_sem_release s = (RT_EOK, s') /\ rt_sem_value s' = rt_sem_value s + 1;
  rt_sem_release_full : forall s, rt_sem_value s = RT_SEM_VALUE_MAX ->
    exists r, rt_sem_release s = (r, s) /\ r <> RT_EOK
}.

(** [rt_mq_msg_size] is the field [msg_size] of the kernel's structure, which the
    kernel may round up from the size asked for ([rt_mq_stored_size]). A send
    takes the bytes of the message; a receive also gives what it writes. *)
Class RtQueues (Q : Type) := {
  rt_mq_stored_size : Z -> Z;
  rt_mq_create : Z -> Z -> option Q;
  rt_mq_recv : Z -> Z -> Q -> option (Z * option (list byte) * Q);
  rt_mq_send : list byte -> Q -> Z * Q;
  rt_mq_msg_size : Q -> Z;
  rt_mq : Q -> Z * Z * list (list byte)   (* message size, capacity, messages *)
}.

Class RtQueuesLaws (Q : Type) `{RtQueues Q} : Prop := {
  rt_mq_stored : forall size, size <= rt_mq_stored_size size;
  rt_mq_created : forall size n q, rt_mq_create size n = Some q ->
    rt_mq q = (rt_mq_stored_size size, n, []);
  rt_mq_field : forall q, rt_mq_msg_size q = (rt_mq q).1.1;
  rt_mq_bound : forall q size n l, rt_mq q = (size, n, l) -> 0 <= size /\ Z.of_nat (length l) <= n;
  rt_mq_recv_some : forall tmo q size n x l, rt_mq q = (size, n, x :: l) ->
    exists q', rt_mq_recv size tmo q = Some (RT_EOK, Some x, q') /\ rt_mq q' = (size, n, l);
  rt_mq_recv_none : forall tmo q size n, rt_mq q = (size, n, []) ->
    exists r, rt_mq_recv size tmo q = (fun '(e, q) => (e, None, q)) <$> r /\ rt_denied tmo r q;
  rt_mq_send_room : forall item q size n l, rt_mq q = (size, n, l) ->
    Z.of_nat (length item) = size -> Z.of_nat (length l) < n ->
    exists q', rt_mq_send item q = (RT_EOK, q') /\ rt_mq q' = (size, n, l ++ [item]);
  rt_mq_send_full : forall item q size n l, rt_mq q = (size, n, l) ->
    Z.of_nat (length item) = size -> Z.of_nat (length l) = n ->
    exists r, rt_mq_send item q = (r, q) /\ r <> RT_EOK
}.

(** [struct pos_mutex], [struct pos_sem] and [struct pos_queue] (os_port.h): a
    handle, [None] when null. *)
Record rt_object (K : Type) := mkRtObject { handle : option K }.
Arguments mkRtObject {K} handle.
Arguments handle {K} r.

Abbreviation object_of k := (Some (mkRtObject (Some k))).

Definition non_null {K} (h : option K) : bool := match h with Some _ => true | None => false end.

(** The [size] bytes that a call reads from [data]: undefined beyond its end. *)
Definition read_bytes (data : list byte) (size : Z) : outcome (list byte) :=
  if size <=? Z.of_nat (length data) then Ret (take (Z.to_nat size) data) else Undef.

Section RtThread.

(** Whether [assert] is compiled out, and whether the call is made in an
    interrupt handler ([pos_hw_in_isr] of os_hw.h). *)
Variables ndebug in_isr : bool.

(** * os_mutex.c *)
Section Mutex.
Context {M : Type} `{RtMutexes M}.

Definition pos_mutex_init (mu : option (rt_object M)) : outcome (pos_error * option (rt_object M)) :=
  match mu with
  | None => Ret (POS_INVALID_PARAM, None)
  | Some _ =>
      let h := rt_mutex_create in
      c_assert ndebug (non_null h);;
      Ret (if non_null h then POS_OK else POS_BAD_MUTEX, Some (mkRtObject h))
  end.

Definition pos_mutex_lock (t : tid) (timeout : Z) (mu : option (rt_object M))
    : outcome (pos_error * option (rt_object M)) :=
  match mu with
  | None => Ret (POS_INVALID_PARAM, None)
  | Some m =>
      c_assert ndebug (non_null (handle m));;
      do h <- deref (handle m);
      do '(ret, h) <- of_option Block (rt_mutex_take t (i32 timeout) h);
      Ret (if ret =? RT_EOK then POS_OK else POS_BAD_MUTEX, Some (mkRtObject (Some h)))
  end.

Definition pos_mutex_unlock (t : tid) (mu : option (rt_object M))
    : outcome (pos_error * option (rt_object M)) :=
  c_assert ndebug (negb in_isr);;
  match mu with
  | None => Ret (POS_INVALID_PARAM, None)
  | Some m =>
      c_assert ndebug (non_null (handle m));;
      do h <- deref (handle m);
      let '(ret, h) := rt_mutex_release t h in
      Ret (if negb (ret =? RT_EOK) then POS_BAD_MUTEX else POS_OK, Some (mkRtObject (Some h)))
  end.
End Mutex.

(** * os_sem.c *)
Section Semaphore.
Context {S : Type} `{RtSemaphores S}.

Definition pos_sem_init (tokens : Z) (sem : option (rt_object S))
    : outcome (pos_error * option (rt_object S)) :=
  match sem with
  | None => Ret (POS_INVALID_PARAM, None)
  | Some _ =>
      let h := rt_sem_create tokens in
      c_assert ndebug (non_null h);;
      Ret (POS_OK, Some (mkRtObject h))
  end.

Definition pos_sem_take (timeout : Z) (sem : option (rt_object S))
    : outcome (pos_error * option (rt_object S)) :=
  match sem with
  | None => Ret (POS_INVALID_PARAM, None)
  | Some s =>
      c_assert ndebug (non_null (handle s));;
      do h <- deref (handle s);
      do '(ret, h) <- of_option Block (rt_sem_take (i32 timeout) h);
      Ret (if ret =? RT_EOK then POS_OK else POS_TIMEOUT, Some (mkRtObject (Some h)))
  end.

Definition pos_sem_give (sem : option (rt_object S)) : outcome (pos_error * option (rt_object S)) :=
  match sem with
  | None => Ret (POS_INVALID_PARAM, None)
  | Some s =>
      c_assert ndebug (non_null (handle s));;
      do h <- deref (handle s);
      let '(ret, h) := rt_sem_release h in
      Ret (if ret =? RT_EOK then POS_OK else POS_ERROR, Some (mkRtObject (Some h)))
  end.
End Semaphore.

(** * os_queue.c and [pos_queue_inited] of os_port.h *)
Section Queue.
Context {Q : Type} `{RtQueues Q}.

(** [rt_size_t] is as wide as [size_t]. *)
Definition pos_queue_init (msg_size max_msgs : Z) (msgq : option (rt_object Q))
    : outcome (pos_error * option (rt_object Q)) :=
  match msgq with
  | None => Ret (POS_INVALID_PARAM, None)
  | Some _ =>
      let h := rt_mq_create msg_size max_msgs in
      c_assert ndebug (non_null h);;
      Ret (if non_null h then POS_OK else POS_ERROR, Some (mkRtObject h))
  end.

(** The error, what is written to [data], and the queue, which must exist. *)
Definition pos_queue_get (tmo : Z) (queue : option (rt_object Q))
    : outcome (pos_error * option (list byte) * rt_object Q) :=
  do q <- deref queue;
  c_assert ndebug (non_null (handle q));;
  do h <- deref (handle q);
  do '(ret, data, h) <- of_option Block (rt_mq_recv (rt_mq_msg_size h) (i32 tmo) h);
  Ret (if ret =? RT_EOK then POS_OK else POS_ERROR, data, mkRtObject (Some h)).

Definition pos_queue_put (data : list byte) (queue : option (rt_object Q))
    : outcome (pos_error * option (rt_object Q)) :=
  match queue with
  | None => Ret (POS_INVALID_PARAM, None)
  | Some q =>
      c_assert ndebug (non_null (handle q));;
      do h <- deref (handle q);
      do msg <- read_bytes data (rt_mq_msg_size h);
      let '(ret, h) := rt_mq_send msg h in
      Ret (if negb (ret =? RT_EOK) then POS_ERROR else POS_OK, Some (mkRtObject (Some h)))
  end.

Definition pos_queue_deinit (queue : option (rt_object Q)) : pos_error * option (rt_object Q) :=
  match queue with
  | Some q => (POS_OK, Some (if non_null (handle q) then mkRtObject None else q))
  | None => (POS_OK, None)
  end.

Definition pos_queue_inited (queue : rt_object Q) : Z := if non_null (handle queue) then 1 else 0.
End Queue.

(** The functions on an object that has been created. *)
Definition on_object {K} (r : outcome (pos_error * option (rt_object K))) : outcome (pos_error * K) :=
  do '(e, h) <- r;
  do k <- deref (h ≫= handle);
  Ret (e, k).


(** The answer to a call that cannot be granted. *)
Lemma rt_denied_inv {A} tmo (r : option (Z * A)) (a : A) e err a' :
  rt_denied tmo r a ->
  (do '(ret, h) <- of_option Block r; Ret (if ret =? RT_EOK then POS_OK else err, h)) = Ret (e, a') ->
  a' = a /\ e = err.
Proof.
  intros (_ & _ & Hd). destruct r as [[ret h]|]; simpl; [|done].
  destruct (Hd ret h eq_refl) as [Hne ->]. rewrite (proj2 (Z.eqb_neq _ _)) by done.
  by intros [= <- <-].
Qed.

(** The timeouts whose meaning the kernel documents. *)
Definition rt_timeout_ok (timeout : Z) : Prop := timeout = POS_TIME_FOREVER \/ 0 <= timeout < 2 ^ 31.

Lemma rt_denied_answer {A} timeout (r : option (Z * A)) (a : A) err :
  rt_timeout_ok timeout -> rt_denied (i32 timeout) r a ->
  answer_of (do '(ret, h) <- of_option Block r; Ret (if ret =? RT_EOK then POS_OK else err, h)) =
    if timeout =? POS_TIME_FOREVER then Block else Ret err.
Proof.
  intros Ht (Hf & Hw & Hd). destruct Ht as [->|Ht]; [by rewrite Hf|].
  assert (POS_TIME_FOREVER = 4294967295) as Ef by reflexivity.
  rewrite (proj2 (Z.eqb_neq timeout _)) by lia.
  rewrite i32_small in * by lia. destruct r as [[ret h]|]; [|by destruct (Hw (proj1 Ht))].
  destruct (Hd ret h eq_refl) as [Hne _]. simpl. by rewrite (proj2 (Z.eqb_neq ret _)).
Qed.

(** * The mutex contract *)
Section MutexContract.
Context {M : Type} `{RtMutexes M}.

#[local] Instance rt_osal_mutex : OsalMutex M := {
  osal_mutex_init := fun m => on_object (pos_mutex_init (object_of m));
  osal_mutex_lock := fun t timeout m => on_object (pos_mutex_lock t timeout (object_of m));
  osal_mutex_unlock := fun t m => on_object (pos_mutex_unlock t (object_of m));
  mutex_holder := rt_holder;
  mutex_no_wait := POS_TIME_NO_WAIT;
  mutex_forever := POS_TIME_FOREVER
}.

Context `{!RtMutexesLaws M}.

Lemma rt_lock_eq t timeout m :
  osal_mutex_lock t timeout m =
    (do '(ret, h) <- of_option Block (rt_mutex_take t (i32 timeout) m);
     Ret (if ret =? RT_EOK then POS_OK else POS_BAD_MUTEX, h)).
Proof.
  simpl. unfold on_object, pos_mutex_lock. simpl. rewrite ?c_assert_true. simpl.
  by destruct (rt_mutex_take _ _ _) as [[ret h]|].
Qed.

(** Every way a lock can return. *)
Lemma rt_lock_inv t timeout m e m' :
  osal_mutex_lock t timeout m = Ret (e, m') ->
  (e = POS_OK /\ grantable t (rt_holder m) = true /\
     rt_holder m' = Some (t, S (held_by t (rt_holder m)))) \/
  (e = POS_BAD_MUTEX /\ m' = m).
Proof.
  rewrite rt_lock_eq. destruct (grantable t (rt_holder m)) eqn:Hg; cycle 1.
  { intros E. destruct (rt_denied_inv _ _ _ _ _ _ (rt_take_held t (i32 timeout) m Hg) E); auto. }
  unfold held_by. destruct (rt_holder m) as [[t' n]|] eqn:Eh.
  - simpl in Hg. apply bool_decide_eq_true in Hg as ->.
    destruct (rt_take_own t (i32 timeout) m n Eh) as (r & m1 & -> & [(-> & Hm1)|(Hr & ->)]); simpl.
    + intros [= <- <-]. left. by rewrite decide_True by done.
    + rewrite (proj2 (Z.eqb_neq _ _)) by done. intros [= <- <-]. by right.
  - destruct (rt_take_free t (i32 timeout) m Eh) as (m1 & -> & Hm1). simpl.
    intros [= <- <-]. by left.
Qed.

Lemma rt_mutex_laws : in_isr = false -> OsalMutexLaws M.
Proof.
  intros Hisr. split.
  - intros m m'. simpl. unfold on_object, pos_mutex_init. simpl.
    destruct rt_mutex_create as [m0|] eqn:E; simpl.
    + rewrite c_assert_true. simpl. intros [= <-]. by apply rt_create_free.
    + by destruct ndebug.
  - apply rt_holder_pos.
  - by intros t timeout m m' [(_ & ? & ?)|[? _]]%rt_lock_inv.
  - by intros t timeout m e m' [(-> & _)|[_ ->]]%rt_lock_inv.
  - intros t m Hh. rewrite rt_lock_eq.
    destruct (rt_take_free t (i32 mutex_forever) m Hh) as (m' & -> & _). by eexists.
  - intros t m n Hh. simpl in *. unfold on_object, pos_mutex_unlock.
    rewrite Hisr, !c_assert_true. simpl. rewrite ?c_assert_true. simpl.
    destruct (rt_release_own t m n Hh) as (m' & -> & ?). by eexists.
  - intros t m Hh. simpl in *. unfold on_object, pos_mutex_unlock.
    rewrite Hisr, !c_assert_true. simpl. rewrite ?c_assert_true. simpl.
    destruct (rt_release_other t m Hh) as (r & -> & Hr). simpl.
    rewrite (proj2 (Z.eqb_neq _ _)) by done. by do 2 eexists.
Qed.

Lemma rt_lock_documented t timeout m :
  grantable t (rt_holder m) = false -> rt_timeout_ok timeout ->
  lock_documented t timeout m <-> timeout = POS_TIME_FOREVER.
Proof.
  intros Hg Ht. unfold lock_documented. rewrite rt_lock_eq.
  rewrite (rt_denied_answer timeout _ m POS_BAD_MUTEX Ht) by by apply rt_take_held.
  unfold documented_answer. simpl. rewrite Hg.
  destruct (Z.eqb_spec timeout POS_TIME_FOREVER) as [->|]; [done|].
  by destruct (timeout =? POS_TIME_NO_WAIT).
Qed.
End MutexContract.

(** * The semaphore contract *)
Section SemaphoreContract.
Context {S : Type} `{RtSemaphores S}.

#[local] Instance rt_osal_sem : OsalSem S := {
  osal_sem_init := fun tokens s => on_object (pos_sem_init tokens (object_of s));
  osal_sem_take := fun timeout s => on_object (pos_sem_take timeout (object_of s));
  osal_sem_give := fun s => on_object (pos_sem_give (object_of s));
  sem_value := rt_sem_value;
  sem_max := RT_SEM_VALUE_MAX;
  sem_no_wait := POS_TIME_NO_WAIT;
  sem_forever := POS_TIME_FOREVER
}.

Context `{!RtSemaphoresLaws S}.

Lemma rt_take_eq timeout s :
  osal_sem_take timeout s =
    (do '(ret, h) <- of_option Block (rt_sem_take (i32 timeout) s);
     Ret (if ret =? RT_EOK then POS_OK else POS_TIMEOUT, h)).
Proof.
  simpl. unfold on_object, pos_sem_take. simpl. rewrite ?c_assert_true. simpl.
  by destruct (rt_sem_take _ _) as [[ret h]|].
Qed.

Lemma rt_take_inv timeout s e s' :
  osal_sem_take timeout s = Ret (e, s') ->
  (e = POS_OK /\ 0 < rt_sem_value s /\ rt_sem_value s' = rt_sem_value s - 1) \/
  (e = POS_TIMEOUT /\ s' = s).
Proof.
  rewrite rt_take_eq. pose proof (rt_sem_range s). destruct (Z_lt_ge_dec 0 (rt_sem_value s)) as [Hp|Hz].
  - destruct (rt_sem_take_ok (i32 timeout) s Hp) as (s1 & -> & ?). simpl. intros [= <- <-]. by left.
  - assert (rt_sem_value s = 0) as Hz' by lia.
    intros E. destruct (rt_denied_inv _ _ _ _ _ _ (rt_sem_take_zero (i32 timeout) s Hz') E). auto.
Qed.

Lemma rt_sem_laws : OsalSemLaws S.
Proof.
  split.
  - apply rt_sem_range.
  - intros tokens s s' _. simpl. unfold on_object, pos_sem_init. simpl.
    destruct (rt_sem_create tokens) as [s0|] eqn:E; simpl; [|by destruct ndebug].
    rewrite c_assert_true. simpl. intros [= <-]. by apply rt_sem_create_value.
  - by intros timeout s s' [(_ & ? & ?)|[? _]]%rt_take_inv.
  - by intros timeout s e s' [(-> & _)|[_ ->]]%rt_take_inv.
  - intros s Hp. rewrite rt_take_eq.
    destruct (rt_sem_take_ok (i32 sem_forever) s Hp) as (s' & -> & _). by eexists.
  - intros s Hlt. simpl in *. unfold on_object, pos_sem_give. simpl. rewrite ?c_assert_true. simpl.
    destruct (rt_sem_release_ok s Hlt) as (s' & -> & ?). by eexists.
  - intros s e s' Hm. simpl in *. unfold on_object, pos_sem_give. simpl. rewrite ?c_assert_true. simpl.
    destruct (rt_sem_release_full s Hm) as (r & -> & Hr). simpl.
    rewrite (proj2 (Z.eqb_neq _ _)) by done. by intros [= <- <-].
Qed.

Lemma rt_take_documented timeout s :
  rt_sem_value s = 0 -> rt_timeout_ok timeout ->
  take_documented timeout s <-> timeout <> POS_TIME_NO_WAIT.
Proof.
  intros Hz Ht. unfold take_documented. rewrite rt_take_eq.
  rewrite (rt_denied_answer timeout _ s POS_TIMEOUT Ht) by by apply rt_sem_take_zero.
  unfold documented_answer. simpl. rewrite Hz. simpl.
  destruct (Z.eqb_spec timeout POS_TIME_NO_WAIT) as [->|]; [done|].
  by destruct (timeout =? POS_TIME_FOREVER).
Qed.

Lemma rt_give_documented s : give_documented s.
Proof.
  unfold give_documented. simpl. unfold on_object, pos_sem_give. simpl. rewrite ?c_assert_true. simpl.
  pose proof (rt_sem_range s). destruct (Z_lt_ge_dec (rt_sem_value s) RT_SEM_VALUE_MAX).
  - destruct (rt_sem_release_ok s) as (s' & -> & Hs); [done|]. do 2 eexists. split; [done|]. simpl. lia.
  - destruct (rt_sem_release_full s) as (r & -> & Hr); [lia|]. do 2 eexists. split; [done|]. simpl. lia.
Qed.
End SemaphoreContract.

(** * The queue contract *)
Section QueueContract.
Context {Q : Type} `{RtQueues Q}.

#[local] Instance rt_osal_queue : OsalQueue (rt_object Q) := {
  osal_queue_init := fun size n q =>
    do '(e, q') <- pos_queue_init size n (Some q); Ret (e, default q q');
  osal_queue_put := fun _ item q => do '(e, q') <- pos_queue_put item (Some q); Ret (e, default q q');
  osal_queue_get := fun _ timeout q => pos_queue_get timeout (Some q);
  osal_queue_inited := pos_queue_inited;
  osal_queue_deinit := fun q => let '(e, q') := pos_queue_deinit (Some q) in Ret (e, default q q');
  queue_view := fun q => rt_mq <$> handle q;
  queue_ok := fun _ => True;
  queue_no_wait := POS_TIME_NO_WAIT;
  queue_forever := POS_TIME_FOREVER
}.

Context `{!RtQueuesLaws Q}.

Lemma rt_put_eq item h size n l :
  rt_mq h = (size, n, l) -> size <= Z.of_nat (length item) ->
  pos_queue_put item (object_of h) =
    let '(r, h') := rt_mq_send (take (Z.to_nat size) item) h in
    Ret (if negb (r =? RT_EOK) then POS_ERROR else POS_OK, object_of h').
Proof.
  intros Hq Hi. unfold pos_queue_put. simpl. rewrite ?c_assert_true. simpl.
  rewrite rt_mq_field, Hq. simpl. unfold read_bytes. rewrite (proj2 (Z.leb_le _ _) Hi). simpl.
  by destruct (rt_mq_send _ h).
Qed.

Lemma rt_get_eq tmo h size n l :
  rt_mq h = (size, n, l) ->
  pos_queue_get tmo (object_of h) =
    (do '(r, data, h') <- of_option Block (rt_mq_recv size (i32 tmo) h);
     Ret (if r =? RT_EOK then POS_OK else POS_ERROR, data, mkRtObject (Some h'))).
Proof.
  intros Hq. unfold pos_queue_get. simpl. rewrite ?c_assert_true. simpl.
  by rewrite rt_mq_field, Hq.
Qed.

Lemma rt_get_none tmo h size n e d q :
  rt_mq h = (size, n, []) -> pos_queue_get tmo (object_of h) = Ret (e, d, q) ->
  e = POS_ERROR /\ d = None /\ q = mkRtObject (Some h).
Proof.
  intros Hq. rewrite (rt_get_eq _ _ _ _ _ Hq).
  destruct (rt_mq_recv_none (i32 tmo) h size n Hq) as (r & -> & _ & _ & Hd).
  destruct r as [[err h']|]; simpl; [|done]. destruct (Hd err h' eq_refl) as [Hne ->].
  rewrite (proj2 (Z.eqb_neq _ _)) by done. by intros [= <- <- <-].
Qed.

(** The bytes a put hands to the kernel. *)
Lemma length_message size n l (h : Q) (item : list byte) :
  rt_mq h = (size, n, l) -> size <= Z.of_nat (length item) ->
  Z.of_nat (length (take (Z.to_nat size) item)) = size.
Proof. intros [Hs _]%rt_mq_bound Hi. rewrite length_take. lia. Qed.

Lemma rt_put_room item h size n l :
  rt_mq h = (size, n, l) -> size <= Z.of_nat (length item) -> Z.of_nat (length l) < n ->
  exists h', pos_queue_put item (object_of h) = Ret (POS_OK, object_of h') /\
    rt_mq h' = (size, n, l ++ [take (Z.to_nat size) item]).
Proof.
  intros Hq Hi Hl. rewrite (rt_put_eq _ _ _ _ _ Hq Hi).
  destruct (rt_mq_send_room _ h size n l Hq (length_message size n l h item Hq Hi) Hl)
    as (h' & -> & ?). by exists h'.
Qed.

Lemma rt_put_full item h size n l :
  rt_mq h = (size, n, l) -> size <= Z.of_nat (length item) -> Z.of_nat (length l) = n ->
  pos_queue_put item (object_of h) = Ret (POS_ERROR, object_of h).
Proof.
  intros Hq Hi Hl. rewrite (rt_put_eq _ _ _ _ _ Hq Hi).
  destruct (rt_mq_send_full _ h size n l Hq (length_message size n l h item Hq Hi) Hl)
    as (r & -> & Hr). by rewrite (proj2 (Z.eqb_neq _ _)).
Qed.

#[local] Arguments pos_queue_put : simpl never.
#[local] Arguments pos_queue_get : simpl never.

(** The kernel keeps the size of every queue that it makes. *)
Definition keeps_sizes : Prop :=
  forall size n q, is_u16 size -> is_u16 n -> rt_mq_create size n = Some q -> rt_mq_stored_size size = size.

Lemma rt_queue_laws : keeps_sizes -> OsalQueueLaws (rt_object Q).
Proof.
  intros Hexact. split; simpl.
  - intros size n q q' Hs Hn. unfold pos_queue_init.
    destruct (rt_mq_create size n) as [h|] eqn:E; simpl; [|by destruct ndebug].
    rewrite c_assert_true. simpl. intros [= <-]. simpl.
    by rewrite (rt_mq_created _ _ _ E), (Hexact size n h).
  - intros _ item [[h|]] size n l _ [= Hq] Hi Hl.
    destruct (rt_put_room item h size n l Hq Hi Hl) as (h' & -> & Hq'). simpl.
    eexists. split; [done|]. simpl. by rewrite Hq'.
  - intros _ item [[h|]] size n l e q' _ [= Hq] Hi Hl.
    rewrite (rt_put_full item h size n l Hq Hi Hl). simpl. by intros [= <- <-].
  - intros [[h|]] size n l _ [= Hq]. by apply (rt_mq_bound h size n l).
  - intros _ tmo [[h|]] size n x l _ [= Hq]. rewrite (rt_get_eq _ _ _ _ _ Hq).
    destruct (rt_mq_recv_some (i32 tmo) h size n x l Hq) as (h' & -> & Hq'). simpl.
    eexists. split; [done|]. simpl. by rewrite Hq'.
  - intros _ tmo [[h|]] size n e d q' _ [= Hq] E.
    by destruct (rt_get_none tmo h size n e d q' Hq E) as (-> & -> & ->).
  - intros [[h|]] _; by eexists.
Qed.

Lemma rt_queue_laws_sizes : OsalQueueLaws (rt_object Q) <-> keeps_sizes.
Proof.
  split; [|apply rt_queue_laws]. intros Hlaws size n q Hs Hn E.
  destruct (queue_init_ok size n (mkRtObject None) (mkRtObject (Some q)) Hs Hn) as [_ Hv].
  - simpl. unfold pos_queue_init. rewrite E. simpl. by rewrite c_assert_true.
  - simpl in Hv. rewrite (rt_mq_created _ _ _ E) in Hv. by injection Hv.
Qed.

Lemma rt_get_documented t timeout (q : rt_object Q) size n l :
  rt_timeout_ok timeout -> queue_view q = Some (size, n, l) ->
  get_documented t timeout q <-> l <> [] \/ timeout = POS_TIME_FOREVER.
Proof.
  destruct q as [[h|]]; [|done]. simpl. intros Ht [= Hq]. unfold get_documented. cbn.
  rewrite (rt_get_eq _ _ _ _ _ Hq), Hq. destruct l as [|x l]; cycle 1.
  { split; [by left|]. intros _ ? ? ? [= <- <- <-].
    by destruct (rt_mq_recv_some (i32 timeout) h size n x l Hq) as (h' & -> & _). }
  destruct (rt_mq_recv_none (i32 timeout) h size n Hq) as (r & -> & Hr).
  pose proof (rt_denied_answer timeout r h POS_ERROR Ht Hr) as Ha.
  assert (answer_of (do '(e, _, s) <- (do '(ret, data, h') <-
      of_option Block ((fun '(e, q) => (e, None (A := list byte), q)) <$> r);
      Ret (if ret =? RT_EOK then POS_OK else POS_ERROR, data, mkRtObject (Some h'))); Ret (e, s)) =
    (if timeout =? POS_TIME_FOREVER then Block else Ret POS_ERROR)) as ->.
  { rewrite <- Ha. by destruct r as [[ret h']|]. }
  unfold documented_answer. destruct (Z.eqb_spec timeout POS_TIME_FOREVER) as [->|Hne].
  - split; [by right|]. intros _ ? ? ? [= <- <- <-]. done.
  - split; [|by intros [|]]. intros Hd. specialize (Hd _ _ _ eq_refl). simpl in Hd.
    by destruct (timeout =? POS_TIME_NO_WAIT).
Qed.

Lemma rt_put_documented t item (q : rt_object Q) size n l :
  queue_view q = Some (size, n, l) -> size <= Z.of_nat (length item) ->
  put_documented t item q <-> Z.of_nat (length l) < n.
Proof.
  destruct q as [[h|]]; [|done]. simpl. intros [= Hq] Hi. unfold put_documented. cbn -[pos_queue_put].
  rewrite Hq. split.
  - intros Hd. specialize (Hd _ _ _ eq_refl Hi). pose proof (proj2 (rt_mq_bound _ _ _ _ Hq)).
    destruct (Z.ltb_spec (Z.of_nat (length l)) n) as [|Hge]; [done|]. exfalso.
    rewrite (rt_put_full item h size n l Hq Hi) in Hd by lia.
    by destruct Hd as (e & q' & [= <- <-] & [|] & _).
  - intros Hl ? ? ? [= <- <- <-] _. rewrite (proj2 (Z.ltb_lt _ _) Hl).
    by destruct (rt_put_room item h size n l Hq Hi Hl) as (h' & -> & _).
Qed.

Lemma rt_inited_boolean (q : rt_object Q) : inited_boolean q.
Proof. by destruct q as [[h|]]. Qed.

(** * Properties *)

#[local] Existing Instances rt_osal_mutex rt_osal_sem.

(** C24. The RT-Thread mutexes, semaphores and queues and the headers, called from
    a thread (not from an interrupt handler). What os_mutex.h says of owner and
    count holds, and what os_sem.h says of the tokens; what os_queue.h says of the
    messages holds exactly if the kernel keeps the message size of every queue it
    makes, where some round it up. Of what the headers say of the answers, for
    the timeouts the kernel documents: a lock of a mutex that another thread
    holds is as documented exactly if it waits for ever (it is otherwise answered
    POS_BAD_MUTEX); a take that finds no token exactly if it waits, at all (else
    POS_TIMEOUT, not POS_EBUSY); a give always; a get exactly if there is a
    message or it waits for ever, and a put exactly if there is room (else both
    POS_ERROR); and pos_queue_inited never. *)
Theorem rtthread_contracts {M S : Type} `{RtMutexes M, !RtMutexesLaws M, RtSemaphores S, !RtSemaphoresLaws S} :
  in_isr = false ->
  (OsalMutexLaws M /\ OsalSemLaws S /\ (OsalQueueLaws (rt_object Q) <-> keeps_sizes)) /\
  (forall t timeout (m : M), grantable t (mutex_holder m) = false -> rt_timeout_ok timeout ->
     (lock_documented t timeout m <-> timeout = POS_TIME_FOREVER)) /\
  (forall timeout (s : S), sem_value s = 0 -> rt_timeout_ok timeout ->
     (take_documented timeout s <-> timeout <> POS_TIME_NO_WAIT)) /\
  (forall s : S, give_documented s) /\
  (forall t timeout (q : rt_object Q) size n l, rt_timeout_ok timeout -> queue_view q = Some (size, n, l) ->
     (get_documented t timeout q <-> l <> [] \/ timeout = POS_TIME_FOREVER)) /\
  (forall t item (q : rt_object Q) size n l, queue_view q = Some (size, n, l) ->
     size <= Z.of_nat (length item) -> (put_documented t item q <-> Z.of_nat (length l) < n)) /\
  (forall q : rt_object Q, ~ inited_documented q).
Proof.
  intros Hisr. split; [split_and!; [by apply rt_mutex_laws | apply rt_sem_laws | apply rt_queue_laws_sizes]|].
  split_and!; intros; [by apply rt_lock_documented | by apply rt_take_documented | apply rt_give_documented |
    by eapply rt_get_documented | by eapply rt_put_documented | ].
  apply inited_boolean_undocumented, rt_inited_boolean.
Qed.

(** What the calls answer when they cannot be granted. Without a deadline
    they wait; a full queue is POS_ERROR at once; a finite wait that runs out is
    POS_TIMEOUT for a semaphore, but POS_BAD_MUTEX for a mutex, which is in good
    order, and POS_ERROR for a queue, where the headers document POS_EBUSY and
    POS_TIMEOUT. *)
Theorem rtthread_denied {M S : Type} `{RtMutexes M, !RtMutexesLaws M, RtSemaphores S, !RtSemaphoresLaws S}
    t timeout (mu : M) (sem : S) item (qe qf : Q) size n l :
  grantable t (rt_holder mu) = false -> rt_sem_value sem = 0 ->
  rt_mq qe = (size, n, []) -> rt_mq qf = (size, n, l) -> Z.of_nat (length l) = n ->
  size <= Z.of_nat (length item) ->
  (timeout = POS_TIME_FOREVER ->
     pos_mutex_lock t timeout (object_of mu) = Block /\
     pos_sem_take timeout (object_of sem) = Block /\
     pos_queue_get timeout (object_of qe) = Block) /\
  (0 <= timeout < 2 ^ 31 ->
     pos_mutex_lock t timeout (object_of mu) = Ret (POS_BAD_MUTEX, object_of mu) /\
     pos_sem_take timeout (object_of sem) = Ret (POS_TIMEOUT, object_of sem) /\
     pos_queue_get timeout (object_of qe) = Ret (POS_ERROR, None, mkRtObject (Some qe))) /\
  pos_queue_put item (object_of qf) = Ret (POS_ERROR, object_of qf).
Proof.
  intros Hmu Hsem Hqe Hqf Hl Hi.
  destruct (rt_take_held t (i32 timeout) mu Hmu) as (Mf & Mw & Md).
  destruct (rt_sem_take_zero (i32 timeout) sem Hsem) as (Sf & Sw & Sd).
  destruct (rt_mq_recv_none (i32 timeout) qe size n Hqe) as (r & Er & Qf & Qw & Qd).
  unfold pos_mutex_lock, pos_sem_take. rewrite (rt_get_eq _ _ _ _ _ Hqe), Er. simpl.
  rewrite !c_assert_true. simpl. split_and!; [intros -> | intros Ht | by apply (rt_put_full _ _ size n l)].
  - change (i32 POS_TIME_FOREVER) with RT_WAITING_FOREVER in *.
    by rewrite Mf, Sf, Qf by done.
  - assert (0 <= i32 timeout) as Hi32 by (rewrite i32_small; lia).
    destruct (rt_mutex_take _ _ mu) as [[e1 m1]|]; [|by destruct (Mw Hi32)].
    destruct (Md e1 m1 eq_refl) as [He1 ->].
    destruct (rt_sem_take _ sem) as [[e2 s2]|]; [|by destruct (Sw Hi32)].
    destruct (Sd e2 s2 eq_refl) as [He2 ->].
    destruct r as [[e3 q3]|]; [|by destruct (Qw Hi32)].
    destruct (Qd e3 q3 eq_refl) as [He3 ->]. simpl.
    by rewrite (proj2 (Z.eqb_neq e1 _)), (proj2 (Z.eqb_neq e2 _)), (proj2 (Z.eqb_neq e3 _)).
Qed.

(** The port reads and writes as many bytes as the kernel's structure says,
    not as many as the queue was created for. On a kernel that rounds message
    sizes up, a put of an object of exactly the size asked for reads past its
    end, and a get writes more bytes than the caller's object has. *)
Theorem rtthread_queue_overrun size n q item tmo :
  pos_queue_init size n (Some (mkRtObject None)) = Ret (POS_OK, object_of q) ->
  Z.of_nat (length item) = size -> size < rt_mq_stored_size size ->
  pos_queue_put item (object_of q) = Undef /\
  forall h x l, rt_mq h = (rt_mq_stored_size size, n, x :: l) ->
    length x = Z.to_nat (rt_mq_stored_size size) ->
    exists h', pos_queue_get tmo (object_of h) = Ret (POS_OK, Some x, mkRtObject (Some h')) /\
      (length item < length x)%nat.
Proof.
  unfold pos_queue_init. destruct (rt_mq_create size n) as [h|] eqn:E; simpl; [|by destruct ndebug].
  rewrite c_assert_true. intros [= <-] Hi Hlt. split.
  - unfold pos_queue_put. simpl. rewrite c_assert_true. simpl.
    rewrite rt_mq_field, (rt_mq_created _ _ _ E). simpl. unfold read_bytes.
    by rewrite (proj2 (Z.leb_gt _ _)) by lia.
  - intros h' x l Hq Hx. rewrite (rt_get_eq _ _ _ _ _ Hq).
    destruct (rt_mq_recv_some (i32 tmo) h' _ _ _ _ Hq) as (h2 & -> & _). simpl.
    exists h2. split; [done|]. lia.
Qed.
End QueueContract.
End RtThread.

(** * Witnesses over reference kernels *)

Section Witness.
#[local] Existing Instance linux_errno.

(** A call that cannot be granted. *)
Definition demo_denied {A} (tmo : Z) (a : A) : option (Z * A) :=
  if tmo =? RT_WAITING_FOREVER then None else Some (- RT_ERROR, a).

Lemma demo_denied_ok {A} tmo (a : A) : rt_denied tmo (demo_denied tmo a) a.
Proof.
  unfold demo_denied. split_and!.
  - by intros ->.
  - intros Ht. rewrite (proj2 (Z.eqb_neq _ _)); [done|]. unfold RT_WAITING_FOREVER. lia.
  - intros e a'. destruct (tmo =? _); [done|]. by intros [= <- <-].
Qed.

#[local] Instance demo_rt_mutexes : RtMutexes ref_mutex := {
  rt_mutex_create := Some None;
  rt_mutex_take t tmo m :=
    match ref_lock t m with Some (_, m') => Some (RT_EOK, m') | None => demo_denied tmo m end;
  rt_mutex_release t m :=
    let '(r, m') := ref_unlock t m in ((if r =? 0 then RT_EOK else - RT_ERROR), m');
  rt_holder := ref_holder
}.

#[local] Instance demo_rt_mutexes_laws : RtMutexesLaws ref_mutex.
Proof.
  split; simpl; unfold ref_lock, ref_unlock, held_by, grantable.
  - by intros m [= <-].
  - intros [[t' k]|] t n; [|done]. intros [= <- <-]. lia.
  - intros t tmo [[t' k]|]; [done|]. by eexists.
  - intros t tmo [[t' k]|] n; [|done]. simpl. intros [= -> <-]. rewrite decide_True by done.
    do 2 eexists. split; [done|]. by left.
  - intros t tmo [[t' k]|]; simpl; [|done]. intros Hne%bool_decide_eq_false.
    rewrite decide_False by done. apply demo_denied_ok.
  - intros t [[t' k]|] n; [|done]. simpl. intros [= -> ->]. rewrite decide_True by done.
    eexists. split; [done|]. by destruct n.
  - intros t [[t' k]|]; simpl; [case_decide|]; try done; by eexists.
Qed.

(** A semaphore is its value, kept within the range. *)
Definition demo_value (s : Z) : Z := Z.max 0 (Z.min RT_SEM_VALUE_MAX s).

#[local] Instance demo_rt_semaphores : RtSemaphores Z := {
  rt_sem_create v := if bool_decide (demo_value v = v) then Some v else None;
  rt_sem_take tmo s :=
    if 0 <? demo_value s then Some (RT_EOK, demo_value s - 1) else demo_denied tmo s;
  rt_sem_release s :=
    if demo_value s <? RT_SEM_VALUE_MAX then (RT_EOK, demo_value s + 1) else (- RT_ERROR, s);
  rt_sem_value := demo_value
}.

#[local] Instance demo_rt_semaphores_laws : RtSemaphoresLaws Z.
Proof.
  split; simpl; unfold RT_SEM_VALUE_MAX.
  - intros s. unfold demo_value, RT_SEM_VALUE_MAX. lia.
  - intros v s. case_bool_decide; [|done]. by intros [= <-].
  - intros tmo s Hs. rewrite (proj2 (Z.ltb_lt _ _) Hs). eexists. split; [done|].
    unfold demo_value, RT_SEM_VALUE_MAX in *. lia.
  - intros tmo s ->. apply demo_denied_ok.
  - intros s Hs. rewrite (proj2 (Z.ltb_lt _ _) Hs). eexists. split; [done|].
    unfold demo_value, RT_SEM_VALUE_MAX in *. lia.
  - intros s ->. by eexists.
Qed.

(** A queue: the message size, the capacity, and the messages. *)
Definition demo_rt_queue : Type := Z * Z * list (list byte).

Definition demo_mq (q : demo_rt_queue) : Z * Z * list (list byte) :=
  let '(size, n, l) := q in (Z.max 0 size, Z.max (Z.of_nat (length l)) n, l).

(** On a kernel that stores sizes as [stored] says. *)
#[local] Instance demo_rt_queues (stored : Z -> Z) : RtQueues demo_rt_queue := {
  rt_mq_stored_size size := Z.max (Z.max 0 size) (stored size);
  rt_mq_create size n :=
    if 0 <=? n then Some (Z.max (Z.max 0 size) (stored size), n, []) else None;
  rt_mq_recv size tmo q :=
    match demo_mq q with
    | (sz, n, x :: l) => Some (RT_EOK, Some x, (sz, n, l))
    | _ => (fun '(e, q) => (e, None, q)) <$> demo_denied tmo q
    end;
  rt_mq_send item q :=
    let '(sz, n, l) := demo_mq q in
    if Z.of_nat (length l) <? n then (RT_EOK, (sz, n, l ++ [item])) else (- RT_ERROR, q);
  rt_mq_msg_size q := (demo_mq q).1.1;
  rt_mq := demo_mq
}.

Lemma demo_mq_again q size n l l' :
  demo_mq q = (size, n, l) -> Z.of_nat (length l') <= n -> demo_mq (size, n, l') = (size, n, l').
Proof. destruct q as [[sz m] k]. simpl. intros [= <- <- <-] ?. f_equal; f_equal; lia. Qed.

Lemma demo_mq_bound q size n l : demo_mq q = (size, n, l) -> 0 <= size /\ Z.of_nat (length l) <= n.
Proof. destruct q as [[sz m] k]. simpl. intros [= <- <- <-]. lia. Qed.

Lemma demo_rt_queues_laws stored : @RtQueuesLaws _ (demo_rt_queues stored).
Proof.
  split; cbn [rt_mq rt_mq_stored_size rt_mq_create rt_mq_recv rt_mq_send rt_mq_msg_size demo_rt_queues].
  - intros size. lia.
  - intros size n q. destruct (Z.leb_spec 0 n); [|done]. intros [= <-]. simpl.
    f_equal; f_equal; lia.
  - done.
  - apply demo_mq_bound.
  - intros tmo q size n x l Hq. rewrite Hq. eexists. split; [done|].
    apply (demo_mq_again q size n (x :: l)); [done|].
    apply demo_mq_bound in Hq. simpl in Hq. lia.
  - intros tmo q size n ->. exists (demo_denied tmo q). split; [done|]. apply demo_denied_ok.
  - intros item q size n l Hq _ Hl. rewrite Hq, (proj2 (Z.ltb_lt _ _) Hl). eexists. split; [done|].
    apply (demo_mq_again q size n l); [done|]. rewrite length_app. simpl. lia.
  - intros item q size n l -> _ <-. rewrite Z.ltb_irrefl. by eexists.
Qed.

#[local] Existing Instance demo_rt_queues_laws.

(** A kernel that keeps sizes, and one that stores every message in at least
    four bytes. *)
Example rtthread_contracts_witness :
  @OsalQueueLaws (rt_object demo_rt_queue) (@rt_osal_queue false _ (demo_rt_queues (fun s => s))) /\
  ~ @OsalQueueLaws (rt_object demo_rt_queue) (@rt_osal_queue false _ (demo_rt_queues (fun _ => 4))) /\
  ~ @lock_documented ref_mutex (rt_osal_mutex false false) 2%nat 10 (Some (1%nat, 0%nat)).
Proof.
  destruct (@rtthread_contracts false false _ (demo_rt_queues (fun s => s)) _ ref_mutex Z _ _ _ _ eq_refl)
    as ((_ & _ & Hq) & Hl & _).
  destruct (@rtthread_contracts false false _ (demo_rt_queues (fun _ => 4)) _ ref_mutex Z _ _ _ _ eq_refl)
    as ((_ & _ & Hq4) & _).
  split; [|split].
  - apply Hq. intros size n q Hs _ _. unfold is_u16 in Hs. simpl. lia.
  - intros Hk%Hq4. specialize (Hk 1 1 (4, 1, [])). simpl in Hk.
    assert (4 = 1) as E by (apply Hk; [vm_compute; intuition congruence .. | reflexivity]). discriminate E.
  - intros Hd%Hl; [discriminate Hd | reflexivity | right; lia].
Defined.

(** A thread that waits ten ticks for a mutex is told that the mutex is bad. *)
Example rtthread_denied_witness :
  pos_mutex_lock (M := ref_mutex) false 2 10 (object_of (Some (1%nat, 0%nat))) =
    Ret (POS_BAD_MUTEX, object_of (Some (1%nat, 0%nat))).
Proof.
  refine (proj1 (proj1 (proj2 (@rtthread_denied false demo_rt_queue (demo_rt_queues (fun s => s)) _
    ref_mutex Z _ _ _ _ 2%nat 10 (Some (1%nat, 0%nat)) 0 [x01] (1, 0, []) (1, 0, []) 1 0 []
    eq_refl eq_refl eq_refl eq_refl eq_refl _)) _)); simpl; lia.
Defined.

(** A kernel that stores one-byte messages in four bytes. *)
Example rtthread_queue_overrun_witness :
  let kernel := demo_rt_queues (fun _ => 4) in
  @pos_queue_put false _ kernel [x01] (object_of (4, 2, [])) = Undef.
Proof.
  refine (proj1 (@rtthread_queue_overrun false demo_rt_queue (demo_rt_queues (fun _ => 4)) _
    1 2 (4, 2, []) [x01] 0 eq_refl eq_refl _)). simpl. lia.
Defined.
End Witness.
