(* ===== verification/RtThreadTimer.v ===== *)
(** targets/rt-thread: software timers (os_timer.c) and time (the inline
    functions of poski/osal/os_port.h) over the RT-Thread kernel. The timers
    provide the part of the timer interface of [OsalApi] that this port has:
    there is no [pos_timer_stop] here. Ticks are 32 bits wide. *)

From S2P Require Import Prelude OsTypes OsalApi RtThread.

(** * Software timers of the kernel *)

(** The commands of [rt_timer_control]. *)
Inductive timer_cmd := RT_TIMER_CTRL_SET_TIME | RT_TIMER_CTRL_GET_STATE | RT_TIMER_CTRL_GET_REMAIN_TIME.

Definition RT_TIMER_FLAG_DEACTIVATED : Z := 0.
Definition RT_TIMER_FLAG_ACTIVATED : Z := 1.

(** One timer [K], created one-shot with a callback [CB], its argument [P] and a
    period. [rt_timer_control cmd v k] is the call on a word that holds [v]: the
    word after it and the timer. [rt_timer_expire] is the kernel's step: a timer
    that comes due runs its callback. *)
Class RtTimers (K CB P : Type) := {
  rt_timer_create : CB -> option P -> Z -> option K;
  rt_timer_control : timer_cmd -> Z -> K -> Z * K;
  rt_timer_start : K -> Z * K;
  rt_timer_expire : K -> option (CB * option P * K);
  rt_timer_period : K -> Z;
  rt_timer_active : K -> bool;
  rt_timer_entry : K -> CB * option P
}.

Class RtTimersLaws (K CB P : Type) `{RtTimers K CB P} : Prop := {
  rt_timer_created : forall cb a p k, rt_timer_create cb a p = Some k ->
    rt_timer_entry k = (cb, a) /\ rt_timer_active k = false /\ rt_timer_period k = p;
  rt_timer_set_time : forall v k, let '(_, k') := rt_timer_control RT_TIMER_CTRL_SET_TIME v k in
    rt_timer_period k' = v /\ rt_timer_entry k' = rt_timer_entry k;
  rt_timer_get_state : forall v k, rt_timer_control RT_TIMER_CTRL_GET_STATE v k =
    (if rt_timer_active k then RT_TIMER_FLAG_ACTIVATED else RT_TIMER_FLAG_DEACTIVATED, k);
  rt_timer_get_remain : forall v k, (rt_timer_control RT_TIMER_CTRL_GET_REMAIN_TIME v k).2 = k;
  (* "When this function is called, the timer's state is changed to activated" *)
  rt_timer_started : forall k, exists k', rt_timer_start k = (RT_EOK, k') /\
    rt_timer_active k' = true /\ rt_timer_entry k' = rt_timer_entry k /\
    rt_timer_period k' = rt_timer_period k /\
    forall v, (rt_timer_control RT_TIMER_CTRL_GET_REMAIN_TIME v k').1 = rt_timer_period k;
  rt_timer_due : forall k, rt_timer_active k = true ->
    exists k', rt_timer_expire k = Some (rt_timer_entry k, k') /\
      rt_timer_active k' = false /\ rt_timer_entry k' = rt_timer_entry k;
  rt_timer_not_due : forall k, rt_timer_active k = false -> rt_timer_expire k = None
}.

(** [struct pos_timer] (os_port.h) *)
Record pos_timer (K CB P : Type) := mkPosTimer {
  handle : option K;
  func : CB;
  arg : option P
}.
Arguments mkPosTimer {K CB P} handle func arg.
Arguments handle {K CB P} p.
Arguments func {K CB P} p.
Arguments arg {K CB P} p.

Section RtThreadTimer.
Context {K CB P : Type} `{RtTimers K CB P}.

(** Whether [assert] is compiled out; [RT_TICK_PER_SECOND]; and what the
    uninitialised variable [state] of [pos_timer_is_active] holds. *)
Variable ndebug : bool.
Variable RT_TICK_PER_SECOND : Z.
Variable state0 : Z.

Abbreviation timer := (pos_timer K CB P).

Definition with_handle (k : K) (t : timer) : timer := mkPosTimer (Some k) (func t) (arg t).

(** * os_timer.c *)

(** The result of [rt_timer_create] is not tested. *)
Definition pos_timer_init (tm_cb : CB) (tm_arg : option P) (mem : timer) : pos_error * timer :=
  (POS_OK, mkPosTimer (rt_timer_create tm_cb tm_arg 10) tm_cb tm_arg).

(** The comparison [ticks < 0] is between unsigned values. *)
Definition pos_timer_start (ticks : Z) (t : timer) : outcome (pos_error * timer) :=
  if ticks <? 0 then Ret (POS_INVALID_PARAM, t)
  else
    let ticks := if ticks =? 0 then 1 else ticks in
    do k <- deref (handle t);
    let '(_, k) := rt_timer_control RT_TIMER_CTRL_SET_TIME ticks k in
    let '(_, k) := rt_timer_start k in
    Ret (POS_OK, with_handle k t).

(** The caller's [now] is overwritten. *)
Definition pos_timer_remaining_ticks (now : Z) (t : timer) : outcome Z :=
  do k <- deref (handle t);
  let '(now, _) := rt_timer_control RT_TIMER_CTRL_GET_REMAIN_TIME now k in
  Ret now.

(** * os_port.h *)

(** [tick] and [millisecond] are the kernel's readings. *)
Definition pos_time_get (tick : Z) : Z := tick.
Definition pos_time_get_ms (millisecond : Z) : Z := millisecond.

Definition pos_time_ticks_to_ms (ticks : Z) : Z := u32 (ticks * 1000) / RT_TICK_PER_SECOND.
Definition pos_time_ms_to_ticks (ms : Z) : Z := u32 (ms * RT_TICK_PER_SECOND) / 1000.

Definition pos_timer_arg_get (tm : option timer) : outcome (option P) :=
  c_assert ndebug (non_null tm);;
  do t <- deref tm;
  Ret (arg t).

Definition pos_timer_is_active (tm : option timer) : outcome bool :=
  c_assert ndebug (non_null tm);;
  do t <- deref tm;
  c_assert ndebug (non_null (handle t));;
  do k <- deref (handle t);
  let '(state, _) := rt_timer_control RT_TIMER_CTRL_GET_STATE state0 k in
  Ret (RT_TIMER_FLAG_ACTIVATED =? state).

Definition pos_timer_start_ms (duration : Z) (t : timer) : outcome (pos_error * timer) :=
  let ticks := pos_time_ms_to_ticks duration in
  pos_timer_start ticks t.

(** * Lemmas *)

Context `{!RtTimersLaws K CB P}.

Lemma pos_timer_start_ok ticks t k :
  0 <= ticks -> handle t = Some k ->
  exists k', pos_timer_start ticks t = Ret (POS_OK, with_handle k' t) /\
    rt_timer_active k' = true /\ rt_timer_entry k' = rt_timer_entry k /\
    rt_timer_period k' = Z.max 1 ticks /\
    forall v, (rt_timer_control RT_TIMER_CTRL_GET_REMAIN_TIME v k').1 = Z.max 1 ticks.
Proof.
  intros Ht Hk. unfold pos_timer_start. rewrite (proj2 (Z.ltb_ge ticks 0) Ht), Hk. simpl.
  assert ((if ticks =? 0 then 1 else ticks) = Z.max 1 ticks) as ->
    by (destruct (Z.eqb_spec ticks 0); lia).
  pose proof (rt_timer_set_time (Z.max 1 ticks) k) as L.
  destruct (rt_timer_control RT_TIMER_CTRL_SET_TIME _ k) as [v1 k1]. destruct L as [Hp He].
  destruct (rt_timer_started k1) as (k2 & -> & ? & He2 & Hp2 & Hr).
  exists k2. rewrite Hp in *. split_and!; try done. by rewrite He2.
Qed.

Lemma pos_time_ms_to_ticks_nonneg ms : 0 <= pos_time_ms_to_ticks ms.
Proof. apply Z.div_pos; [|lia]. apply (u32_range _). Qed.

(** The object and the kernel agree on a timer that was created. *)
Definition timer_wf (t : timer) : Prop :=
  match handle t with Some k => rt_timer_entry k = (func t, arg t) | None => False end.

Lemma pos_timer_start_wf ticks t :
  0 <= ticks -> timer_wf t ->
  exists k, pos_timer_start ticks t = Ret (POS_OK, with_handle k t) /\
    timer_wf (with_handle k t) /\ rt_timer_active k = true.
Proof.
  intros Ht. unfold timer_wf. destruct (handle t) as [k|] eqn:Hk; [|done]. intros He.
  destruct (pos_timer_start_ok ticks t k Ht Hk) as (k' & ? & ? & He' & _).
  exists k'. simpl. by rewrite He'.
Qed.

#[local] Instance rt_osal_timer : OsalTimer timer CB P := {
  osal_timer_init := fun cb a t => Ret (pos_timer_init cb a t);
  osal_timer_start := pos_timer_start;
  osal_timer_start_ms := pos_timer_start_ms;
  osal_timer_is_active := fun t => pos_timer_is_active (Some t);
  osal_timer_remaining_ticks := pos_timer_remaining_ticks;
  osal_timer_arg_get := fun t => pos_timer_arg_get (Some t);
  osal_timer_expire := fun t =>
    match handle t ≫= rt_timer_expire with
    | Some (cb, a, k) => Some (cb, a, with_handle k t)
    | None => None
    end;
  timer_ok := timer_wf;
  timer_running := fun t => match handle t with Some k => rt_timer_active k | None => false end;
  timer_action := fun t => Some (func t, arg t)
}.

(** Every function of the timer interface. *)
Lemma rt_timer_laws :
  (forall cb a, rt_timer_create cb a 10 <> None) -> OsalTimerLaws timer CB P.
Proof.
  intros Hmem. split; simpl.
  - intros cb a t t' [= <-]. unfold timer_wf. simpl.
    destruct (rt_timer_create cb a 10) as [k|] eqn:E; [|by destruct (Hmem cb a)].
    by destruct (rt_timer_created _ _ _ _ E) as (-> & -> & _).
  - intros ticks t Ht [??]. destruct (pos_timer_start_wf ticks t) as (k & ? & ? & ?); [lia|done|].
    by exists (with_handle k t).
  - intros ms t Ht _. unfold pos_timer_start_ms.
    destruct (pos_timer_start_wf (pos_time_ms_to_ticks ms) t (pos_time_ms_to_ticks_nonneg ms) Ht)
      as (k & ? & ? & ?). by exists (with_handle k t).
  - intros t. unfold timer_wf, pos_timer_is_active. rewrite c_assert_true. simpl.
    destruct (handle t) as [k|]; [|done]. intros _. simpl. rewrite c_assert_true. simpl.
    rewrite rt_timer_get_state. by destruct (rt_timer_active k).
  - intros now t. unfold timer_wf, pos_timer_remaining_ticks. destruct (handle t) as [k|]; [|done].
    intros _. simpl. destruct (rt_timer_control _ now k) as [v k']. by exists v.
  - intros t cb a _ [= _ <-]. unfold pos_timer_arg_get. by rewrite c_assert_true.
  - intros t cb a. unfold timer_wf. destruct (handle t) as [k|]; [|done]. simpl.
    intros He Ha [= <- <-]. destruct (rt_timer_due k Ha) as (k' & -> & ? & He').
    rewrite He. eexists. split; [done|]. simpl. by rewrite He'.
  - intros t _. destruct (handle t) as [k|]; [|done]. simpl. intros Ha.
    by rewrite (rt_timer_not_due k Ha).
Qed.

(** * Properties *)

(** While the kernel can create timers, the port provides the timer laws
    of [OsalApi]: a started timer, started again or not, fires once, with
    the callback and argument it was given, and reports itself active until
    then. *)
Theorem rtthread_timer_contract :
  (forall cb a, rt_timer_create cb a 10 <> None) -> @OsalTimerLaws timer CB P rt_osal_timer.
Proof. exact rt_timer_laws. Qed.

(** [pos_timer_start_ms] sets the timer for the milliseconds converted to
    ticks, rounded down and at least one, as long as the product fits 32 bits;
    a longer time becomes one of at most 4294967 ticks. What is left right after
    is that number, whatever time the caller passes as the current one. *)
Theorem rtthread_start_ms_spec t k ms now :
  handle t = Some k -> is_u32 ms -> 0 < RT_TICK_PER_SECOND ->
  exists k' period, pos_timer_start_ms ms t = Ret (POS_OK, with_handle k' t) /\
    rt_timer_active k' = true /\ rt_timer_entry k' = rt_timer_entry k /\
    rt_timer_period k' = period /\
    pos_timer_remaining_ticks now (with_handle k' t) = Ret period /\
    (if ms * RT_TICK_PER_SECOND <? 2 ^ 32 then period = Z.max 1 (ms * RT_TICK_PER_SECOND / 1000)
     else 1 <= period <= 4294967).
Proof.
  intros Hk Hms Hr. unfold pos_timer_start_ms.
  destruct (pos_timer_start_ok _ t k (pos_time_ms_to_ticks_nonneg ms) Hk)
    as (k' & E & Ha & He & Hp & Hrem).
  exists k', (Z.max 1 (pos_time_ms_to_ticks ms)). split_and!; try done.
  - unfold pos_timer_remaining_ticks. simpl. specialize (Hrem now).
    destruct (rt_timer_control RT_TIMER_CTRL_GET_REMAIN_TIME now k') as [v k2]. simpl in Hrem.
    by rewrite Hrem.
  - unfold pos_time_ms_to_ticks, is_u32 in *. destruct (Z.ltb_spec (ms * RT_TICK_PER_SECOND) (2 ^ 32)).
    + rewrite u32_small; [done|]. unfold is_u32. nia.
    + pose proof (u32_range (ms * RT_TICK_PER_SECOND)) as Hu. unfold is_u32 in Hu.
      set (x := u32 _) in *. clearbody x.
      assert (x / 1000 < 4294968) by (apply Z.div_lt_upper_bound; lia). lia.
Qed.

(** Nobody looks at what [rt_timer_create] returned: without memory
    [pos_timer_init] still answers POS_OK, and the first start follows a null
    pointer. *)
Lemma rtthread_timer_unchecked cb a mem ticks :
  rt_timer_create cb a 10 = None -> 0 <= ticks ->
  exists t, pos_timer_init cb a mem = (POS_OK, t) /\ pos_timer_start ticks t = Undef.
Proof.
  intros Hc Ht. eexists. split; [done|]. unfold pos_timer_start. simpl.
  by rewrite Hc, (proj2 (Z.ltb_ge ticks 0) Ht).
Qed.
End RtThreadTimer.

(** * Witnesses over a reference kernel *)

Section Witness.

(** A timer: the callback and its argument, the period, and whether it runs. *)
Record demo_rt_timer := mkDemo { d_entry : nat * option nat; d_period : Z; d_active : bool }.

#[local] Instance demo_rt_timers : RtTimers demo_rt_timer nat nat := {
  rt_timer_create cb a p := Some (mkDemo (cb, a) p false);
  rt_timer_control cmd v k :=
    match cmd with
    | RT_TIMER_CTRL_SET_TIME => (v, mkDemo (d_entry k) v (d_active k))
    | RT_TIMER_CTRL_GET_STATE =>
        (if d_active k then RT_TIMER_FLAG_ACTIVATED else RT_TIMER_FLAG_DEACTIVATED, k)
    | RT_TIMER_CTRL_GET_REMAIN_TIME => (if d_active k then d_period k else 0, k)
    end;
  rt_timer_start k := (RT_EOK, mkDemo (d_entry k) (d_period k) true);
  rt_timer_expire k :=
    if d_active k then Some (d_entry k, mkDemo (d_entry k) (d_period k) false) else None;
  rt_timer_period := d_period;
  rt_timer_active := d_active;
  rt_timer_entry := d_entry
}.

#[local] Instance demo_rt_timers_laws : RtTimersLaws demo_rt_timer nat nat.
Proof.
  split; simpl; try done.
  - by intros cb a p k [= <-].
  - intros k. by eexists.
  - intros k ->. by eexists.
  - by intros k ->.
Qed.

Example rtthread_timer_contract_witness :
  @OsalTimerLaws (pos_timer demo_rt_timer nat nat) nat nat (rt_osal_timer false 1000 0).
Proof. apply (rtthread_timer_contract false 1000 0). intros cb a. simpl. congruence. Defined.

(** At 1000 ticks per second: 71.6 minutes become one tick. *)
Example rtthread_start_ms_spec_witness :
  let t := mkPosTimer (Some (mkDemo (7%nat, None) 10 false)) 7%nat None in
  pos_timer_start_ms 1000 4294968 t = Ret (POS_OK, with_handle (mkDemo (7%nat, None) 1 true) t) /\
  exists k' period, pos_timer_start_ms 1000 4294968 t = Ret (POS_OK, with_handle k' t) /\
    rt_timer_active k' = true /\ rt_timer_entry k' = (7%nat, None) /\ rt_timer_period k' = period /\
    pos_timer_remaining_ticks 5 (with_handle k' t) = Ret period /\
    (if 4294968 * 1000 <? 2 ^ 32 then period = Z.max 1 (4294968 * 1000 / 1000)
     else 1 <= period <= 4294967).
Proof.
  intros t. split; [vm_compute; reflexivity|].
  refine (rtthread_start_ms_spec 1000 t (mkDemo (7%nat, None) 10 false) 4294968 5 eq_refl _ _);
    [unfold is_u32; lia | lia].
Defined.
End Witness.
