(* ===== verification/OsTime.v ===== *)
(** include/poski/OsTime.h over the time interface of [OsalApi], and its
    conversions on the clocks of the five platforms: which milliseconds survive
    the way to ticks and back. *)

From S2P Require Import Prelude Pthread OsalApi.
From S2P Require PosixTime Apple FreeRtosTimer ZephyrTimer RtThreadTimer.
#[local] Open Scope Z_scope.

Section OsTime.
Context {C : Type} `{OsalTime C}.

Definition Get (c : C) : outcome Z := osal_time_get c.
Definition GetMs (c : C) : outcome Z := osal_time_get_ms c.
Definition MsToTicks (ms : Z) : outcome Z := osal_time_ms_to_ticks ms.
Definition TicksToMs (ticks : Z) : outcome Z := osal_time_ticks_to_ms ticks.

(** Milliseconds converted to ticks and back. *)
Definition there_and_back (ms : Z) : outcome Z := do n <- MsToTicks ms; TicksToMs n.
End OsTime.

(** * The ports *)

#[local] Instance posix_osal_time : OsalTime (option timespec) := {
  osal_time_get := PosixTime.pos_time_get;
  osal_time_get_ms := PosixTime.pos_time_get_ms;
  osal_time_ms_to_ticks := PosixTime.pos_time_ms_to_ticks;
  osal_time_ticks_to_ms := PosixTime.pos_time_ticks_to_ms
}.

#[local] Instance apple_osal_time : OsalTime timespec := {
  osal_time_get := Apple.pos_time_get;
  osal_time_get_ms := Apple.pos_time_get_ms;
  osal_time_ms_to_ticks := Apple.pos_time_ms_to_ticks;
  osal_time_ticks_to_ms := Apple.pos_time_ticks_to_ms
}.

(** The others compute in 32 bits, for a tick rate that the configuration sets. *)
#[local] Instance freertos_osal_time (rate : Z) : OsalTime Z := {
  osal_time_get count := Ret (FreeRtosTimer.pos_time_get count);
  osal_time_get_ms count := Ret (FreeRtosTimer.pos_time_get_ms rate count);
  osal_time_ms_to_ticks ms := Ret (FreeRtosTimer.pos_time_ms_to_ticks rate ms);
  osal_time_ticks_to_ms n := Ret (FreeRtosTimer.pos_time_ticks_to_ms rate n)
}.

#[local] Instance rtthread_osal_time (rate : Z) : OsalTime (Z * Z) := {
  osal_time_get c := Ret (RtThreadTimer.pos_time_get c.1);
  osal_time_get_ms c := Ret (RtThreadTimer.pos_time_get_ms c.2);
  osal_time_ms_to_ticks ms := Ret (RtThreadTimer.pos_time_ms_to_ticks rate ms);
  osal_time_ticks_to_ms n := Ret (RtThreadTimer.pos_time_ticks_to_ms rate n)
}.

#[local] Instance zephyr_osal_time `{ZephyrTimer.ZTime} : OsalTime (Z * Z) := {
  osal_time_get c := Ret (ZephyrTimer.pos_time_get c.1);
  osal_time_get_ms c := Ret (ZephyrTimer.pos_time_get_ms c.2);
  osal_time_ms_to_ticks ms := Ret (ZephyrTimer.pos_time_ms_to_ticks ms);
  osal_time_ticks_to_ms n := Ret (ZephyrTimer.pos_time_ticks_to_ms n)
}.

(** * The conversions of FreeRTOS and RT-Thread *)

(** [ms * rate / 1000] and [n * 1000 / rate], the products in 32 bits. *)
Definition back_32 (rate ms : Z) : Z := u32 (u32 (ms * rate) / 1000 * 1000) / rate.

Lemma back_32_bounds rate ms :
  0 <= ms -> 0 < rate ->
  exists x, 0 <= x /\ (ms * rate < 2 ^ 32 -> x = ms * rate) /\
    (2 ^ 32 <= ms * rate -> x <= ms * rate - 2 ^ 32) /\
    x - 1000 < u32 (u32 (ms * rate) / 1000 * 1000) <= x /\
    (x mod 1000 = 0 -> u32 (u32 (ms * rate) / 1000 * 1000) = x).
Proof.
  intros Hms Hr. assert (0 <= ms * rate) as Hp by nia. set (p := ms * rate) in *. clearbody p.
  assert (0 <= u32 p < 2 ^ 32 /\ (p < 2 ^ 32 -> u32 p = p) /\ (2 ^ 32 <= p -> u32 p <= p - 2 ^ 32))
    as (Hx & H1 & H2) by (split_and!; zwrap).
  exists (u32 p). set (x := u32 p) in *. clearbody x.
  rewrite (u32_small (x / 1000 * 1000)) by (unfold is_u32; Z.to_euclidean_division_equations; lia).
  split_and!; try done; Z.to_euclidean_division_equations; lia.
Qed.

(** Where the product fits, less than a tick and a millisecond is lost, and
    nothing if a tick divides a millisecond; beyond, at least 2^32 / rate
    milliseconds are. *)
Lemma back_32_spec rate ms :
  0 <= ms -> 0 < rate ->
  if ms * rate <? 2 ^ 32
  then (ms - back_32 rate ms) * rate < 1000 + rate /\ back_32 rate ms <= ms /\
       (rate mod 1000 = 0 -> back_32 rate ms = ms)
  else back_32 rate ms * rate <= ms * rate - 2 ^ 32.
Proof.
  intros Hms Hr. destruct (back_32_bounds rate ms Hms Hr) as (x & Hx & Hfit & Hover & Hb & He).
  unfold back_32. set (y := u32 (u32 (ms * rate) / 1000 * 1000)) in *. clearbody y.
  pose proof (Z.div_mod y rate ltac:(lia)) as Hd. pose proof (Z.mod_pos_bound y rate Hr) as Hm.
  set (q := y / rate) in *. clearbody q.
  destruct (Z.ltb_spec (ms * rate) (2 ^ 32)) as [Hlt|Hge].
  - specialize (Hfit Hlt). subst x. split_and!; [nia|nia|]. intros Hk.
    assert (y = ms * rate) as -> by (apply He; apply Z.mod_divide in Hk as [k ->]; [|done];
      rewrite Z.mul_assoc; by apply Z.mod_mul). nia.
  - specialize (Hover Hge). nia.
Qed.

(** * Properties *)

(** C30. Milliseconds of 32 bits converted to ticks and back, through OsTime on
    each platform. POSIX, whose conversions compute in double, and macOS give
    them back unchanged, all of them. FreeRTOS and RT-Thread, at any tick rate,
    lose less than a tick and a millisecond as long as the product of
    milliseconds and rate is below 2^32, and nothing if a tick divides a
    millisecond; from 2^32 on they lose at least 2^32 / rate milliseconds. Zephyr
    rounds up: less than a second is added, and nothing if a tick is at most a
    millisecond, as long as the ticks and the result fit 32 bits. *)
Theorem os_time_roundtrip ms rate `{ZephyrTimer.ZTimeLaws} :
  is_u32 ms -> 0 < rate ->
  @there_and_back _ posix_osal_time ms = Ret ms /\
  @there_and_back _ apple_osal_time ms = Ret ms /\
  (exists ms', @there_and_back _ (freertos_osal_time rate) ms = Ret ms' /\
     @there_and_back _ (rtthread_osal_time rate) ms = Ret ms' /\
     if ms * rate <? 2 ^ 32
     then (ms - ms') * rate < 1000 + rate /\ ms' <= ms /\ (rate mod 1000 = 0 -> ms' = ms)
     else ms' * rate <= ms * rate - 2 ^ 32) /\
  (ms * ZephyrTimer.CONFIG_SYS_CLOCK_TICKS_PER_SEC + 999 < 1000 * 2 ^ 32 -> ms + 999 < 2 ^ 32 ->
   exists ms', @there_and_back _ zephyr_osal_time ms = Ret ms' /\ ms <= ms' <= ms + 999 /\
     (1000 <= ZephyrTimer.CONFIG_SYS_CLOCK_TICKS_PER_SEC -> ms' = ms)).
Proof.
  intros Hu Hr. unfold there_and_back, MsToTicks, TicksToMs. simpl. pose proof Hu as Hms. unfold is_u32 in Hms.
  split_and!.
  - rewrite PosixTime.pos_time_ms_to_ticks_ret by done. simpl. by apply PosixTime.pos_time_ticks_to_ms_ret.
  - rewrite Apple.apple_ms_to_ticks_ret by lia. simpl. rewrite Apple.apple_ticks_to_ms_floor by lia.
    by rewrite Z.div_mul.
  - exists (back_32 rate ms). split; [done|]. split; [done|].
    apply back_32_spec; lia.
  - intros H1 H2. eexists. split; [done|]. apply ZephyrTimer.zephyr_back; [lia|done|done].
Qed.

(** * Witnesses *)

(** FreeRTOS at 128 Hz, where a tick is 7.8 ms: 20 ms are two ticks, which are
    15 ms. At 1000 Hz: 4294968 ms are none at all. Zephyr at 100 Hz: 25 ms are
    three ticks. *)
Example os_time_roundtrip_witness :
  let z := ZephyrTimer.demo_z_time in
  @there_and_back _ (freertos_osal_time 128) 20 = Ret 15 /\
  @there_and_back _ (freertos_osal_time 1000) 4294968 = Ret 0 /\
  (exists ms', @there_and_back _ (freertos_osal_time 1000) 4294968 = Ret ms' /\
     ms' * 1000 <= 4294968 * 1000 - 2 ^ 32) /\
  exists ms', @there_and_back _ (@zephyr_osal_time z) 25 = Ret ms' /\ 25 <= ms' <= 25 + 999.
Proof.
  intros z. pose proof ZephyrTimer.demo_z_time_laws as L.
  assert (is_u32 4294968 /\ is_u32 25) as [U1 U2] by (unfold is_u32; lia).
  destruct (@os_time_roundtrip 4294968 1000 z L U1 ltac:(lia)) as (_ & _ & (ms1 & E1 & _ & B1) & _).
  destruct (@os_time_roundtrip 25 1000 z L U2 ltac:(lia)) as (_ & _ & _ & Hz).
  split; [reflexivity|]. split; [reflexivity|]. split.
  - exists ms1. split; [exact E1 | exact B1].
  - destruct Hz as (ms2 & E2 & B2 & _); [vm_compute; reflexivity | vm_compute; reflexivity |].
    exists ms2. split; [exact E2 | exact B2].
Defined.
