(* ===== verification/RtThreadTask.v ===== *)
(** targets/rt-thread/os_task.c: tasks as threads of the RT-Thread kernel. The
    port provides the task interface of [OsalApi]. *)

From S2P Require Import Prelude OsTypes Pthread OsalApi RtThread.

(** Threads [H] that run a function [F] on an argument [X], and the kernel's
    state [W]. [rt_thread_spec] is what an existing thread was created with:
    function, argument, stack size and priority; [rt_threads_started] and
    [rt_threads_deleted] are the threads so far. *)
Class RtThreads (H F X W : Type) := {
  rt_thread_create : list byte -> F -> X -> Z -> Z -> Z -> W -> option H * W;
  rt_thread_startup : H -> W -> Z * W;
  rt_thread_delete : H -> W -> Z * W;
  rt_thread_yield : W -> W;
  rt_thread_delay : Z -> W -> W;
  rt_thread_mdelay : Z -> W -> W;
  rt_thread_self : W -> H;
  rt_thread_spec : W -> H -> option (F * X * Z * Z);
  rt_threads_started : W -> list H;
  rt_threads_deleted : W -> list H
}.

Class RtThreadsLaws (H F X W : Type) `{RtThreads H F X W} : Prop := {
  rt_create_some : forall nm f x stack prio tick w h w',
    rt_thread_create nm f x stack prio tick w = (Some h, w') ->
    rt_thread_spec w' h = Some (f, x, stack, prio) /\
    rt_threads_started w' = rt_threads_started w /\ rt_threads_deleted w' = rt_threads_deleted w;
  rt_create_none : forall nm f x stack prio tick w w',
    rt_thread_create nm f x stack prio tick w = (None, w') -> w' = w;
  rt_startup_ok : forall h w w', rt_thread_startup h w = (RT_EOK, w') ->
    rt_threads_started w' = rt_threads_started w ++ [h] /\
    rt_threads_deleted w' = rt_threads_deleted w /\ rt_thread_spec w' h = rt_thread_spec w h;
  rt_startup_err : forall h w r w', rt_thread_startup h w = (r, w') -> r <> RT_EOK -> w' = w;
  rt_delete_ok : forall h w w', rt_thread_delete h w = (RT_EOK, w') ->
    rt_threads_started w' = rt_threads_started w /\
    rt_threads_deleted w' = rt_threads_deleted w ++ [h] /\ rt_thread_spec w' h = None;
  rt_delete_err : forall h w r w', rt_thread_delete h w = (r, w') -> r <> RT_EOK -> w' = w
}.

(** [struct pos_task] (os_port.h) *)
Record pos_task (H F X : Type) := mkPosTask { handle : option H; func : option F; arg : X }.
Arguments mkPosTask {H F X} handle func arg.
Arguments handle {H F X} p.
Arguments func {H F X} p.
Arguments arg {H F X} p.

Section RtThreadTask.
Context {H F X W : Type} `{RtThreads H F X W}.
Variable ndebug : bool.

(** The call that is made. Nothing uses this function: [pos_task_init] hands the
    task's function itself to the kernel. *)
Definition pos_task_dispatch (task : option (pos_task H F X)) : outcome (F * X) :=
  c_assert ndebug (non_null task);;
  do t <- deref task;
  c_assert ndebug (non_null (func t));;
  do f <- deref (func t);
  Ret (f, arg t).

(** The time slice is ten ticks. *)
Definition pos_task_init (task : option (pos_task H F X)) (nm : list byte) (fn : option F) (a : X)
    (prio stack_size : Z) (w : W) : pos_error * option (pos_task H F X) * W :=
  let err := RT_ERROR in
  match task, fn with
  | Some _, Some f =>
      let '(h, w) := rt_thread_create nm f a stack_size prio 10 w in
      let '(err, w) := match h with Some h => rt_thread_startup h w | None => (err, w) end in
      (if err =? RT_EOK then POS_OK else POS_ERROR, Some (mkPosTask h fn a), w)
  | _, _ => (POS_INVALID_PARAM, task, w)
  end.

Definition pos_task_yield (w : W) : W := rt_thread_yield w.
Definition pos_task_sleep (ticks : Z) (w : W) : W := rt_thread_delay ticks w.
Definition pos_task_sleep_ms (ms : Z) (w : W) : W := rt_thread_mdelay (i32 ms) w.
Definition pos_get_current_task_id (w : W) : H := rt_thread_self w.

(** (os_port.h) The kernel runs before the application does. *)
Definition pos_sched_start (w : W) : outcome W := Ret w.

(** Neither the task nor its handle is tested. *)
Definition pos_task_remove (t : option (pos_task H F X)) (w : W) : outcome (pos_error * W) :=
  do t <- deref t;
  do h <- deref (handle t);
  let '(err, w) := rt_thread_delete h w in
  Ret (if err =? RT_EOK then POS_OK else POS_ERROR, w).

#[local] Instance rt_osal_task : OsalTask (pos_task H F X) (option F) X W := {
  osal_task_init := fun nm fn a prio stack_size t w =>
    let '(e, t', w) := pos_task_init (Some t) nm fn a prio stack_size w in Ret (e, default t t', w);
  osal_task_remove := fun t w => pos_task_remove (Some t) w;
  tasks_started := fun w => length (rt_threads_started w);
  tasks_removed := fun w => length (rt_threads_deleted w)
}.

Context `{!RtThreadsLaws H F X W}.

(** Every way a creation can end. *)
Lemma rt_task_init_inv task nm fn a prio stack_size w e task' w' :
  pos_task_init task nm fn a prio stack_size w = (e, task', w') ->
  (e = POS_OK /\ exists f h, fn = Some f /\ task' = Some (mkPosTask (Some h) fn a) /\
     rt_threads_started w' = rt_threads_started w ++ [h] /\
     rt_threads_deleted w' = rt_threads_deleted w /\
     rt_thread_spec w' h = Some (f, a, stack_size, prio)) \/
  (e = POS_INVALID_PARAM /\ (task = None \/ fn = None) /\ w' = w) \/
  (e = POS_ERROR /\ rt_threads_started w' = rt_threads_started w /\
     rt_threads_deleted w' = rt_threads_deleted w /\
     (w' = w \/ exists f h, task' = Some (mkPosTask (Some h) fn a) /\
        rt_thread_spec w' h = Some (f, a, stack_size, prio))).
Proof.
  unfold pos_task_init. destruct task as [t|]; [|intros [= <- <- <-]; right; left; auto].
  destruct fn as [f|]; [|intros [= <- <- <-]; right; left; auto].
  destruct (rt_thread_create nm f a stack_size prio 10 w) as [[h|] w1] eqn:E; cycle 1.
  { apply rt_create_none in E as ->. simpl. intros [= <- <- <-]. right. right. auto. }
  apply rt_create_some in E as (Hs & Hst & Hd).
  destruct (rt_thread_startup h w1) as [r w2] eqn:E2. destruct (Z.eqb_spec r RT_EOK) as [->|Hne].
  - apply rt_startup_ok in E2 as (Hst2 & Hd2 & Hs2). intros [= <- <- <-]. left.
    split; [done|]. exists f, h. by rewrite Hst2, Hst, Hd2, Hs2.
  - apply rt_startup_err in E2 as ->; [|done]. intros [= <- <- <-]. right. right.
    split_and!; try done. right. by exists f, h.
Qed.

Lemma rt_task_remove_inv t w e w' :
  pos_task_remove t w = Ret (e, w') ->
  (e = POS_OK /\ rt_threads_started w' = rt_threads_started w /\
     exists h, rt_threads_deleted w' = rt_threads_deleted w ++ [h]) \/
  (e = POS_ERROR /\ w' = w).
Proof.
  unfold pos_task_remove. destruct t as [[[h|] fn a]|]; simpl; try done.
  destruct (rt_thread_delete h w) as [r w1] eqn:E. destruct (Z.eqb_spec r RT_EOK) as [->|Hne].
  - apply rt_delete_ok in E as (? & ? & _). intros [= <- <-]. left. eauto.
  - apply rt_delete_err in E as ->; [|done]. intros [= <- <-]. by right.
Qed.

#[local] Arguments pos_task_init : simpl never.
#[local] Arguments pos_task_remove : simpl never.

Lemma rt_task_laws : OsalTaskLaws (pos_task H F X) (option F) X W.
Proof.
  split; simpl.
  - intros nm fn a prio size t w e t' w'.
    destruct (pos_task_init (Some t) nm fn a prio size w) as [[e1 t1] w1] eqn:E. intros [= <- <- <-].
    destruct (rt_task_init_inv _ _ _ _ _ _ _ _ _ _ E)
      as [(-> & ? & h & _ & _ & -> & -> & _)|[(-> & _ & ->)|(-> & -> & -> & _)]];
      rewrite ?length_app; simpl; lia.
  - intros t w e w' E.
    destruct (rt_task_remove_inv _ _ _ _ E) as [(-> & -> & h & ->)|(-> & ->)];
      rewrite ?length_app; simpl; lia.
Qed.

(** * Properties *)

(** C40. [pos_task_init] answers POS_OK exactly when it has started one thread,
    which runs the function and argument given on a stack of the size given at
    the priority given; POS_INVALID_PARAM for a null task or function; and else
    POS_ERROR, with no thread started, but possibly one created that nothing
    will delete. A removal deletes at most one thread, POS_OK when it did. *)
Theorem rtthread_task_spec task nm fn a prio stack_size w :
  @OsalTaskLaws (pos_task H F X) (option F) X W rt_osal_task /\
  let '(e, task', w') := pos_task_init task nm fn a prio stack_size w in
  match e with
  | POS_OK => exists f h, fn = Some f /\ task' = Some (mkPosTask (Some h) fn a) /\
      rt_threads_started w' = rt_threads_started w ++ [h] /\
      rt_thread_spec w' h = Some (f, a, stack_size, prio)
  | POS_INVALID_PARAM => (task = None \/ fn = None) /\ w' = w
  | POS_ERROR => rt_threads_started w' = rt_threads_started w /\
      (w' = w \/ exists f h, task' = Some (mkPosTask (Some h) fn a) /\
         rt_thread_spec w' h = Some (f, a, stack_size, prio))
  | _ => False
  end.
Proof.
  split; [apply rt_task_laws|].
  destruct (pos_task_init task nm fn a prio stack_size w) as [[e task'] w'] eqn:E.
  destruct (rt_task_init_inv _ _ _ _ _ _ _ _ _ _ E)
    as [(-> & f & h & ? & ? & ? & _ & ?)|[(-> & ? & ?)|(-> & ? & _ & ?)]]; [|by split|by split].
  by exists f, h.
Qed.
End RtThreadTask.

(** * A witness over a reference kernel *)

Section Witness.

(** The threads created, with what they run, those started and those deleted. *)
Record demo_rt_kernel := mkDemoKernel {
  d_specs : list (nat * nat * Z * Z);
  d_started : list nat;
  d_deleted : list nat
}.

Definition demo_spec (w : demo_rt_kernel) (h : nat) : option (nat * nat * Z * Z) :=
  if bool_decide (h ∈ d_deleted w) then None else d_specs w !! h.

#[local] Instance demo_rt_threads : RtThreads nat nat nat demo_rt_kernel := {
  rt_thread_create nm f x stack prio tick w :=
    if bool_decide (length (d_specs w) ∈ d_deleted w) then (None, w)
    else (Some (length (d_specs w)),
          mkDemoKernel (d_specs w ++ [(f, x, stack, prio)]) (d_started w) (d_deleted w));
  rt_thread_startup h w := (RT_EOK, mkDemoKernel (d_specs w) (d_started w ++ [h]) (d_deleted w));
  rt_thread_delete h w := (RT_EOK, mkDemoKernel (d_specs w) (d_started w) (d_deleted w ++ [h]));
  rt_thread_yield w := w;
  rt_thread_delay _ w := w;
  rt_thread_mdelay _ w := w;
  rt_thread_self _ := 0%nat;
  rt_thread_spec := demo_spec;
  rt_threads_started := d_started;
  rt_threads_deleted := d_deleted
}.

#[local] Instance demo_rt_threads_laws : RtThreadsLaws nat nat nat demo_rt_kernel.
Proof.
  split; simpl; unfold demo_spec.
  - intros nm f x stack prio tick w h w'. case_bool_decide as Hd; [done|]. intros [= <- <-]. simpl.
    rewrite bool_decide_eq_false_2, lookup_app_r, Nat.sub_diag by done. done.
  - intros nm f x stack prio tick w w'. case_bool_decide; [|done]. by intros [= <-].
  - by intros h w w' [= <-].
  - by intros h w r w' [= <- <-].
  - intros h w w' [= <-]. simpl. rewrite bool_decide_eq_true_2; [done|]. set_solver.
  - by intros h w r w' [= <- <-].
Qed.

Example rtthread_task_spec_witness :
  exists f h, Some 7%nat = Some f /\
    rt_threads_started (mkDemoKernel [(7%nat, 9%nat, 512, 3)] [0%nat] []) = [] ++ [h] /\
    rt_thread_spec (mkDemoKernel [(7%nat, 9%nat, 512, 3)] [0%nat] []) h = Some (f, 9%nat, 512, 3).
Proof.
  destruct (rtthread_task_spec (Some (mkPosTask None None 0%nat)) [x61] (Some 7%nat) 9%nat 3 512
              (mkDemoKernel [] [] [])) as [_ Hs].
  vm_compute in Hs. destruct Hs as (f & h & ? & _ & ? & ?). by exists f, h.
Defined.
End Witness.
